(* ===== verification/_CoqProject ===== *)
-Q . S2P
Prelude.v
GoStrings.v
GoPath.v
GoTime.v
Netip.v
NetipRoundtrip.v
Identity.v
ClientIP.v
Selector.v
Context.v
Executor.v
Config.v
RouterMatch.v
Registry.v
Policy.v
Lifetime.v
Limiter.v
GrpcServer.v
GrpcListen.v
Deny.v
HeaderModifier.v
Cors.v
Correlation.v
RateLimit.v
RateScripts.v
RateBuckets.v
ApiKey.v
Enricher.v
Jwt.v
Sidecar.v
Factory.v
Shutdown.v
Reload.v
RedisConn.v
OpIndex.v
OpCache.v
OpSync.v
Compiler.v
Kube.v
FilterSpecs.v
Webhooks.v
ExtProc.v
EnginePod.v
OpAuth.v
EngineDeploy.v
RedisCheck.v
IdentityClient.v
OpLeader.v
