(* ===== verification/Prelude.v ===== *)
(** * Hypergate: a verification development

    Hypergate is a policy engine for Envoy and the Kubernetes operator that
    configures it. Envoy streams each request to the engine over ext_proc; the
    engine resolves who is calling whom, routes the request to a chain of filters,
    runs the chain and answers with header changes or a refusal. The operator
    compiles custom resources into the engine's configuration and streams the
    identities of pods, nodes and Services to the engines.

    This library is a shallow embedding of that code. Pure functions are Rocq
    functions with the source's names; a method that mutates its receiver returns
    the new value; an error is [Err] of [result], a nil pointer or a missing map
    entry is [None]; goroutines sharing memory, and engines sharing Redis, are step
    relations with one step per atomic operation. Code outside the repository (the
    YAML codec, regexp, Redis, freecache, the JWT library, client-go,
    go-control-plane, sidecars) is a parameter or a type class whose laws are its
    documented behaviour; every class has an instance in an example.

    ** How the parts fit together

    The request path is GrpcServer over everything above it:
    [Process] receives messages, [resolve] picks the chain ([RouteWith]),
    [run] enforces the chain's limits and calls the executor ([Execute]), which
    runs the filters on the [RequestContext]; [buildHeaderMutation] turns the
    context's bookkeeping into Envoy's mutation. The policy path is Compiler
    (operator), then the watch of the ConfigMap (Reload), [ParseBytes] (Config) and
    [Apply] (Policy) with the filters of Factory, which publishes a snapshot
    (Registry). The identity path is the informer handlers and the index of
    the operator (OpIndex, OpCache), [Sync] and the delta stream (OpSync), and the
    engine's client and index (IdentityClient, Identity), which the selectors read.
    The engines themselves, and the objects that send traffic to them, are made by the
    operator's controllers (EngineDeploy, ExtProc) through the API server of Kube.

    ** Files

    - Prelude: field updates, results, association lists, the tactics and hints.
    - GoStrings, GoPath, GoTime, Netip: what the code uses of strings, strconv,
      path/filepath, time and net/netip, branch by branch; durations with their uint64 and float64
      arithmetic, addresses as 32- or 128-bit integers. NetipRoundtrip proves that
      printing and parsing an address are inverse.
    - Identity, IdentityClient (internal/identity/index.go, client.go): the engine's
      identity index, the handling of delta updates, and the client's streams with
      their credentials and back-off.
    - ClientIP (internal/clientip), Selector (internal/selector), RouterMatch
      (internal/router): from a request to the chain that governs it.
    - Context (internal/engine/context.go, internal/memory), Executor
      (internal/engine/executor.go, audit.go): the request's state, and running a
      chain on it. [FilterOk] is what the engine relies on from a filter; each
      filter file proves it for its filter.
    - Config (internal/config): defaults, validation and compilation of a decoded
      document.
    - Registry (internal/engine/registry.go), Policy (internal/policy/manager.go),
      Lifetime (both): snapshots and their reference counts, applying a
      configuration, and the life of filters and clients over reloads and streams.
    - Limiter, GrpcServer, GrpcListen (internal/grpc): the concurrency limiter as a
      step relation, the stream, and the settings of the server.
    - Deny, HeaderModifier, Cors, Correlation, RateLimit with RateScripts and
      RateBuckets (the Lua scripts), ApiKey, Enricher, Jwt, Sidecar
      (internal/filters): the filters. Factory (internal/filters/factory.go) builds
      them all over one world and discharges [FilterOk] for every type.
    - Shutdown (internal/grpc/shutdown.go), Reload (cmd/engine/main.go,
      internal/config/watcher.go), RedisConn (internal/redis): the engine process
      from boot to stop, and its Redis clients.
    - OpIndex, OpCache, OpSync, OpAuth, OpLeader (hyper-operator/internal/identity,
      leader), Compiler (hyperchain_master_compiler.go, routes), Webhooks
      (hyper-operator/internal/webhook and the manifests that register it): the
      operator's identities, policy and admission.
    - FilterSpecs (hyper-operator/api/v1alpha1/filter_*_types.go and the options types
      of the engine's filters): the filters' custom resources, written by the operator's
      YAML tags and read by the engine's.
    - Kube: objects and calls of the API server, a monad in which any call may fail, and
      the Hoare triples the controllers are verified with. Over it ExtProc
      (extproc_controller.go), EnginePod and EngineDeploy (hyperconfig_controller.go,
      identity.go), RedisCheck (hyperredis_controller.go).
    A helper inside a function is a definition of its own where that reads better;
    the lines it models are those of the function.

    ** What is proved

    - The policy that is published is enforced: an admitted request is governed by
      the first matching route of a configuration that was validated, requests for
      which there is no policy or no known caller are refused, a verdict is final,
      and a request passes only when its chain lets it (GrpcServer).
    - What the operator compiles is accepted by the engine, and what cannot be
      compiled rejects (Compiler); every filter arrives with the configuration its
      resource describes (FilterSpecs); every accepted configuration is well formed
      (Config); applying one is all or nothing (Policy).
    - A reconciliation that succeeds leaves the engines deployed as the HyperConfig and
      the filters ask, with a pod whose volumes and sockets fit what the engine is
      told to open (EnginePod, EngineDeploy); the ext_proc controller touches only what
      it manages and converges (ExtProc), both under failing API calls.
    - Engines learn the cluster: the operator's index refines the cluster's state
      (OpIndex), and engines converge to it (OpSync, Identity).
    - Snapshots are cleaned up exactly once and, but for a race that is exhibited,
      never while used (Registry, Lifetime); limits hold in every interleaving
      (Limiter, RateLimit, RateScripts, RateBuckets).
    - The engine follows its ConfigMap through every failure of the watch, and a
      version it rejects leaves the policy in place (Reload); it stops in bounded
      time (Shutdown); grouped pipelines mean what plain ones do (RedisConn).
    - References between resources do not dangle while requests to the API server
      do not overlap; the overlap that breaks it is exhibited (Webhooks). Only
      authenticated engines get identities (OpAuth), from one leader (OpLeader).
    - The context's bookkeeping means plain header maps, for the filters and for
      Envoy (Context, GrpcServer); pooled contexts do not leak between requests.
    - Each filter does what its configuration says: a reference definition or an
      authenticity property per filter.
    - Selector matching and routing refine the meaning of the configuration as
      written (Selector, RouterMatch); addresses survive the wire
      (NetipRoundtrip, OpSync).

    ** Bounds and fuel

    Recursion is structural, or on fuel that is enough: [duration_loop] takes the
    length of its string, and [duration_loop_fuel] shows that more changes nothing;
    [split_str] takes the length of its string, of which each step consumes a byte;
    [ipv6_loop] takes the eight groups of an address, the bound of Go's own loop;
    [key_loop] takes the length of its pattern ([key_loop_fuel]). Loops that wait
    for the world return [None] without fuel and are proved to end:
    [WaitForQuiet] after one iteration per tick ([enough]), [publish_loop] at the
    first success or cancellation ([publish_loop_ends]), [connect_loop] when the
    clock passes the deadline ([connect_loop_ends]).
    Integers that can wrap carry their
    wrap-around ([u32], [u64], the uint64 arithmetic of [ParseDuration]); the others
    are bounded by the configuration.

    ** Not modelled

    Serving by grpc-go, TLS handshakes, logging and metrics exposition; generated code
    (zz_generated.deepcopy.go, identity.pb.go); the Redis driver and go-control-plane;
    the lease protocol of leader election; flag parsing and the wiring of the two main
    functions beyond boot, reload and stop; which events lead to a reconciliation of the
    compiler. These are I/O around the modelled functions, or code of the libraries
    they call. Strings are byte strings and case mapping is that of ASCII. *)

From stdpp Require Export base gmap strings list fin_maps.
From Stdlib Require Export ZArith Lia.

(** ** Field updates

    [r <| f := v |>] is the record [r] with field [f] replaced, the model of a
    Go field assignment [r.f = v]. A record opts in with one [Eta] instance that
    lists its fields; the setters are then derived per field. *)

Class Eta (R : Type) := eta : R -> R.
Class Setter {R T : Type} (proj : R -> T) := set_field : (T -> T) -> R -> R.
Arguments set_field {R T} proj {_} _ _.

Ltac derive_setter R proj :=
  let e := constr:(@eta R _) in
  let e := eval hnf in e in
  lazymatch eval pattern proj in e with
  | (fun _ => ?e') _ => fail "not a field of the record"
  | ?u _ =>
      let s := eval cbv beta in (fun g => u (fun r => g (proj r))) in
      exact s
  end.

#[export] Hint Extern 1 (@Setter ?R _ ?proj) => derive_setter R proj : typeclass_instances.

Declare Scope go_scope.
Delimit Scope go_scope with go.
Notation "r <| f := v |>" := (set_field f (fun _ => v) r)
  (at level 1, f at level 0, v at level 200, left associativity) : go_scope.
Notation "s1 +++ s2" := (String.append s1 s2)
  (at level 60, right associativity) : go_scope.
Open Scope go_scope.

(** stdpp makes [String.append] opaque to [simpl]; the string lemmas compute it. *)
#[global] Arguments String.append : simpl nomatch.
(** Integer operations on large constants stay folded under [simpl]. *)
#[global] Arguments Z.shiftr : simpl never.
#[global] Arguments Z.shiftl : simpl never.
#[global] Arguments Z.land : simpl never.
#[global] Arguments Z.lxor : simpl never.
#[global] Arguments Z.pow : simpl never.
#[global] Arguments Z.div : simpl never.
#[global] Arguments Z.modulo : simpl never.
#[global] Arguments Z.add : simpl never.
#[global] Arguments Z.sub : simpl never.
#[global] Arguments Z.mul : simpl never.

(** ** Tactics and hints of the development *)

Create HintDb hypergate.
Create Rewrite HintDb hypergate.

(** Case analysis on the next condition or scrutinee of the goal. *)
Ltac go_case :=
  match goal with
  | |- context [if ?b then _ else _] => destruct b eqn:?
  | |- context [match ?x with _ => _ end] => destruct x eqn:?
  end.

(** Case analysis on the next condition or scrutinee of a hypothesis. *)
Ltac go_case_in H :=
  match type of H with
  | context [if ?b then _ else _] => destruct b eqn:?
  | context [match ?x with _ => _ end] => destruct x eqn:?
  end.

Ltac bool_hyps :=
  repeat match goal with
  | H : andb _ _ = true |- _ => apply andb_true_iff in H as [? ?]
  | H : orb _ _ = false |- _ => apply orb_false_iff in H as [? ?]
  | H : negb _ = true |- _ => apply negb_true_iff in H
  | H : negb _ = false |- _ => apply negb_false_iff in H
  | H : bool_decide _ = true |- _ => apply bool_decide_eq_true in H
  | H : bool_decide _ = false |- _ => apply bool_decide_eq_false in H
  | H : String.eqb _ _ = true |- _ => apply String.eqb_eq in H
  | H : String.eqb _ _ = false |- _ => apply String.eqb_neq in H
  | H : Nat.eqb _ _ = true |- _ => apply Nat.eqb_eq in H
  | H : Nat.eqb _ _ = false |- _ => apply Nat.eqb_neq in H
  | H : Z.eqb _ _ = true |- _ => apply Z.eqb_eq in H
  | H : Z.eqb _ _ = false |- _ => apply Z.eqb_neq in H
  | H : Z.ltb _ _ = true |- _ => apply Z.ltb_lt in H
  | H : Z.ltb _ _ = false |- _ => apply Z.ltb_ge in H
  | H : Z.leb _ _ = true |- _ => apply Z.leb_le in H
  | H : Z.leb _ _ = false |- _ => apply Z.leb_gt in H
  end.

(** ** Results of fallible operations

    A Go function returning [(T, error)] is modelled by [result T]; the error
    carries the message's fixed part. *)

Inductive result (A : Type) : Type :=
| Ok (a : A)
| Err (msg : string).
Arguments Ok {A} _.
Arguments Err {A} _.

Definition result_bind {A B : Type} (r : result A) (k : A -> result B) : result B :=
  match r with Ok a => k a | Err m => Err m end.

Definition is_ok {A : Type} (r : result A) : bool :=
  match r with Ok _ => true | Err _ => false end.

Notation "'let?' x := c 'in' k" := (result_bind c (fun x => k))
  (at level 10, x binder, c at level 200, k at level 200) : go_scope.

(** [for _, x := range l { r, err = f(r, x); if err != nil { return err } }] *)
Fixpoint fold_result {A B : Type} (f : B -> A -> result B) (b : B) (l : list A) : result B :=
  match l with
  | [] => Ok b
  | x :: l' => result_bind (f b x) (fun b' => fold_result f b' l')
  end.

Lemma result_bind_Ok {A B : Type} (r : result A) (k : A -> result B) b :
  result_bind r k = Ok b -> exists a, r = Ok a /\ k a = Ok b.
Proof. destruct r; simpl; [eauto | discriminate]. Qed.

Lemma fold_result_app {A B : Type} (f : B -> A -> result B) b l1 l2 :
  fold_result f b (l1 ++ l2) = result_bind (fold_result f b l1) (fun b' => fold_result f b' l2).
Proof. revert b; induction l1; intros b; simpl; [done|]. by destruct (f b a); simpl. Qed.

(** An invariant that one iteration preserves holds after the loop. *)
Lemma fold_result_ind {A B : Type} (P : B -> Prop) (f : B -> A -> result B) b l b' :
  P b -> (forall b x b', In x l -> P b -> f b x = Ok b' -> P b') ->
  fold_result f b l = Ok b' -> P b'.
Proof.
  revert b; induction l as [|x l IH]; simpl; intros b Hb Hstep Hf.
  - by injection Hf as <-.
  - apply result_bind_Ok in Hf as (b1 & H1 & H2). eapply IH; [| |done]; eauto.
Qed.

(** ** Lists *)

Lemma fold_left_fmap {A B C : Type} (f : A -> B) (g : C -> B -> C) (l : list A) (z : C) :
  fold_left g (f <$> l) z = fold_left (fun y a => g y (f a)) l z.
Proof. revert z. induction l as [|a l IH]; intros z; [done|apply IH]. Qed.

(** [x == nil] and [len(l) > 0]. *)
Definition is_none {A : Type} (o : option A) : bool := match o with None => true | Some _ => false end.
Definition nonempty {A : Type} (l : list A) : bool := match l with [] => false | _ => true end.

Lemma existsb_ext_in {A : Type} (f g : A -> bool) l :
  (forall x, In x l -> f x = g x) -> existsb f l = existsb g l.
Proof. induction l; simpl; intros H; [done|]. rewrite H, IHl; auto. Qed.

Lemma forallb_Forall {A : Type} (f : A -> bool) l :
  forallb f l = true <-> Forall (fun x => f x = true) l.
Proof. rewrite forallb_forall, List.Forall_forall. done. Qed.

Lemma existsb_elem {A : Type} (f : A -> bool) l : existsb f l = true <-> exists x, x ∈ l /\ f x = true.
Proof. rewrite existsb_exists. by setoid_rewrite list_elem_of_In. Qed.

(** A property that every step preserves holds after the loop. *)
Lemma fold_left_inv {A B : Type} (P : B -> Prop) (f : B -> A -> B) l b :
  P b -> (forall b a, P b -> P (f b a)) -> P (fold_left f l b).
Proof. revert b; induction l; simpl; auto. Qed.

(** ** Go maps that are ranged over

    A map with string keys in the order of one iteration; the keys are distinct.
    Statements about a [GoMap] hold for every order. *)

Definition GoMap (A : Type) : Type := list (string * A).

Fixpoint map_get {A : Type} (m : GoMap A) (k : string) : option A :=
  match m with
  | [] => None
  | (k', v) :: m' => if String.eqb k' k then Some v else map_get m' k
  end.

Fixpoint map_set {A : Type} (m : GoMap A) (k : string) (v : A) : GoMap A :=
  match m with
  | [] => [(k, v)]
  | (k', v') :: m' => if String.eqb k' k then (k', v) :: m' else (k', v') :: map_set m' k v
  end.

Definition map_has {A : Type} (m : GoMap A) (k : string) : bool :=
  match map_get m k with Some _ => true | None => false end.

Lemma map_get_elem {A : Type} (m : GoMap A) k v : map_get m k = Some v -> (k, v) ∈ m.
Proof.
  induction m as [|[k' v'] m IH]; cbn; [done|].
  destruct (String.eqb_spec k' k) as [->|Hne]; [intros [= ->]; constructor|].
  intros H. constructor. auto.
Qed.

Lemma map_get_None {A : Type} (m : GoMap A) k : map_get m k = None <-> k ∉ m.*1.
Proof.
  induction m as [|[k' v'] m IH]; cbn; [set_solver|].
  destruct (String.eqb_spec k' k) as [->|Hne]; [set_solver|]. rewrite IH. set_solver.
Qed.

Lemma elem_map_get {A : Type} (m : GoMap A) k v :
  NoDup m.*1 -> (k, v) ∈ m -> map_get m k = Some v.
Proof.
  induction m as [|[k' v'] m IH]; cbn; [set_solver|].
  intros [Hn Hnd]%NoDup_cons [[= -> ->]|Hin]%elem_of_cons; [by rewrite String.eqb_refl|].
  destruct (String.eqb_spec k' k) as [->|Hne]; [|auto].
  destruct Hn. apply list_elem_of_fmap. by exists (k, v).
Qed.

Lemma map_get_set_eq {A : Type} (m : GoMap A) k v : map_get (map_set m k v) k = Some v.
Proof.
  induction m as [|[k' v'] m IH]; cbn; [by rewrite String.eqb_refl|].
  destruct (String.eqb k' k) eqn:E; cbn; by rewrite E.
Qed.

Lemma map_get_set_ne {A : Type} (m : GoMap A) k k1 v :
  k <> k1 -> map_get (map_set m k v) k1 = map_get m k1.
Proof.
  intros Hne. induction m as [|[k' v'] m IH]; cbn.
  - destruct (String.eqb_spec k k1); done.
  - destruct (String.eqb_spec k' k) as [->|Hk]; cbn; [by destruct (String.eqb_spec k k1)|].
    by rewrite IH.
Qed.
#[export] Hint Rewrite @map_get_set_eq : hypergate.

Lemma map_has_spec {A : Type} (m : GoMap A) k : map_has m k = true <-> k ∈ m.*1.
Proof.
  unfold map_has. pose proof (map_get_None m k) as H.
  destruct (map_get m k) eqn:E; [|split; [done|]; intros; by destruct (proj1 H)].
  split; [|done]. intros _. apply map_get_elem in E. apply list_elem_of_fmap. by exists (k, a).
Qed.

Lemma elem_of_values {A : Type} (m : GoMap A) a : a ∈ m.*2 <-> exists k, (k, a) ∈ m.
Proof.
  rewrite list_elem_of_fmap. split; [intros ([k a'] & -> & H); eauto|]. intros [k H]. by exists (k, a).
Qed.

Lemma map_set_elem {A : Type} (m : GoMap A) k v e : e ∈ map_set m k v -> e = (k, v) \/ e ∈ m.
Proof.
  induction m as [|[k' v'] m IH]; cbn; [set_solver|].
  destruct (String.eqb_spec k' k) as [->|Hne]; set_solver.
Qed.

Lemma map_set_keys {A : Type} (m : GoMap A) k v x :
  x ∈ (map_set m k v).*1 <-> x = k \/ x ∈ m.*1.
Proof.
  induction m as [|[k' v'] m IH]; cbn; [set_solver|].
  destruct (String.eqb_spec k' k) as [->|Hne]; cbn; set_solver.
Qed.

Lemma map_set_NoDup {A : Type} (m : GoMap A) k v : NoDup m.*1 -> NoDup (map_set m k v).*1.
Proof.
  induction m as [|[k' v'] m IH]; cbn; [intros; apply NoDup_singleton|].
  intros [Hn Hnd]%NoDup_cons. destruct (String.eqb_spec k' k) as [->|Hne]; cbn; constructor; auto.
  rewrite map_set_keys. set_solver.
Qed.

(** ** Loops that build a list and may fail *)

Fixpoint map_result {A B : Type} (f : A -> result B) (l : list A) : result (list B) :=
  match l with
  | [] => Ok []
  | x :: l' => let? y := f x in let? ys := map_result f l' in Ok (y :: ys)
  end.

Lemma map_result_Forall2 {A B : Type} (f : A -> result B) l ys :
  map_result f l = Ok ys -> Forall2 (fun x y => f x = Ok y) l ys.
Proof.
  revert ys; induction l as [|x l IH]; simpl; intros ys H; [by injection H as <-|].
  apply result_bind_Ok in H as (y & Hy & (ys' & Hys & E)%result_bind_Ok).
  injection E as <-. constructor; auto.
Qed.

(** A loop that only checks. *)
Lemma fold_check_Forall {A : Type} (f : A -> result ()) l :
  fold_result (fun _ x => f x) tt l = Ok tt -> Forall (fun x => f x = Ok tt) l.
Proof.
  induction l as [|x l IH]; cbn; [constructor|].
  intros ([] & Hx & Hl)%result_bind_Ok. constructor; auto.
Qed.

Lemma map_set_fresh {A : Type} (m : GoMap A) k v : k ∉ m.*1 -> map_set m k v = m ++ [(k, v)].
Proof.
  induction m as [|[k' v'] m IH]; cbn; [done|]. intros Hn.
  destruct (String.eqb_spec k' k) as [->|Hne]; [set_solver|]. rewrite IH; [done|set_solver].
Qed.

(** A new map with every key rewritten: [for k, v := range m { out[f(k)] = v }]. *)
Definition rekey {A : Type} (f : string -> string) (m : GoMap A) : GoMap A :=
  fold_left (fun out e => map_set out (f e.1) e.2) m [].

Lemma rekey_spec {A : Type} (f : string -> string) (m : GoMap A) :
  NoDup (f <$> m.*1) -> rekey f m = (fun e => (f e.1, e.2)) <$> m.
Proof.
  intros Hnd. unfold rekey.
  enough (forall out, NoDup (out.*1 ++ (f <$> m.*1)) ->
    fold_left (fun out e => map_set out (f e.1) e.2) m out = out ++ ((fun e => (f e.1, e.2)) <$> m)) as H.
  { by rewrite H. }
  clear Hnd. induction m as [|e m IH]; intros out Hnd; cbn [fold_left]; [by rewrite app_nil_r|].
  cbn in Hnd. rewrite map_set_fresh.
  - rewrite IH; [by rewrite <- app_assoc|]. rewrite fmap_app. cbn. by rewrite <- app_assoc.
  - apply NoDup_app in Hnd as (_ & Hd & _). intros Hin. apply (Hd _ Hin). left.
Qed.
