(* ===== verification/GoStrings.v ===== *)
(** * GoStrings: the parts of Go's [strings], [strconv] and [net] used by the engine

    Go strings are byte strings; here they are [string] (a byte per [ascii]).
    Case mapping is modelled on ASCII bytes and leaves the others unchanged:
    header names, hosts, selector prefixes and option keywords, the strings the
    engine maps, are ASCII. Functions taking a separator take it as one byte
    ([Split], [Cut], [IndexByte]); the code always separates on one byte except
    for the API-key delimiter, which uses [SplitStr]. *)

From S2P Require Import Prelude.
From stdpp Require Export pretty.
From Stdlib Require Export Ascii.

Local Open Scope string_scope.

(** ** Bytes *)

Definition byte_of (c : ascii) : Z := Z.of_nat (nat_of_ascii c).

Definition lower_byte (c : ascii) : ascii :=
  let n := nat_of_ascii c in
  if (65 <=? n)%nat && (n <=? 90)%nat then ascii_of_nat (n + 32) else c.

Definition upper_byte (c : ascii) : ascii :=
  let n := nat_of_ascii c in
  if (97 <=? n)%nat && (n <=? 122)%nat then ascii_of_nat (n - 32) else c.

(** '\t' '\n' '\v' '\f' '\r' ' ' *)
Definition space_byte (c : ascii) : bool :=
  let n := nat_of_ascii c in ((9 <=? n)%nat && (n <=? 13)%nat) || (n =? 32)%nat.

Definition digit_byte (c : ascii) : bool :=
  let n := nat_of_ascii c in (48 <=? n)%nat && (n <=? 57)%nat.

(** ** strings *)

Fixpoint map_string (f : ascii -> ascii) (s : string) : string :=
  match s with "" => "" | String c t => String (f c) (map_string f t) end.

(** strings.ToLower, strings.ToUpper *)
Definition ToLower : string -> string := map_string lower_byte.
Definition ToUpper : string -> string := map_string upper_byte.

(** strings.EqualFold *)
Definition EqualFold (a b : string) : bool := String.eqb (ToLower a) (ToLower b).

Fixpoint trim_left (s : string) : string :=
  match s with
  | "" => ""
  | String c t => if space_byte c then trim_left t else s
  end.

Fixpoint trim_right (s : string) : string :=
  match s with
  | "" => ""
  | String c t =>
      let t' := trim_right t in
      if space_byte c && String.eqb t' "" then "" else String c t'
  end.

(** strings.TrimSpace *)
Definition TrimSpace (s : string) : string := trim_right (trim_left s).

(** strings.HasPrefix(s, p), strings.HasSuffix(s, p) *)
Definition HasPrefix (s p : string) : bool := String.prefix p s.

Fixpoint HasSuffix (s p : string) : bool :=
  String.eqb s p || match s with "" => false | String _ t => HasSuffix t p end.

Fixpoint drop_string (n : nat) (s : string) : string :=
  match n, s with
  | O, _ => s
  | S n', String _ t => drop_string n' t
  | S _, "" => ""
  end.

Fixpoint take_string (n : nat) (s : string) : string :=
  match n, s with
  | S n', String c t => String c (take_string n' t)
  | _, _ => ""
  end.

(** strings.TrimPrefix, strings.TrimSuffix, strings.CutPrefix *)
Definition TrimPrefix (s p : string) : string :=
  if HasPrefix s p then drop_string (String.length p) s else s.

Definition TrimSuffix (s p : string) : string :=
  if HasSuffix s p then take_string (String.length s - String.length p) s else s.

Definition CutPrefix (s p : string) : string * bool :=
  if HasPrefix s p then (drop_string (String.length p) s, true) else (s, false).

(** strings.IndexByte, strings.LastIndexByte ([None] is Go's -1) *)
Fixpoint IndexByte (s : string) (b : ascii) : option nat :=
  match s with
  | "" => None
  | String c t => if Ascii.eqb c b then Some O else S <$> IndexByte t b
  end.

Fixpoint LastIndexByte (s : string) (b : ascii) : option nat :=
  match s with
  | "" => None
  | String c t =>
      match LastIndexByte t b with
      | Some i => Some (S i)
      | None => if Ascii.eqb c b then Some O else None
      end
  end.

Definition contains_byte (s : string) (b : ascii) : bool :=
  match IndexByte s b with Some _ => true | None => false end.

(** strings.Cut(s, sep) for a one-byte separator: (before, after, found) *)
Fixpoint Cut (s : string) (b : ascii) : string * string * bool :=
  match s with
  | "" => ("", "", false)
  | String c t =>
      if Ascii.eqb c b then ("", t, true)
      else let '(x, y, f) := Cut t b in (String c x, y, f)
  end.

(** strings.Split(s, sep) for a one-byte separator *)
Fixpoint Split (s : string) (b : ascii) : list string :=
  match s with
  | "" => [""]
  | String c t =>
      if Ascii.eqb c b then "" :: Split t b
      else match Split t b with
           | [] => [String c ""]
           | p :: ps => String c p :: ps
           end
  end.

(** strings.Split(s, sep) for a non-empty separator of any length; the fuel is
    the length of [s], which bounds the number of steps. *)
Fixpoint split_str (fuel : nat) (cur s sep : string) : list string :=
  match fuel with
  | O => [cur +++ s]
  | S fuel' =>
      match s with
      | "" => [cur]
      | String c t =>
          if HasPrefix s sep
          then cur :: split_str fuel' "" (drop_string (String.length sep) s) sep
          else split_str fuel' (cur +++ String c "") t sep
      end
  end.
Definition SplitStr (s sep : string) : list string :=
  split_str (S (String.length s)) "" s sep.

(** strings.Join *)
Fixpoint Join (l : list string) (sep : string) : string :=
  match l with
  | [] => ""
  | [x] => x
  | x :: l' => x +++ sep +++ Join l' sep
  end.

(** strings.Contains *)
Fixpoint Contains (s p : string) : bool :=
  HasPrefix s p || match s with "" => false | String _ t => Contains t p end.

Fixpoint string_all (f : ascii -> bool) (s : string) : bool :=
  match s with "" => true | String c t => f c && string_all f t end.

(** strings.ContainsAny(s, chars) *)
Definition ContainsAny (s chars : string) : bool :=
  negb (string_all (fun c => negb (contains_byte chars c)) s).

(** strings.NewReplacer(x, "", y, "", ...) for one-byte patterns: deletes them *)
Fixpoint delete_bytes (f : ascii -> bool) (s : string) : string :=
  match s with
  | "" => ""
  | String c t => if f c then delete_bytes f t else String c (delete_bytes f t)
  end.

(** ** strconv *)

(** strconv.Itoa, FormatInt(_, 10) *)
Definition Itoa (z : Z) : string := pretty z.

Fixpoint parse_digits (s : string) (acc : Z) : option Z :=
  match s with
  | "" => Some acc
  | String c t =>
      if digit_byte c then parse_digits t (acc * 10 + (byte_of c - 48)) else None
  end.

(** strconv.ParseInt(s, 10, 64): an optional sign, at least one digit, and a
    value in the int64 range. *)
Definition ParseInt64 (s : string) : option Z :=
  let '(neg, body) :=
    match s with
    | String "-" t => (true, t)
    | String "+" t => (false, t)
    | _ => (false, s)
    end in
  if String.eqb body "" then None
  else
    match parse_digits body 0 with
    | None => None
    | Some v =>
        let v := if neg then (- v)%Z else v in
        if (-(2 ^ 63) <=? v)%Z && (v <? 2 ^ 63)%Z then Some v else None
    end.

(** ** net.SplitHostPort ([None] is a non-nil error) *)
Definition SplitHostPort (hostport : string) : option (string * string) :=
  match LastIndexByte hostport ":" with
  | None => None
  | Some i =>
      let port := drop_string (S i) hostport in
      if HasPrefix hostport "[" then
        match IndexByte hostport "]" with
        | None => None
        | Some e =>
            if (S e =? i)%nat then
              let host := take_string (e - 1) (drop_string 1 hostport) in
              if contains_byte (drop_string 1 hostport) "[" then None
              else if contains_byte (drop_string (S e) hostport) "]" then None
              else Some (host, port)
            else None
        end
      else
        let host := take_string i hostport in
        if contains_byte host ":" then None
        else if contains_byte hostport "[" then None
        else if contains_byte hostport "]" then None
        else Some (host, port)
  end.

(** ** Lemmas *)

Lemma string_app_assoc (a b c : string) : (a +++ b) +++ c = a +++ (b +++ c).
Proof. induction a; simpl; congruence. Qed.

Lemma string_app_nil_r (a : string) : a +++ "" = a.
Proof. induction a; simpl; congruence. Qed.

Lemma string_length_app (a b : string) :
  String.length (a +++ b) = (String.length a + String.length b)%nat.
Proof. induction a; simpl; congruence. Qed.

Lemma string_app_inj_r (a b c : string) : a +++ b = a +++ c -> b = c.
Proof. induction a; simpl; intros H; [done|]. injection H; auto. Qed.

Lemma drop_string_app (a b : string) : drop_string (String.length a) (a +++ b) = b.
Proof. induction a; simpl; auto. Qed.

Lemma take_string_app (a b : string) : take_string (String.length a) (a +++ b) = a.
Proof. induction a; simpl; [by destruct b|]. by rewrite IHa. Qed.

Lemma HasPrefix_app (p s : string) : HasPrefix (p +++ s) p = true.
Proof.
  unfold HasPrefix. induction p; simpl; [by destruct s|].
  destruct (ascii_dec a a); congruence.
Qed.

Lemma HasPrefix_spec (s p : string) : HasPrefix s p = true <-> exists t, s = p +++ t.
Proof.
  unfold HasPrefix. split.
  - revert s; induction p as [|c p IH]; intros s H; simpl in *; [by exists s|].
    destruct s as [|d s]; simpl in H; [done|]. destruct (ascii_dec c d) as [->|]; [|done].
    apply IH in H as [t ->]. by exists t.
  - intros [t ->]. apply HasPrefix_app.
Qed.

Lemma HasSuffix_unfold s p :
  HasSuffix s p = String.eqb s p || match s with "" => false | String _ t => HasSuffix t p end.
Proof. by destruct s. Qed.

Lemma HasSuffix_spec (s p : string) : HasSuffix s p = true <-> exists t, s = t +++ p.
Proof.
  split.
  - induction s as [|c s IH]; rewrite HasSuffix_unfold, orb_true_iff;
      intros [H%String.eqb_eq|H].
    + subst. by exists "".
    + done.
    + exists "". by rewrite H.
    + destruct (IH H) as [t ->]. by exists (String c t).
  - intros [t ->]. induction t as [|c t IH]; rewrite HasSuffix_unfold; simpl.
    + by rewrite String.eqb_refl.
    + rewrite IH. by rewrite orb_true_r.
Qed.

Lemma map_string_app f a b : map_string f (a +++ b) = map_string f a +++ map_string f b.
Proof. induction a; simpl; congruence. Qed.

Lemma lower_byte_idem c : lower_byte (lower_byte c) = lower_byte c.
Proof. by destruct c as [[] [] [] [] [] [] [] []]. Qed.

Lemma ToLower_idem s : ToLower (ToLower s) = ToLower s.
Proof. unfold ToLower. induction s; simpl; [done|]. by rewrite lower_byte_idem, IHs. Qed.

Lemma ToLower_app a b : ToLower (a +++ b) = ToLower a +++ ToLower b.
Proof. apply map_string_app. Qed.

#[export] Hint Rewrite ToLower_idem string_app_assoc string_app_nil_r : hypergate.

(** A string is lower case when lower-casing changes nothing. *)
Definition is_lower (s : string) : Prop := ToLower s = s.

Lemma is_lower_ToLower s : is_lower (ToLower s).
Proof. apply ToLower_idem. Qed.
#[export] Hint Resolve is_lower_ToLower : hypergate.

Lemma Split_cons s b : exists p ps, Split s b = p :: ps.
Proof.
  induction s as [|c s (p & ps & IH)]; simpl; [by eexists _, _|].
  destruct (Ascii.eqb c b); [by eexists _, _|]. rewrite IH. by eexists _, _.
Qed.

Lemma Split_app_sep a b t : Split (a +++ String b t) b = (Split a b ++ Split t b)%list.
Proof.
  induction a as [|c a IH]; simpl.
  - by rewrite Ascii.eqb_refl.
  - destruct (Ascii.eqb c b); rewrite IH; [done|].
    destruct (Split_cons a b) as (p & ps & E). by rewrite E.
Qed.

Lemma Split_no_sep a b : contains_byte a b = false -> Split a b = [a].
Proof.
  unfold contains_byte. induction a as [|c a IH]; simpl; [done|].
  destruct (Ascii.eqb c b); [done|].
  destruct (IndexByte a b); simpl in *; [done|]. intros _. by rewrite IH.
Qed.

Lemma contains_byte_cons c a b : contains_byte (String c a) b = Ascii.eqb c b || contains_byte a b.
Proof.
  unfold contains_byte; simpl. destruct (Ascii.eqb c b); [done|]. by destruct (IndexByte a b).
Qed.

Lemma contains_byte_app a c b : contains_byte (a +++ c) b = contains_byte a b || contains_byte c b.
Proof.
  induction a as [|x a IH]; simpl; [done|].
  rewrite !contains_byte_cons, IH. by rewrite orb_assoc.
Qed.

(** The parts of [Split] contain no separator, and joining them back with the
    separator gives the string. *)
Lemma Split_parts s b : Forall (fun p => contains_byte p b = false) (Split s b).
Proof.
  induction s as [|c s IH]; simpl; [by repeat constructor|].
  destruct (Ascii.eqb c b) eqn:E; [by constructor|].
  destruct (Split s b) as [|p ps]; inversion_clear IH; constructor; auto;
    by rewrite contains_byte_cons, E.
Qed.

Lemma Join_cons x l sep : l <> [] -> Join (x :: l) sep = x +++ sep +++ Join l sep.
Proof. by destruct l. Qed.

Lemma Join_Split s b : Join (Split s b) (String b "") = s.
Proof.
  induction s as [|c s IH]; simpl; [done|].
  destruct (Split_cons s b) as (p & ps & E). rewrite E in *.
  destruct (Ascii.eqb c b) eqn:Ec.
  - apply Ascii.eqb_eq in Ec as ->. simpl in *. by rewrite IH.
  - simpl in *. destruct ps; simpl in *; congruence.
Qed.

Lemma Split_Join l b :
  l <> [] -> Forall (fun p => contains_byte p b = false) l -> Split (Join l (String b "")) b = l.
Proof.
  intros Hne Hl. induction Hl as [|x l Hx Hl IH]; [done|].
  destruct l as [|y l].
  - simpl. by apply Split_no_sep.
  - rewrite Join_cons by done.
    change (String b "" +++ ?t) with (String b t).
    rewrite Split_app_sep, (Split_no_sep x), IH by done. done.
Qed.

(** [Cut] splits at the first separator. *)
Lemma Cut_found s b x y :
  Cut s b = (x, y, true) <-> s = x +++ String b y /\ contains_byte x b = false.
Proof.
  revert x; induction s as [|c s IH]; intros x; simpl.
  - split; [done|]. intros [H _]. by destruct x.
  - destruct (Ascii.eqb c b) eqn:E.
    + apply Ascii.eqb_eq in E as ->. split.
      * intros [= <- <-]. done.
      * intros [H Hx]. destruct x as [|d x]; simpl in H; [by injection H as <-|].
        injection H as <- _. rewrite contains_byte_cons, Ascii.eqb_refl in Hx. done.
    + destruct (Cut s b) as [[p q] f] eqn:Ec. split.
      * intros [= <- <- ->]. destruct (proj1 (IH p) eq_refl) as [-> Hp].
        split; [done|]. by rewrite contains_byte_cons, E.
      * intros [H Hx]. destruct x as [|d x]; simpl in H; injection H as Hc Hs.
        { subst. by rewrite Ascii.eqb_refl in E. }
        subst d. rewrite contains_byte_cons, E in Hx. simpl in Hx.
        assert ((p, q, f) = (x, y, true)) as [= -> -> ->] by (apply IH; done). done.
Qed.

Lemma Cut_missing s b : contains_byte s b = false -> Cut s b = (s, "", false).
Proof.
  induction s as [|c s IH]; [done|]. rewrite contains_byte_cons. intros H. bool_hyps.
  simpl. rewrite H, IH by done. done.
Qed.

(** The part after the last separator. *)
Lemma app_sep_inj s s' d d' b :
  contains_byte d b = false -> contains_byte d' b = false -> s +++ String b d = s' +++ String b d' -> s = s' /\ d = d'.
Proof.
  intros Hd Hd' H. apply (f_equal (fun x => Split x b)) in H. rewrite !Split_app_sep, (Split_no_sep d), (Split_no_sep d') in H by done.
  apply app_inj_tail in H as [H ->]. split; [|done]. rewrite <- (Join_Split s b), <- (Join_Split s' b). by rewrite H.
Qed.

Lemma Itoa_no_sep z : contains_byte (Itoa z) "_" = false.
Proof.
  assert (forall x s, contains_byte s "_" = false -> contains_byte (pretty_N_go x s) "_" = false) as Hgo.
  { intros x. induction (N.lt_wf_0 x) as [x _ IH]. intros s Hs.
    destruct (decide (x = 0)%N) as [->|Hx]; [by rewrite pretty_N_go_0|].
    rewrite pretty_N_go_step by lia. apply IH; [apply N.div_lt; lia|]. rewrite contains_byte_cons, Hs.
    unfold pretty_N_char. by repeat case_match. }
  assert (forall n : N, contains_byte (pretty n) "_" = false) as Hn.
  { intros n. unfold pretty, pretty_N. case_decide; [done|]. by apply Hgo. }
  unfold Itoa, pretty, pretty_Z. destruct z as [|p|p]; [done|apply Hn|].
  change (contains_byte (String "-" (pretty (N.pos p))) "_" = false). by rewrite contains_byte_cons, Hn.
Qed.
