(* ===== verification/GoPath.v ===== *)
(** * GoPath: what the code uses of path/filepath on Unix *)

From S2P Require Import Prelude GoStrings.

Local Open Scope string_scope.
Local Open Scope list_scope.

(** One path element on the stack of those kept so far, the last one first. *)
Definition clean_step (rooted : bool) (out : list string) (e : string) : list string :=
  if String.eqb e "" || String.eqb e "." then out
  else if String.eqb e ".." then
    match out with
    | [] => if rooted then [] else [".."]
    | top :: rest => if String.eqb top ".." then ".." :: out else rest
    end
  else e :: out.

(** filepath.Clean *)
Definition Clean (path : string) : string :=
  if String.eqb path "" then "."
  else
    let rooted := HasPrefix path "/" in
    let out := rev (fold_left (clean_step rooted) (Split path "/") []) in
    if rooted then ("/" +++ Join out "/")%go
    else match out with [] => "." | _ => Join out "/" end.

(** filepath.Join *)
Definition JoinPath (elems : list string) : string :=
  match List.filter (fun e => negb (String.eqb e "")) elems with
  | [] => ""
  | elems => Clean (Join elems "/")
  end.

Fixpoint trim_slashes (s : string) : string :=
  match s with
  | "" => ""
  | String c t => match trim_slashes t with "" => if Ascii.eqb c "/" then "" else String c "" | t => String c t end
  end.

(** filepath.Base *)
Definition Base (path : string) : string :=
  if String.eqb path "" then "."
  else match trim_slashes path with
       | "" => "/"
       | s => match LastIndexByte s "/" with Some i => drop_string (S i) s | None => s end
       end.

(** filepath.Dir *)
Definition Dir (path : string) : string :=
  match LastIndexByte path "/" with Some i => Clean (take_string (S i) path) | None => "." end.

Example join_example : JoinPath ["/etc//tls/."; ""; "../certs"; "tls.crt"] = "/etc/certs/tls.crt".
Proof. by vm_compute. Qed.

(** A cleaned path is not empty, so a joined path with a non-empty part is not. *)
Lemma Clean_nonempty path : Clean path <> "".
Proof.
  unfold Clean. destruct (String.eqb path ""); [done|]. destruct (HasPrefix path "/"); [done|].
  assert (Forall (fun e => e <> "") (rev (fold_left (clean_step false) (Split path "/") []))) as Hall.
  { apply Forall_rev. apply (fold_left_inv (Forall (fun e => e <> ""))); [constructor|]. intros out e Hout. unfold clean_step.
    destruct (String.eqb_spec e ""); [done|]. destruct (String.eqb e "."); [done|]. cbn [orb].
    destruct (String.eqb e ".."); [|by constructor]. destruct out as [|top rest]; [by repeat constructor|].
    destruct (String.eqb top ".."); [by constructor|]. by apply Forall_inv_tail in Hout. }
  destruct Hall as [|x l Hx _]; [done|]. destruct l as [|y l]; [done|]. rewrite Join_cons by done. by destruct x.
Qed.

Lemma JoinPath_nonempty elems : Exists (fun e => e <> "") elems -> JoinPath elems <> "".
Proof.
  intros He. unfold JoinPath. destruct (List.filter _ elems) as [|e l] eqn:E; [|apply Clean_nonempty].
  exfalso. apply Exists_exists in He as (e & Hin & Hne).
  assert (In e (List.filter (fun e => negb (String.eqb e "")) elems)) as H.
  { apply filter_In. split; [by apply list_elem_of_In|]. by apply negb_true_iff, String.eqb_neq. }
  by rewrite E in H.
Qed.
