(* ===== verification/GoTime.v ===== *)
(** * GoTime: durations (Go's package time)

    [ParseDuration] as the configuration code uses it, with its uint64 arithmetic
    and its float64 treatment of fractions ([SpecFloat] is IEEE binary64). *)

From S2P Require Import Prelude GoStrings.
From Stdlib Require Import Floats.SpecFloat.

Local Open Scope string_scope.
Local Open Scope Z_scope.

Definition Nanosecond : Z := 1.
Definition Microsecond : Z := 1000.
Definition Millisecond : Z := 1000000.
Definition Second : Z := 1000000000.
Definition Minute : Z := 60 * Second.
Definition Hour : Z := 60 * Minute.

Definition two63 : Z := 9223372036854775808.
Definition two64 : Z := 18446744073709551616.
(** Conversion of an integer to a signed 64-bit one. *)
Definition wrap64 (z : Z) : Z := (z + two63) mod two64 - two63.

Definition float64_of_Z (z : Z) : spec_float := binary_normalize 53 1024 z 0 false.
(** Conversion to an integer truncates; only used on small non-negative values. *)
Definition Z_of_float64 (f : spec_float) : Z :=
  match f with
  | S754_finite s m e => (if s then Z.opp else id) (Z.shiftl (Zpos m) e)
  | _ => 0
  end.

Definition unitMap (u : string) : option Z :=
  if String.eqb u "ns" then Some Nanosecond
  else if String.eqb u "us" then Some Microsecond
  else if String.eqb u (String "194" (String "181" "s")) then Some Microsecond
  else if String.eqb u (String "206" (String "188" "s")) then Some Microsecond
  else if String.eqb u "ms" then Some Millisecond
  else if String.eqb u "s" then Some Second
  else if String.eqb u "m" then Some Minute
  else if String.eqb u "h" then Some Hour
  else None.

(** [time.Duration.Seconds]. *)
Definition Seconds (d : Z) : spec_float :=
  SFadd 53 1024 (float64_of_Z (Z.quot d Second)) (SFdiv 53 1024 (float64_of_Z (Z.rem d Second)) (float64_of_Z Second)).

(** Leading digits; [None] on overflow. *)
Fixpoint leadingInt (s : string) (x : Z) : option (Z * string) :=
  match s with
  | String c s' =>
      if digit_byte c then
        if two63 / 10 <? x then None
        else let x := x * 10 + (byte_of c - 48) in
             if two63 <? x then None else leadingInt s' x
      else Some (x, s)
  | "" => Some (x, "")
  end.

Fixpoint leadingFraction (s : string) (x : Z) (scale : spec_float) (overflow : bool)
  : Z * spec_float * string :=
  match s with
  | String c s' =>
      if digit_byte c then
        if overflow then leadingFraction s' x scale true
        else if (two63 - 1) / 10 <? x then leadingFraction s' x scale true
        else let y := x * 10 + (byte_of c - 48) in
             if two63 <? y then leadingFraction s' x scale true
             else leadingFraction s' y (SFmul 53 1024 scale (float64_of_Z 10)) false
      else (x, scale, s)
  | "" => (x, scale, "")
  end.

Definition unit_byte (c : ascii) : bool := negb (Ascii.eqb c "." || digit_byte c).

Fixpoint span_unit (s : string) : string * string :=
  match s with
  | String c s' => if unit_byte c then let '(u, r) := span_unit s' in (String c u, r) else ("", s)
  | "" => ("", "")
  end.

Definition first_byte_is (s : string) (f : ascii -> bool) : bool :=
  match s with String c _ => f c | "" => false end.

(** One round of the loop: the value of one number with its unit, and the rest. *)
Definition duration_item (s : string) : option (Z * string) :=
  if negb (first_byte_is s (fun c => Ascii.eqb c "." || digit_byte c)) then None
  else match leadingInt s 0 with
  | None => None
  | Some (v, s1) =>
      let pre := negb (String.length s =? String.length s1)%nat in
      let '(f, scale, s2, post) :=
        if first_byte_is s1 (Ascii.eqb ".") then
          let r := drop_string 1 s1 in
          let '(f, scale, s2) := leadingFraction r 0 (float64_of_Z 1) false in
          (f, scale, s2, negb (String.length r =? String.length s2)%nat)
        else (0, float64_of_Z 1, s1, false) in
      if negb pre && negb post then None
      else
        let '(u, s3) := span_unit s2 in
        if String.eqb u "" then None
        else match unitMap u with
        | None => None
        | Some unit =>
            if two63 / unit <? v then None
            else
              let v := v * unit in
              if 0 <? f then
                let v := v + Z_of_float64 (SFmul 53 1024 (float64_of_Z f)
                                             (SFdiv 53 1024 (float64_of_Z unit) scale)) in
                if two63 <? v then None else Some (v, s3)
              else Some (v, s3)
        end
  end.

(** Every round consumes at least the unit, so the string's length is enough fuel. *)
Fixpoint duration_loop (fuel : nat) (s : string) (d : Z) : option Z :=
  match s with
  | "" => Some d
  | _ =>
      match fuel with
      | O => None
      | S fuel' =>
          match duration_item s with
          | None => None
          | Some (v, s') =>
              let d := (d + v) mod two64 in
              if two63 <? d then None else duration_loop fuel' s' d
          end
      end
  end.

Definition ParseDuration (s : string) : option Z :=
  let '(neg, s) := match s with
                   | String "-" s' => (true, s')
                   | String "+" s' => (false, s')
                   | _ => (false, s)
                   end in
  if String.eqb s "0" then Some 0
  else if String.eqb s "" then None
  else match duration_loop (String.length s) s 0 with
       | None => None
       | Some d => if neg then Some (- d) else if two63 - 1 <? d then None else Some d
       end.

Example ParseDuration_examples :
  ParseDuration "1h15m30.918273645s" = Some 4530918273645 /\ ParseDuration "1.5s" = Some 1500000000 /\
  ParseDuration "-10ms" = Some (-10000000) /\ ParseDuration "3" = None /\ ParseDuration "" = None /\
  ParseDuration "0" = Some 0 /\ ParseDuration "9223372036854775808ns" = None /\
  ParseDuration "0.3333333333333333333h" = Some 1200000000000.
Proof. vm_compute. repeat split. Qed.

(** ** The fuel is enough *)

Lemma leadingInt_length s x v r : leadingInt s x = Some (v, r) -> (String.length r <= String.length s)%nat.
Proof.
  revert x; induction s as [|c s IH]; cbn [leadingInt]; intros x H; [by injection H as <- <-|].
  destruct (digit_byte c); [|by injection H as <- <-].
  destruct (_ <? x); [done|]. destruct (two63 <? _); [done|]. apply IH in H. simpl. lia.
Qed.

Lemma leadingFraction_length s x sc o :
  (String.length (leadingFraction s x sc o).2 <= String.length s)%nat.
Proof.
  revert x sc o; induction s as [|c s IH]; intros x sc o; cbn [leadingFraction]; [done|].
  repeat case_match; cbn [snd String.length]; try (etransitivity; [apply IH|lia]); lia.
Qed.

Lemma span_unit_length s u r :
  span_unit s = (u, r) -> (String.length r + String.length u = String.length s)%nat.
Proof.
  revert u r; induction s as [|c s IH]; cbn [span_unit]; intros u r H; [by injection H as <- <-|].
  destruct (unit_byte c); [|by injection H as <- <-].
  destruct (span_unit s) as [u' r'] eqn:E. injection H as <- <-. simpl. rewrite <- (IH _ _ eq_refl). lia.
Qed.

Lemma drop_string_length n s : (String.length (drop_string n s) <= String.length s)%nat.
Proof. revert n; induction s as [|c s IH]; intros [|n]; simpl; try lia. specialize (IH n). lia. Qed.

Lemma duration_item_shrinks s v r :
  duration_item s = Some (v, r) -> (String.length r < String.length s)%nat.
Proof.
  unfold duration_item. destruct (negb _); [done|].
  destruct (leadingInt s 0) as [[v1 s1]|] eqn:E1; [|done]. apply leadingInt_length in E1.
  set (q := if first_byte_is s1 (Ascii.eqb ".") then _ else _).
  assert (String.length q.1.2 <= String.length s1)%nat as Hq.
  { unfold q. destruct (first_byte_is s1 _); [|done].
    pose proof (leadingFraction_length (drop_string 1 s1) 0 (float64_of_Z 1) false) as Hl.
    destruct (leadingFraction _ _ _ _) as [[f sc] s2]. cbn [fst snd] in *.
    pose proof (drop_string_length 1 s1). lia. }
  destruct q as [[[f scale] s2] post]. simpl in Hq. destruct (_ && _); [done|].
  destruct (span_unit s2) as [u s3] eqn:E3. apply span_unit_length in E3.
  destruct (String.eqb_spec u "") as [|Hu]; [done|].
  assert (0 < String.length u)%nat by (destruct u; [done|simpl; lia]).
  intros Hr. assert (r = s3) as ->; [|lia].
  repeat case_match; simplify_eq; done.
Qed.

(** More fuel than the string is long never changes the result. *)
Lemma duration_loop_fuel n m s d :
  (String.length s <= n)%nat -> (String.length s <= m)%nat ->
  duration_loop n s d = duration_loop m s d.
Proof.
  revert m s d; induction n as [|n IH]; intros m s d Hn Hm.
  - destruct s; [|simpl in Hn; lia]. by destruct m.
  - destruct s as [|c s]; [by destruct m|]. destruct m as [|m]; [simpl in Hm; lia|].
    cbn [duration_loop]. destruct (duration_item (String c s)) as [[v r]|] eqn:E; [|done].
    apply duration_item_shrinks in E. destruct (two63 <? _); [done|]. apply IH; lia.
Qed.

(** ** Whole seconds *)

Lemma digits2_pos_bounds p : 2 ^ (Zpos (digits2_pos p) - 1) <= Zpos p < 2 ^ Zpos (digits2_pos p).
Proof.
  induction p as [p IH|p IH|]; cbn [digits2_pos]; [..|done];
    rewrite Pos2Z.inj_succ; replace (Z.succ (Zpos (digits2_pos p)) - 1) with (Zpos (digits2_pos p)) by lia;
    rewrite Z.pow_succ_r by lia;
    (assert (2 ^ Zpos (digits2_pos p) = 2 * 2 ^ (Zpos (digits2_pos p) - 1)) as E by (rewrite <- Z.pow_succ_r by lia; f_equal; lia));
    lia.
Qed.

Lemma digits2_pos_shift p d : Zpos (digits2_pos (Pos.iter xO p d)) = Zpos (digits2_pos p) + Zpos d.
Proof.
  induction d as [|d IH] using Pos.peano_ind; [cbn; lia|].
  rewrite Pos.iter_succ. cbn [digits2_pos]. rewrite Pos2Z.inj_succ, IH. lia.
Qed.
Lemma shifted_value p d : Zpos (Pos.iter xO p d) = Zpos p * 2 ^ Zpos d.
Proof.
  induction d as [|d IH] using Pos.peano_ind; [cbn; lia|].
  rewrite Pos.iter_succ, Pos2Z.inj_succ, Z.pow_succ_r by lia. rewrite Pos2Z.inj_xO, IH. lia.
Qed.

(** Integers below 2^53 are floats. *)
Lemma float64_of_Z_exact z : 0 < z < 2 ^ 53 -> Z_of_float64 (float64_of_Z z) = z.
Proof.
  intros Hz. destruct z as [|p|p]; try lia. unfold float64_of_Z, binary_normalize, binary_round.
  pose proof (digits2_pos_bounds p) as Hd. set (k := Zpos (digits2_pos p)) in *.
  assert (0 < k <= 53) as Hk.
  { split; [lia|]. destruct (Z.le_gt_cases k 53); [done|]. assert (2 ^ 53 <= 2 ^ (k - 1)) by (apply Z.pow_le_mono_r; lia). lia. }
  assert (forall x, -1074 + 53 <= x -> fexp 53 1024 x = x - 53) as Hf by (intros; unfold fexp, emin; lia).
  unfold shl_align. fold k. rewrite Hf by lia.
  assert (forall m e, Zpos (digits2_pos m) + e = k -> e = k - 53 ->
    binary_round_aux 53 1024 false (Zpos m) e loc_Exact = S754_finite false m e) as Hr.
  { intros m e Hm He. unfold binary_round_aux, shr_fexp. cbn [Zdigits2]. rewrite Hm, Hf by lia. replace (k - 53 - e) with 0 by lia. cbn [shr shr_record_of_loc].
    cbn [shr_m loc_of_shr_record round_nearest_even Zdigits2]. rewrite Hm, Hf by lia. replace (k - 53 - e) with 0 by lia. cbn [shr shr_record_of_loc shr_m].
    destruct (Z.leb_spec e (1024 - 53)); [done|lia]. }
  destruct (k + 0 - 53 - 0) as [|d|d] eqn:Ed; try lia.
  - rewrite Hr by lia. cbn. done.
  - rewrite Hr; [|rewrite digits2_pos_shift; fold k; lia|lia]. cbn [Z_of_float64 id]. rewrite shifted_value.
    rewrite Z.shiftl_div_pow2 by lia. replace (- (k + 0 - 53)) with (Zpos d) by lia. apply Z.div_mul. lia.
Qed.

(** Whole seconds are not rounded. *)
Lemma Seconds_whole n : 0 < n < 2 ^ 53 -> Z_of_float64 (Seconds (n * Second)) = n.
Proof.
  intros Hn. unfold Seconds. rewrite Z.quot_mul, Z.rem_mul by done.
  assert (SFdiv 53 1024 (float64_of_Z 0) (float64_of_Z Second) = S754_zero false) as -> by by vm_compute.
  pose proof (float64_of_Z_exact n Hn) as E. destruct (float64_of_Z n); cbn [SFadd]; try done. cbn in E. lia.
Qed.
