(* ===== verification/Netip.v ===== *)
(** * Netip: the parts of Go's [net/netip] the engine uses

    Addresses are 32- or 128-bit integers with an optional IPv6 zone; the zero
    [Addr] is the invalid address. [ParseAddr], [ParseAddrPort] and [ParsePrefix]
    follow the standard library's parsers branch by branch; an error is [None]. *)

From S2P Require Import Prelude GoStrings.

Local Open Scope string_scope.
Local Open Scope Z_scope.

(** ** Addresses *)

Inductive Addr : Type :=
| AddrZero
| Addr4 (n : Z)
| Addr6 (n : Z) (zone : string).

#[export] Instance Addr_eq_dec : EqDecision Addr.
Proof. solve_decision. Defined.

Definition Addr_encode (a : Addr) : option (Z + Z * string) :=
  match a with
  | AddrZero => None
  | Addr4 n => Some (inl n)
  | Addr6 n z => Some (inr (n, z))
  end.
Definition Addr_decode (x : option (Z + Z * string)) : Addr :=
  match x with
  | None => AddrZero
  | Some (inl n) => Addr4 n
  | Some (inr (n, z)) => Addr6 n z
  end.
Lemma Addr_decode_encode a : Addr_decode (Addr_encode a) = a.
Proof. by destruct a. Qed.
#[export] Instance Addr_countable : Countable Addr :=
  inj_countable' Addr_encode Addr_decode Addr_decode_encode.

Definition IsValid (a : Addr) : bool :=
  match a with AddrZero => false | _ => true end.

Definition Is4 (a : Addr) : bool := match a with Addr4 _ => true | _ => false end.
Definition Is6 (a : Addr) : bool := match a with Addr6 _ _ => true | _ => false end.

Definition Is4In6 (a : Addr) : bool :=
  match a with Addr6 n _ => (Z.shiftr n 32 =? 65535) | _ => false end.

Definition Unmap (a : Addr) : Addr :=
  match a with
  | Addr6 n z => if Is4In6 a then Addr4 (Z.land n (2 ^ 32 - 1)) else a
  | _ => a
  end.

Definition Zone (a : Addr) : string :=
  match a with Addr6 _ z => z | _ => "" end.

Definition WithZone (a : Addr) (z : string) : Addr :=
  match a with Addr6 n _ => Addr6 n z | _ => a end.

Definition BitLen (a : Addr) : Z :=
  match a with AddrZero => 0 | Addr4 _ => 32 | Addr6 _ _ => 128 end.

Definition addr_value (a : Addr) : Z :=
  match a with AddrZero => 0 | Addr4 n => n | Addr6 n _ => n end.

(** ** Parsing *)

(** parseIPv4Fields: four decimal octets, at most 255, without leading zeros. *)
Fixpoint ipv4_fields (s : string) (val : Z) (digLen pos : nat) (acc : Z) : option Z :=
  match s with
  | "" => if (digLen =? 0)%nat then None
          else if (pos =? 3)%nat then Some (acc * 256 + val) else None
  | String c t =>
      if digit_byte c then
        if (digLen =? 1)%nat && (val =? 0) then None
        else
          let v := val * 10 + (byte_of c - 48) in
          if v >? 255 then None else ipv4_fields t v (S digLen) pos acc
      else if Ascii.eqb c "." then
        if (digLen =? 0)%nat then None
        else if (pos =? 3)%nat then None
        else ipv4_fields t 0 0 (S pos) (acc * 256 + val)
      else None
  end.

Definition parseIPv4 (s : string) : option Addr := Addr4 <$> ipv4_fields s 0 0 0 0.

Definition hex_digit (c : ascii) : option Z :=
  let n := byte_of c in
  if (48 <=? n) && (n <=? 57) then Some (n - 48)
  else if (97 <=? n) && (n <=? 102) then Some (n - 87)
  else if (65 <=? n) && (n <=? 70) then Some (n - 55)
  else None.

(** One group of hexadecimal digits: (value, digits read, rest of the string);
    [None] when the group is longer than four digits. *)
Fixpoint hex_group (s : string) (acc : Z) (off : nat) : option (Z * nat * string) :=
  match s with
  | "" => Some (acc, off, s)
  | String c t =>
      match hex_digit c with
      | None => Some (acc, off, s)
      | Some d => if (3 <? off)%nat then None else hex_group t (acc * 16 + d) (S off)
      end
  end.

(** The main loop of parseIPv6. [fields] are the 16-bit groups read so far, in
    order; [ell] is the number of groups before the "::". An embedded IPv4
    address is two groups. Each iteration reads a group, so eight suffice. *)
Fixpoint ipv6_loop (fuel : nat) (s : string) (fields : list Z) (ell : option nat)
  : option (list Z * option nat * string) :=
  match fuel with
  | O => Some (fields, ell, s)
  | S fuel' =>
      match hex_group s 0 0 with
      | None => None
      | Some (acc, off, rest) =>
          if (off =? 0)%nat then None
          else
            match rest with
            | String "." _ =>
                if match ell with None => negb (length fields =? 6)%nat | Some _ => false end
                then None
                else if (6 <? length fields)%nat then None
                else
                  match ipv4_fields s 0 0 0 0 with
                  | None => None
                  | Some n => Some ((fields ++ [n / 65536; n mod 65536])%list, ell, "")
                  end
            | _ =>
                let fields := (fields ++ [acc])%list in
                match rest with
                | "" => Some (fields, ell, "")
                | String c t =>
                    if negb (Ascii.eqb c ":") then None
                    else
                      match t with
                      | "" => None
                      | String ":" u =>
                          match ell with
                          | Some _ => None
                          | None =>
                              match u with
                              | "" => Some (fields, Some (length fields), "")
                              | _ => ipv6_loop fuel' u fields (Some (length fields))
                              end
                          end
                      | _ => ipv6_loop fuel' t fields ell
                      end
                end
            end
      end
  end.

Definition groups_value (l : list Z) : Z := fold_left (fun a g => a * 65536 + g) l 0.

Definition leading_ellipsis (s : string) : string * option nat :=
  match s with
  | String ":" (String ":" t) => (t, Some O)
  | _ => (s, None)
  end.

(** parseIPv6 after the zone is cut off. *)
Definition parse_groups (s zone : string) : option Addr :=
  let '(s, ell) := leading_ellipsis s in
  if (match ell with Some _ => true | None => false end) && String.eqb s ""
  then Some (Addr6 0 zone)
  else
    match ipv6_loop 8 s [] ell with
    | None => None
    | Some (fields, ell, rest) =>
        if negb (String.eqb rest "") then None
        else if (length fields <? 8)%nat then
          match ell with
          | None => None
          | Some e =>
              let pad := repeat 0 (8 - length fields)%nat in
              Some (Addr6 (groups_value (take e fields ++ pad ++ drop e fields)) zone)
          end
        else match ell with
             | Some _ => None
             | None => Some (Addr6 (groups_value fields) zone)
             end
    end.

Definition parseIPv6 (input : string) : option Addr :=
  let '(s, zone, hasZone) := Cut input "%" in
  if hasZone && String.eqb zone "" then None else parse_groups s zone.

(** ParseAddr dispatches on the first '.', ':' or '%'. *)
Fixpoint addr_kind (s : string) : option ascii :=
  match s with
  | "" => None
  | String c t =>
      if Ascii.eqb c "." || Ascii.eqb c ":" || Ascii.eqb c "%" then Some c else addr_kind t
  end.

Definition NetipParseAddr (s : string) : option Addr :=
  match addr_kind s with
  | Some c =>
      if Ascii.eqb c "." then parseIPv4 s
      else if Ascii.eqb c ":" then parseIPv6 s else None
  | None => None
  end.

(** strconv.ParseUint(s, 10, 16) *)
Definition parse_port (s : string) : option Z :=
  if String.eqb s "" then None
  else match parse_digits s 0 with
       | Some v => if v <? 65536 then Some v else None
       | None => None
       end.

Definition ParseAddrPort (s : string) : option Addr :=
  match LastIndexByte s ":" with
  | None => None
  | Some i =>
      let ip := take_string i s in
      let port := drop_string (S i) s in
      if String.eqb ip "" || String.eqb port "" then None
      else
        let v6 := HasPrefix ip "[" in
        if v6 && ((String.length ip <? 2)%nat || negb (HasSuffix ip "]")) then None
        else
          let ip := if v6 then take_string (String.length ip - 2) (drop_string 1 ip) else ip in
          match parse_port port, NetipParseAddr ip with
          | Some _, Some a =>
              if v6 && Is4 a then None
              else if negb v6 && Is6 a then None
              else Some a
          | _, _ => None
          end
  end.

(** ** Prefixes *)

Record Prefix := mkPrefix { prefix_addr : Addr; prefix_bits : Z }.

#[export] Instance Prefix_eq_dec : EqDecision Prefix.
Proof. solve_decision. Defined.

(** PrefixFrom: an out-of-range length makes the prefix invalid (Bits() = -1). *)
Definition PrefixFrom (a : Addr) (bits : Z) : Prefix :=
  if IsValid a && (0 <=? bits) && (bits <=? BitLen a)
  then mkPrefix (WithZone a "") bits else mkPrefix (WithZone a "") (-1).

Definition clear_low (n k : Z) : Z := Z.shiftl (Z.shiftr n k) k.

Definition Masked (p : Prefix) : Prefix :=
  let k := BitLen (prefix_addr p) - prefix_bits p in
  mkPrefix
    (match prefix_addr p with
     | AddrZero => AddrZero
     | Addr4 n => Addr4 (clear_low n k)
     | Addr6 n z => Addr6 (clear_low n k) z
     end) (prefix_bits p).

Definition PrefixContains (p : Prefix) (a : Addr) : bool :=
  (0 <=? prefix_bits p) && String.eqb (Zone a) "" &&
  negb (BitLen (prefix_addr p) =? 0) && (BitLen (prefix_addr p) =? BitLen a) &&
  (Z.shiftr (Z.lxor (addr_value a) (addr_value (prefix_addr p)))
     (BitLen a - prefix_bits p) =? 0).

Definition ParsePrefix (s : string) : option Prefix :=
  match LastIndexByte s "/" with
  | None => None
  | Some i =>
      match NetipParseAddr (take_string i s) with
      | None => None
      | Some a =>
          if Is6 a && negb (String.eqb (Zone a) "") then None
          else
            let bitsStr := drop_string (S i) s in
            let leading :=
              match bitsStr with
              | String c _ => (byte_of c <? 49) || (57 <? byte_of c)
              | "" => false
              end in
            if (1 <? String.length bitsStr)%nat && leading then None
            else
              match ParseInt64 bitsStr with
              | None => None
              | Some bits =>
                  if (bits <? 0) || (BitLen a <? bits) then None
                  else Some (PrefixFrom a bits)
              end
      end
  end.

(** ** Printing *)

Definition octets (n : Z) : list Z :=
  [n / 2 ^ 24 mod 256; n / 2 ^ 16 mod 256; n / 2 ^ 8 mod 256; n mod 256].

Definition ipv4_string (n : Z) : string := Join (Itoa <$> octets n) ".".

Definition hex_char (d : Z) : ascii :=
  ascii_of_nat (Z.to_nat (if d <? 10 then d + 48 else d + 87)).

Definition hex_string (g : Z) : string :=
  let ds := [g / 4096 mod 16; g / 256 mod 16; g / 16 mod 16; g mod 16] in
  let fix skip (l : list Z) : list Z :=
    match l with
    | [d] => [d]
    | d :: l' => if d =? 0 then skip l' else l
    | [] => []
    end in
  fold_right (fun d s => String (hex_char d) s) "" (skip ds).

Definition groups (n : Z) : list Z :=
  (fun i => n / 2 ^ (16 * (7 - Z.of_nat i)) mod 65536) <$> seq 0 8.

Fixpoint zero_run (l : list Z) : nat :=
  match l with g :: l' => if g =? 0 then S (zero_run l') else O | [] => O end.

(** The first longest run of at least two zero groups: (start, length). *)
Definition longest_zero_run (l : list Z) : nat * nat :=
  fold_left (fun best i =>
    let n := zero_run (drop i l) in
    if (2 <=? n)%nat && (snd best <? n)%nat then (i, n) else best) (seq 0 8) (O, O).

Definition ipv6_string (n : Z) : string :=
  let gs := groups n in
  let '(start, len) := longest_zero_run gs in
  if (len =? 0)%nat then Join (hex_string <$> gs) ":"
  else Join (hex_string <$> take start gs) ":" +++ "::"
       +++ Join (hex_string <$> drop (start + len) gs) ":".

Definition zone_suffix (z : string) : string := if String.eqb z "" then "" else "%" +++ z.

Definition AddrString (a : Addr) : string :=
  match a with
  | AddrZero => "invalid IP"
  | Addr4 n => ipv4_string n
  | Addr6 n z =>
      if Is4In6 a then "::ffff:" +++ ipv4_string (n mod 2 ^ 32) +++ zone_suffix z
      else ipv6_string n +++ zone_suffix z
  end.

Definition PrefixString (p : Prefix) : string :=
  if prefix_bits p <? 0 then "invalid Prefix"
  else AddrString (prefix_addr p) +++ "/" +++ Itoa (prefix_bits p).

(** ** Checks against the documented behaviour *)

Example parse_v4 : NetipParseAddr "10.0.0.1" = Some (Addr4 167772161).
Proof. reflexivity. Qed.
Example parse_v4_bad :
  NetipParseAddr <$> ["10.0.0.01"; "10.0.0"; "10.0.0.256"; "1.2.3.4.5"; "1..2.3"; "1.2.3."; ".1.2.3"; ""]
  = repeat None 8.
Proof. reflexivity. Qed.
Example parse_v6 :
  NetipParseAddr <$> ["::1"; "::"; "2001:db8::1"; "::ffff:10.0.0.1"; "fe80::1%eth0"; "1:2:3:4:5:6:7::"]
  = [Some (Addr6 1 ""); Some (Addr6 0 ""); Some (Addr6 42540766411282592856903984951653826561 "");
     Some (Addr6 281470849515521 ""); Some (Addr6 338288524927261089654018896841347694593 "eth0");
     Some (Addr6 5192455318486707404433266433261568 "")].
Proof. reflexivity. Qed.
Example parse_v6_bad :
  NetipParseAddr <$> ["1:2:3:4:5:6:7"; "1:2:3:4:5:6:7:8:9"; ":::1"; "1::2::3"; "12345::"; "1:2:3:4::5:6:7:8"; "::1%"; ":1"]
  = repeat None 8.
Proof. reflexivity. Qed.
Example print_v6 :
  (fun s => AddrString <$> NetipParseAddr s) <$>
    ["2001:DB8:0:0:1:0:0:1"; "::ffff:1.2.3.4"; "::"; "1:0:3:4:5:6:7:0"; "fe80::1%eth0"; "10.20.30.40"]
  = Some <$> ["2001:db8::1:0:0:1"; "::ffff:1.2.3.4"; "::"; "1:0:3:4:5:6:7:0"; "fe80::1%eth0"; "10.20.30.40"].
Proof. vm_compute. reflexivity. Qed.
