(* ===== verification/NetipRoundtrip.v ===== *)
(** * NetipRoundtrip: printing an address and parsing it back

    [netip.Addr.String] and [netip.ParseAddr] are inverse on every valid address
    that is not an IPv4-mapped IPv6 one. The identity stream relies on it: the
    operator sends the addresses as text. *)

From S2P Require Import Prelude GoStrings Netip.

Local Open Scope string_scope.
Local Open Scope Z_scope.

(** The addresses [Unmap] returns: in range and not IPv4-mapped. *)
Definition plain_addr (a : Addr) : bool :=
  match a with
  | AddrZero => false
  | Addr4 n => (0 <=? n) && (n <? 2 ^ 32)
  | Addr6 n _ => (0 <=? n) && (n <? 2 ^ 128) && negb (Is4In6 a)
  end.

(** ** IPv4 *)

Definition octet_ok (o : Z) : Prop :=
  exists k, forall s pos acc, ipv4_fields (Itoa o +++ s) 0 0 pos acc = ipv4_fields s o (S k) pos acc.

Lemma octets_ok : Forall octet_ok (seqZ 0 256).
Proof. vm_compute seqZ. repeat (apply Forall_cons; split; [eexists; intros s pos acc; reflexivity|]). constructor. Qed.

Lemma octet_fields o : 0 <= o < 256 -> octet_ok o.
Proof. intros H. pose proof octets_ok as Ho. rewrite Forall_forall in Ho. apply Ho, elem_of_seqZ. lia. Qed.

Lemma ipv4_dot t v k pos acc :
  ipv4_fields ("." +++ t) v (S k) pos acc =
  if (pos =? 3)%nat then None else ipv4_fields t 0 0 (S pos) (acc * 256 + v).
Proof. reflexivity. Qed.

Lemma ipv4_roundtrip n : 0 <= n < 2 ^ 32 -> parseIPv4 (ipv4_string n) = Some (Addr4 n).
Proof.
  intros Hn. unfold parseIPv4, ipv4_string, octets. cbn [fmap list_fmap Join].
  set (a := n / 2 ^ 24 mod 256). set (b := n / 2 ^ 16 mod 256). set (c := n / 2 ^ 8 mod 256). set (d := n mod 256).
  assert (((a * 256 + b) * 256 + c) * 256 + d = n) as E.
  { unfold a, b, c, d. Z.to_euclidean_division_equations. lia. }
  destruct (octet_fields a) as [ka Ha]; [unfold a; Z.to_euclidean_division_equations; lia|].
  destruct (octet_fields b) as [kb Hb]; [unfold b; Z.to_euclidean_division_equations; lia|].
  destruct (octet_fields c) as [kc Hc]; [unfold c; Z.to_euclidean_division_equations; lia|].
  destruct (octet_fields d) as [kd Hd]; [unfold d; Z.to_euclidean_division_equations; lia|].
  rewrite <- (string_app_nil_r (Itoa d)).
  rewrite Ha, ipv4_dot, Hb, ipv4_dot, Hc, ipv4_dot, Hd. cbn [ipv4_fields Nat.eqb fmap option_fmap option_map].
  do 2 f_equal. lia.
Qed.

Lemma ipv4_kind n : 0 <= n < 2 ^ 32 -> addr_kind (ipv4_string n) = Some "."%char.
Proof.
  intros Hn.
  assert (forall o t, 0 <= o < 256 -> addr_kind (Itoa o +++ String "." t) = Some "."%char) as H.
  { assert (Forall (fun o => forall t, addr_kind (Itoa o +++ String "." t) = Some "."%char) (seqZ 0 256)) as H.
    { vm_compute seqZ. repeat (apply Forall_cons; split; [intros; reflexivity|]). constructor. }
    intros o t Ho. rewrite Forall_forall in H. apply H, elem_of_seqZ. lia. }
  unfold ipv4_string, octets. cbn [fmap list_fmap Join]. apply H. Z.to_euclidean_division_equations; lia.
Qed.

(** ** IPv6 groups *)

Lemma hex_char_digit d : 0 <= d < 16 -> hex_digit (hex_char d) = Some d.
Proof.
  intros H. assert (Forall (fun d => hex_digit (hex_char d) = Some d) (seqZ 0 16)) as Hf.
  { vm_compute seqZ. repeat (apply Forall_cons; split; [reflexivity|]). constructor. }
  rewrite Forall_forall in Hf. apply Hf, elem_of_seqZ. lia.
Qed.

Lemma hex_group_step d t acc off : 0 <= d < 16 -> (off <= 3)%nat ->
  hex_group (String (hex_char d) t) acc off = hex_group t (acc * 16 + d) (S off).
Proof.
  intros Hd Ho. cbn [hex_group]. rewrite (hex_char_digit d Hd).
  destruct (Nat.ltb_spec 3 off); [lia|done].
Qed.

(** The rest of the string does not extend the group. *)
Definition ends_group (s : string) : Prop :=
  match s with "" => True | String c _ => hex_digit c = None end.

Lemma hex_group_end s acc off : ends_group s -> hex_group s acc off = Some (acc, off, s).
Proof. destruct s as [|c s]; [done|]. cbn. by intros ->. Qed.

(** The digits [hex_string] prints. *)
Definition hex_digits (g : Z) : list Z :=
  let d3 := g / 4096 mod 16 in let d2 := g / 256 mod 16 in let d1 := g / 16 mod 16 in let d0 := g mod 16 in
  if d3 =? 0 then if d2 =? 0 then if d1 =? 0 then [d0] else [d1; d0] else [d2; d1; d0] else [d3; d2; d1; d0].

Lemma hex_string_digits g : hex_string g = fold_right (fun d s => String (hex_char d) s) "" (hex_digits g).
Proof.
  unfold hex_string, hex_digits. cbv zeta.
  destruct (g / 4096 mod 16 =? 0); [|done]. destruct (g / 256 mod 16 =? 0); [|done].
  by destruct (g / 16 mod 16 =? 0).
Qed.

Lemma hex_digits_spec g : 0 <= g < 65536 ->
  Forall (fun d => 0 <= d < 16) (hex_digits g) /\ (1 <= length (hex_digits g) <= 4)%nat /\
  fold_left (fun a d => a * 16 + d) (hex_digits g) 0 = g.
Proof.
  intros Hg. unfold hex_digits. cbv zeta.
  assert (forall z, 0 <= z mod 16 < 16) as Hr by (intros; apply Z.mod_pos_bound; lia).
  assert (((g / 4096 mod 16 * 16 + g / 256 mod 16) * 16 + g / 16 mod 16) * 16 + g mod 16 = g) as E.
  { Z.to_euclidean_division_equations. lia. }
  destruct (Z.eqb_spec (g / 4096 mod 16) 0) as [E3|]; [destruct (Z.eqb_spec (g / 256 mod 16) 0) as [E2|];
    [destruct (Z.eqb_spec (g / 16 mod 16) 0) as [E1|]|]|];
    (split; [repeat (apply Forall_cons; split; [apply Hr|]); constructor|]); (split; [cbn; lia|]);
    cbn [fold_left]; lia.
Qed.

Lemma hex_group_string g s : 0 <= g < 65536 -> ends_group s ->
  exists k, hex_group (hex_string g +++ s) 0 0 = Some (g, S k, s).
Proof.
  intros Hg Hs. rewrite hex_string_digits. destruct (hex_digits_spec g Hg) as (Hd & Hl & Hv).
  enough (forall l acc off, Forall (fun d => 0 <= d < 16) l -> (off + length l <= 4)%nat ->
    hex_group (fold_right (fun d s => String (hex_char d) s) "" l +++ s) acc off =
    Some (fold_left (fun a d => a * 16 + d) l acc, (off + length l)%nat, s)) as H.
  { rewrite H by (done || lia). rewrite Hv. exists (length (hex_digits g) - 1)%nat.
    by replace (0 + length (hex_digits g))%nat with (S (length (hex_digits g) - 1)) by lia. }
  clear g Hg Hd Hl Hv. induction l as [|d l IH]; intros acc off Hd Hl; cbn [fold_right fold_left length] in *.
  - change ("" +++ s) with s. rewrite hex_group_end by done. by rewrite Nat.add_0_r.
  - apply Forall_cons in Hd as [Hd Hds]. change (String ?c ?t +++ s) with (String c (t +++ s)).
    rewrite hex_group_step by (done || lia). rewrite IH by (done || lia).
    by replace (off + S (length l))%nat with (S off + length l)%nat by lia.
Qed.

(** Bytes that are neither hexadecimal digits nor colons do not occur. *)
Lemma hex_string_bytes g b : 0 <= g < 65536 -> hex_digit b = None -> contains_byte (hex_string g) b = false.
Proof.
  intros Hg Hb. rewrite hex_string_digits. destruct (hex_digits_spec g Hg) as (Hd & _ & _).
  induction (hex_digits g) as [|d l IH]; [done|]. apply Forall_cons in Hd as [Hd Hds]. cbn [fold_right].
  rewrite contains_byte_cons, IH, orb_false_r by done. apply Ascii.eqb_neq. intros <-.
  by rewrite hex_char_digit in Hb.
Qed.

Lemma hex_string_cons g : 0 <= g < 65536 -> exists c t, hex_string g = String c t /\ hex_digit c <> None.
Proof.
  intros Hg. rewrite hex_string_digits. destruct (hex_digits_spec g Hg) as (Hd & Hl & _).
  destruct (hex_digits g) as [|d l]; [cbn in Hl; lia|]. apply Forall_cons in Hd as [Hd _].
  do 2 eexists. split; [done|]. by rewrite hex_char_digit.
Qed.

(** ** The parser's loop on printed groups *)

Lemma loop_last fuel g fields ell : 0 <= g < 65536 ->
  ipv6_loop (S fuel) (hex_string g) fields ell = Some ((fields ++ [g])%list, ell, "").
Proof.
  intros Hg. destruct (hex_group_string g "" Hg I) as [k Hk]. rewrite string_app_nil_r in Hk.
  cbn [ipv6_loop]. by rewrite Hk.
Qed.

Lemma loop_colon fuel g c t fields ell : 0 <= g < 65536 -> hex_digit c <> None ->
  ipv6_loop (S fuel) (hex_string g +++ String ":" (String c t)) fields ell =
  ipv6_loop fuel (String c t) (fields ++ [g])%list ell.
Proof.
  intros Hg Hc. destruct (hex_group_string g (String ":" (String c t)) Hg eq_refl) as [k Hk].
  cbn [ipv6_loop]. rewrite Hk. clear Hk.
  destruct c as [[] [] [] [] [] [] [] []]; try reflexivity. by destruct Hc.
Qed.

Lemma loop_ell fuel g u fields : 0 <= g < 65536 ->
  ipv6_loop (S fuel) (hex_string g +++ "::" +++ u) fields None =
  match u with
  | "" => Some ((fields ++ [g])%list, Some (length (fields ++ [g])%list), "")
  | _ => ipv6_loop fuel u (fields ++ [g])%list (Some (length (fields ++ [g])%list))
  end.
Proof.
  intros Hg. destruct (hex_group_string g ("::" +++ u) Hg eq_refl) as [k Hk].
  cbn [ipv6_loop]. rewrite Hk. reflexivity.
Qed.

Definition group_ok (g : Z) : Prop := 0 <= g < 65536.

Lemma join_groups_cons g gs : Forall group_ok (g :: gs) ->
  exists c t, Join (hex_string <$> g :: gs) ":" = String c t /\ hex_digit c <> None.
Proof.
  intros [Hg _]%Forall_cons. destruct (hex_string_cons g Hg) as (c & t & E & Hc).
  destruct gs as [|g' gs].
  - exists c, t. done.
  - change (hex_string <$> g :: g' :: gs) with (hex_string g :: (hex_string <$> g' :: gs)).
    rewrite Join_cons by done. rewrite E. by do 2 eexists.
Qed.

Lemma loop_join gs fuel fields ell : gs <> [] -> Forall group_ok gs -> (length gs <= fuel)%nat ->
  ipv6_loop fuel (Join (hex_string <$> gs) ":") fields ell = Some ((fields ++ gs)%list, ell, "").
Proof.
  revert fuel fields. induction gs as [|g gs IH]; intros fuel fields Hne Hg Hf; [done|].
  cbn in Hf. destruct fuel as [|fuel]; [lia|]. destruct gs as [|g' gs].
  - apply Forall_cons in Hg as [Hg _]. by apply loop_last.
  - assert (Hg' := Hg). apply Forall_cons in Hg' as [Hgg Hgs].
    destruct (join_groups_cons g' gs Hgs) as (c & t & E & Hc).
    change (hex_string <$> g :: g' :: gs) with (hex_string g :: (hex_string <$> g' :: gs)).
    rewrite Join_cons by done. rewrite E. change (":" +++ String c t) with (String ":" (String c t)).
    rewrite loop_colon by done. rewrite <- E, IH by (done || cbn in *; lia). by rewrite <- app_assoc.
Qed.

Lemma loop_join_ell gs fuel u fields : gs <> [] -> Forall group_ok gs -> (length gs <= fuel)%nat ->
  ipv6_loop fuel (Join (hex_string <$> gs) ":" +++ "::" +++ u) fields None =
  match u with
  | "" => Some ((fields ++ gs)%list, Some (length (fields ++ gs)%list), "")
  | _ => ipv6_loop (fuel - length gs) u (fields ++ gs)%list (Some (length (fields ++ gs)%list))
  end.
Proof.
  revert fuel fields. induction gs as [|g gs IH]; intros fuel fields Hne Hg Hf; [done|].
  cbn in Hf. destruct fuel as [|fuel]; [lia|]. destruct gs as [|g' gs].
  - apply Forall_cons in Hg as [Hg _]. cbn [fmap list_fmap Join length]. rewrite loop_ell by done.
    by replace (S fuel - 1)%nat with fuel by lia.
  - assert (Hg' := Hg). apply Forall_cons in Hg' as [Hgg Hgs].
    destruct (join_groups_cons g' gs Hgs) as (c & t & E & Hc).
    change (hex_string <$> g :: g' :: gs) with (hex_string g :: (hex_string <$> g' :: gs)).
    rewrite Join_cons by done. rewrite !string_app_assoc.
    specialize (IH fuel (fields ++ [g])%list ltac:(done) Hgs ltac:(cbn in *; lia)). rewrite E in IH |- *.
    change (":" +++ (String c t +++ ?r)) with (String ":" (String c (t +++ r))).
    rewrite loop_colon by done. change (String c (t +++ ?r)) with (String c t +++ r). rewrite IH.
    rewrite <- !app_assoc. cbn [app length].
    by replace (S fuel - S (S (length gs)))%nat with (fuel - S (length gs))%nat by lia.
Qed.

(** ** The zero run and the value *)

Lemma zero_run_spec l : (zero_run l <= length l)%nat /\ take (zero_run l) l = repeat 0 (zero_run l).
Proof.
  induction l as [|g l [IH1 IH2]]; [done|]. cbn [zero_run]. destruct (Z.eqb_spec g 0) as [->|]; [|cbn; split; [lia|done]].
  cbn. split; [lia|]. by rewrite IH2.
Qed.

Lemma longest_zero_run_spec l :
  let '(start, len) := longest_zero_run l in
  len = O \/ (2 <= len)%nat /\ (start + len <= length l)%nat /\ take len (drop start l) = repeat 0 len.
Proof.
  unfold longest_zero_run.
  apply (fold_left_inv (fun p : nat * nat => let '(start, len) := p in
    len = O \/ (2 <= len)%nat /\ (start + len <= length l)%nat /\ take len (drop start l) = repeat 0 len)); [by left|].
  intros [start len] i Hp. destruct (_ && _) eqn:E; [|done]. right. apply andb_true_iff in E as [E%Nat.leb_le _].
  destruct (zero_run_spec (drop i l)) as [H1 H2]. rewrite length_drop in H1. split_and!; [lia|lia|done].
Qed.

Lemma groups_ok n : Forall group_ok (groups n).
Proof.
  unfold groups. apply Forall_fmap, Forall_true. intros i. unfold group_ok. cbn. apply Z.mod_pos_bound. lia.
Qed.

Lemma groups_length n : length (groups n) = 8%nat.
Proof. unfold groups. by rewrite length_fmap, length_seq. Qed.

Lemma groups_value_snoc l g : groups_value (l ++ [g])%list = groups_value l * 65536 + g.
Proof. unfold groups_value. by rewrite fold_left_app. Qed.

Lemma groups_roundtrip n : 0 <= n < 2 ^ 128 -> groups_value (groups n) = n.
Proof.
  intros Hn.
  enough (forall k, (k <= 8)%nat ->
    groups_value ((fun i => n / 2 ^ (16 * (7 - Z.of_nat i)) mod 65536) <$> seq 0 k) = n / 2 ^ (16 * (8 - Z.of_nat k))) as H.
  { unfold groups. rewrite (H 8%nat) by lia. cbn. apply Z.div_1_r. }
  induction k as [|k IH]; intros Hk.
  - cbn [seq fmap list_fmap]. symmetry. apply Z.div_small. cbn. lia.
  - rewrite seq_S, fmap_app, list_fmap_singleton, groups_value_snoc, IH by lia. cbn [Nat.add].
    replace (8 - Z.of_nat k) with (1 + (7 - Z.of_nat k)) by lia.
    replace (8 - Z.of_nat (S k)) with (7 - Z.of_nat k) by lia.
    rewrite Z.mul_add_distr_l, Z.mul_1_r, Z.pow_add_r by lia. rewrite (Z.mul_comm (2 ^ 16)).
    rewrite <- Z.div_div by (try apply Z.pow_nonzero; lia). change (2 ^ 16) with 65536.
    set (q := n / 2 ^ (16 * (7 - Z.of_nat k))). rewrite (Z.div_mod q 65536) at 3 by lia. lia.
Qed.

(** ** The round trip *)

Lemma join_groups_bytes gs b : Forall group_ok gs -> hex_digit b = None -> Ascii.eqb ":" b = false ->
  contains_byte (Join (hex_string <$> gs) ":") b = false.
Proof.
  intros Hg Hb Hc. induction gs as [|g [|g' gs] IH]; [done| |].
  - apply Forall_cons in Hg as [Hg _]. by apply hex_string_bytes.
  - apply Forall_cons in Hg as [Hg Hgs].
    change (hex_string <$> g :: g' :: gs) with (hex_string g :: (hex_string <$> g' :: gs)).
    rewrite Join_cons by done. rewrite !contains_byte_app, IH, (hex_string_bytes g b Hg Hb) by done.
    rewrite contains_byte_cons, Hc. done.
Qed.

Lemma ipv6_string_bytes n b : hex_digit b = None -> Ascii.eqb ":" b = false -> contains_byte (ipv6_string n) b = false.
Proof.
  intros Hb Hc. unfold ipv6_string. pose proof (groups_ok n) as Hg.
  destruct (longest_zero_run (groups n)) as [start len]. destruct (len =? 0)%nat; [by apply join_groups_bytes|].
  rewrite !contains_byte_app, !join_groups_bytes by (done || by apply Forall_take || by apply Forall_drop).
  by rewrite !contains_byte_cons, Hc.
Qed.

Lemma addr_kind_colon a t : contains_byte a "." = false -> contains_byte a "%" = false ->
  addr_kind (a +++ String ":" t) = Some ":"%char.
Proof.
  induction a as [|c a IH]; [done|]. rewrite !contains_byte_cons. intros [H1 H2]%orb_false_iff [H3 H4]%orb_false_iff.
  cbn [String.app addr_kind]. cbn. rewrite H1, H3. cbn. rewrite orb_false_r.
  destruct (Ascii.eqb_spec c ":") as [->|]; [done|]. by apply IH.
Qed.

Lemma ipv6_string_colon n : exists a t, ipv6_string n = a +++ String ":" t /\
  contains_byte a "." = false /\ contains_byte a "%" = false.
Proof.
  assert (exists a t, ipv6_string n = a +++ String ":" t) as (a & t & E).
  { unfold ipv6_string. destruct (longest_zero_run (groups n)) as [start len]. destruct (len =? 0)%nat.
    - pose proof (groups_length n) as Hl. destruct (groups n) as [|g [|g' gs]]; try done.
      change (hex_string <$> g :: g' :: gs) with (hex_string g :: (hex_string <$> g' :: gs)).
      rewrite Join_cons by done. by do 2 eexists.
    - by do 2 eexists. }
  exists a, t. split; [done|].
  assert (forall b, hex_digit b = None -> Ascii.eqb ":" b = false -> contains_byte a b = false) as H.
  { intros b Hb Hc. pose proof (ipv6_string_bytes n b Hb Hc) as Hn. rewrite E, contains_byte_app in Hn.
    by apply orb_false_iff in Hn as [? _]. }
  split; by apply H.
Qed.

Lemma leading_ellipsis_hex c t : hex_digit c <> None -> leading_ellipsis (String c t) = (String c t, None).
Proof. intros Hc. destruct c as [[] [] [] [] [] [] [] []]; try reflexivity. by destruct Hc. Qed.

(** Eight groups without "::". *)
Lemma parse_full gs z : Forall group_ok gs -> length gs = 8%nat ->
  parse_groups (Join (hex_string <$> gs) ":") z = Some (Addr6 (groups_value gs) z).
Proof.
  intros Hg Hl. unfold parse_groups. destruct gs as [|g gs]; [done|].
  destruct (join_groups_cons g gs Hg) as (c & t & Ej & Hc). rewrite Ej, leading_ellipsis_hex by done.
  cbn [andb]. rewrite <- Ej, loop_join by (done || lia). cbn [app negb String.eqb]. by rewrite Hl.
Qed.

(** A "::" for the zero groups between [hd] and [tl]. *)
Lemma parse_compressed hd tl len z : Forall group_ok hd -> Forall group_ok tl -> (1 <= len)%nat ->
  (length hd + len + length tl = 8)%nat ->
  parse_groups (Join (hex_string <$> hd) ":" +++ "::" +++ Join (hex_string <$> tl) ":") z =
  Some (Addr6 (groups_value (hd ++ repeat 0 len ++ tl)%list) z).
Proof.
  intros Hh Ht Hlen Hl. unfold parse_groups.
  assert (forall fuel fields ell, (length tl <= fuel)%nat -> tl <> [] ->
    ipv6_loop fuel (Join (hex_string <$> tl) ":") fields ell = Some ((fields ++ tl)%list, ell, "")) as Htl.
  { intros. by apply loop_join. }
  assert (tl <> [] -> exists c t, Join (hex_string <$> tl) ":" = String c t) as Hne.
  { destruct tl as [|g tl']; [done|]. intros _. destruct (join_groups_cons g tl' Ht) as (c & t & -> & _). by do 2 eexists. }
  destruct hd as [|g hd].
  - cbn [fmap list_fmap Join]. change (leading_ellipsis ("" +++ "::" +++ ?u)) with (u, Some O).
    destruct tl as [|g' tl'].
    { cbn. cbn in Hl. replace len with 8%nat by lia. done. }
    destruct (Hne ltac:(done)) as (c & t & E). rewrite E. cbn [andb String.eqb].
    rewrite <- E, Htl by (done || cbn in *; lia). cbn [app negb String.eqb].
    destruct (Nat.ltb_spec (length (g' :: tl')) 8) as [_|]; [|cbn in *; lia].
    cbn [take drop]. by replace (8 - length (g' :: tl'))%nat with len by (cbn in *; lia).
  - destruct (join_groups_cons g hd Hh) as (c & t & E & Hc). rewrite E.
    change (String c t +++ ?u) with (String c (t +++ u)). rewrite leading_ellipsis_hex by done. cbn [andb].
    change (String c (t +++ ?u)) with (String c t +++ u). rewrite <- E, loop_join_ell by (done || lia). cbn [app].
    assert (take (length (g :: hd)) ((g :: hd) ++ tl) = g :: hd /\ drop (length (g :: hd)) ((g :: hd) ++ tl) = tl)%list as [Et Ed].
    { by rewrite take_app_length, drop_app_length. }
    destruct tl as [|g' tl'].
    + cbn [fmap list_fmap Join]. cbn [negb String.eqb].
      destruct (Nat.ltb_spec (length (g :: hd)) 8) as [_|]; [|cbn in *; lia].
      rewrite app_nil_r in Et, Ed. rewrite Et, Ed.
      by replace (8 - length (g :: hd))%nat with len by (cbn in *; lia).
    + destruct (Hne ltac:(done)) as (c' & t' & E'). rewrite E'. rewrite <- E', Htl by (done || cbn in *; lia).
      cbn [negb String.eqb]. assert (length ((g :: hd) ++ g' :: tl')%list = (8 - len)%nat) as ->.
      { rewrite length_app. lia. }
      destruct (Nat.ltb_spec (8 - len) 8) as [_|]; [|lia]. rewrite Et, Ed.
      by replace (8 - (8 - len))%nat with len by lia.
Qed.

Lemma ipv6_string_parse n z : 0 <= n < 2 ^ 128 -> parse_groups (ipv6_string n) z = Some (Addr6 n z).
Proof.
  intros Hn. pose proof (groups_ok n) as Hg. pose proof (groups_length n) as Hl.
  unfold ipv6_string. pose proof (longest_zero_run_spec (groups n)) as Hz.
  transitivity (Some (Addr6 (groups_value (groups n)) z)); [|by rewrite groups_roundtrip].
  destruct (longest_zero_run (groups n)) as [start len].
  destruct (Nat.eqb_spec len 0) as [E0|E0]; [by apply parse_full|].
  destruct Hz as [|(Hlen & Hb & Hzero)]; [done|].
  rewrite (parse_compressed _ _ len) by
    (try (by apply Forall_take || by apply Forall_drop); rewrite ?length_take, ?length_drop; lia).
  rewrite <- Hzero, <- drop_drop. by rewrite !take_drop.
Qed.

Lemma ParseAddr_String a : plain_addr a = true -> NetipParseAddr (AddrString a) = Some a.
Proof.
  destruct a as [|n|n z]; cbn [plain_addr AddrString]; intros H; [done| |].
  - apply andb_true_iff in H as [H1 H2]. unfold NetipParseAddr.
    rewrite ipv4_kind by lia. by apply ipv4_roundtrip; lia.
  - apply andb_true_iff in H as [[H1 H2]%andb_true_iff H3%negb_true_iff]. rewrite H3. unfold NetipParseAddr.
    destruct (ipv6_string_colon n) as (a & t & E & Ha1 & Ha2).
    assert (addr_kind (ipv6_string n +++ zone_suffix z) = Some ":"%char) as ->.
    { rewrite E, string_app_assoc. by apply addr_kind_colon. }
    cbn. unfold parseIPv6, zone_suffix. pose proof (ipv6_string_bytes n "%" eq_refl eq_refl) as Hp.
    destruct (String.eqb_spec z "") as [->|Hz].
    + rewrite string_app_nil_r, Cut_missing by done. cbn [andb]. apply ipv6_string_parse. lia.
    + assert (Cut (ipv6_string n +++ "%" +++ z) "%" = (ipv6_string n, z, true)) as -> by by apply Cut_found.
      destruct (String.eqb_spec z ""); [done|]. cbn [andb]. apply ipv6_string_parse. lia.
Qed.

(** ** Parsed addresses are in range *)

Lemma ipv4_fields_range s val dig pos acc n :
  0 <= val < 256 -> (pos <= 3)%nat -> 0 <= acc < 256 ^ Z.of_nat pos ->
  ipv4_fields s val dig pos acc = Some n -> 0 <= n < 2 ^ 32.
Proof.
  revert val dig pos acc. induction s as [|c s IH]; intros val dig pos acc Hv Hp Ha; cbn [ipv4_fields].
  - destruct (dig =? 0)%nat; [done|]. destruct (Nat.eqb_spec pos 3) as [->|]; [|done]. intros [= <-].
    change (256 ^ Z.of_nat 3) with 16777216 in Ha. lia.
  - destruct (digit_byte c) eqn:Ed.
    + destruct (_ && _); [done|]. destruct (_ >? 255) eqn:Eg; [done|]. apply IH; [|done|done].
      unfold digit_byte in Ed. apply andb_true_iff in Ed as [E1%Nat.leb_le E2%Nat.leb_le].
      rewrite Z.gtb_ltb in Eg. bool_hyps. unfold byte_of in *. lia.
    + destruct (Ascii.eqb c "."); [|done]. destruct (dig =? 0)%nat; [done|].
      destruct (Nat.eqb_spec pos 3); [done|]. apply IH; [lia|lia|].
      rewrite Nat2Z.inj_succ, Z.pow_succ_r by lia. lia.
Qed.

Lemma hex_digit_range c d : hex_digit c = Some d -> 0 <= d < 16.
Proof.
  unfold hex_digit. cbv zeta. intros H.
  destruct ((48 <=? byte_of c) && (byte_of c <=? 57)) eqn:E1; [injection H as <-; bool_hyps; lia|].
  destruct ((97 <=? byte_of c) && (byte_of c <=? 102)) eqn:E2; [injection H as <-; bool_hyps; lia|].
  destruct ((65 <=? byte_of c) && (byte_of c <=? 70)) eqn:E3; [injection H as <-; bool_hyps; lia|done].
Qed.

Lemma hex_group_range s acc off v k r :
  0 <= acc < 16 ^ Z.of_nat off -> (off <= 4)%nat -> hex_group s acc off = Some (v, k, r) -> group_ok v.
Proof.
  revert acc off. induction s as [|c s IH]; intros acc off Ha Ho; cbn [hex_group].
  - intros [= <- <- <-]. unfold group_ok.
    pose proof (Z.pow_le_mono_r 16 (Z.of_nat off) 4 ltac:(lia) ltac:(lia)) as H. change (16 ^ 4) with 65536 in H. lia.
  - destruct (hex_digit c) as [d|] eqn:Ed.
    + destruct (Nat.ltb_spec 3 off); [done|]. apply IH; [|lia]. apply hex_digit_range in Ed.
      rewrite Nat2Z.inj_succ, Z.pow_succ_r by lia. lia.
    + intros [= <- <- <-]. unfold group_ok.
      pose proof (Z.pow_le_mono_r 16 (Z.of_nat off) 4 ltac:(lia) ltac:(lia)) as H. change (16 ^ 4) with 65536 in H. lia.
Qed.

Lemma ipv6_loop_range fuel s fields ell fields' ell' rest :
  Forall group_ok fields -> (length fields + fuel <= 8)%nat ->
  ipv6_loop fuel s fields ell = Some (fields', ell', rest) ->
  Forall group_ok fields' /\ (length fields' <= 8)%nat.
Proof.
  revert s fields ell. induction fuel as [|fuel IH]; intros s fields ell Hf Hl; cbn [ipv6_loop].
  { intros [= <- <- <-]. split; [done|lia]. }
  destruct (hex_group s 0 0) as [[[v k] r]|] eqn:Eh; [|done].
  apply hex_group_range in Eh; [|done|lia].
  assert (Forall group_ok (fields ++ [v])%list /\ (length (fields ++ [v]) + fuel <= 8)%nat) as [Hf' Hl'].
  { split; [apply Forall_app; by split; [|apply Forall_singleton]|rewrite length_app; cbn; lia]. }
  destruct (k =? 0)%nat; [done|].
  assert (Hdot : forall o, match o with
            | None => None
            | Some n => Some ((fields ++ [n / 65536; n mod 65536])%list, ell, "") end = Some (fields', ell', rest) ->
          o = ipv4_fields s 0 0 0 0 -> (length fields <= 6)%nat -> Forall group_ok fields' /\ (length fields' <= 8)%nat).
  { intros [n|] H E H6; [|done]. injection H as <- <- <-. symmetry in E.
    apply ipv4_fields_range in E; [|lia|lia|done]. rewrite length_app. cbn [length]. split; [|lia].
    apply Forall_app. split; [done|]. unfold group_ok.
    repeat (apply Forall_cons; split; [Z.to_euclidean_division_equations; lia|]). constructor. }
  assert (Htail : forall c t, (if negb (Ascii.eqb c ":") then None else
      match t with
      | "" => None
      | String ":" u => match ell with
                        | Some _ => None
                        | None => match u with
                                  | "" => Some ((fields ++ [v])%list, Some (length (fields ++ [v])%list), "")
                                  | _ => ipv6_loop fuel u (fields ++ [v])%list (Some (length (fields ++ [v])%list))
                                  end
                        end
      | _ => ipv6_loop fuel t (fields ++ [v])%list ell
      end) = Some (fields', ell', rest) -> Forall group_ok fields' /\ (length fields' <= 8)%nat).
  { intros c t. destruct (negb _); [done|]. destruct t as [|c' u]; [done|].
    assert (forall e, ipv6_loop fuel (String c' u) (fields ++ [v])%list e = Some (fields', ell', rest) ->
      Forall group_ok fields' /\ (length fields' <= 8)%nat) as H by (intros e; by apply IH).
    destruct c' as [[] [] [] [] [] [] [] []]; try apply H. destruct ell; [done|].
    destruct u; [|by apply IH]. intros [= <- <- <-]. split; [done|lia]. }
  destruct r as [|c t].
  { intros [= <- <- <-]. split; [done|lia]. }
  destruct (Ascii.eqb_spec c ".") as [->|Hc].
  - destruct (match ell with None => _ | Some _ => _ end); [done|].
    destruct (Nat.ltb_spec 6 (length fields)); [done|]. intros H'. eapply Hdot; eauto.
  - destruct c as [[] [] [] [] [] [] [] []]; try apply (Htail _ t). by destruct Hc.
Qed.

Lemma groups_value_range gs : Forall group_ok gs -> 0 <= groups_value gs < 65536 ^ Z.of_nat (length gs).
Proof.
  induction gs as [|g gs IH] using rev_ind; intros H; [done|].
  apply Forall_app in H as [H1 [H2 _]%Forall_cons]. rewrite groups_value_snoc, length_app. cbn [length].
  rewrite Nat2Z.inj_add. change (Z.of_nat 1) with 1. rewrite Z.pow_add_r by lia. specialize (IH H1).
  unfold group_ok in H2. change (65536 ^ 1) with 65536. lia.
Qed.

Lemma parse_groups_range s z a : parse_groups s z = Some a -> exists n, a = Addr6 n z /\ 0 <= n < 2 ^ 128.
Proof.
  unfold parse_groups. destruct (leading_ellipsis s) as [s' ell]. destruct (_ && _); [intros [= <-]; by eexists|].
  destruct (ipv6_loop 8 s' [] ell) as [[[fields ell'] rest]|] eqn:El; [|done].
  apply ipv6_loop_range in El as [Hf Hl]; [|constructor|cbn; lia]. destruct (negb _); [done|].
  assert (forall gs, Forall group_ok gs -> length gs = 8%nat -> 0 <= groups_value gs < 2 ^ 128) as Hr.
  { intros gs Hg Hgl. pose proof (groups_value_range gs Hg) as H. by rewrite Hgl in H. }
  destruct (Nat.ltb_spec (length fields) 8).
  - destruct ell' as [e|]; [|done]. intros [= <-]. eexists. split; [done|]. apply Hr.
    + apply Forall_app. split; [by apply Forall_take|]. apply Forall_app. split; [|by apply Forall_drop].
      apply Forall_forall. intros g Hg%list_elem_of_In%repeat_spec. by subst.
    + rewrite !length_app, repeat_length, length_take, length_drop. lia.
  - destruct ell'; [done|]. intros [= <-]. eexists. split; [done|]. apply Hr; [done|lia].
Qed.

Lemma ParseAddr_plain s a : NetipParseAddr s = Some a -> plain_addr (Unmap a) = true.
Proof.
  unfold NetipParseAddr. destruct (addr_kind s) as [c|]; [|done]. destruct (Ascii.eqb c ".").
  - unfold parseIPv4. destruct (ipv4_fields s 0 0 0 0) as [n|] eqn:E; [|done]. intros [= <-].
    apply ipv4_fields_range in E; [|lia|lia|done]. cbn [Unmap plain_addr]. lia.
  - destruct (Ascii.eqb c ":"); [|done]. unfold parseIPv6. destruct (Cut s "%") as [[s' z] f].
    destruct (f && _); [done|]. intros H. apply parse_groups_range in H as (n & -> & Hn).
    unfold Unmap. destruct (Is4In6 (Addr6 n z)) eqn:E.
    + unfold plain_addr. change (2 ^ 32 - 1) with (Z.ones 32). rewrite Z.land_ones by lia.
      pose proof (Z.mod_pos_bound n (2 ^ 32) ltac:(lia)). lia.
    + unfold plain_addr. rewrite E. lia.
Qed.
