(* ===== verification/Identity.v ===== *)
(** * Identity: the engine's workload identity index (internal/identity/index.go)

    The index maps pod and node addresses to workloads, Service keys to Services
    and cluster IPs to Services. It is filled from delta updates
    ([applyWorkloads], [applyServices]) and read by the request path ([Lookup],
    [ServiceByClusterIP], [ServiceFromHost]).

    A Go map that is only ranged over is a list in the order of iteration, and
    the theorems hold for every order. A [*Service] is a [SvcPtr]: the object
    with the identity of its allocation, because [dropServiceLocked] compares
    pointers. *)

From S2P Require Import Prelude GoStrings Netip.
From stdpp Require Import sorting.

Local Open Scope string_scope.

(** ** Data *)

Inductive Kind : Type := KindUnknown | KindPod | KindNode.

#[export] Instance Kind_eq_dec : EqDecision Kind.
Proof. solve_decision. Defined.

Record Workload := mkWorkload {
  IP : Addr;
  WKind : Kind;
  Namespace : string;
  Pod : string;
  PodUID : string;
  ServiceAccount : string;
  SPIFFEID : string;
  Node : string;
  Labels : gmap string string;
  Services : list string;
  SecurityIdentity : Z
}.

(** [(w *Workload) IsPod()], nil receivers included *)
Definition IsPod (w : option Workload) : bool :=
  match w with
  | Some w => match WKind w with KindPod => true | _ => false end
  | None => false
  end.

Record Service := mkService {
  SvcNamespace : string;
  SvcName : string;
  ClusterIPs : list Addr;
  Ports : list Z
}.

Definition Key (s : Service) : string := SvcNamespace s +++ "/" +++ SvcName s.

Record SvcPtr := mkSvcPtr { ptr : nat; obj : Service }.

(** Type URLs, in the order of the Go constants. *)
Inductive TypeURL : Type := WorkloadTypeURL | ServiceTypeURL.

#[export] Instance TypeURL_eq_dec : EqDecision TypeURL.
Proof. solve_decision. Defined.

Record Index := mkIndex {
  workloads : gmap Addr Workload;
  services : gmap string SvcPtr;
  byClusterIP : gmap Addr SvcPtr;
  workloadVersions : gmap string string;
  serviceVersions : gmap string string;
  syncedWorkloads : bool;
  syncedServices : bool;
  lastUpdate : Z;
  (** next allocation identity *)
  nextPtr : nat
}.
#[export] Instance Index_eta : Eta Index := fun x =>
  mkIndex (workloads x) (services x) (byClusterIP x) (workloadVersions x) (serviceVersions x)
    (syncedWorkloads x) (syncedServices x) (lastUpdate x) (nextPtr x).

Definition NewIndex : Index := mkIndex ∅ ∅ ∅ ∅ ∅ false false 0 0.

(** ** Reads *)

(** The receiver may be nil ([None]): identity disabled. *)
Definition Lookup (x : option Index) (ip : Addr) : option Workload :=
  match x with
  | Some x => if IsValid ip then workloads x !! Unmap ip else None
  | None => None
  end.

Definition ServiceByClusterIP (x : option Index) (ip : Addr) : option Service :=
  match x with
  | Some x => if IsValid ip then obj <$> byClusterIP x !! Unmap ip else None
  | None => None
  end.

Definition IndexService (x : option Index) (namespace name : string) : option Service :=
  match x with
  | Some x => obj <$> services x !! (namespace +++ "/" +++ name)
  | None => None
  end.

Definition Synced (x : option Index) : bool :=
  match x with Some x => syncedWorkloads x && syncedServices x | None => false end.

Definition versionsOf (x : Index) (typeURL : TypeURL) : gmap string string :=
  match typeURL with
  | WorkloadTypeURL => workloadVersions x
  | ServiceTypeURL => serviceVersions x
  end.

Definition ServiceFromHost (x : option Index) (host : string) : option Service :=
  if (match x with None => true | Some _ => false end) || String.eqb host "" then None
  else
    let h := TrimSuffix (TrimSuffix host ".cluster.local") ".svc" in
    let '(name, ns, ok) := Cut h "." in
    if negb ok || String.eqb name "" || String.eqb ns "" || contains_byte ns "." then None
    else IndexService x ns name.

(** ** Updates *)

Record ProtoWorkload := mkProtoWorkload {
  pw_ip : string;
  pw_kind : Kind;
  pw_namespace : string;
  pw_pod : string;
  pw_pod_uid : string;
  pw_service_account : string;
  pw_spiffe_id : string;
  pw_node : string;
  pw_labels : gmap string string;
  pw_services : list (string * string);
  pw_security_identity : Z;
  pw_cilium_labels : list string
}.

Record ProtoService := mkProtoService {
  ps_namespace : string;
  ps_name : string;
  ps_cluster_ips : list string;
  ps_ports : list Z
}.

Definition parsed_or_zero (s : string) : Addr := default AddrZero (NetipParseAddr s).

Definition string_le (a b : string) : Prop := String.leb a b = true.
#[export] Instance string_le_dec : RelDecision string_le.
Proof. intros a b. unfold string_le. apply _. Defined.

Definition workloadFromProto (p : ProtoWorkload) : Workload :=
  mkWorkload (Unmap (parsed_or_zero (pw_ip p))) (pw_kind p) (pw_namespace p) (pw_pod p)
    (pw_pod_uid p) (pw_service_account p) (pw_spiffe_id p) (pw_node p) (pw_labels p)
    (merge_sort string_le ((fun '(ns, n) => ns +++ "/" +++ n) <$> pw_services p))
    (pw_security_identity p).

Definition serviceFromProto (p : ProtoService) : Service :=
  mkService (ps_namespace p) (ps_name p)
    (Unmap <$> omap NetipParseAddr (ps_cluster_ips p)) (ps_ports p).

Definition dropServiceLocked (x : Index) (name : string) : Index :=
  match services x !! name with
  | None => x
  | Some old =>
      let by' := fold_left (fun m ip =>
          match m !! ip with
          | Some p => if (ptr p =? ptr old)%nat then delete ip m else m
          | None => m
          end) (ClusterIPs (obj old)) (byClusterIP x) in
      x <| byClusterIP := by' |> <| services := delete name (services x) |>
  end.

Definition removeWorkload (x : Index) (name : string) : Index :=
  let x := match NetipParseAddr name with
           | Some ip => x <| workloads := delete (Unmap ip) (workloads x) |>
           | None => x
           end in
  x <| workloadVersions := delete name (workloadVersions x) |>.

Definition updateWorkload (x : Index) (u : string * ProtoWorkload * string) : Index :=
  let '(name, res, version) := u in
  let w := workloadFromProto res in
  if IsValid (IP w) then
    x <| workloads := <[IP w := w]> (workloads x) |>
      <| workloadVersions := <[name := version]> (workloadVersions x) |>
  else x.

Definition applyWorkloads (now : Z) (x : Index)
  (updated : list (string * ProtoWorkload * string)) (removed : list string) : Index :=
  let x := fold_left removeWorkload removed x in
  let x := fold_left updateWorkload updated x in
  x <| syncedWorkloads := true |> <| lastUpdate := now |>.

Definition removeService (x : Index) (name : string) : Index :=
  let x := dropServiceLocked x name in
  x <| serviceVersions := delete name (serviceVersions x) |>.

Definition updateService (x : Index) (u : string * ProtoService * string) : Index :=
  let '(name, res, version) := u in
  let x := dropServiceLocked x name in
  let s := mkSvcPtr (nextPtr x) (serviceFromProto res) in
  let x := x <| nextPtr := S (nextPtr x) |> in
  let x := x <| services := <[name := s]> (services x) |> in
  let x := x <| byClusterIP := fold_left (fun m ip => <[ip := s]> m)
                                 (ClusterIPs (obj s)) (byClusterIP x) |> in
  x <| serviceVersions := <[name := version]> (serviceVersions x) |>.

Definition applyServices (now : Z) (x : Index)
  (updated : list (string * ProtoService * string)) (removed : list string) : Index :=
  let x := fold_left removeService removed x in
  let x := fold_left updateService updated x in
  x <| syncedServices := true |> <| lastUpdate := now |>.

(** One response of the identity stream (client.go, [apply]): a response with an
    undecodable resource is refused as a whole. *)
Inductive DeltaResponse : Type :=
| WorkloadResponse (resources : list (string * option ProtoWorkload * string)) (removed : list string)
| ServiceResponse (resources : list (string * option ProtoService * string)) (removed : list string)
| OtherResponse.

(** [updated[r.GetName()] = ...]: the last resource of a name wins. *)
Fixpoint decode_resources {A : Type} (l : list (string * option A * string))
  : option (list (string * A * string)) :=
  match l with
  | [] => Some []
  | (name, None, _) :: _ => None
  | (name, Some a, v) :: l' =>
      match decode_resources l' with
      | None => None
      | Some us =>
          if existsb (fun u => String.eqb (fst (fst u)) name) us then Some us
          else Some ((name, a, v) :: us)
      end
  end.

Definition apply (now : Z) (x : Index) (resp : DeltaResponse) : result Index :=
  match resp with
  | WorkloadResponse rs removed =>
      match decode_resources rs with
      | Some us => Ok (applyWorkloads now x us removed)
      | None => Err "resource"
      end
  | ServiceResponse rs removed =>
      match decode_resources rs with
      | Some us => Ok (applyServices now x us removed)
      | None => Err "resource"
      end
  | OtherResponse => Err "unexpected type"
  end.

(** [Replace] (tests and static setups): the whole content at once. *)
Definition Replace (now : Z) (x : Index) (ws : list Workload) (ss : list Service) : Index :=
  let step := fun (acc : nat * gmap string SvcPtr * gmap Addr SvcPtr) s =>
    let '(n, sv, by_ip) := acc in
    let p := mkSvcPtr n s in
    (S n, <[Key s := p]> sv, fold_left (fun m ip => <[Unmap ip := p]> m) (ClusterIPs s) by_ip) in
  let '(n, sv, by_ip) := fold_left step ss (nextPtr x, ∅, ∅) in
  x <| workloads := fold_left (fun m w => <[Unmap (IP w) := w]> m) ws ∅ |>
    <| services := sv |> <| byClusterIP := by_ip |> <| nextPtr := n |>
    <| workloadVersions := ∅ |> <| serviceVersions := ∅ |>
    <| syncedWorkloads := true |> <| syncedServices := true |> <| lastUpdate := now |>.

Record IndexStatus := mkIndexStatus {
  st_synced : bool; st_workloads : nat; st_services : nat; st_lastUpdate : Z }.

Definition Status (x : Index) : IndexStatus :=
  mkIndexStatus (syncedWorkloads x && syncedServices x) (size (workloads x)) (size (services x))
    (lastUpdate x).

(** The receive loop of [stream]: every response is acknowledged, a refused one
    with an error detail. *)
Fixpoint stream_loop (x : Index) (rs : list (Z * DeltaResponse)) : Index * list bool :=
  match rs with
  | [] => (x, [])
  | (now, r) :: rs' =>
      let '(x', ok) := match apply now x r with Ok x' => (x', true) | Err _ => (x, false) end in
      let '(y, acks) := stream_loop x' rs' in (y, ok :: acks)
  end.

(** The index after a stream of responses; a refused response changes nothing. *)
Definition applyAll (x : Index) (rs : list (Z * DeltaResponse)) : Index :=
  fold_left (fun x '(now, r) => match apply now x r with Ok x' => x' | Err _ => x end) rs x.

(** ** Invariant *)

Record index_wf (x : Index) : Prop := {
  wf_workloads : forall ip w, workloads x !! ip = Some w ->
    IP w = ip /\ IsValid ip = true /\ Unmap ip = ip;
  wf_by_ip : forall ip p, byClusterIP x !! ip = Some p ->
    ip ∈ ClusterIPs (obj p) /\ exists name, services x !! name = Some p;
  wf_ptr_unique : forall n1 n2 p1 p2, services x !! n1 = Some p1 -> services x !! n2 = Some p2 ->
    ptr p1 = ptr p2 -> n1 = n2;
  wf_ptr_bound : forall n p, services x !! n = Some p -> (ptr p < nextPtr x)%nat
}.

(** ** Lemmas *)

Lemma Unmap_idem a : Unmap (Unmap a) = Unmap a.
Proof.
  destruct a as [| |n z]; [done..|]. unfold Unmap at 2 3.
  destruct (Is4In6 (Addr6 n z)) eqn:E; [done|]. unfold Unmap. by rewrite E.
Qed.

(** The loop of [dropServiceLocked] deletes only entries pointing at [old]. *)
Lemma drop_loop_lookup old ips (m : gmap Addr SvcPtr) ip :
  fold_left (fun m ip =>
      match m !! ip with
      | Some p => if (ptr p =? ptr old)%nat then delete ip m else m
      | None => m
      end) ips m !! ip
  = match m !! ip with
    | Some p => if (ptr p =? ptr old)%nat && bool_decide (ip ∈ ips) then None else Some p
    | None => None
    end.
Proof.
  revert m; induction ips as [|i ips IH]; intros m; simpl.
  - destruct (m !! ip); [|done]. by rewrite andb_false_r.
  - rewrite IH. destruct (decide (i = ip)) as [->|Hne].
    + destruct (m !! ip) as [p|] eqn:E; [|by rewrite E].
      rewrite (bool_decide_eq_true_2 (ip ∈ ip :: ips)) by set_solver.
      destruct (ptr p =? ptr old)%nat eqn:Ep; simpl.
      * by rewrite lookup_delete_eq.
      * by rewrite E, Ep.
    + assert (bool_decide (ip ∈ i :: ips) = bool_decide (ip ∈ ips)) as ->.
      { apply bool_decide_ext. set_solver. }
      destruct (m !! i) as [q|]; [|done].
      destruct (ptr q =? ptr old)%nat; [|done]. by rewrite lookup_delete_ne.
Qed.

Lemma insert_loop_lookup s ips (m : gmap Addr SvcPtr) ip :
  fold_left (fun m ip => <[ip := s]> m) ips m !! ip
  = if bool_decide (ip ∈ ips) then Some s else m !! ip.
Proof.
  revert m; induction ips as [|i ips IH]; intros m; simpl; [done|].
  rewrite IH. destruct (decide (i = ip)) as [->|Hne].
  - rewrite lookup_insert_eq, (bool_decide_eq_true_2 (ip ∈ ip :: ips)) by set_solver.
    by case_bool_decide.
  - rewrite lookup_insert_ne by done.
    assert (bool_decide (ip ∈ i :: ips) = bool_decide (ip ∈ ips)) as ->; [|done].
    apply bool_decide_ext. set_solver.
Qed.

Lemma dropServiceLocked_wf x name : index_wf x -> index_wf (dropServiceLocked x name).
Proof.
  intros [Hw Hb Hu Hp]. unfold dropServiceLocked.
  destruct (services x !! name) as [old|] eqn:Hold; [|by split].
  split; simpl; [done| | |].
  - intros ip p. rewrite drop_loop_lookup.
    destruct (byClusterIP x !! ip) as [q|] eqn:Hq; [|done].
    destruct (Hb _ _ Hq) as [Hin [n Hn]].
    destruct (ptr q =? ptr old)%nat eqn:E.
    + bool_hyps. assert (n = name) as -> by eauto. simplify_eq.
      rewrite bool_decide_eq_true_2 by done. done.
    + simpl. intros [= <-]. split; [done|]. exists n.
      rewrite lookup_delete_ne; [done|]. intros ->. simplify_eq. by rewrite Nat.eqb_refl in E.
  - intros n1 n2 p1 p2 [_ H1]%lookup_delete_Some [_ H2]%lookup_delete_Some. eauto.
  - intros n p [_ H1]%lookup_delete_Some. eauto.
Qed.

Lemma dropServiceLocked_lookup x name n :
  services (dropServiceLocked x name) !! n = if decide (n = name) then None else services x !! n.
Proof.
  unfold dropServiceLocked. destruct (services x !! name) eqn:E; simpl; case_decide; subst; auto.
  - apply lookup_delete_eq.
  - by rewrite lookup_delete_ne.
Qed.

Lemma removeService_wf x name : index_wf x -> index_wf (removeService x name).
Proof. intros [Hw Hb Hu Hp]%(dropServiceLocked_wf x name). by split. Qed.

Lemma updateService_wf x u : index_wf x -> index_wf (updateService x u).
Proof.
  destruct u as [[name res] version]. intros H0. unfold updateService.
  pose proof (dropServiceLocked_wf x name H0) as [Hw Hb Hu Hp].
  pose proof (dropServiceLocked_lookup x name name) as Hname. rewrite decide_True in Hname by done.
  set (y := dropServiceLocked x name) in *. clearbody y. clear H0 x.
  split; cbn [set_field workloads services byClusterIP nextPtr]; [done| | |].
  - intros ip p. rewrite insert_loop_lookup. case_bool_decide as Hin.
    + intros [= <-]. split; [done|]. exists name. apply lookup_insert_eq.
    + intros Hq. destruct (Hb _ _ Hq) as [? [n Hn]]. split; [done|]. exists n.
      rewrite lookup_insert_ne; [done|]. intros ->. by rewrite Hname in Hn.
  - intros n1 n2 p1 p2 H1 H2 E.
    apply lookup_insert_Some in H1 as [[<- <-]|[? H1]];
      apply lookup_insert_Some in H2 as [[<- <-]|[? H2]]; eauto; simpl in *.
    + apply Hp in H2. lia.
    + apply Hp in H1. lia.
  - intros n p [[<- <-]|[? H1]]%lookup_insert_Some; simpl; [lia|]. apply Hp in H1. lia.
Qed.

Lemma removeWorkload_wf x name : index_wf x -> index_wf (removeWorkload x name).
Proof.
  intros [Hw Hb Hu Hp]. unfold removeWorkload. destruct (NetipParseAddr name); split; auto; simpl.
  intros ip w [_ H]%lookup_delete_Some. auto.
Qed.

Lemma updateWorkload_wf x u : index_wf x -> index_wf (updateWorkload x u).
Proof.
  destruct u as [[name res] version]. intros [Hw Hb Hu Hp]. unfold updateWorkload.
  destruct (IsValid (IP (workloadFromProto res))) eqn:E; [|by split].
  split; auto; cbn [set_field workloads]. intros ip w [[<- <-]|[_ H]]%lookup_insert_Some; [|auto].
  split; [done|]. split; [done|]. apply Unmap_idem.
Qed.

Lemma apply_wf now x r x' : index_wf x -> apply now x r = Ok x' -> index_wf x'.
Proof.
  intros H. destruct r as [rs rm|rs rm|]; simpl; [| |done]; destruct (decode_resources rs) as [us|];
    try done; intros [= <-].
  - assert (index_wf (fold_left updateWorkload us (fold_left removeWorkload rm x))) as [? ? ? ?].
    { repeat apply fold_left_inv; eauto using removeWorkload_wf, updateWorkload_wf. }
    by split.
  - assert (index_wf (fold_left updateService us (fold_left removeService rm x))) as [? ? ? ?].
    { repeat apply fold_left_inv; eauto using removeService_wf, updateService_wf. }
    by split.
Qed.

Lemma NewIndex_wf : index_wf NewIndex.
Proof. split; cbn; intros *; rewrite lookup_empty; done. Qed.

Lemma applyAll_wf x rs : index_wf x -> index_wf (applyAll x rs).
Proof.
  intros H. unfold applyAll. apply fold_left_inv; [done|]. intros y [now r] Hy.
  destruct (apply now y r) eqn:E; eauto using apply_wf.
Qed.

(** The loop of [stream] computes the index of the accepted responses. *)
Lemma stream_loop_index x rs : (stream_loop x rs).1 = applyAll x rs.
Proof.
  unfold applyAll. revert x; induction rs as [|[now r] rs IH]; intros x; [done|]. cbn.
  destruct (apply now x r); rewrite <- IH; by destruct (stream_loop _ rs).
Qed.

Lemma removeWorkload_lookup x name ip :
  workloads (removeWorkload x name) !! ip =
  if decide (Some ip = Unmap <$> NetipParseAddr name) then None else workloads x !! ip.
Proof.
  unfold removeWorkload. destruct (NetipParseAddr name) as [a|]; cbn.
  - case_decide as E.
    + injection E as ->. apply lookup_delete_eq.
    + apply lookup_delete_ne. congruence.
  - by rewrite decide_False.
Qed.

Lemma updateWorkload_lookup_ne x u ip :
  IP (workloadFromProto (snd (fst u))) <> ip ->
  workloads (updateWorkload x u) !! ip = workloads x !! ip.
Proof.
  destruct u as [[name res] v]; cbn. intros Hne.
  destruct (IsValid _); [|done]. cbn. by rewrite lookup_insert_ne.
Qed.

(** ** Properties *)

(** What the index answers is what it holds: over every stream of updates,
    accepted or refused, a workload found for an address is the workload stored
    for that address, and a Service found for a cluster IP is a Service that is
    still in the index and still owns that IP (no stale cluster IP survives the
    removal, the re-creation or the change of a Service). *)
Lemma index_answers_sound (rs : list (Z * DeltaResponse)) (ip : Addr) :
  let x := (stream_loop NewIndex rs).1 in
  (forall w, Lookup (Some x) ip = Some w -> IP w = Unmap ip) /\
  (forall s, ServiceByClusterIP (Some x) ip = Some s ->
     Unmap ip ∈ ClusterIPs s /\ exists name p, services x !! name = Some p /\ obj p = s).
Proof.
  cbv zeta. rewrite stream_loop_index. pose proof (applyAll_wf NewIndex rs NewIndex_wf) as [Hw Hb _ _].
  split; simpl; destruct (IsValid ip); try done.
  - intros w H. by apply Hw in H as [-> _].
  - intros s H. apply fmap_Some in H as (p & Hp & ->).
    apply Hb in Hp as (Hin & name & Hn). eauto.
Qed.

(** A removed address is forgotten: after an update that removes the
    resource of an address and does not send a workload with that address, the
    address has no identity (so a reused pod IP never keeps the old caller). *)
Lemma removed_workload_forgotten (now : Z) (x : Index) updated removed name a :
  name ∈ removed -> NetipParseAddr name = Some a ->
  Forall (fun u => IP (workloadFromProto (snd (fst u))) <> Unmap a) updated ->
  Lookup (Some (applyWorkloads now x updated removed)) a = None.
Proof.
  intros Hin Ha Hup. unfold Lookup, applyWorkloads. destruct (IsValid a); [|done]. cbn.
  assert (workloads (fold_left removeWorkload removed x) !! Unmap a = None) as Hrem.
  { clear Hup. revert x. induction removed as [|y removed IH]; intros x; cbn [fold_left].
    { by apply not_elem_of_nil in Hin. }
    apply elem_of_cons in Hin as [<-|Hin]; [|by apply IH].
    apply fold_left_inv.
    - by rewrite removeWorkload_lookup, Ha, decide_True.
    - intros y n E. rewrite removeWorkload_lookup. by case_decide. }
  revert Hrem. generalize (fold_left removeWorkload removed x). clear Hin.
  induction Hup as [|u us Hu Hus IH]; intros y Hy; cbn [fold_left]; [done|].
  apply IH. by rewrite updateWorkload_lookup_ne.
Qed.

Definition example_workload (ip : string) : ProtoWorkload :=
  mkProtoWorkload ip KindPod "default" "web-0" "uid-0" "web" "" "node-a" ∅ [("default", "web")] 0 [].

Lemma removed_workload_forgotten_witness :
  Lookup (Some (applyWorkloads 2
    (applyWorkloads 1 NewIndex [("10.0.0.1", example_workload "10.0.0.1", "1")] [])
    [("10.0.0.2", example_workload "10.0.0.2", "1")] ["10.0.0.1"])) (Addr4 167772161) = None.
Proof.
  apply (removed_workload_forgotten 2 _ _ _ "10.0.0.1").
  - constructor.
  - reflexivity.
  - constructor; [|constructor]. vm_compute. discriminate.
Defined.
