(* ===== verification/ClientIP.v ===== *)
(** * ClientIP: the downstream client address (internal/clientip/clientip.go)

    [Resolve] counts [trustedHops] positions from the right of the chain made of
    X-Forwarded-For and the peer Envoy observed. The theorems say what the
    header's client-controlled part can and cannot change. *)

From S2P Require Import Prelude GoStrings.

Local Open Scope string_scope.

Definition SourceAddressAttribute : string := "source.address".

Definition stripPort (addr : string) : string :=
  let addr := TrimSpace addr in
  if String.eqb addr "" then ""
  else match SplitHostPort addr with
       | Some (host, _) => host
       | None => TrimSuffix (TrimPrefix addr "[") "]"
       end.

Definition splitXFF (xff : string) : list string :=
  if String.eqb xff "" then []
  else fold_left (fun out p =>
         let p := stripPort (TrimSpace p) in
         if String.eqb p "" then out else (out ++ [p])%list) (Split xff ",") [].

(** The chain of addresses [Resolve] indexes: the header's entries, then the peer
    unless Envoy already appended it. *)
Definition address_chain (xff peer : string) : list string :=
  let chain := splitXFF xff in
  let peer := stripPort peer in
  if String.eqb peer "" then chain
  else match last chain with
       | None => (chain ++ [peer])%list
       | Some l => if String.eqb l peer then chain else (chain ++ [peer])%list
       end.

Definition Resolve (xff peer : string) (trustedHops : Z) : string :=
  let trustedHops := if (trustedHops <? 0)%Z then 0%Z else trustedHops in
  let chain := address_chain xff peer in
  match chain with
  | [] => ""
  | _ =>
      let idx := (Z.of_nat (length chain) - 1 - trustedHops)%Z in
      let idx := if (idx <? 0)%Z then 0%Z else idx in
      default "" (chain !! Z.to_nat idx)
  end.

(** The values of the attribute structs (a struct's or list's content is never
    read); [GetStringValue] is empty for all but strings. *)
Inductive AttrValue : Type :=
| NullValue | NumberValue (n : Z) | StringValue (s : string) | BoolValue (b : bool)
| StructValue | ListValue.

Definition GetStringValue (v : AttrValue) : string :=
  match v with StringValue s => s | _ => "" end.

(** A nil struct is [None]; the list is the order of the map's iteration. *)
Definition Attributes := list (string * option (gmap string AttrValue)).

Fixpoint PeerFromAttributes (attrs : Attributes) : string :=
  match attrs with
  | [] => ""
  | (_, None) :: rest => PeerFromAttributes rest
  | (_, Some fields) :: rest =>
      match fields !! SourceAddressAttribute with
      | Some v => if String.eqb (GetStringValue v) "" then PeerFromAttributes rest
                  else GetStringValue v
      | None => PeerFromAttributes rest
      end
  end.

(** ** Lemmas *)

Definition keep_entry (p : string) : option string :=
  let p := stripPort (TrimSpace p) in if String.eqb p "" then None else Some p.

Lemma keep_loop ps out :
  fold_left (fun out p =>
     let p := stripPort (TrimSpace p) in
     if String.eqb p "" then out else (out ++ [p])%list) ps out
  = (out ++ omap keep_entry ps)%list.
Proof.
  revert out; induction ps as [|p ps IH]; intros out; simpl; [by rewrite app_nil_r|].
  rewrite IH. unfold keep_entry at 2.
  destruct (String.eqb (stripPort (TrimSpace p)) ""); [done|]. by rewrite <- app_assoc.
Qed.

Lemma splitXFF_omap xff : splitXFF xff = omap keep_entry (Split xff ",").
Proof.
  unfold splitXFF. destruct (String.eqb xff "") eqn:E; [bool_hyps; by subst|].
  by rewrite keep_loop.
Qed.

Lemma splitXFF_app a b : splitXFF (a +++ "," +++ b) = (splitXFF a ++ splitXFF b)%list.
Proof.
  rewrite !splitXFF_omap. replace (a +++ "," +++ b) with (a +++ String "," b) by done.
  rewrite Split_app_sep. apply omap_app.
Qed.

Lemma address_chain_app a b peer :
  splitXFF b <> [] -> address_chain (a +++ "," +++ b) peer = (splitXFF a ++ address_chain b peer)%list.
Proof.
  intros Hb. unfold address_chain. rewrite splitXFF_app.
  rewrite last_app. destruct (last (splitXFF b)) as [l|] eqn:E.
  - repeat case_match; by rewrite ?app_assoc.
  - by apply last_None in E.
Qed.

Lemma address_chain_last xff peer :
  stripPort peer <> "" -> last (address_chain xff peer) = Some (stripPort peer).
Proof.
  intros H. unfold address_chain. apply String.eqb_neq in H. rewrite H.
  destruct (last (splitXFF xff)) as [l|] eqn:E; [|by rewrite last_snoc].
  destruct (String.eqb l (stripPort peer)) eqn:E'; [|by rewrite last_snoc].
  bool_hyps. by subst.
Qed.

(** [Resolve] reads the chain from its right end. *)
Lemma Resolve_rev xff peer h :
  (0 <= h < Z.of_nat (length (address_chain xff peer)))%Z ->
  Resolve xff peer h = default "" (reverse (address_chain xff peer) !! Z.to_nat h).
Proof.
  intros Hh. unfold Resolve. destruct (h <? 0)%Z eqn:E; [bool_hyps; lia|].
  set (chain := address_chain xff peer) in *. destruct chain as [|c chain'] eqn:Ec; [simpl in Hh; lia|].
  rewrite <- Ec in *. clear Ec c chain'.
  destruct (Z.of_nat (length chain) - 1 - h <? 0)%Z eqn:E1; [bool_hyps; lia|].
  rewrite reverse_lookup by lia. f_equal. f_equal. lia.
Qed.

(** ** Properties *)

(** C32: forged X-Forwarded-For entries cannot change the client address: when the
    part of the header written by the trusted proxies ([xff]) and the peer hold
    at least [hops + 1] addresses, whatever the client put in front of it is
    ignored. *)
Theorem Resolve_ignores_forged (forged xff peer : string) (hops : Z) :
  splitXFF xff <> [] ->
  (0 <= hops < Z.of_nat (length (address_chain xff peer)))%Z ->
  Resolve (forged +++ "," +++ xff) peer hops = Resolve xff peer hops.
Proof.
  intros Hne Hh. pose proof (address_chain_app forged xff peer Hne) as E.
  rewrite !Resolve_rev; rewrite ?E, ?length_app; try lia.
  rewrite reverse_app, lookup_app_l; [done|]. rewrite length_reverse. lia.
Qed.

Lemma Resolve_ignores_forged_witness :
  Resolve ("1.1.1.1, 10.0.0.1" +++ "," +++ "203.0.113.7:5000") "[2001:db8::1]:443" 1
  = Resolve "203.0.113.7:5000" "[2001:db8::1]:443" 1.
Proof.
  apply Resolve_ignores_forged.
  - vm_compute. discriminate.
  - split; [lia | reflexivity].
Defined.

(** With no trusted hops (or a negative setting) the client is the peer Envoy
    observed, without its port, whatever X-Forwarded-For says. *)
Theorem Resolve_no_hops_is_peer (xff peer : string) (hops : Z) :
  (hops <= 0)%Z -> stripPort peer <> "" -> Resolve xff peer hops = stripPort peer.
Proof.
  intros Hh Hp. pose proof (address_chain_last xff peer Hp) as Hl.
  assert (Resolve xff peer hops = Resolve xff peer 0) as ->.
  { unfold Resolve. by replace (if (hops <? 0)%Z then 0 else hops)%Z with 0%Z by (case_match; bool_hyps; lia). }
  rewrite Resolve_rev.
  - destruct (address_chain xff peer) as [|c l _] using rev_ind; [done|].
    rewrite reverse_snoc. rewrite last_snoc in Hl. by injection Hl as ->.
  - destruct (address_chain xff peer); [done|]. simpl. lia.
Qed.

Lemma Resolve_no_hops_is_peer_witness : Resolve "6.6.6.6" "10.1.2.3:4711" 0 = "10.1.2.3".
Proof.
  apply (Resolve_no_hops_is_peer "6.6.6.6" "10.1.2.3:4711" 0); [lia|]. vm_compute. discriminate.
Defined.
