(* ===== verification/Selector.v ===== *)
(** * Selector: typed source and destination references (internal/selector)

    A selector is a [prefix:value] reference. [Parse] validates one for a side,
    [Compile] builds the indexed [Set] of a list, and [MatchSource] and
    [MatchDestination] test a request against the indexes. The main theorems
    relate the indexed set to the meaning of the single selectors. *)

From S2P Require Import Prelude GoStrings Netip Identity.

Local Open Scope string_scope.

(** ** Kinds (selector.go) *)

Inductive Side : Type := Source | Destination.

Inductive Kind : Type :=
| KindAny | KindIP | KindCIDR | KindHost | KindExternal | KindService
| KindNamespace | KindSA | KindSPIFFE | KindLabels.

#[export] Instance selector_Kind_eq_dec : EqDecision Kind.
Proof. solve_decision. Defined.

Record kindInfo := mkKindInfo {
  name : string; source : bool; destination : bool; needsValue : bool; workload : bool }.

Definition kinds (k : Kind) : kindInfo :=
  match k with
  | KindAny => mkKindInfo "any" true true false false
  | KindIP => mkKindInfo "ip" true true true false
  | KindCIDR => mkKindInfo "cidr" true true true false
  | KindHost => mkKindInfo "host" false true true false
  | KindExternal => mkKindInfo "external" true false false true
  | KindService => mkKindInfo "service" true true true true
  | KindNamespace => mkKindInfo "namespace" true true true true
  | KindSA => mkKindInfo "sa" true false true true
  | KindSPIFFE => mkKindInfo "spiffe" true false true true
  | KindLabels => mkKindInfo "labels" true false true true
  end.

Definition all_kinds : list Kind :=
  [KindAny; KindIP; KindCIDR; KindHost; KindExternal; KindService;
   KindNamespace; KindSA; KindSPIFFE; KindLabels].

Definition kindByName (n : string) : option Kind :=
  List.find (fun k => String.eqb (name (kinds k)) n) all_kinds.

Definition KindString (k : Kind) : string := name (kinds k).
Definition KindWorkload (k : Kind) : bool := workload (kinds k).

(** [labelKV] is only iterated to test every pair, so any order gives the same. *)
Record Selector := mkSelector {
  sKind : Kind;
  sValue : string;
  addr : Addr;
  prefix : Prefix;
  host : string;
  wildcard : bool;
  labelNS : string;
  labelKV : gmap string string
}.
#[export] Instance Selector_eta : Eta Selector := fun x =>
  mkSelector (sKind x) (sValue x) (addr x) (prefix x) (host x) (wildcard x) (labelNS x) (labelKV x).

Definition zeroPrefix : Prefix := mkPrefix AddrZero 0.
Definition newSelector (k : Kind) (v : string) : Selector :=
  mkSelector k v AddrZero zeroPrefix "" false "" ∅.

Definition SelectorString (s : Selector) : string :=
  if String.eqb (sValue s) "" then KindString (sKind s)
  else KindString (sKind s) +++ ":" +++ sValue s.

(** ** Validation of values *)

Definition isLowerAlnum (c : ascii) : bool :=
  ((97 <=? byte_of c) && (byte_of c <=? 122))%Z || ((48 <=? byte_of c) && (byte_of c <=? 57))%Z.

Definition validateHostLabel (l : string) : result () :=
  if String.eqb l "" || (63 <? String.length l)%nat then Err "label must be 1-63 characters"
  else if string_all (fun c => isLowerAlnum c || Ascii.eqb c "-" || Ascii.eqb c "_") l then Ok tt
  else Err "label contains".

Definition last_byte (s : string) : option ascii := String.get (String.length s - 1) s.
Definition byte_is (o : option ascii) (b : ascii) : bool :=
  match o with Some c => Ascii.eqb c b | None => false end.

Definition validateDNSLabel (v : string) : result () :=
  if (String.length v =? 0)%nat || (63 <? String.length v)%nat then Err "must be 1-63 characters"
  else if negb (string_all (fun c => isLowerAlnum c || Ascii.eqb c "-") v) then
    Err "is not a valid Kubernetes name"
  else if byte_is (String.get 0 v) "-" || byte_is (last_byte v) "-" then
    Err "must start and end with a letter or digit"
  else Ok tt.

Definition validate_all (f : string -> result ()) (l : list string) : result () :=
  fold_result (fun _ x => f x) tt l.

Definition validateDNSSubdomain (v : string) : result () :=
  if (String.length v =? 0)%nat || (253 <? String.length v)%nat then Err "must be 1-253 characters"
  else validate_all validateDNSLabel (Split v ".").

Definition validateNamespacedName (v : string) (validateName : string -> result ()) : result () :=
  let '(ns, nm, ok) := Cut v "/" in
  if negb ok then Err "must be <namespace>/<name>"
  else let? _ := validateDNSLabel ns in validateName nm.

Definition validateSPIFFE (v : string) : result () :=
  let '(rest, ok) := CutPrefix v "//" in
  if negb ok then Err "must be spiffe://<trust-domain>/ns/<namespace>/sa/<serviceaccount>"
  else match Split rest "/" with
       | [p0; p1; p2; p3; p4] =>
           if String.eqb p0 "" || negb (String.eqb p1 "ns") || negb (String.eqb p3 "sa") then
             Err "must be spiffe://<trust-domain>/ns/<namespace>/sa/<serviceaccount>"
           else let? _ := validateDNSLabel p2 in validateDNSSubdomain p4
       | _ => Err "must be spiffe://<trust-domain>/ns/<namespace>/sa/<serviceaccount>"
       end.

Definition space_tab : string := String " " (String "009" "").

Definition parse_pair (kv : gmap string string) (pair : string) : result (gmap string string) :=
  let '(k, val, ok) := Cut pair "=" in
  if negb ok || String.eqb k "" then Err "label must be key=value"
  else if ContainsAny (k +++ val) space_tab then Err "label must not contain spaces"
  else Ok (<[k := val]> kv).

Definition parseLabels (v : string) : result (string * gmap string string) :=
  let '(before, rest, ok) := Cut v "/" in
  let? nsv := (if ok && negb (contains_byte before "=") then
                 let? _ := validateDNSLabel before in Ok (before, rest)
               else Ok ("", v)) in
  let? kv := fold_result parse_pair ∅ (Split (snd nsv) ",") in
  Ok (fst nsv, kv).

Definition parseIP (s : Selector) (v : string) : result Selector :=
  match NetipParseAddr v with
  | Some a => if String.eqb (Zone a) "" then
                let a := Unmap a in Ok (s <| addr := a |> <| sValue := AddrString a |>)
              else Err "invalid IP address"
  | None => Err "invalid IP address"
  end.

Definition parseCIDR (s : Selector) (v : string) : result Selector :=
  match ParsePrefix v with
  | None => Err "invalid CIDR"
  | Some p =>
      if negb (bool_decide (Masked p = p)) then Err "CIDR has host bits set"
      else let? p :=
             (if Is4In6 (prefix_addr p) then
                let p := PrefixFrom (Unmap (prefix_addr p)) (prefix_bits p - 96) in
                if (prefix_bits p <? 0)%Z then Err "invalid CIDR" else Ok p
              else Ok p) in
           Ok (s <| prefix := p |> <| sValue := PrefixString p |>)
  end.

Definition parseHost (s : Selector) (v : string) : result Selector :=
  let h := TrimSuffix (ToLower v) "." in
  let wild := HasPrefix h "*." in
  let name := if wild then drop_string 2 h else h in
  if String.eqb name "" || ContainsAny name "*:/" then Err "invalid host"
  else let? _ := validate_all validateHostLabel (Split name ".") in
       Ok (s <| wildcard := wild |> <| host := if wild then "." +++ name else name |>
             <| sValue := h |>).

Definition side_allowed (side : Side) (i : kindInfo) : bool :=
  match side with Source => source i | Destination => destination i end.

Definition validated (s : Selector) (r : result ()) : result Selector := let? _ := r in Ok s.

Definition Parse (raw : string) (side : Side) : result Selector :=
  let raw := TrimSpace raw in
  let '(nm, value, hasValue) := Cut raw ":" in
  match kindByName nm with
  | None => Err "unknown prefix"
  | Some kind =>
      let info := kinds kind in
      if negb (side_allowed side info) then Err "cannot be used on this side"
      else if negb (needsValue info) then
        if hasValue then Err "takes no value" else Ok (newSelector kind "")
      else if String.eqb value "" then Err "requires a value"
      else
        let sel := newSelector kind value in
        match kind with
        | KindIP => parseIP sel value
        | KindCIDR => parseCIDR sel value
        | KindHost => parseHost sel value
        | KindService => validated sel (validateNamespacedName value validateDNSLabel)
        | KindSA => validated sel (validateNamespacedName value validateDNSSubdomain)
        | KindNamespace => validated sel (validateDNSLabel value)
        | KindSPIFFE => validated sel (validateSPIFFE value)
        | KindLabels => let? l := parseLabels value in
                        Ok (sel <| labelNS := fst l |> <| labelKV := snd l |>)
        | KindAny | KindExternal => Ok sel
        end
  end.

(** ** Compiled sets *)

Record labelSelector := mkLabelSelector { lsNamespace : string; kv : gmap string string }.

(** A nil map and an empty one answer lookups alike and both are [∅]. *)
Record SelSet := mkSet {
  set_any : bool;
  addrs : gset Addr;
  prefixes : list Prefix;
  hosts : gset string;
  suffixes : list string;
  set_services : gset string;
  namespaces : gset string;
  sas : gset string;
  spiffe : gset string;
  labels : list labelSelector;
  external : bool;
  raws : list string
}.
#[export] Instance SelSet_eta : Eta SelSet := fun x =>
  mkSet (set_any x) (addrs x) (prefixes x) (hosts x) (suffixes x) (set_services x) (namespaces x)
    (sas x) (spiffe x) (labels x) (external x) (raws x).

Definition emptySet : SelSet := mkSet false ∅ [] ∅ [] ∅ ∅ ∅ ∅ [] false [].

Definition UsesWorkloads (s : option SelSet) : bool :=
  match s with
  | None => false
  | Some s => external s || negb (bool_decide (set_services s = ∅))
              || negb (bool_decide (namespaces s = ∅)) || negb (bool_decide (sas s = ∅))
              || negb (bool_decide (spiffe s = ∅)) || negb (bool_decide (length (labels s) = 0%nat))
  end.

(** The body of [Compile]'s loop after the checks: the entry's index. *)
Definition add_selector (set : SelSet) (sel : Selector) : SelSet :=
  let set := set <| raws := (raws set ++ [SelectorString sel])%list |> in
  match sKind sel with
  | KindAny => set <| set_any := true |>
  | KindIP => set <| addrs := {[ addr sel ]} ∪ addrs set |>
  | KindCIDR => set <| prefixes := (prefixes set ++ [prefix sel])%list |>
  | KindHost => if wildcard sel then set <| suffixes := (suffixes set ++ [host sel])%list |>
                else set <| hosts := {[ host sel ]} ∪ hosts set |>
  | KindService => set <| set_services := {[ sValue sel ]} ∪ set_services set |>
  | KindNamespace => set <| namespaces := {[ sValue sel ]} ∪ namespaces set |>
  | KindSA => set <| sas := {[ sValue sel ]} ∪ sas set |>
  | KindSPIFFE => set <| spiffe := {[ "spiffe:" +++ sValue sel ]} ∪ spiffe set |>
  | KindLabels => set <| labels := (labels set ++ [mkLabelSelector (labelNS sel) (labelKV sel)])%list |>
  | KindExternal => set <| external := true |>
  end.

Definition compile_one (side : Side) (allowWorkloads : bool) (set : SelSet) (raw : string)
  : result SelSet :=
  let? sel := Parse raw side in
  if KindWorkload (sKind sel) && negb allowWorkloads then
    Err "selectors require the workload identity map"
  else Ok (add_selector set sel).

Definition Compile (list : list string) (side : Side) (allowWorkloads : bool)
  : result (option SelSet) :=
  match list with
  | [] => Ok None
  | _ => let? set := fold_result (compile_one side allowWorkloads) emptySet list in Ok (Some set)
  end.

(** ** Matching *)

Definition Match (s : option SelSet) (addr : Addr) (host : string) : bool :=
  match s with
  | None => true
  | Some s =>
      set_any s
      || (IsValid addr
          && (bool_decide (addr ∈ addrs s) || existsb (fun p => PrefixContains p addr) (prefixes s)))
      || (negb (String.eqb host "")
          && (bool_decide (host ∈ hosts s)
              || existsb (fun suffix => (String.length suffix <? String.length host)%nat
                                        && HasSuffix host suffix) (suffixes s)))
  end.

Definition label_matches (l : labelSelector) (w : Workload) : bool :=
  if negb (String.eqb (lsNamespace l) "") && negb (String.eqb (lsNamespace l) (Namespace w)) then false
  else forallb (fun '(k, v) => bool_decide (Labels w !! k = Some v)) (map_to_list (kv l)).

Definition MatchSource (s : option SelSet) (addr : Addr) (w : option Workload)
  (externalAllowed : bool) : bool :=
  match s with
  | None => true
  | Some s' =>
      if set_any s' || Match s addr "" then true
      else match w with
           | None => external s' && externalAllowed
           | Some w' =>
               if negb (IsPod w) then false
               else bool_decide (Namespace w' ∈ namespaces s')
                    || bool_decide ((Namespace w' +++ "/" +++ ServiceAccount w') ∈ sas s')
                    || (bool_decide (SPIFFEID w' ∈ spiffe s') && negb (String.eqb (SPIFFEID w') ""))
                    || existsb (fun svc => bool_decide (svc ∈ set_services s')) (Services w')
                    || existsb (fun l => label_matches l w') (labels s')
           end
  end.

Definition MatchDestination (s : option SelSet) (addr : Addr) (host : string)
  (services : list string) : bool :=
  match s with
  | None => true
  | Some s' =>
      if set_any s' || Match s addr host then true
      else existsb (fun svc => bool_decide (svc ∈ set_services s')
                               || bool_decide ((Cut svc "/").1.1 ∈ namespaces s')) services
  end.

Definition SetString (s : option SelSet) : string :=
  match s with None => "" | Some s => Join (raws s) "," end.

(** ** Request values *)

Definition ParseAddr (s : string) : Addr :=
  let s := TrimSpace s in
  if String.eqb s "" then AddrZero
  else match ParseAddrPort s with
       | Some a => Unmap (WithZone a "")
       | None =>
           match NetipParseAddr (TrimSuffix (TrimPrefix s "[") "]") with
           | Some a => Unmap (WithZone a "")
           | None => AddrZero
           end
       end.

Definition NormalizeHost (authority : string) : string :=
  let h := TrimSpace authority in
  if String.eqb h "" then ""
  else
    let h := match SplitHostPort h with
             | Some (host, _) => host
             | None => TrimSuffix (TrimPrefix h "[") "]"
             end in
    TrimSuffix (ToLower h) ".".

(** ** Traffic classes (traffic.go) *)

Inductive Traffic : Type := TrafficAny | TrafficNorthSouth | TrafficEastWest.

#[export] Instance Traffic_eq_dec : EqDecision Traffic.
Proof. solve_decision. Defined.

Definition TrafficMetadataKey : string := "x-hypergate-traffic".

Definition TrafficString (t : Traffic) : string :=
  match t with
  | TrafficNorthSouth => "north_south"
  | TrafficEastWest => "east_west"
  | TrafficAny => "any"
  end.

Definition ParseTraffic (v : string) : result Traffic :=
  let n := delete_bytes (fun c => Ascii.eqb c "-" || Ascii.eqb c "_") (ToLower (TrimSpace v)) in
  if String.eqb n "" || String.eqb n "any" then Ok TrafficAny
  else if String.eqb n "northsouth" then Ok TrafficNorthSouth
  else if String.eqb n "eastwest" then Ok TrafficEastWest
  else Err "invalid traffic (expected north_south, east_west or any)".

(** ** What one selector means

    The specification of matching, selector by selector. *)

Definition pod_with (w : option Workload) (P : Workload -> Prop) : Prop :=
  exists p, w = Some p /\ WKind p = KindPod /\ P p.

Definition selects_addr (sel : Selector) (a : Addr) : Prop :=
  match sKind sel with
  | KindAny => True
  | KindIP => IsValid a = true /\ a = addr sel
  | KindCIDR => IsValid a = true /\ PrefixContains (prefix sel) a = true
  | _ => False
  end.

Definition selects_pod (sel : Selector) (p : Workload) : Prop :=
  match sKind sel with
  | KindService => sValue sel ∈ Services p
  | KindNamespace => sValue sel = Namespace p
  | KindSA => sValue sel = Namespace p +++ "/" +++ ServiceAccount p
  | KindSPIFFE => SPIFFEID p = "spiffe:" +++ sValue sel
  | KindLabels => (labelNS sel = "" \/ labelNS sel = Namespace p) /\ labelKV sel ⊆ Labels p
  | _ => False
  end.

Definition selects_source (sel : Selector) (a : Addr) (w : option Workload) (ext : bool) : Prop :=
  selects_addr sel a
  \/ (sKind sel = KindExternal /\ w = None /\ ext = true)
  \/ pod_with w (selects_pod sel).

Definition selects_destination (sel : Selector) (a : Addr) (h : string) (svcs : list string) : Prop :=
  match sKind sel with
  | KindHost => h <> "" /\ if wildcard sel then exists l, l <> "" /\ h = l +++ host sel else h = host sel
  | KindService => sValue sel ∈ svcs
  | KindNamespace => exists svc, svc ∈ svcs /\ (Cut svc "/").1.1 = sValue sel
  | _ => selects_addr sel a
  end.

(** ** Lemmas *)

Definition set_selects_addr (s : SelSet) (a : Addr) : Prop :=
  set_any s = true \/ IsValid a = true /\ (a ∈ addrs s \/ exists p, p ∈ prefixes s /\ PrefixContains p a = true).

Lemma HasSuffix_strict h p :
  (String.length p <? String.length h)%nat && HasSuffix h p = true <-> exists l, l <> "" /\ h = l +++ p.
Proof.
  rewrite andb_true_iff, HasSuffix_spec, Nat.ltb_lt. split.
  - intros [Hlen [t ->]]. exists t. split; [|done]. intros ->. simpl in Hlen. lia.
  - intros [l [Hl ->]]. split; [|eauto]. rewrite string_length_app. destruct l; [done|]. simpl. lia.
Qed.

Lemma Match_spec s a h :
  Match (Some s) a h = true <->
  set_selects_addr s a \/
  (h <> "" /\ (h ∈ hosts s \/ exists suffix, suffix ∈ suffixes s /\ exists l, l <> "" /\ h = l +++ suffix)).
Proof.
  simpl. unfold set_selects_addr. rewrite !orb_true_iff, !andb_true_iff, !orb_true_iff, !bool_decide_eq_true.
  rewrite !existsb_elem, negb_true_iff, String.eqb_neq. setoid_rewrite HasSuffix_strict. tauto.
Qed.

Lemma label_matches_spec l w :
  label_matches l w = true <->
  (lsNamespace l = "" \/ lsNamespace l = Namespace w) /\ kv l ⊆ Labels w.
Proof.
  unfold label_matches.
  assert (forallb (fun '(k, v) => bool_decide (Labels w !! k = Some v)) (map_to_list (kv l)) = true
          <-> kv l ⊆ Labels w) as Hsub.
  { rewrite forallb_forall, map_subseteq_spec. split.
    - intros H k v Hk. specialize (H (k, v)). simpl in H. rewrite bool_decide_eq_true in H.
      apply H. by apply list_elem_of_In, elem_of_map_to_list.
    - intros H [k v] Hk. apply bool_decide_eq_true, H.
      by apply list_elem_of_In, elem_of_map_to_list in Hk. }
  destruct (String.eqb_spec (lsNamespace l) "") as [->|H1]; simpl; [tauto|].
  destruct (String.eqb_spec (lsNamespace l) (Namespace w)); simpl; [tauto|].
  split; [done|]. intros [[?|?] _]; done.
Qed.

Definition set_selects_pod (s : SelSet) (p : Workload) : Prop :=
  Namespace p ∈ namespaces s
  \/ (Namespace p +++ "/" +++ ServiceAccount p) ∈ sas s
  \/ (SPIFFEID p ∈ spiffe s /\ SPIFFEID p <> "")
  \/ (exists svc, svc ∈ Services p /\ svc ∈ set_services s)
  \/ (exists l, l ∈ labels s /\ (lsNamespace l = "" \/ lsNamespace l = Namespace p) /\ kv l ⊆ Labels p).

Lemma MatchSource_spec s a w ext :
  MatchSource (Some s) a w ext = true <->
  set_selects_addr s a \/ (w = None /\ external s = true /\ ext = true) \/ pod_with w (set_selects_pod s).
Proof.
  assert (set_any s || Match (Some s) a "" = true <-> set_selects_addr s a) as Haddr.
  { rewrite orb_true_iff, Match_spec. unfold set_selects_addr. naive_solver. }
  unfold MatchSource. destruct (set_any s || Match (Some s) a "").
  { split; [|done]. intros _. left. by apply Haddr. }
  assert (~ set_selects_addr s a) as Hn by (rewrite <- Haddr; done). clear Haddr.
  unfold pod_with. destruct w as [w|].
  - assert (IsPod (Some w) = true <-> WKind w = KindPod) as Hpod by (simpl; destruct (WKind w); done).
    destruct (IsPod (Some w)); simpl; [|naive_solver].
    unfold set_selects_pod.
    rewrite !orb_true_iff, !andb_true_iff, !bool_decide_eq_true, !existsb_elem, negb_true_iff, String.eqb_neq.
    setoid_rewrite bool_decide_eq_true. setoid_rewrite label_matches_spec. split.
    + intros H. right; right. exists w. split; [done|]. split; [by apply Hpod|]. tauto.
    + intros [?|[[? _]|(p & [= <-] & _ & H)]]; [done..|]. tauto.
  - rewrite andb_true_iff. naive_solver.
Qed.

Lemma MatchDestination_spec s a h svcs :
  MatchDestination (Some s) a h svcs = true <->
  Match (Some s) a h = true \/
  exists svc, svc ∈ svcs /\ (svc ∈ set_services s \/ (Cut svc "/").1.1 ∈ namespaces s).
Proof.
  unfold MatchDestination.
  assert (set_any s || Match (Some s) a h = true <-> Match (Some s) a h = true) as Haddr.
  { rewrite orb_true_iff, Match_spec. unfold set_selects_addr. tauto. }
  destruct (set_any s || Match (Some s) a h).
  { split; [|done]. intros _. left. by apply Haddr. }
  assert (Match (Some s) a h <> true) as Hn by (rewrite <- Haddr; done). clear Haddr.
  rewrite existsb_elem. split.
  - intros (svc & Hin & H). rewrite orb_true_iff, !bool_decide_eq_true in H. eauto.
  - intros [?|(svc & Hin & H)]; [done|]. exists svc. by rewrite orb_true_iff, !bool_decide_eq_true.
Qed.

Lemma add_selector_addr s sel a :
  set_selects_addr (add_selector s sel) a <-> set_selects_addr s a \/ selects_addr sel a.
Proof.
  unfold set_selects_addr, selects_addr, add_selector.
  destruct (sKind sel); [..|destruct (wildcard sel)| | | | | |]; cbn; try tauto.
  - rewrite elem_of_union, elem_of_singleton. tauto.
  - setoid_rewrite elem_of_app. setoid_rewrite list_elem_of_singleton. naive_solver.
Qed.

Lemma add_selector_pod s sel p :
  set_selects_pod (add_selector s sel) p <-> set_selects_pod s p \/ selects_pod sel p.
Proof.
  unfold set_selects_pod, selects_pod, add_selector.
  destruct (sKind sel); [..|destruct (wildcard sel)| | | | | |]; cbn; [tauto..| | | | |];
    rewrite ?elem_of_union, ?elem_of_singleton.
  - setoid_rewrite elem_of_union. setoid_rewrite elem_of_singleton. naive_solver.
  - intuition congruence.
  - intuition congruence.
  - split; [tauto|]. intros [?|E]; [tauto|]. rewrite E. right; right; left. split; [by left|done].
  - setoid_rewrite elem_of_app. setoid_rewrite list_elem_of_singleton. split.
    + intros [?|[?|[?|[?|(l & [Hl| ->] & Hm)]]]]; [tauto..| |by right]. left. do 4 right. eauto.
    + intros [[?|[?|[?|[?|(l & Hl & Hm)]]]]|Hm]; [tauto..| |]; do 4 right; [by eauto|].
      eexists. split; [by right|done].
Qed.

Lemma add_selector_external s sel :
  external (add_selector s sel) = true <-> external s = true \/ sKind sel = KindExternal.
Proof.
  unfold add_selector.
  destruct (sKind sel); [..|destruct (wildcard sel)| | | | | |]; cbn; naive_solver.
Qed.

(** Adding a selector to a set adds exactly what the selector means. *)
Lemma add_selector_source s sel a w ext :
  MatchSource (Some (add_selector s sel)) a w ext = true <->
  MatchSource (Some s) a w ext = true \/ selects_source sel a w ext.
Proof.
  rewrite !MatchSource_spec, add_selector_addr, add_selector_external.
  unfold selects_source, pod_with. setoid_rewrite add_selector_pod. split.
  - intros [[?|?]|[(?&[?|?]&?)|(p & ? & ? & [?|?])]]; eauto 10.
  - intros [[?|[?|(p & ? & ? & ?)]]|[?|[?|(p & ? & ? & ?)]]]; naive_solver eauto 10.
Qed.

Lemma add_selector_host s sel h :
  h <> "" ->
  (h ∈ hosts (add_selector s sel) \/
   exists suffix, suffix ∈ suffixes (add_selector s sel) /\ exists l, l <> "" /\ h = l +++ suffix) <->
  (h ∈ hosts s \/ exists suffix, suffix ∈ suffixes s /\ exists l, l <> "" /\ h = l +++ suffix) \/
  (sKind sel = KindHost /\
   if wildcard sel then exists l, l <> "" /\ h = l +++ host sel else h = host sel).
Proof.
  intros Hh. unfold add_selector.
  destruct (sKind sel); [..|destruct (wildcard sel)| | | | | |]; cbn;
    try (intuition discriminate).
  - setoid_rewrite elem_of_app. setoid_rewrite list_elem_of_singleton. split.
    + intros [?|(sf & [?| ->] & ?)]; eauto 6.
    + intros [[?|(sf & ? & ?)]|[_ ?]]; eauto 6.
  - rewrite elem_of_union, elem_of_singleton. tauto.
Qed.

Lemma add_selector_dest_services s sel (svcs : list string) :
  (exists svc, svc ∈ svcs /\
     (svc ∈ set_services (add_selector s sel) \/ (Cut svc "/").1.1 ∈ namespaces (add_selector s sel))) <->
  (exists svc, svc ∈ svcs /\ (svc ∈ set_services s \/ (Cut svc "/").1.1 ∈ namespaces s)) \/
  (sKind sel = KindService /\ sValue sel ∈ svcs) \/
  (sKind sel = KindNamespace /\ exists svc, svc ∈ svcs /\ (Cut svc "/").1.1 = sValue sel).
Proof.
  unfold add_selector.
  destruct (sKind sel); [..|destruct (wildcard sel)| | | | | |]; cbn; try (split; [by eauto|]; naive_solver).
  - setoid_rewrite elem_of_union. setoid_rewrite elem_of_singleton. split.
    + intros (svc & Hin & [[->|?]|?]); eauto 10.
    + intros [(svc & ? & [?|?])|[[_ ?]|[? _]]]; eauto 10. done.
  - setoid_rewrite elem_of_union. setoid_rewrite elem_of_singleton. split.
    + intros (svc & Hin & [?|[?|?]]); eauto 10.
    + intros [(svc & ? & [?|?])|[[? _]|(_ & svc & ? & ?)]]; eauto 10. done.
Qed.

Lemma add_selector_destination s sel a h svcs :
  MatchDestination (Some (add_selector s sel)) a h svcs = true <->
  MatchDestination (Some s) a h svcs = true \/ selects_destination sel a h svcs.
Proof.
  rewrite !MatchDestination_spec, !Match_spec, add_selector_addr, add_selector_dest_services.
  assert (selects_destination sel a h svcs <->
    selects_addr sel a \/
    (h <> "" /\ sKind sel = KindHost /\
       if wildcard sel then exists l, l <> "" /\ h = l +++ host sel else h = host sel) \/
    (sKind sel = KindService /\ sValue sel ∈ svcs) \/
    (sKind sel = KindNamespace /\ exists svc, svc ∈ svcs /\ (Cut svc "/").1.1 = sValue sel)) as ->.
  { unfold selects_destination, selects_addr. destruct (sKind sel); naive_solver. }
  destruct (decide (h = "")) as [->|Hh]; [naive_solver|].
  rewrite (add_selector_host s sel h Hh). tauto.
Qed.

Definition accepts_raw (side : Side) (allowWorkloads : bool) (raw : string) : bool :=
  match Parse raw side with
  | Ok sel => negb (KindWorkload (sKind sel)) || allowWorkloads
  | Err _ => false
  end.

Lemma compile_one_Ok side allow s raw s' :
  compile_one side allow s raw = Ok s' ->
  exists sel, Parse raw side = Ok sel /\ s' = add_selector s sel.
Proof.
  unfold compile_one. intros (sel & Hp & H)%result_bind_Ok.
  destruct (KindWorkload (sKind sel) && negb allow); [done|]. injection H as <-. eauto.
Qed.

(** A compiled set means the disjunction of its entries, for a meaning that
    [add_selector] extends by one entry. *)
Lemma compile_fold side allow (M : SelSet -> Prop) (D : Selector -> Prop) l s s' :
  (forall s sel, M (add_selector s sel) <-> M s \/ D sel) ->
  fold_result (compile_one side allow) s l = Ok s' ->
  M s' <-> M s \/ exists raw sel, raw ∈ l /\ Parse raw side = Ok sel /\ D sel.
Proof.
  intros Hadd. revert s; induction l as [|raw l IH]; simpl; intros s H.
  - injection H as <-. set_solver.
  - apply result_bind_Ok in H as (s1 & (sel & Hp & ->)%compile_one_Ok & H).
    rewrite (IH _ H), Hadd. setoid_rewrite elem_of_cons. split.
    + intros [[?|?]|(r & sel' & ? & ? & ?)]; [by left|right; by eauto 10..].
    + intros [?|(r & sel' & [->|?] & ? & ?)]; [left; by left| |right; by eauto].
      assert (sel' = sel) as -> by congruence. left; by right.
Qed.

Lemma emptySet_source a w ext : MatchSource (Some emptySet) a w ext = false.
Proof.
  apply not_true_iff_false. rewrite MatchSource_spec. unfold set_selects_addr, pod_with, set_selects_pod.
  cbn. set_solver.
Qed.

Lemma emptySet_destination a h svcs : MatchDestination (Some emptySet) a h svcs = false.
Proof.
  apply not_true_iff_false. rewrite MatchDestination_spec, Match_spec. unfold set_selects_addr.
  cbn. set_solver.
Qed.

Lemma fold_compile_ok side allow l s :
  is_ok (fold_result (compile_one side allow) s l) = forallb (accepts_raw side allow) l.
Proof.
  revert s; induction l as [|raw l IH]; intros s; simpl; [done|].
  unfold compile_one at 1, accepts_raw at 1. destruct (Parse raw side) as [sel|]; simpl; [|done].
  destruct (KindWorkload (sKind sel)), allow; simpl; auto.
Qed.

(** The meaning of a compiled list of source selectors. *)
Lemma Compile_source_spec (list : list string) (allow : bool) (set : option SelSet)
  (a : Addr) (w : option Workload) (ext : bool) :
  Compile list Source allow = Ok set ->
  MatchSource set a w ext = true <->
  list = [] \/ exists raw sel, raw ∈ list /\ Parse raw Source = Ok sel /\ selects_source sel a w ext.
Proof.
  destruct list as [|r l]; unfold Compile.
  { intros [= <-]. simpl. tauto. }
  intros (s & H & E)%result_bind_Ok. injection E as <-.
  rewrite (compile_fold Source allow (fun s => MatchSource (Some s) a w ext = true)
             (fun sel => selects_source sel a w ext) _ _ _
             (fun s sel => add_selector_source s sel a w ext) H), emptySet_source.
  naive_solver.
Qed.

(** The meaning of a compiled list of destination selectors. *)
Lemma Compile_destination_spec (list : list string) (allow : bool) (set : option SelSet)
  (a : Addr) (h : string) (svcs : List.list string) :
  Compile list Destination allow = Ok set ->
  MatchDestination set a h svcs = true <->
  list = [] \/
  exists raw sel, raw ∈ list /\ Parse raw Destination = Ok sel /\ selects_destination sel a h svcs.
Proof.
  destruct list as [|r l]; unfold Compile.
  { intros [= <-]. simpl. tauto. }
  intros (s & H & E)%result_bind_Ok. injection E as <-.
  rewrite (compile_fold Destination allow (fun s => MatchDestination (Some s) a h svcs = true)
             (fun sel => selects_destination sel a h svcs) _ _ _
             (fun s sel => add_selector_destination s sel a h svcs) H), emptySet_destination.
  naive_solver.
Qed.

(** The addresses the engine compares are in one form: unmapped, no zone. *)
Lemma ParseAddr_canonical s : Unmap (ParseAddr s) = ParseAddr s.
Proof.
  unfold ParseAddr. repeat (case_match; [|]); by rewrite ?Unmap_idem.
Qed.

Lemma Compile_ok (list : list string) (side : Side) (allow : bool) :
  is_ok (Compile list side allow) = forallb (accepts_raw side allow) list.
Proof.
  destruct list as [|r l]; [done|]. unfold Compile. rewrite <- (fold_compile_ok side allow _ emptySet).
  by destruct (fold_result _ _ _).
Qed.

(** ** Properties *)

(** C17: the indexed sets mean what their entries say. A list compiles exactly when
    every entry parses for its side and, unless the engine receives the identity
    map, none of them is a workload selector: one refused entry refuses the whole
    list. A compiled source list accepts a caller exactly when some selector of the
    list, read on its own, selects that caller, a compiled destination list accepts
    an address, a host or a resolved Service exactly when some selector selects it
    (a wildcard host selects strict subdomains only), and an empty list is no
    constraint. *)
Theorem Compile_refines :
  (forall list side allow, is_ok (Compile list side allow) = forallb (accepts_raw side allow) list) /\
  (forall (srcs dsts : list string) (allow : bool) (s d : option SelSet)
     (a : Addr) (w : option Workload) (ext : bool) (h : string) (svcs : list string),
   Compile srcs Source allow = Ok s -> Compile dsts Destination allow = Ok d ->
   (MatchSource s a w ext = true <->
    srcs = [] \/ exists raw sel, raw ∈ srcs /\ Parse raw Source = Ok sel /\ selects_source sel a w ext) /\
   (MatchDestination d a h svcs = true <->
    dsts = [] \/ exists raw sel, raw ∈ dsts /\ Parse raw Destination = Ok sel /\
      selects_destination sel a h svcs)).
Proof. split; [exact Compile_ok|]. eauto using Compile_source_spec, Compile_destination_spec. Qed.

Definition example_pod : Workload :=
  mkWorkload (Addr4 167772161) KindPod "shop" "cart-0" "u" "cart" "spiffe://td/ns/shop/sa/cart" "n1"
    {["app" := "cart"]} ["shop/cart"] 7.

Lemma Compile_refines_witness :
  exists s d, Compile ["cidr:10.1.0.0/16"; "sa:shop/cart"] Source true = Ok s /\
    Compile ["host:*.example.com"] Destination true = Ok d /\
  ((MatchSource s (Addr4 167772161) (Some example_pod) false = true <->
    ["cidr:10.1.0.0/16"; "sa:shop/cart"] = [] \/
    exists raw sel, raw ∈ ["cidr:10.1.0.0/16"; "sa:shop/cart"] /\ Parse raw Source = Ok sel /\
      selects_source sel (Addr4 167772161) (Some example_pod) false) /\
   (MatchDestination d (Addr4 167772161) "api.example.com" [] = true <->
    ["host:*.example.com"] = [] \/
    exists raw sel, raw ∈ ["host:*.example.com"] /\ Parse raw Destination = Ok sel /\
      selects_destination sel (Addr4 167772161) "api.example.com" [])).
Proof.
  eexists _, _. split; [vm_compute; reflexivity|]. split; [vm_compute; reflexivity|].
  apply (proj2 Compile_refines _ _ true); vm_compute; reflexivity.
Defined.
