(* ===== verification/Context.v ===== *)
(** * Context: the state of one request (internal/engine/context.go, phase.go,
    internal/memory/pool.go)

    [RequestContext] carries what filters read and the header, trailer and body
    changes they ask for. Slices are lists and maps are [gmap]s; the order of
    [HeadersToAdd] is kept as the code keeps it (swap-with-last deletion).

    The theorems read the bookkeeping through one map, the headers in effect:
    setters and removers are insertion and deletion of it, getters look it up,
    and Envoy carries the same map on when it applies the mutation it is sent, but for the
    headers its rules protect. *)

From S2P Require Import Prelude GoStrings Netip Identity Selector.

Local Open Scope string_scope.

(** ** Phases *)

Inductive Phase : Type :=
| PhaseRequestHeaders | PhaseRequestBody | PhaseRequestTrailers
| PhaseResponseHeaders | PhaseResponseBody | PhaseResponseTrailers.

#[export] Instance Phase_eq_dec : EqDecision Phase.
Proof. solve_decision. Defined.

(** ** Data *)

Record Header := mkHeader { hKey : string; hValue : string; hAppend : bool }.
#[export] Instance Header_eq_dec : EqDecision Header.
Proof. solve_decision. Defined.

Record AuditHit := mkAuditHit { Index_ : Z; Status : Z; Failed : bool }.

(** The parts of [corev3.HeaderValueOption] the engine fills in; the append
    action is always OVERWRITE_IF_EXISTS_OR_ADD. *)
Record HeaderValueOption := mkHeaderValueOption { ovKey : string; ovRawValue : string }.

(** [context.Context]: what the code observes of it is its deadline. *)
Record GoContext := mkGoContext { deadline : option Z }.

Record RequestContext := mkRequestContext {
  Ctx : option GoContext;
  CPhase : Phase;
  Path : string;
  Method : string;
  ClientIP : string;
  ClientAddr : Addr;
  DestinationAddress : string;
  DestinationAddr : Addr;
  Host : string;
  CTraffic : Traffic;
  SourceWorkload : option Workload;
  DestinationServices : list string;
  RequestEndOfStream : bool;
  RequestBodySeen : bool;
  Headers : gmap string string;
  ResponseHeaders : gmap string string;
  HeadersToAdd : list Header;
  ResponseHeadersToAdd : list Header;
  HeadersToRemove : list string;
  ResponseHeadersToRemove : list string;
  Blocked : bool;
  BlockedBy : Z;
  FilterFailed : bool;
  Answered : bool;
  AuditHits : list AuditHit;
  MatchedRoute : string;
  ResponseStatus : Z;
  ResponseBody : string;
  UpstreamShadow : gmap string string;
  DownstreamShadow : gmap string string;
  RequestBody : string;
  ResponseBodyBytes : string;
  RequestTrailersToAdd : list Header;
  ResponseTrailersToAdd : list Header;
  RequestTrailersToRemove : list string;
  ResponseTrailersToRemove : list string;
  RequestBodyRequired : bool;
  ResponseBodyRequired : bool;
  RequestTrailersRequired : bool;
  ResponseTrailersRequired : bool;
  RequestBodyModified : bool;
  ResponseBodyModified : bool;
  RequestTrailersModified : bool;
  ResponseTrailersModified : bool;
  SetHeaderOptions : list HeaderValueOption
}.
#[export] Instance RequestContext_eta : Eta RequestContext := fun c =>
  mkRequestContext (Ctx c) (CPhase c) (Path c) (Method c) (ClientIP c) (ClientAddr c)
    (DestinationAddress c) (DestinationAddr c) (Host c) (CTraffic c) (SourceWorkload c)
    (DestinationServices c) (RequestEndOfStream c) (RequestBodySeen c) (Headers c)
    (ResponseHeaders c) (HeadersToAdd c) (ResponseHeadersToAdd c) (HeadersToRemove c)
    (ResponseHeadersToRemove c) (Blocked c) (BlockedBy c) (FilterFailed c) (Answered c)
    (AuditHits c) (MatchedRoute c) (ResponseStatus c) (ResponseBody c) (UpstreamShadow c)
    (DownstreamShadow c) (RequestBody c) (ResponseBodyBytes c) (RequestTrailersToAdd c)
    (ResponseTrailersToAdd c) (RequestTrailersToRemove c) (ResponseTrailersToRemove c)
    (RequestBodyRequired c) (ResponseBodyRequired c) (RequestTrailersRequired c)
    (ResponseTrailersRequired c) (RequestBodyModified c) (ResponseBodyModified c)
    (RequestTrailersModified c) (ResponseTrailersModified c) (SetHeaderOptions c).

(** ** Slice helpers *)

(** Overwrites the first entry of [key], otherwise appends. *)
Fixpoint upsertHeader (headers : list Header) (key value : string) : list Header :=
  match headers with
  | [] => [mkHeader key value false]
  | h :: hs => if String.eqb (hKey h) key then mkHeader (hKey h) value (hAppend h) :: hs
               else h :: upsertHeader hs key value
  end.

(** [l[i] = l[len-1]; return l[:len-1]]: the last element replaces the removed one. *)
Definition swap_remove {A : Type} (l : list A) (i : nat) : list A :=
  match last l with
  | Some x => take (length l - 1) (<[i := x]> l)
  | None => l
  end.

Fixpoint find_index {A : Type} (f : A -> bool) (l : list A) : option nat :=
  match l with
  | [] => None
  | x :: l' => if f x then Some 0%nat else S <$> find_index f l'
  end.

Definition removeHeader (headers : list Header) (key : string) : list Header :=
  match find_index (fun h => String.eqb (hKey h) key) headers with
  | Some i => swap_remove headers i
  | None => headers
  end.

Definition containsKey (keys : list string) (key : string) : bool :=
  existsb (fun k => String.eqb k key) keys.

Definition appendKey (keys : list string) (key : string) : list string :=
  if containsKey keys key then keys else (keys ++ [key])%list.

Definition removeKey (keys : list string) (key : string) : list string :=
  match find_index (fun k => String.eqb k key) keys with
  | Some i => swap_remove keys i
  | None => keys
  end.

(** ** Operations *)

(** A context as [sync.Pool]'s New function makes it. *)
Definition newContext : RequestContext :=
  mkRequestContext None PhaseRequestHeaders "" "" "" AddrZero "" AddrZero "" TrafficAny None []
    false false ∅ ∅ [] [] [] [] false (-1) false false [] "" 0 "" ∅ ∅ "" "" [] [] [] []
    false false false false false false false false [].

Definition Reset (c : RequestContext) : RequestContext :=
  c <| Ctx := None |>
    <| CPhase := PhaseRequestHeaders |>
    <| RequestBodySeen := false |>
    <| Path := "" |>
    <| Method := "" |>
    <| ClientIP := "" |>
    <| ClientAddr := AddrZero |>
    <| DestinationAddress := "" |>
    <| DestinationAddr := AddrZero |>
    <| Host := "" |>
    <| CTraffic := TrafficAny |>
    <| SourceWorkload := None |>
    <| DestinationServices := [] |>
    <| RequestEndOfStream := false |>
    <| Headers := ∅ |>
    <| ResponseHeaders := ∅ |>
    <| HeadersToAdd := [] |>
    <| ResponseHeadersToAdd := [] |>
    <| HeadersToRemove := [] |>
    <| ResponseHeadersToRemove := [] |>
    <| UpstreamShadow := ∅ |>
    <| DownstreamShadow := ∅ |>
    <| Blocked := false |>
    <| BlockedBy := (-1)%Z |>
    <| FilterFailed := false |>
    <| Answered := false |>
    <| AuditHits := [] |>
    <| MatchedRoute := "" |>
    <| ResponseStatus := 0%Z |>
    <| ResponseBody := "" |>
    <| SetHeaderOptions := [] |>
    <| RequestBody := "" |>
    <| ResponseBodyBytes := "" |>
    <| RequestTrailersToAdd := [] |>
    <| ResponseTrailersToAdd := [] |>
    <| RequestTrailersToRemove := [] |>
    <| ResponseTrailersToRemove := [] |>
    <| RequestBodyRequired := false |>
    <| ResponseBodyRequired := false |>
    <| RequestTrailersRequired := false |>
    <| ResponseTrailersRequired := false |>
    <| RequestBodyModified := false |>
    <| ResponseBodyModified := false |>
    <| RequestTrailersModified := false |>
    <| ResponseTrailersModified := false |>.

Definition Block (c : RequestContext) (status : Z) (body : string) : RequestContext :=
  c <| Blocked := true |> <| ResponseStatus := status |> <| ResponseBody := body |>.

Definition Answer (c : RequestContext) (status : Z) (body : string) : RequestContext :=
  (Block c status body) <| Answered := true |>.

Definition GetHeader (c : RequestContext) (key : string) : string :=
  match UpstreamShadow c !! key with
  | Some val => val
  | None => if containsKey (HeadersToRemove c) key then "" else default "" (Headers c !! key)
  end.

Definition GetDownstreamHeader (c : RequestContext) (key : string) : string :=
  default "" (DownstreamShadow c !! ToLower key).

Definition GetResponseHeader (c : RequestContext) (key : string) : string :=
  let key := ToLower key in
  match DownstreamShadow c !! key with
  | Some val => val
  | None => if containsKey (ResponseHeadersToRemove c) key then ""
            else default "" (ResponseHeaders c !! key)
  end.

Definition SetHeaderUpstream (c : RequestContext) (key value : string) : RequestContext :=
  let key := ToLower key in
  c <| UpstreamShadow := <[key := value]> (UpstreamShadow c) |>
    <| HeadersToRemove := removeKey (HeadersToRemove c) key |>
    <| HeadersToAdd := upsertHeader (HeadersToAdd c) key value |>.

Definition SetPath (c : RequestContext) (path : string) : RequestContext :=
  SetHeaderUpstream (c <| Path := path |>) ":path" path.

Definition RemoveHeaderUpstream (c : RequestContext) (key : string) : RequestContext :=
  let key := ToLower key in
  c <| UpstreamShadow := delete key (UpstreamShadow c) |>
    <| HeadersToAdd := removeHeader (HeadersToAdd c) key |>
    <| HeadersToRemove := appendKey (HeadersToRemove c) key |>.

Definition SetHeaderDownstream (c : RequestContext) (key value : string) : RequestContext :=
  let key := ToLower key in
  c <| DownstreamShadow := <[key := value]> (DownstreamShadow c) |>
    <| ResponseHeadersToRemove := removeKey (ResponseHeadersToRemove c) key |>
    <| ResponseHeadersToAdd := upsertHeader (ResponseHeadersToAdd c) key value |>.

Definition RemoveHeaderDownstream (c : RequestContext) (key : string) : RequestContext :=
  let key := ToLower key in
  c <| DownstreamShadow := delete key (DownstreamShadow c) |>
    <| ResponseHeadersToAdd := removeHeader (ResponseHeadersToAdd c) key |>
    <| ResponseHeadersToRemove := appendKey (ResponseHeadersToRemove c) key |>.

Definition SetTrailerUpstream (c : RequestContext) (key value : string) : RequestContext :=
  let key := ToLower key in
  c <| RequestTrailersToRemove := removeKey (RequestTrailersToRemove c) key |>
    <| RequestTrailersToAdd := upsertHeader (RequestTrailersToAdd c) key value |>
    <| RequestTrailersModified := true |>.

Definition RemoveHeaderUpstreamTrailer (c : RequestContext) (key : string) : RequestContext :=
  let key := ToLower key in
  c <| RequestTrailersToAdd := removeHeader (RequestTrailersToAdd c) key |>
    <| RequestTrailersToRemove := appendKey (RequestTrailersToRemove c) key |>
    <| RequestTrailersModified := true |>.

Definition SetTrailerDownstream (c : RequestContext) (key value : string) : RequestContext :=
  let key := ToLower key in
  c <| ResponseTrailersToRemove := removeKey (ResponseTrailersToRemove c) key |>
    <| ResponseTrailersToAdd := upsertHeader (ResponseTrailersToAdd c) key value |>
    <| ResponseTrailersModified := true |>.

Definition RemoveHeaderDownstreamTrailer (c : RequestContext) (key : string) : RequestContext :=
  let key := ToLower key in
  c <| ResponseTrailersToAdd := removeHeader (ResponseTrailersToAdd c) key |>
    <| ResponseTrailersToRemove := appendKey (ResponseTrailersToRemove c) key |>
    <| ResponseTrailersModified := true |>.

(** ** The pool (memory/pool.go)

    [sync.Pool] holds released contexts and may forget any of them; [Get] returns
    a held one or a new one. *)

Inductive pool_step : list RequestContext -> list RequestContext -> Prop :=
| pool_drop l1 c l2 : pool_step (l1 ++ c :: l2) (l1 ++ l2)
| pool_release l c : pool_step l (Reset c :: l).

Definition pool_acquire (p : list RequestContext) (c : RequestContext) : Prop :=
  c = newContext \/ c ∈ p.

(** ** Specification: headers in effect

    One direction's bookkeeping: the mutation to send and its shadow map. *)

Record HeaderOps := mkHeaderOps {
  adds : list Header; removes : list string; shadow : gmap string string }.

Definition set_op (o : HeaderOps) (key value : string) : HeaderOps :=
  mkHeaderOps (upsertHeader (adds o) key value) (removeKey (removes o) key)
    (<[key := value]> (shadow o)).
Definition remove_op (o : HeaderOps) (key : string) : HeaderOps :=
  mkHeaderOps (removeHeader (adds o) key) (appendKey (removes o) key) (delete key (shadow o)).

Definition upstream (c : RequestContext) : HeaderOps :=
  mkHeaderOps (HeadersToAdd c) (HeadersToRemove c) (UpstreamShadow c).
Definition downstream (c : RequestContext) : HeaderOps :=
  mkHeaderOps (ResponseHeadersToAdd c) (ResponseHeadersToRemove c) (DownstreamShadow c).

Definition header_pairs (l : list Header) : list (string * string) := (fun h => (hKey h, hValue h)) <$> l.

(** Every key is set once or removed once, never both, and the shadow map is
    what is set. *)
Record ops_wf (o : HeaderOps) : Prop := {
  wf_adds : NoDup (hKey <$> adds o);
  wf_removes : NoDup (removes o);
  wf_disjoint : forall k, k ∈ hKey <$> adds o -> k ∉ removes o;
  wf_shadow : list_to_map (header_pairs (adds o)) = shadow o
}.

Definition ctx_wf (c : RequestContext) : Prop := ops_wf (upstream c) /\ ops_wf (downstream c).

(** The headers the other side sees: removed ones are gone, set ones win. *)
Definition in_effect (base : gmap string string) (o : HeaderOps) : gmap string string :=
  shadow o ∪ foldr delete base (removes o).

(** The headers an external processor may change under Envoy's default mutation rules
    (website/docs/reference/envoy-configuration.md). *)
Definition envoy_mutable (key : string) : bool :=
  negb (existsb (String.eqb key) ["host"; ":authority"; ":scheme"; ":method"]) && negb (HasPrefix key "x-envoy-").

(** Envoy's application of a HeaderMutation, removals first or last; changes it does not
    allow are left out. *)
Definition envoy_set (l : list Header) (m : gmap string string) : gmap string string :=
  fold_left (fun m h => if envoy_mutable (hKey h) then <[hKey h := hValue h]> m else m) l m.
Definition envoy_remove (l : list string) (m : gmap string string) : gmap string string :=
  fold_left (fun m k => if envoy_mutable k then delete k m else m) l m.

(** The headers [m] that go on, of the headers Envoy had and the headers wanted. *)
Definition carried (had wanted m : gmap string string) : Prop :=
  forall k, m !! k = if envoy_mutable k then wanted !! k else had !! k.

(** The calls filters make, and what they mean on a pair of header maps. *)
Inductive HeaderCall : Type :=
| CallSetUp (k v : string) | CallRemoveUp (k : string)
| CallSetDown (k v : string) | CallRemoveDown (k : string).

Definition do_call (c : RequestContext) (h : HeaderCall) : RequestContext :=
  match h with
  | CallSetUp k v => SetHeaderUpstream c k v
  | CallRemoveUp k => RemoveHeaderUpstream c k
  | CallSetDown k v => SetHeaderDownstream c k v
  | CallRemoveDown k => RemoveHeaderDownstream c k
  end.

Definition spec_call (m : gmap string string * gmap string string) (h : HeaderCall)
  : gmap string string * gmap string string :=
  match h with
  | CallSetUp k v => (<[ToLower k := v]> m.1, m.2)
  | CallRemoveUp k => (delete (ToLower k) m.1, m.2)
  | CallSetDown k v => (m.1, <[ToLower k := v]> m.2)
  | CallRemoveDown k => (m.1, delete (ToLower k) m.2)
  end.

(** ** Lemmas *)

Lemma find_index_Some {A : Type} (f : A -> bool) l i :
  find_index f l = Some i -> exists x, l !! i = Some x /\ f x = true.
Proof.
  revert i; induction l as [|y l IH]; simpl; intros i H; [done|].
  destruct (f y) eqn:E; [injection H as <-; eauto|].
  apply fmap_Some in H as (j & Hj & ->). eauto.
Qed.

Lemma find_index_None {A : Type} (f : A -> bool) l :
  find_index f l = None -> Forall (fun x => f x = false) l.
Proof.
  induction l as [|y l IH]; simpl; intros H; [constructor|].
  destruct (f y) eqn:E; [done|]. apply fmap_None in H. constructor; auto.
Qed.

(** Removing by swapping with the last element keeps the others. *)
Lemma swap_remove_perm {A : Type} (l : list A) i x :
  l !! i = Some x -> l ≡ₚ x :: swap_remove l i.
Proof.
  intros Hi. unfold swap_remove.
  destruct l as [|z l _] using rev_ind; [done|].
  rewrite last_snoc, length_app. simpl. replace (length l + 1 - 1)%nat with (length l) by lia.
  destruct (decide (i = length l)) as [->|Hne].
  - rewrite list_lookup_middle in Hi by done. injection Hi as ->.
    rewrite list_insert_id by (apply list_lookup_middle; done).
    rewrite take_app_length. symmetry. apply Permutation_cons_append.
  - assert (i < length l)%nat as Hlt.
    { apply lookup_lt_Some in Hi. rewrite length_app in Hi. simpl in Hi. lia. }
    rewrite insert_app_l by done. rewrite lookup_app_l in Hi by done.
    rewrite <- (length_insert l i z), take_app_length.
    rewrite (insert_take_drop l i z) by done.
    rewrite <- (take_drop_middle l i x Hi) at 1.
    rewrite <- app_assoc. simpl. rewrite <- Permutation_middle. constructor.
    f_equiv. symmetry. apply Permutation_cons_append.
Qed.

Lemma removeKey_spec (l : list string) (k k' : string) :
  NoDup l -> NoDup (removeKey l k) /\ (k' ∈ removeKey l k <-> k' ∈ l /\ k' <> k).
Proof.
  intros Hnd. unfold removeKey. destruct (find_index _ l) as [i|] eqn:E.
  - apply find_index_Some in E as (x & Hx & Heq). bool_hyps. subst x.
    pose proof (swap_remove_perm _ _ _ Hx) as Hp. set (l' := swap_remove l i) in *. clearbody l'.
    rewrite Hp in Hnd.
    apply NoDup_cons in Hnd as [Hn Hnd]. split; [done|]. rewrite Hp, elem_of_cons.
    split; [|naive_solver]. intros H. split; [auto|]. by intros ->.
  - apply find_index_None in E. split; [done|]. split; [|naive_solver].
    intros H. split; [done|]. intros ->. rewrite Forall_forall in E. apply E in H.
    by rewrite String.eqb_refl in H.
Qed.

Lemma containsKey_spec l k : containsKey l k = true <-> k ∈ l.
Proof.
  unfold containsKey. rewrite existsb_elem. setoid_rewrite String.eqb_eq. naive_solver.
Qed.

Lemma appendKey_spec (l : list string) (k k' : string) :
  NoDup l -> NoDup (appendKey l k) /\ (k' ∈ appendKey l k <-> k' ∈ l \/ k' = k).
Proof.
  intros Hnd. unfold appendKey. destruct (containsKey l k) eqn:E.
  - apply containsKey_spec in E. split; [done|]. naive_solver.
  - assert (k ∉ l) as Hn by (rewrite <- containsKey_spec, E; done).
    split; [|set_solver]. apply NoDup_app. split_and!; [done|set_solver|apply NoDup_singleton].
Qed.

Lemma upsertHeader_keys l k v :
  hKey <$> upsertHeader l k v = if decide (k ∈ hKey <$> l) then hKey <$> l
  else ((hKey <$> l) ++ [k])%list.
Proof.
  induction l as [|h l IH]; [done|]. cbn [upsertHeader].
  destruct (String.eqb_spec (hKey h) k) as [<-|Hne]; rewrite !fmap_cons.
  - rewrite decide_True by set_solver. done.
  - rewrite IH. repeat case_decide; set_solver.
Qed.

Lemma upsertHeader_map l k v :
  NoDup (hKey <$> l) ->
  list_to_map (header_pairs (upsertHeader l k v))
  = <[k := v]> (list_to_map (header_pairs l) : gmap string string).
Proof.
  induction l as [|h l IH]; [done|]. cbn. intros [Hn Hnd]%NoDup_cons.
  destruct (String.eqb_spec (hKey h) k) as [<-|Hne]; cbn.
  - by rewrite insert_insert_eq.
  - fold (header_pairs (upsertHeader l k v)) (header_pairs l).
    by rewrite IH, insert_insert_ne by done.
Qed.

Lemma header_pairs_fst l : (header_pairs l).*1 = hKey <$> l.
Proof. unfold header_pairs. rewrite <- list_fmap_compose. done. Qed.

Lemma removeHeader_spec l k :
  NoDup (hKey <$> l) ->
  NoDup (hKey <$> removeHeader l k) /\
  (forall k', k' ∈ hKey <$> removeHeader l k <-> k' ∈ hKey <$> l /\ k' <> k) /\
  list_to_map (header_pairs (removeHeader l k))
  = delete k (list_to_map (header_pairs l) : gmap string string).
Proof.
  intros Hnd. unfold removeHeader. destruct (find_index _ l) as [i|] eqn:E.
  - apply find_index_Some in E as (x & Hx & Heq). bool_hyps. subst k.
    pose proof (swap_remove_perm _ _ _ Hx) as Hp. set (l' := swap_remove l i) in *. clearbody l'.
    assert (NoDup (hKey <$> x :: l')) as Hnd' by (by rewrite <- Hp).
    rewrite fmap_cons in Hnd'. apply NoDup_cons in Hnd' as [Hn Hnd'].
    split; [done|]. split.
    + intros k'. rewrite Hp, fmap_cons, elem_of_cons. naive_solver.
    + rewrite (list_to_map_proper (header_pairs l) (header_pairs (x :: l'))).
      * cbn. fold (header_pairs l'). rewrite delete_insert_eq, delete_id; [done|].
        apply not_elem_of_list_to_map_1. by rewrite header_pairs_fst.
      * by rewrite header_pairs_fst.
      * unfold header_pairs. by rewrite Hp.
  - apply find_index_None in E. assert (k ∉ hKey <$> l) as Hk.
    { rewrite list_elem_of_fmap. intros (h & -> & Hh). rewrite Forall_forall in E.
      apply E in Hh. by rewrite String.eqb_refl in Hh. }
    split; [done|]. split; [set_solver|].
    rewrite delete_id; [done|]. apply not_elem_of_list_to_map_1. by rewrite header_pairs_fst.
Qed.

Lemma set_op_wf o k v : ops_wf o -> ops_wf (set_op o k v).
Proof.
  intros [Ha Hr Hd Hs].
  split; cbn [set_op adds removes shadow].
  - rewrite upsertHeader_keys. case_decide; [done|].
    apply NoDup_app. split_and!; [done|set_solver|apply NoDup_singleton].
  - by apply (removeKey_spec _ k k).
  - intros k' Hk. rewrite (proj2 (removeKey_spec _ k k' Hr)).
    rewrite upsertHeader_keys in Hk. case_decide; set_solver.
  - by rewrite upsertHeader_map, Hs.
Qed.

Lemma remove_op_wf o k : ops_wf o -> ops_wf (remove_op o k).
Proof.
  intros [Ha Hr Hd Hs]. destruct (removeHeader_spec _ k Ha) as (Ha' & Hk & Hm).
  split; cbn [remove_op adds removes shadow]; [done| | |].
  - by apply (appendKey_spec _ k k).
  - intros k' [H1 H2]%Hk. rewrite (proj2 (appendKey_spec _ k k' Hr)). set_solver.
  - by rewrite Hm, Hs.
Qed.

Lemma lookup_foldr_delete (l : list string) (m : gmap string string) k :
  foldr delete m l !! k = if decide (k ∈ l) then None else m !! k.
Proof.
  induction l as [|x l IH]; cbn [foldr]; [by rewrite decide_False by set_solver|].
  destruct (decide (x = k)) as [->|Hne].
  - rewrite lookup_delete_eq, decide_True; [done|set_solver].
  - rewrite lookup_delete_ne, IH by done. repeat case_decide; set_solver.
Qed.

Lemma lookup_in_effect base o k :
  in_effect base o !! k =
  match shadow o !! k with
  | Some v => Some v
  | None => if decide (k ∈ removes o) then None else base !! k
  end.
Proof.
  unfold in_effect. rewrite lookup_union, lookup_foldr_delete.
  destruct (shadow o !! k); [by rewrite union_Some_l|]. by rewrite left_id by apply _.
Qed.

Lemma in_effect_set base o k v :
  ops_wf o -> in_effect base (set_op o k v) = <[k := v]> (in_effect base o).
Proof.
  intros [_ Hr _ _]. apply map_eq. intros k'. rewrite lookup_in_effect. cbn.
  destruct (decide (k = k')) as [->|Hne].
  - by rewrite !lookup_insert_eq.
  - rewrite !lookup_insert_ne, lookup_in_effect by done.
    destruct (shadow o !! k'); [done|].
    pose proof (proj2 (removeKey_spec _ k k' Hr)). repeat case_decide; naive_solver.
Qed.

Lemma in_effect_remove base o k :
  ops_wf o -> in_effect base (remove_op o k) = delete k (in_effect base o).
Proof.
  intros [_ Hr _ _]. apply map_eq. intros k'. rewrite lookup_in_effect. cbn.
  pose proof (proj2 (appendKey_spec _ k k' Hr)) as Hin.
  destruct (decide (k = k')) as [->|Hne].
  - rewrite !lookup_delete_eq, decide_True; [done|]. apply Hin. by right.
  - rewrite !lookup_delete_ne, lookup_in_effect by done.
    destruct (shadow o !! k'); [done|]. repeat case_decide; naive_solver.
Qed.

Lemma envoy_remove_lookup l m k :
  envoy_remove l m !! k = if envoy_mutable k && bool_decide (k ∈ l) then None else m !! k.
Proof.
  unfold envoy_remove. revert m; induction l as [|x l IH]; intros m; cbn [fold_left].
  - rewrite bool_decide_false by set_solver. by rewrite andb_false_r.
  - rewrite IH. destruct (decide (x = k)) as [->|Hne].
    + rewrite (bool_decide_true (k ∈ k :: l)) by set_solver. destruct (envoy_mutable k); [|done]. cbn.
      rewrite lookup_delete_eq. by case_bool_decide.
    + rewrite (bool_decide_ext (k ∈ x :: l) (k ∈ l)) by set_solver.
      destruct (envoy_mutable x); [|done]. by rewrite lookup_delete_ne.
Qed.

Lemma envoy_set_lookup l m k :
  NoDup (hKey <$> l) ->
  envoy_set l m !! k =
  match (list_to_map (header_pairs l) : gmap string string) !! k with
  | Some v => if envoy_mutable k then Some v else m !! k
  | None => m !! k
  end.
Proof.
  unfold envoy_set. revert m; induction l as [|h l IH]; intros m; [intros _; cbn; by rewrite lookup_empty|].
  rewrite fmap_cons, NoDup_cons. intros [Hn Hnd]. cbn [fold_left]. rewrite (IH _ Hnd).
  cbn. fold (header_pairs l). destruct (decide (hKey h = k)) as [<-|Hne].
  - rewrite lookup_insert_eq, not_elem_of_list_to_map_1 by (by rewrite header_pairs_fst).
    destruct (envoy_mutable (hKey h)); [by rewrite lookup_insert_eq|done].
  - rewrite (lookup_insert_ne _ (hKey h) k) by done. destruct (envoy_mutable (hKey h)); [by rewrite lookup_insert_ne|done].
Qed.

(** Envoy carries the headers in effect, in whichever order it applies the two halves of
    the mutation. *)
Lemma envoy_in_effect base o :
  ops_wf o ->
  carried base (in_effect base o) (envoy_set (adds o) (envoy_remove (removes o) base)) /\
  carried base (in_effect base o) (envoy_remove (removes o) (envoy_set (adds o) base)).
Proof.
  intros [Ha Hr Hd Hs]. split; intros k; rewrite lookup_in_effect.
  - rewrite envoy_set_lookup, Hs, envoy_remove_lookup by done.
    destruct (envoy_mutable k), (shadow o !! k); cbn; try done. by case_bool_decide; case_decide.
  - rewrite envoy_remove_lookup, envoy_set_lookup, Hs by done. destruct (envoy_mutable k), (shadow o !! k) eqn:E; cbn; try done.
    + case_bool_decide as Hk; [|done]. exfalso. apply (Hd k); [|done].
      rewrite <- header_pairs_fst. rewrite <- Hs in E. apply elem_of_list_to_map_2 in E.
      apply list_elem_of_fmap. by exists (k, s).
    + by case_bool_decide; case_decide.
Qed.

Lemma upstream_calls c h :
  upstream (do_call c h) =
  match h with
  | CallSetUp k v => set_op (upstream c) (ToLower k) v
  | CallRemoveUp k => remove_op (upstream c) (ToLower k)
  | _ => upstream c
  end.
Proof. by destruct h. Qed.

Lemma downstream_calls c h :
  downstream (do_call c h) =
  match h with
  | CallSetDown k v => set_op (downstream c) (ToLower k) v
  | CallRemoveDown k => remove_op (downstream c) (ToLower k)
  | _ => downstream c
  end.
Proof. by destruct h. Qed.

Lemma do_call_headers c h :
  Headers (do_call c h) = Headers c /\ ResponseHeaders (do_call c h) = ResponseHeaders c.
Proof. by destruct h. Qed.

Lemma do_call_wf c h : ctx_wf c -> ctx_wf (do_call c h).
Proof.
  intros [Hu Hd]. unfold ctx_wf. rewrite upstream_calls, downstream_calls.
  destruct h; auto using set_op_wf, remove_op_wf.
Qed.
#[export] Hint Resolve set_op_wf remove_op_wf do_call_wf : hypergate.

(** Both sides' headers in effect. *)
Definition effective (c : RequestContext) : gmap string string * gmap string string :=
  (in_effect (Headers c) (upstream c), in_effect (ResponseHeaders c) (downstream c)).

Lemma effective_call c h : ctx_wf c -> effective (do_call c h) = spec_call (effective c) h.
Proof.
  intros [Hu Hd]. unfold effective. destruct (do_call_headers c h) as [-> ->].
  rewrite upstream_calls, downstream_calls.
  destruct h; cbn [spec_call fst snd]; by rewrite ?in_effect_set, ?in_effect_remove.
Qed.

Lemma SetHeaderDownstream_spec c k v :
  ctx_wf c -> ctx_wf (SetHeaderDownstream c k v) /\
  effective (SetHeaderDownstream c k v) = ((effective c).1, <[ToLower k := v]> (effective c).2).
Proof. intros H. split; [exact (do_call_wf c (CallSetDown k v) H)|exact (effective_call c (CallSetDown k v) H)]. Qed.
Lemma SetHeaderUpstream_spec c k v :
  ctx_wf c -> ctx_wf (SetHeaderUpstream c k v) /\
  effective (SetHeaderUpstream c k v) = (<[ToLower k := v]> (effective c).1, (effective c).2).
Proof. intros H. split; [exact (do_call_wf c (CallSetUp k v) H)|exact (effective_call c (CallSetUp k v) H)]. Qed.
Lemma RemoveHeaderUpstream_spec c k :
  ctx_wf c -> ctx_wf (RemoveHeaderUpstream c k) /\
  effective (RemoveHeaderUpstream c k) = (delete (ToLower k) (effective c).1, (effective c).2).
Proof. intros H. split; [exact (do_call_wf c (CallRemoveUp k) H)|exact (effective_call c (CallRemoveUp k) H)]. Qed.

Lemma getter_lookup base o k :
  match shadow o !! k with
  | Some val => val
  | None => if containsKey (removes o) k then "" else default "" (base !! k)
  end = default "" (in_effect base o !! k).
Proof.
  rewrite lookup_in_effect. destruct (shadow o !! k); [done|].
  pose proof (containsKey_spec (removes o) k). destruct (containsKey _ _), (decide (k ∈ removes o)); naive_solver.
Qed.

Lemma newContext_wf : ctx_wf newContext.
Proof. split; split; cbn; try constructor; set_solver. Qed.

Lemma GetHeader_effective c k : GetHeader c k = default "" ((effective c).1 !! k).
Proof. apply (getter_lookup (Headers c) (upstream c)). Qed.
Lemma GetResponseHeader_effective c k : GetResponseHeader c k = default "" ((effective c).2 !! ToLower k).
Proof. apply (getter_lookup (ResponseHeaders c) (downstream c)). Qed.

(** A sequence of header calls, and what it means. *)
Definition do_calls (calls : list HeaderCall) (c : RequestContext) : RequestContext := fold_left do_call calls c.

Lemma do_calls_spec calls c :
  ctx_wf c -> ctx_wf (do_calls calls c) /\ effective (do_calls calls c) = fold_left spec_call calls (effective c).
Proof.
  unfold do_calls. revert c. induction calls as [|h calls IH]; intros c Hc; [done|]. cbn [fold_left].
  rewrite <- effective_call by done. auto with hypergate.
Qed.

(** ** Properties *)

(** C30: whatever sequence of header calls the filters of a request make, the
    bookkeeping (additions, removals, shadow maps) means exactly the same calls on a
    pair of plain maps: the getters read that map, and Envoy, applying the mutation it is
    sent in either order, ends with that map for every header its default rules let an
    external processor change, and with its own value for the others (host, :authority,
    :scheme, :method and the x-envoy- headers). *)
Theorem header_calls_refine (c : RequestContext) (calls : list HeaderCall) :
  ctx_wf c ->
  let c' := fold_left do_call calls c in
  let m := fold_left spec_call calls (effective c) in
  effective c' = m /\ ctx_wf c' /\
  (forall k, GetHeader c' k = default "" (m.1 !! k)) /\
  (forall k, GetResponseHeader c' k = default "" (m.2 !! ToLower k)) /\
  carried (Headers c') m.1 (envoy_set (HeadersToAdd c') (envoy_remove (HeadersToRemove c') (Headers c'))) /\
  carried (Headers c') m.1 (envoy_remove (HeadersToRemove c') (envoy_set (HeadersToAdd c') (Headers c'))) /\
  carried (ResponseHeaders c') m.2 (envoy_set (ResponseHeadersToAdd c') (envoy_remove (ResponseHeadersToRemove c') (ResponseHeaders c'))) /\
  carried (ResponseHeaders c') m.2 (envoy_remove (ResponseHeadersToRemove c') (envoy_set (ResponseHeadersToAdd c') (ResponseHeaders c'))).
Proof.
  intros Hwf. destruct (do_calls_spec calls c Hwf) as [Hw He]. unfold do_calls in *.
  cbv zeta. rewrite <- He. set (c' := fold_left do_call calls c) in *. clearbody c'.
  destruct Hw as [Hu Hd].
  destruct (envoy_in_effect (Headers c') _ Hu) as [E1 E2].
  destruct (envoy_in_effect (ResponseHeaders c') _ Hd) as [E3 E4].
  do 2 (split; [done|]). split; [intros k; apply GetHeader_effective|].
  split; [intros k; apply GetResponseHeader_effective|]. done.
Qed.

Lemma header_calls_refine_witness :
  effective (fold_left do_call [CallSetUp "X-User" "a"; CallRemoveUp "Cookie"; CallSetUp "cookie" "b"]
    newContext) =
  fold_left spec_call [CallSetUp "X-User" "a"; CallRemoveUp "Cookie"; CallSetUp "cookie" "b"]
    (effective newContext).
Proof. apply (header_calls_refine newContext). apply newContext_wf. Defined.

(** C31: a context taken from the pool is indistinguishable from a new one after
    any history of releases: [Reset] clears every field, so nothing of an earlier
    request (identity, headers, verdict, body) reaches a later one. *)
Theorem pool_never_leaks (p : list RequestContext) (c : RequestContext) :
  rtc pool_step [] p -> pool_acquire p c -> c = newContext.
Proof.
  intros Hp [->|Hc]; [done|]. revert Hc.
  assert (Forall (fun c => c = newContext) p) as Hall; [|intros; by apply Forall_forall with (1 := Hall)].
  remember [] as p0 eqn:E in Hp. assert (Forall (fun c => c = newContext) p0) as H0 by (subst; constructor).
  clear E. induction Hp as [|x y z Hstep _ IH]; [done|]. apply IH. destruct Hstep.
  - rewrite Forall_app, Forall_cons in H0. rewrite Forall_app. tauto.
  - constructor; [|done]. by destruct c0.
Qed.

Lemma pool_never_leaks_witness :
  pool_acquire [Reset (Block newContext 403 "Forbidden")] (Reset (Block newContext 403 "Forbidden")) /\
  Reset (Block newContext 403 "Forbidden") = newContext.
Proof.
  split; [by right; constructor|].
  apply (pool_never_leaks [Reset (Block newContext 403 "Forbidden")]).
  - eapply rtc_l; [|apply rtc_refl]. apply pool_release.
  - right. constructor.
Defined.
