(* ===== verification/Executor.v ===== *)
(** * Executor: running a chain of filters (internal/engine/filter.go, audit.go,
    executor.go)

    A filter is an effect on the request context and on the world outside the
    engine (clock, Redis, remote services), which stays abstract. [Execute] runs
    a chain for one phase; audited filters run between [saveMutations] and
    [restoreMutations]. *)

From S2P Require Import Prelude GoStrings Netip Identity Selector Context.

Local Open Scope string_scope.
Local Open Scope list_scope.

(** ** Filters *)

Section Filters.
Context {W : Type}.

(** [Execute(ctx) error] *)
Definition Exec : Type := RequestContext -> W -> option string * RequestContext * W.

(** A filter implementation, with the identity of its allocation and its
    [SupportedPhases] when it is [PhaseAware]; or [auditedFilter{f}]. *)
Inductive Filter : Type :=
| Base (fid : nat) (phases : option (list Phase)) (exec : Exec)
| auditedFilter (f : Filter).

Definition Chain : Type := list Filter.

Definition Audit (f : Filter) : Filter := auditedFilter f.

(** [Execute] is promoted through the embedded field. *)
Fixpoint FilterExecute (f : Filter) : Exec :=
  match f with Base _ _ exec => exec | auditedFilter f => FilterExecute f end.

(** [None]: the filter does not implement [PhaseAware]. *)
Fixpoint SupportedPhases (f : Filter) : option (list Phase) :=
  match f with
  | Base _ phases _ => phases
  | auditedFilter f =>
      Some (match SupportedPhases f with Some l => l | None => [PhaseRequestHeaders] end)
  end.

Definition isAudited (f : Filter) : Filter * bool :=
  match f with auditedFilter g => (g, true) | _ => (f, false) end.

(** ** Audit mode *)

Record mutations := mkMutations {
  m_path : string;
  m_headersToAdd : list Header;
  m_headersToRemove : list string;
  m_upstreamShadow : gmap string string;
  m_responseHeadersToAdd : list Header;
  m_responseHeadersToRemove : list string;
  m_downstreamShadow : gmap string string;
  m_setHeaderOptions : nat
}.

Definition saveMutations (c : RequestContext) : mutations :=
  mkMutations (Path c) (HeadersToAdd c) (HeadersToRemove c) (UpstreamShadow c)
    (ResponseHeadersToAdd c) (ResponseHeadersToRemove c) (DownstreamShadow c)
    (length (SetHeaderOptions c)).

(** Reslicing [SetHeaderOptions] is [take]; filters never shorten the slice. *)
Definition restoreMutations (c : RequestContext) (m : mutations) : RequestContext :=
  c <| Path := m_path m |>
    <| HeadersToAdd := m_headersToAdd m |>
    <| HeadersToRemove := m_headersToRemove m |>
    <| UpstreamShadow := m_upstreamShadow m |>
    <| ResponseHeadersToAdd := m_responseHeadersToAdd m |>
    <| ResponseHeadersToRemove := m_responseHeadersToRemove m |>
    <| DownstreamShadow := m_downstreamShadow m |>
    <| SetHeaderOptions := take (m_setHeaderOptions m) (SetHeaderOptions c) |>.

Definition unblock (c : RequestContext) : RequestContext :=
  c <| Blocked := false |> <| Answered := false |> <| ResponseStatus := 0%Z |> <| ResponseBody := "" |>.

Definition add_hit (c : RequestContext) (h : AuditHit) : RequestContext :=
  c <| AuditHits := AuditHits c ++ [h] |>.

Definition executeAudited (c : RequestContext) (w : W) (filter : Filter) (index : Z)
  : RequestContext * W :=
  let saved := saveMutations c in
  let '(err, c, w) := FilterExecute filter c w in
  match err with
  | Some _ => (unblock (restoreMutations (add_hit c (mkAuditHit index 500 true)) saved), w)
  | None =>
      if Blocked c && negb (Answered c) then
        let status := if (ResponseStatus c =? 0)%Z then 403%Z else ResponseStatus c in
        (unblock (restoreMutations (add_hit c (mkAuditHit index status false)) saved), w)
      else if Blocked c && Answered c then (c <| BlockedBy := index |>, w)
      else (c, w)
  end.

(** ** The executor *)

Definition phaseSupported (phases : list Phase) (target : Phase) : bool :=
  existsb (fun p => bool_decide (p = target)) phases.

(** Phase gating of the loop: whether the filter is called in [phase]. *)
Definition runs_in (filter : Filter) (phase : Phase) : bool :=
  match SupportedPhases filter with
  | Some phases => phaseSupported phases phase
  | None => bool_decide (phase = PhaseRequestHeaders)
  end.

(** The loop from index [i]; a [continue] is the recursive call. *)
Fixpoint execute_loop (i : Z) (chain : Chain) (phase : Phase) (c : RequestContext) (w : W)
  : option string * RequestContext * W :=
  match chain with
  | [] => (None, c, w)
  | f :: rest =>
      if Blocked c then (None, c, w)
      else
        let '(filter, audited) := isAudited f in
        if negb (runs_in filter phase) then execute_loop (i + 1) rest phase c w
        else if (audited : bool) then
          let '(c, w) := executeAudited c w filter i in
          execute_loop (i + 1) rest phase c w
        else
          let '(err, c, w) := FilterExecute filter c w in
          match err with
          | Some e =>
              (Some e, c <| BlockedBy := i |> <| FilterFailed := true |> <| Blocked := true |>
                         <| ResponseStatus := 500%Z |> <| ResponseBody := "Internal Server Error" |>, w)
          | None =>
              if Blocked c then (None, c <| BlockedBy := i |>, w)
              else execute_loop (i + 1) rest phase c w
          end
  end.

Definition Execute (c : RequestContext) (w : W) (chain : Chain) (phase : Phase)
  : option string * RequestContext * W :=
  execute_loop 0 chain phase (c <| CPhase := phase |>) w.

End Filters.
Arguments Exec : clear implicits.
Arguments Filter : clear implicits.
Arguments Chain : clear implicits.

(** ** Lemmas *)

Section ExecutorLemmas.
Context {W : Type}.
Implicit Types (chain : Chain W) (c : RequestContext) (w : W) (f : Filter W).

Lemma execute_loop_blocked i chain phase c w :
  Blocked c = true -> execute_loop i chain phase c w = (None, c, w).
Proof. intros H. destruct chain; simpl; by rewrite ?H. Qed.

(** The loop over a concatenation runs the second part where the first ended. *)
Lemma execute_loop_app i pre post phase c w :
  execute_loop i (pre ++ post) phase c w =
  match execute_loop i pre phase c w with
  | (Some e, c', w') => (Some e, c', w')
  | (None, c', w') => execute_loop (i + Z.of_nat (length pre)) post phase c' w'
  end.
Proof.
  revert i c w; induction pre as [|f pre IH]; intros i c w; cbn [app execute_loop length].
  { f_equal. lia. }
  replace (i + Z.of_nat (S (length pre)))%Z with (i + 1 + Z.of_nat (length pre))%Z by lia.
  destruct (Blocked c) eqn:Hb; [by rewrite execute_loop_blocked|].
  destruct (isAudited f) as [g audited]. destruct (negb (runs_in g phase)); [apply IH|].
  destruct audited; [destruct (executeAudited c w g i); apply IH|].
  destruct (FilterExecute g c w) as [[[e|] c1] w1]; [done|].
  destruct (Blocked c1) eqn:Hb1; [|apply IH]. by rewrite execute_loop_blocked.
Qed.

(** *** What a run of a chain is *)

(** A filter is called in the phases it declares; one that declares none, in the first. *)
Definition called (f : Filter W) (phase : Phase) : Prop :=
  match SupportedPhases f with Some phases => phase ∈ phases | None => phase = PhaseRequestHeaders end.

(** The context [c1] of an audited filter that is not enforced, given the context [c]
    it was called on: header and path changes and the verdict are undone, the hit stays. *)
Definition rolled_back (c c1 : RequestContext) (hit : AuditHit) : RequestContext :=
  c1 <| AuditHits := AuditHits c1 ++ [hit] |> <| Path := Path c |>
     <| HeadersToAdd := HeadersToAdd c |> <| HeadersToRemove := HeadersToRemove c |> <| UpstreamShadow := UpstreamShadow c |>
     <| ResponseHeadersToAdd := ResponseHeadersToAdd c |> <| ResponseHeadersToRemove := ResponseHeadersToRemove c |>
     <| DownstreamShadow := DownstreamShadow c |>
     <| SetHeaderOptions := take (length (SetHeaderOptions c)) (SetHeaderOptions c1) |>
     <| Blocked := false |> <| Answered := false |> <| ResponseStatus := 0%Z |> <| ResponseBody := ""%string |>.

(** The filter at position [i] lets the request go on: it is not called in the phase, or it ran
    without error or verdict, or it is audited and its error or denial is only recorded. *)
Inductive lets_pass (phase : Phase) (i : Z) : Filter W -> RequestContext -> W -> RequestContext -> W -> Prop :=
| pass_not_called f c w : ~ called (isAudited f).1 phase -> lets_pass phase i f c w c w
| pass_enforced n phases exec c w c' w' :
    called (Base n phases exec) phase -> exec c w = (None, c', w') -> Blocked c' = false ->
    lets_pass phase i (Base n phases exec) c w c' w'
| pass_audited g c w c' w' :
    called g phase -> FilterExecute g c w = (None, c', w') -> Blocked c' = false ->
    lets_pass phase i (auditedFilter g) c w c' w'
| pass_audited_failed g e c w c1 w' :
    called g phase -> FilterExecute g c w = (Some e, c1, w') ->
    lets_pass phase i (auditedFilter g) c w (rolled_back c c1 (mkAuditHit i 500 true)) w'
| pass_audited_denied g c w c1 w' :
    called g phase -> FilterExecute g c w = (None, c1, w') -> Blocked c1 = true -> Answered c1 = false ->
    lets_pass phase i (auditedFilter g) c w
      (rolled_back c c1 (mkAuditHit i (if (ResponseStatus c1 =? 0)%Z then 403 else ResponseStatus c1) false)) w'.

(** Every filter of a chain, from position [i] on and in order, lets the request go on, each
    from where the one before it left the request and the world. *)
Inductive passed (phase : Phase) : Z -> Chain W -> RequestContext -> W -> RequestContext -> W -> Prop :=
| passed_nil i c w : passed phase i [] c w c w
| passed_cons i f chain c w c1 w1 c2 w2 :
    lets_pass phase i f c w c1 w1 -> passed phase (i + 1) chain c1 w1 c2 w2 -> passed phase i (f :: chain) c w c2 w2.

(** The filter that ended the chain at position [i]: it was called, and it failed, or it blocked
    (as an audited filter: answered). *)
Definition ended_by (phase : Phase) (f : Filter W) (c0 : RequestContext) (w0 : W) (i : Z)
  (err : option string) (c' : RequestContext) (w' : W) : Prop :=
  let '(g, audited) := isAudited f in
  called g phase /\
  exists e c1, FilterExecute g c0 w0 = (e, c1, w') /\ err = e /\
    match e with
    | Some _ => audited = false /\
        c' = c1 <| BlockedBy := i |> <| FilterFailed := true |> <| Blocked := true |>
                <| ResponseStatus := 500%Z |> <| ResponseBody := "Internal Server Error"%string |>
    | None => Blocked c1 = true /\ c' = c1 <| BlockedBy := i |> /\ (audited = true -> Answered c1 = true)
    end.

(** The possible results of the loop from [i]: every filter let the request go on, or all
    before one did and that one ended it. *)
Definition loop_result (i : Z) (chain : Chain W) (phase : Phase) (c : RequestContext) (w : W)
  (r : option string * RequestContext * W) : Prop :=
  let '(err, c', w') := r in
  (err = None /\ Blocked c' = false /\ passed phase i chain c w c' w') \/
  (Blocked c' = true /\ exists n f c0 w0, chain !! n = Some f /\ passed phase i (take n chain) c w c0 w0 /\
    ended_by phase f c0 w0 (i + Z.of_nat n) err c' w').

Lemma called_spec f phase : reflect (called f phase) (runs_in f phase).
Proof.
  unfold called, runs_in. destruct (SupportedPhases f) as [phases|]; [|apply bool_decide_reflect].
  apply iff_reflect. unfold phaseSupported. rewrite existsb_exists. split.
  - intros H. exists phase. split; [by apply list_elem_of_In|by apply bool_decide_eq_true].
  - intros (p & Hp%list_elem_of_In & ->%bool_decide_eq_true). done.
Qed.

Lemma ended_by_position phase f c0 w0 i err c' w' : ended_by phase f c0 w0 i err c' w' -> BlockedBy c' = i.
Proof.
  unfold ended_by. destruct (isAudited f) as [g audited]. intros (_ & e & c1 & _ & _ & He).
  destruct e; [destruct He as [_ ->]|destruct He as (_ & -> & _)]; done.
Qed.

(** An iteration that continues passes its successors' result on. *)
Lemma loop_result_cons i f chain phase c w c1 w1 r :
  lets_pass phase i f c w c1 w1 -> loop_result (i + 1) chain phase c1 w1 r -> loop_result i (f :: chain) phase c w r.
Proof.
  destruct r as [[err c'] w']. intros Hf [(-> & Hb & Hp)|(Hb & n & g & c0 & w0 & Hn & Hpre & Hend)].
  - left. split; [done|]. split; [done|]. by econstructor.
  - right. split; [done|]. exists (S n), g, c0, w0. split; [done|]. split; [by econstructor|].
    by replace (i + Z.of_nat (S n))%Z with (i + 1 + Z.of_nat n)%Z by lia.
Qed.

(** An iteration that ends the loop. *)
Lemma loop_result_here i f chain phase c w err c' w' :
  Blocked c' = true -> ended_by phase f c w i err c' w' ->
  loop_result i (f :: chain) phase c w (err, c', w').
Proof.
  intros Hb He. right. split; [done|]. exists 0%nat, f, c, w. rewrite Z.add_0_r. split; [done|]. split; [constructor|done].
Qed.

(** One iteration that calls an audited filter lets the request go on, or it answered. *)
Lemma executeAudited_result phase i g c w c' w' :
  called g phase -> executeAudited c w g i = (c', w') ->
  (Blocked c' = false /\ lets_pass phase i (auditedFilter g) c w c' w') \/
  (Blocked c' = true /\ ended_by phase (auditedFilter g) c w i None c' w').
Proof.
  intros Hc. unfold executeAudited. destruct (FilterExecute g c w) as [[[e|] c1] w1] eqn:E.
  - intros [= <- <-]. left. split; [done|]. exact (pass_audited_failed phase i g e c w c1 w1 Hc E).
  - destruct (Blocked c1) eqn:Hb; cbn [andb].
    + destruct (Answered c1) eqn:Ha; cbn [negb]; intros [= <- <-].
      * right. split; [done|]. split; [done|]. by exists None, c1.
      * left. split; [done|]. exact (pass_audited_denied phase i g c w c1 w1 Hc E Hb Ha).
    + intros [= <- <-]. left. split; [done|]. by constructor.
Qed.

Lemma execute_loop_ended i chain phase c w :
  Blocked c = false -> loop_result i chain phase c w (execute_loop i chain phase c w).
Proof.
  revert i c w; induction chain as [|f chain IH]; intros i c w Hb.
  { left. split; [done|]. split; [done|constructor]. }
  cbn [execute_loop]. rewrite Hb. destruct (isAudited f) as [g audited] eqn:Ha.
  destruct (called_spec g phase) as [Hr|Hr]; cbn [negb].
  2:{ eapply loop_result_cons; [|by apply IH]. constructor. by rewrite Ha. }
  destruct f as [n phases exec|f]; cbn in Ha; injection Ha as <- <-; cbn [FilterExecute].
  - destruct (exec c w) as [[[e|] c1] w1] eqn:He.
    + apply loop_result_here; [done|]. split; [done|]. by exists (Some e), c1.
    + destruct (Blocked c1) eqn:Hb1; [apply loop_result_here; [done|]; split; [done|]; by exists None, c1|].
      eapply loop_result_cons; [by apply pass_enforced|by apply IH].
  - destruct (executeAudited c w f i) as [c1 w1] eqn:He.
    destruct (executeAudited_result phase i f c w c1 w1 Hr He) as [[Hb1 Hp]|[Hb1 Hend]].
    + eapply loop_result_cons; [exact Hp|by apply IH].
    + rewrite execute_loop_blocked by done. by apply loop_result_here.
Qed.

(** Filters that are not called in a phase can be exchanged freely. *)
Definition same_in (phase : Phase) (f g : Filter W) : Prop :=
  f = g \/ (runs_in (isAudited f).1 phase = false /\ runs_in (isAudited g).1 phase = false).

Lemma execute_loop_same i chain chain' phase c w :
  Forall2 (same_in phase) chain chain' ->
  execute_loop i chain phase c w = execute_loop i chain' phase c w.
Proof.
  intros H. revert i c w; induction H as [|f g chain chain' Hfg _ IH]; intros i c w; [done|].
  cbn [execute_loop]. destruct (Blocked c); [done|]. destruct Hfg as [->|[Hf Hg]].
  - destruct (isAudited g) as [h []]; destruct (negb _); auto;
      [by destruct (executeAudited c w h i)|].
    destruct (FilterExecute h c w) as [[[e|] c1] w1]; [done|]. by destruct (Blocked c1).
  - destruct (isAudited f) as [? ?], (isAudited g) as [? ?]. simpl in *. by rewrite Hf, Hg; simpl.
Qed.

(** A context that no filter has blocked or answered yet. *)
Definition clean (c : RequestContext) : Prop :=
  Blocked c = false /\ Answered c = false /\ ResponseStatus c = 0%Z /\ ResponseBody c = ""%string.

(** The part of the context an audited filter must leave alone: everything but
    the saved mutations and the verdict. *)
Definition frame (c : RequestContext) : RequestContext :=
  unblock (c <| Path := ""%string |> <| HeadersToAdd := [] |> <| HeadersToRemove := [] |>
    <| UpstreamShadow := ∅ |> <| ResponseHeadersToAdd := [] |> <| ResponseHeadersToRemove := [] |>
    <| DownstreamShadow := ∅ |> <| SetHeaderOptions := [] |>).

Definition touches_only_saved (c c1 : RequestContext) : Prop :=
  frame c1 = frame c /\ SetHeaderOptions c `prefix_of` SetHeaderOptions c1.

Lemma restore_frame c c1 :
  clean c -> touches_only_saved c c1 -> unblock (restoreMutations c1 (saveMutations c)) = c.
Proof.
  intros (Hb & Ha & Hs & Hbody) [Hf [k Hk]].
  assert (take (length (SetHeaderOptions c)) (SetHeaderOptions c1) = SetHeaderOptions c) as Ht
    by (by rewrite Hk, take_app_length).
  unfold unblock, restoreMutations. cbn [set_field saveMutations m_setHeaderOptions SetHeaderOptions].
  destruct c, c1. cbn in *. unfold frame in Hf. cbn in Hf. simplify_eq. rewrite Ht. done.
Qed.

End ExecutorLemmas.

(** ** The filters' contract *)

(** What the server relies on: a filter uses the context's methods, so the header
    bookkeeping stays consistent and the headers Envoy sent are not touched. *)
Definition keeps (c c' : RequestContext) : Prop :=
  (ctx_wf c -> ctx_wf c') /\ Headers c' = Headers c /\ ResponseHeaders c' = ResponseHeaders c.

#[export] Instance keeps_preorder : PreOrder keeps.
Proof. split; [by intros c|]. intros a b c (H1 & E1 & F1) (H2 & E2 & F2). split; [auto|]. split; congruence. Qed.

Class FilterOk {W : Type} (exec : Exec W) : Prop :=
  filter_keeps : forall c w err c' w', exec c w = (err, c', w') -> keeps c c'.

(** A change that leaves both sides' header state alone. *)
Lemma keeps_other c c' :
  upstream c' = upstream c -> downstream c' = downstream c -> Headers c' = Headers c ->
  ResponseHeaders c' = ResponseHeaders c -> keeps c c'.
Proof. unfold keeps, ctx_wf. by intros -> -> -> ->. Qed.

Lemma keeps_call c h : keeps c (do_call c h).
Proof. split; [apply do_call_wf|apply do_call_headers]. Qed.
#[export] Hint Resolve keeps_call : hypergate.

Lemma keeps_calls calls c : keeps c (do_calls calls c).
Proof.
  unfold do_calls. revert c. induction calls as [|h calls IH]; intros c; [done|].
  etrans; [apply keeps_call|apply IH].
Qed.

Lemma keeps_restored c c1 : keeps c c1 -> keeps c (restoreMutations c1 (saveMutations c)).
Proof. intros (Hw & Eh & Er). split; [|done]. by intros Hc. Qed.

Lemma executeAudited_keeps {W : Type} (f : Filter W) c w i :
  FilterOk (FilterExecute f) -> keeps c (executeAudited c w f i).1.
Proof.
  intros Hf. unfold executeAudited. destruct (FilterExecute f c w) as [[err c1] w1] eqn:E.
  apply Hf in E. pose proof (keeps_restored c _ E) as Hres.
  destruct err; [exact Hres|]. repeat case_match; first [exact Hres|exact E].
Qed.

Lemma execute_loop_keeps {W : Type} (chain : Chain W) i phase c w :
  Forall (fun f => FilterOk (FilterExecute f)) chain -> keeps c (execute_loop i chain phase c w).1.2.
Proof.
  intros Hall. revert i c w. induction Hall as [|f chain Hf _ IH]; intros i c w; cbn [execute_loop]; [done|].
  destruct (Blocked c); [done|]. destruct (isAudited f) as [g audited] eqn:Ha.
  assert (FilterOk (FilterExecute g)) as Hg by (destruct f; cbn in Ha; simplify_eq; exact Hf).
  destruct (runs_in g phase); cbn [negb]; [|apply IH]. destruct audited.
  - pose proof (executeAudited_keeps g c w i Hg) as Hk. destruct (executeAudited c w g i) as [c1 w1].
    etrans; [exact Hk|apply IH].
  - destruct (FilterExecute g c w) as [[err c1] w1] eqn:E. apply Hg in E.
    destruct err; [exact E|]. destruct (Blocked c1); [exact E|]. etrans; [exact E|apply IH].
Qed.

Lemma Execute_keeps {W : Type} (chain : Chain W) phase c w :
  Forall (fun f => FilterOk (FilterExecute f)) chain -> keeps c (Execute c w chain phase).1.2.
Proof. intros Hall. etrans; [|by apply execute_loop_keeps]. by apply keeps_other. Qed.

(** An error always ends in a refusal. *)
Lemma Execute_error_blocks {W : Type} (chain : Chain W) phase c w e c' w' :
  Blocked c = false -> Execute c w chain phase = (Some e, c', w') -> Blocked c' = true.
Proof.
  intros Hb He. unfold Execute in He.
  match type of He with execute_loop _ _ _ ?c0 _ = _ =>
    pose proof (execute_loop_ended 0 chain phase c0 w Hb) as H end.
  rewrite He in H. by destruct H as [[? _]|[? _]].
Qed.

(** ** Properties *)

(** C4: a chain runs every one of its filters, from the first on and in order, each on the
    context and world the one before left, until one ends it. It ends unblocked and
    without error exactly when all let the request go on: a filter is skipped only in
    a phase it does not declare, an enforced one ran without error or verdict, an
    audited one may have failed or denied, which is recorded and rolled back. Otherwise
    the filter at [BlockedBy] ended it on the context its predecessors left: it failed
    (then the answer is 500 and the error is returned) or it blocked (then its answer is
    sent unchanged, and an audited filter can only have answered). *)
Theorem Execute_verdict_attributed {W : Type} (c : RequestContext) (w : W) (chain : Chain W)
  (phase : Phase) (err : option string) (c' : RequestContext) (w' : W) :
  Blocked c = false -> Execute c w chain phase = (err, c', w') ->
  let start := c <| CPhase := phase |> in
  (err = None /\ Blocked c' = false /\ passed phase 0 chain start w c' w') \/
  (Blocked c' = true /\ exists n f c0 w0, chain !! n = Some f /\ passed phase 0 (take n chain) start w c0 w0 /\
     BlockedBy c' = Z.of_nat n /\ ended_by phase f c0 w0 (Z.of_nat n) err c' w').
Proof.
  intros Hb H.
  assert (loop_result 0 chain phase (c <| CPhase := phase |>) w (err, c', w')) as Hr
    by (rewrite <- H; by apply execute_loop_ended).
  destruct Hr as [?|(Hb' & n & f & c0 & w0 & Hn & Hpre & He)]; [by left|right]. rewrite Z.add_0_l in He.
  split; [done|]. exists n, f, c0, w0. split; [done|]. split; [done|]. split; [|done].
  by apply (ended_by_position phase f c0 w0 _ err c' w').
Qed.

(** Example filters: one that denies after changing a header, one that lets the
    request pass, one that fails. *)
Definition denyAll : Exec () := fun c w => (None, Block (SetHeaderUpstream c "x-seen" "1") 403 "no", w).
Definition passAll : Exec () := fun c w => (None, c, w).
Definition failAll : Exec () := fun c w => (Some "boom"%string, c, w).

Definition example_chain : Chain () := [Base 0 None passAll; Audit (Base 1 None failAll); Base 2 None denyAll].

Lemma Execute_verdict_attributed_witness :
  exists err c' w', Execute newContext () example_chain PhaseRequestHeaders = (err, c', w') /\ BlockedBy c' = 2%Z /\
  exists n f c0 w0, example_chain !! n = Some f /\
    passed PhaseRequestHeaders 0 (take n example_chain) (newContext <| CPhase := PhaseRequestHeaders |>) () c0 w0 /\
    ended_by PhaseRequestHeaders f c0 w0 (Z.of_nat n) err c' w'.
Proof.
  destruct (Execute newContext () example_chain PhaseRequestHeaders) as [[err c'] w'] eqn:E.
  assert (Blocked c' = true /\ BlockedBy c' = 2%Z) as [Hb Hby] by (vm_compute in E; by injection E as <- <- <-).
  exists err, c', w'. split; [reflexivity|]. split; [exact Hby|].
  destruct (Execute_verdict_attributed newContext () example_chain PhaseRequestHeaders err c' w' eq_refl E)
    as [(_ & H & _)|(_ & n & f & c0 & w0 & Hn & Hp & _ & He)]; [congruence|].
  exists n, f, c0, w0. split; [exact Hn|]. split; [exact Hp|exact He].
Defined.

(** Once a part of the chain has blocked or failed, the rest of the chain is
    irrelevant: no later filter runs, whatever it is. *)
Theorem Execute_stops {W : Type} (c : RequestContext) (w : W) (pre post : Chain W) (phase : Phase)
  (err : option string) (c' : RequestContext) (w' : W) :
  Execute c w pre phase = (err, c', w') -> Blocked c' = true ->
  Execute c w (pre ++ post) phase = (err, c', w').
Proof.
  unfold Execute. intros H Hb. rewrite execute_loop_app, H. destruct err; [done|].
  by apply execute_loop_blocked.
Qed.

Lemma Execute_stops_witness :
  exists c', Execute newContext () [Base 2 None denyAll] PhaseRequestHeaders = (None, c', ()) /\
  Execute newContext () ([Base 2 None denyAll] ++ [Base 1 None failAll]) PhaseRequestHeaders
  = (None, c', ()).
Proof.
  eexists. split; [reflexivity|].
  apply (Execute_stops newContext () [Base 2 None denyAll] [Base 1 None failAll]); reflexivity.
Defined.

(** C16: a denial or failure in audit mode leaves no trace but its record: if the
    filter changes nothing beyond the verdict and the saved header and path
    changes, the context continues exactly as it was, with one audit hit. *)
Theorem audited_denial_leaves_no_trace {W : Type} (c : RequestContext) (w : W) (f : Filter W) (i : Z)
  (err : option string) (c1 : RequestContext) (w1 : W) :
  clean c -> FilterExecute f c w = (err, c1, w1) -> touches_only_saved c c1 ->
  is_Some err \/ (Blocked c1 = true /\ Answered c1 = false) ->
  executeAudited c w f i =
  (add_hit c (match err with
              | Some _ => mkAuditHit i 500 true
              | None => mkAuditHit i (if (ResponseStatus c1 =? 0)%Z then 403%Z else ResponseStatus c1) false
              end), w1).
Proof.
  intros Hc Hf Ht Hd. unfold executeAudited. rewrite Hf.
  assert (AuditHits c1 = AuditHits c) as Hh.
  { destruct Ht as [Ht _]. change (AuditHits (frame c1) = AuditHits (frame c)). by rewrite Ht. }
  assert (forall h, unblock (restoreMutations (add_hit c1 h) (saveMutations c)) = add_hit c h) as Hr.
  { intros h. transitivity (add_hit (unblock (restoreMutations c1 (saveMutations c))) h); [done|].
    by rewrite restore_frame. }
  destruct err as [e|]; [by rewrite Hr|]. destruct Hd as [[? ?]|[Hb Ha]]; [done|].
  rewrite Hb, Ha. simpl. by rewrite Hr.
Qed.

Lemma audited_denial_leaves_no_trace_witness :
  executeAudited newContext () (Base 2 None denyAll) 0 = (add_hit newContext (mkAuditHit 0 403 false), ()).
Proof.
  apply (audited_denial_leaves_no_trace newContext () (Base 2 None denyAll) 0 None
           (Block (SetHeaderUpstream newContext "x-seen" "1") 403 "no")).
  - repeat split.
  - reflexivity.
  - split; [reflexivity|]. apply prefix_nil.
  - right. split; reflexivity.
Defined.

(** A filter is only ever called in the phases it declares: exchanging
    filters that do not run in a phase for any others that do not run in it
    changes neither the verdict nor the world. *)
Theorem Execute_phase_gated {W : Type} (c : RequestContext) (w : W) (chain chain' : Chain W)
  (phase : Phase) :
  Forall2 (same_in phase) chain chain' -> Execute c w chain phase = Execute c w chain' phase.
Proof. intros H. unfold Execute. by apply execute_loop_same. Qed.

Lemma Execute_phase_gated_witness :
  Execute newContext () [Base 1 None failAll; Base 0 (Some [PhaseResponseHeaders]) passAll] PhaseResponseHeaders
  = Execute newContext () [Base 2 (Some []) denyAll; Base 0 (Some [PhaseResponseHeaders]) passAll]
      PhaseResponseHeaders.
Proof.
  apply Execute_phase_gated. constructor; [right; split; reflexivity|].
  constructor; [by left|constructor].
Defined.
