(* ===== verification/Config.v ===== *)
(** * Config: the configuration and its validation (internal/config: config.go,
    chain.go, routing.go, server.go, redis.go, parser.go)

    [ParseBytes] turns a document into a validated configuration: defaults
    filled in, selectors and regular expressions compiled, chain references
    checked. The YAML decoder, the regexp package and the environment are
    parameters. *)

From S2P Require Import Prelude GoStrings GoTime Netip Identity Selector.

Local Open Scope string_scope.

(** ** Data *)

(** A decoded YAML value. *)
Inductive Value : Type :=
| VNull | VBool (b : bool) | VInt (z : Z) | VFloat (text : string) | VString (s : string)
| VSeq (vs : list Value) | VMap (m : list (string * Value)).

Record FilterConfig := mkFilterConfig {
  fcName : string; fcAudit : bool; fcType : string; fcOptions : GoMap Value }.

Definition ChainConfig : Type := list FilterConfig.

Definition LimitActionDeny : string := "deny".
Definition LimitActionAllow : string := "allow".

Record ChainSettings := mkChainSettings {
  Timeout : string;
  MaxConcurrency : Z;
  OnTimeout : string;
  OnOverload : string;
  TimeoutDuration : Z
}.
#[export] Instance ChainSettings_eta : Eta ChainSettings := fun x =>
  mkChainSettings (Timeout x) (MaxConcurrency x) (OnTimeout x) (OnOverload x) (TimeoutDuration x).

Definition zeroChainSettings : ChainSettings := mkChainSettings "" 0 "" "" 0.

(** One round of the loop over [on_timeout] and [on_overload]. *)
Definition limit_action (v : string) : result string :=
  if String.eqb v "" then Ok LimitActionDeny
  else if String.eqb v LimitActionDeny || String.eqb v LimitActionAllow then Ok v
  else Err "must be deny or allow".

Definition validate (c : ChainSettings) : result ChainSettings :=
  let? c := (if String.eqb (Timeout c) "" then Ok c
             else match ParseDuration (Timeout c) with
                  | Some d => if (d <=? 0)%Z then Err "timeout: invalid duration"
                              else Ok (c <| TimeoutDuration := d |>)
                  | None => Err "timeout: invalid duration"
                  end) in
  if (MaxConcurrency c <? 0)%Z then Err "max_concurrency must be >= 0"
  else
    let? t := limit_action (OnTimeout c) in
    let? o := limit_action (OnOverload c) in
    Ok (c <| OnTimeout := t |> <| OnOverload := o |>).

(** A compiled regular expression, as [MatchString] of it. *)
Definition Regex : Type := string -> bool.

Record HeaderMatchConfig := mkHeaderMatchConfig {
  Exact : string; RegexPattern : string; CompiledRegex : option Regex }.
#[export] Instance HeaderMatchConfig_eta : Eta HeaderMatchConfig := fun x =>
  mkHeaderMatchConfig (Exact x) (RegexPattern x) (CompiledRegex x).

Record MatchConfig := mkMatchConfig {
  mTraffic : string;
  Sources : list string;
  Destinations : list string;
  CompiledTraffic : Traffic;
  CompiledSources : option SelSet;
  CompiledDestinations : option SelSet;
  PathPrefix : string;
  PathRegexPattern : string;
  CompiledPathRegex : option Regex;
  mHeaders : GoMap HeaderMatchConfig
}.
#[export] Instance MatchConfig_eta : Eta MatchConfig := fun x =>
  mkMatchConfig (mTraffic x) (Sources x) (Destinations x) (CompiledTraffic x) (CompiledSources x)
    (CompiledDestinations x) (PathPrefix x) (PathRegexPattern x) (CompiledPathRegex x) (mHeaders x).

Record RouteConfig := mkRouteConfig {
  rName : string; Matches : list MatchConfig; TargetChain : string }.
#[export] Instance RouteConfig_eta : Eta RouteConfig := fun x =>
  mkRouteConfig (rName x) (Matches x) (TargetChain x).

Record DefaultChainsConfig := mkDefaultChainsConfig { NorthSouth : string; EastWest : string }.

Record RouterConfig := mkRouterConfig {
  Routes : list RouteConfig;
  DefaultChains : DefaultChainsConfig;
  DefaultChain : string;
  Other : string;
  UnknownSource : string
}.
#[export] Instance RouterConfig_eta : Eta RouterConfig := fun x =>
  mkRouterConfig (Routes x) (DefaultChains x) (DefaultChain x) (Other x) (UnknownSource x).

Definition UnknownSourceDeny : string := "deny".
Definition UnknownSourceDefault : string := "default".

Record TLSConfig := mkTLSConfig {
  tlsEnabled : bool; CertFile : string; KeyFile : string; tlsCAFile : string; MutualTLS : bool }.
#[export] Instance TLSConfig_eta : Eta TLSConfig := fun x =>
  mkTLSConfig (tlsEnabled x) (CertFile x) (KeyFile x) (tlsCAFile x) (MutualTLS x).

Record ShutdownConfig := mkShutdownConfig {
  QuietPeriod : string; MinDelay : string; MaxDelay : string; DrainTimeout : string;
  QuietPeriodDuration : Z; MinDelayDuration : Z; MaxDelayDuration : Z; DrainTimeoutDuration : Z }.
#[export] Instance ShutdownConfig_eta : Eta ShutdownConfig := fun x =>
  mkShutdownConfig (QuietPeriod x) (MinDelay x) (MaxDelay x) (DrainTimeout x)
    (QuietPeriodDuration x) (MinDelayDuration x) (MaxDelayDuration x) (DrainTimeoutDuration x).

Record ServerConfig := mkServerConfig {
  Address : string;
  MaxConcurrentStreams : Z;
  PoolPrewarmSize : Z;
  InitialHeaderCapacity : Z;
  PreallocBodyBufferBytes : Z;
  TLS : TLSConfig;
  HealthAddress : string;
  PprofAddress : string;
  TrustedProxyHops : Z;
  Shutdown : ShutdownConfig
}.
#[export] Instance ServerConfig_eta : Eta ServerConfig := fun x =>
  mkServerConfig (Address x) (MaxConcurrentStreams x) (PoolPrewarmSize x) (InitialHeaderCapacity x)
    (PreallocBodyBufferBytes x) (TLS x) (HealthAddress x) (PprofAddress x) (TrustedProxyHops x) (Shutdown x).

Record LoggingConfig := mkLoggingConfig { Level : string; Format : string; OutputPath : string }.
#[export] Instance LoggingConfig_eta : Eta LoggingConfig := fun x =>
  mkLoggingConfig (Level x) (Format x) (OutputPath x).

Record IdentityConfig := mkIdentityConfig {
  Enabled : bool; idAddress : string; idCAFile : string; ServerName : string;
  TokenFile : string; Insecure : bool }.
#[export] Instance IdentityConfig_eta : Eta IdentityConfig := fun x =>
  mkIdentityConfig (Enabled x) (idAddress x) (idCAFile x) (ServerName x) (TokenFile x) (Insecure x).

Record RedisServiceConfig := mkRedisServiceConfig {
  RType : string; SocketType : string; URL : string; PoolSize : Z; Auth : string; RTLS : bool;
  TLSClientCert : string; TLSClientKey : string; TLSCACert : string;
  TLSSkipHostnameVerification : bool;
  PipelineWindow : string; PipelineWindowDuration : Z;
  ClusterPipelineParallelism : Z; SentinelAuth : string; ActiveConnHealthCheck : bool;
  RTimeout : string; RTimeoutDuration : Z;
  OnEmptyBehavior : string;
  WaitTimeout : string; WaitTimeoutDuration : Z;
  StartupInitialInterval : string; StartupInitialIntervalDuration : Z;
  StartupMaxInterval : string; StartupMaxIntervalDuration : Z;
  StartupMaxElapsedTime : string; StartupMaxElapsedTimeDuration : Z
}.
#[export] Instance RedisServiceConfig_eta : Eta RedisServiceConfig := fun x =>
  mkRedisServiceConfig (RType x) (SocketType x) (URL x) (PoolSize x) (Auth x) (RTLS x)
    (TLSClientCert x) (TLSClientKey x) (TLSCACert x) (TLSSkipHostnameVerification x)
    (PipelineWindow x) (PipelineWindowDuration x) (ClusterPipelineParallelism x) (SentinelAuth x)
    (ActiveConnHealthCheck x) (RTimeout x) (RTimeoutDuration x) (OnEmptyBehavior x)
    (WaitTimeout x) (WaitTimeoutDuration x) (StartupInitialInterval x)
    (StartupInitialIntervalDuration x) (StartupMaxInterval x) (StartupMaxIntervalDuration x)
    (StartupMaxElapsedTime x) (StartupMaxElapsedTimeDuration x).
#[export] Instance RedisServiceConfig_eq_dec : EqDecision RedisServiceConfig.
Proof. solve_decision. Defined.

Record Config := mkConfig {
  Version : string;
  Server : ServerConfig;
  Logging : LoggingConfig;
  Chains : GoMap ChainConfig;
  Router : RouterConfig;
  Redis : GoMap RedisServiceConfig;
  Settings : GoMap ChainSettings;
  cfgIdentity : IdentityConfig
}.
#[export] Instance Config_eta : Eta Config := fun x =>
  mkConfig (Version x) (Server x) (Logging x) (Chains x) (Router x) (Redis x) (Settings x) (cfgIdentity x).

(** ** Defaults and validation *)

Definition DefaultShutdownQuietPeriod : Z := 2 * Second.
Definition DefaultShutdownMinDelay : Z := 3 * Second.
Definition DefaultShutdownMaxDelay : Z := 15 * Second.
Definition DefaultShutdownDrainTimeout : Z := 20 * Second.
Definition DefaultPoolPrewarmSize : Z := 256.
Definition DefaultIdentityTokenFile : string := "/var/run/secrets/hypergate/identity/token".

(** One entry of the table in [applyDefaults]. *)
Definition shutdown_duration (raw : string) (def : Z) : result Z :=
  if String.eqb raw "" then Ok def
  else match ParseDuration raw with
       | Some d => if (d <? 0)%Z then Err "server.shutdown: invalid duration" else Ok d
       | None => Err "server.shutdown: invalid duration"
       end.

Definition applyDefaults (c : ShutdownConfig) : result ShutdownConfig :=
  let? q := shutdown_duration (QuietPeriod c) DefaultShutdownQuietPeriod in
  let? mn := shutdown_duration (MinDelay c) DefaultShutdownMinDelay in
  let? mx := shutdown_duration (MaxDelay c) DefaultShutdownMaxDelay in
  let? d := shutdown_duration (DrainTimeout c) DefaultShutdownDrainTimeout in
  if (mx <? mn)%Z then Err "server.shutdown.min_delay must not exceed max_delay"
  else Ok (c <| QuietPeriodDuration := q |> <| MinDelayDuration := mn |>
             <| MaxDelayDuration := mx |> <| DrainTimeoutDuration := d |>).

Definition or_default (v def : string) : string := if String.eqb v "" then def else v.
Definition or_default_Z (v def : Z) : Z := if (v =? 0)%Z then def else v.
Definition duration_or_error (v : string) : result Z :=
  match ParseDuration v with Some d => Ok d | None => Err "redis: invalid duration" end.
Definition one_of (v : string) (l : list string) : bool := existsb (String.eqb v) l.

Definition applyRedisDefaults (c : RedisServiceConfig) : result RedisServiceConfig :=
  let c := c <| RType := or_default (RType c) "SINGLE" |>
             <| SocketType := or_default (SocketType c) "tcp" |>
             <| URL := or_default (URL c) "localhost:6379" |>
             <| PoolSize := or_default_Z (PoolSize c) 10 |>
             <| PipelineWindow := or_default (PipelineWindow c) "0s" |>
             <| ClusterPipelineParallelism := or_default_Z (ClusterPipelineParallelism c) 1 |>
             <| RTimeout := or_default (RTimeout c) "10s" |>
             <| OnEmptyBehavior := or_default (OnEmptyBehavior c) "WAIT" |>
             <| WaitTimeout := or_default (WaitTimeout c) "1s" |>
             <| StartupInitialInterval := or_default (StartupInitialInterval c) "1s" |>
             <| StartupMaxInterval := or_default (StartupMaxInterval c) "30s" |>
             <| StartupMaxElapsedTime := or_default (StartupMaxElapsedTime c) "0s" |> in
  if negb (one_of (RType c) ["SINGLE"; "CLUSTER"; "SENTINEL"]) then Err "redis: invalid type"
  else if negb (one_of (SocketType c) ["tcp"; "unix"]) then Err "redis: invalid socket_type"
  else if negb (String.eqb (OnEmptyBehavior c) "WAIT") then Err "redis: invalid on_empty_behavior"
  else
    let? pw := duration_or_error (PipelineWindow c) in
    let? t := duration_or_error (RTimeout c) in
    let? wt := duration_or_error (WaitTimeout c) in
    let? si := duration_or_error (StartupInitialInterval c) in
    let? sm := duration_or_error (StartupMaxInterval c) in
    let? se := duration_or_error (StartupMaxElapsedTime c) in
    Ok (c <| PipelineWindowDuration := pw |> <| RTimeoutDuration := t |>
          <| WaitTimeoutDuration := wt |> <| StartupInitialIntervalDuration := si |>
          <| StartupMaxIntervalDuration := sm |> <| StartupMaxElapsedTimeDuration := se |>).

Definition MatchCompile (m : MatchConfig) (allowWorkloads : bool) : result MatchConfig :=
  let? t := ParseTraffic (mTraffic m) in
  let? src := Compile (Sources m) Source allowWorkloads in
  let? dst := Compile (Destinations m) Destination allowWorkloads in
  Ok (m <| CompiledTraffic := t |> <| CompiledSources := src |> <| CompiledDestinations := dst |>).

(** [lowered[strings.ToLower(k)] = v] over the map's entries. *)
Definition lower_headers (h : GoMap HeaderMatchConfig) : GoMap HeaderMatchConfig :=
  fold_left (fun m '(k, v) => map_set m (ToLower k) v) h [].

Definition check_chain_ref (chains : GoMap ChainConfig) (name : string) : result () :=
  if String.eqb name "" then Ok tt
  else if map_has chains name then Ok tt else Err "router references undefined chain".

Definition validateChainReferences (cfg : Config) : result () :=
  let? _ := fold_result (fun _ route =>
              if String.eqb (TargetChain route) "" then Err "route has no target_chain"
              else if map_has (Chains cfg) (TargetChain route) then Ok tt
              else Err "route targets undefined chain") tt (Routes (Router cfg)) in
  fold_result (fun _ name => check_chain_ref (Chains cfg) name) tt
    [DefaultChain (Router cfg); Other (Router cfg); NorthSouth (DefaultChains (Router cfg));
     EastWest (DefaultChains (Router cfg))].

Section Parser.
(** [yaml.Unmarshal] into the structs, before the custom defaults of the Redis
    services; [regexp.Compile]; [os.Getenv]. *)
Variable unmarshal : string -> result Config.
Variable regexp : string -> option Regex.
Variable getenv : string -> string.

Definition applyTLSEnvOverrides (tls : TLSConfig) : TLSConfig :=
  let cert := getenv "TLS_CERT_FILE" in
  let key := getenv "TLS_KEY_FILE" in
  if String.eqb cert "" || String.eqb key "" then tls
  else
    let tls := tls <| tlsEnabled := true |> <| CertFile := cert |> <| KeyFile := key |> in
    let ca := getenv "TLS_CA_FILE" in
    let tls := if String.eqb ca "" then tls else tls <| tlsCAFile := ca |> in
    if String.eqb (getenv "TLS_MUTUAL_TLS") "true" then tls <| MutualTLS := true |> else tls.

Definition compile_regex (pattern : string) : result (option Regex) :=
  if String.eqb pattern "" then Ok None
  else match regexp pattern with Some re => Ok (Some re) | None => Err "invalid regex" end.

Definition compile_header (e : string * HeaderMatchConfig) : result (string * HeaderMatchConfig) :=
  let '(k, h) := e in
  let? re := compile_regex (RegexPattern h) in
  Ok (k, match re with Some _ => h <| CompiledRegex := re |> | None => h end).

(** The body of the loop over the matches of a route. *)
Definition compile_match (identityEnabled : bool) (m : MatchConfig) : result MatchConfig :=
  let? m := MatchCompile m identityEnabled in
  let? re := compile_regex (PathRegexPattern m) in
  let m := match re with Some _ => m <| CompiledPathRegex := re |> | None => m end in
  let? hs := map_result compile_header (lower_headers (mHeaders m)) in
  Ok (m <| mHeaders := hs |>).

Definition compile_route (identityEnabled : bool) (r : RouteConfig) : result RouteConfig :=
  let? ms := map_result (compile_match identityEnabled) (Matches r) in
  Ok (r <| Matches := ms |>).

Definition server_defaults (s : ServerConfig) : result ServerConfig :=
  let s := s <| PoolPrewarmSize := if (PoolPrewarmSize s <=? 0)%Z then DefaultPoolPrewarmSize
                                   else PoolPrewarmSize s |>
             <| InitialHeaderCapacity := if (InitialHeaderCapacity s <=? 0)%Z then 64%Z
                                         else InitialHeaderCapacity s |>
             <| HealthAddress := or_default (HealthAddress s) ":9003" |> in
  let? sh := applyDefaults (Shutdown s) in
  let s := s <| Shutdown := sh |> in
  if (TrustedProxyHops s <? 0)%Z then Err "server.client_ip.trusted_proxy_hops must be >= 0" else Ok s.

Definition logging_defaults (l : LoggingConfig) : LoggingConfig :=
  l <| Level := or_default (Level l) "INFO" |> <| Format := or_default (Format l) "console" |>
    <| OutputPath := or_default (OutputPath l) "stdout" |>.

Definition check_identity (id : IdentityConfig) : result IdentityConfig :=
  if Enabled id then
    if String.eqb (idAddress id) "" then Err "identity.address is required"
    else if String.eqb (idCAFile id) "" && negb (Insecure id) then Err "identity.ca_file is required"
    else Ok (id <| TokenFile := or_default (TokenFile id) DefaultIdentityTokenFile |>)
  else Ok id.

Definition check_unknown_source (v : string) : result string :=
  if String.eqb v "" then Ok UnknownSourceDeny
  else if String.eqb v UnknownSourceDeny || String.eqb v UnknownSourceDefault then Ok v
  else Err "router.unknown_source must be deny or default".

Definition check_settings (chains : GoMap ChainConfig) (e : string * ChainSettings)
  : result (string * ChainSettings) :=
  let '(name, cs) := e in
  if negb (map_has chains name) then Err "chain_settings: no chain with that name"
  else let? cs := validate cs in Ok (name, cs).

Definition ParseBytes (data : string) : result Config :=
  let? cfg := unmarshal data in
  let? redis := map_result (fun e => let? c := applyRedisDefaults e.2 in Ok (e.1, c)) (Redis cfg) in
  let cfg := cfg <| Redis := redis |> in
  if negb (String.eqb (Version cfg) "v1") then Err "invalid config version"
  else
    let? server := server_defaults (Server cfg) in
    let cfg := cfg <| Server := server |> <| Logging := logging_defaults (Logging cfg) |> in
    let? routes := map_result (compile_route (Enabled (cfgIdentity cfg))) (Routes (Router cfg)) in
    let cfg := cfg <| Router := (Router cfg) <| Routes := routes |> |> in
    let cfg := cfg <| Server := (Server cfg) <| TLS := applyTLSEnvOverrides (TLS (Server cfg)) |> |> in
    let? us := check_unknown_source (UnknownSource (Router cfg)) in
    let cfg := cfg <| Router := (Router cfg) <| UnknownSource := us |> |> in
    let? id := check_identity (cfgIdentity cfg) in
    let cfg := cfg <| cfgIdentity := id |> in
    let? settings := map_result (check_settings (Chains cfg)) (Settings cfg) in
    let cfg := cfg <| Settings := settings |> in
    let? _ := validateChainReferences cfg in
    Ok cfg.

End Parser.

(** ** What an accepted configuration guarantees *)

Definition chain_defined (cfg : Config) (name : string) : Prop := map_has (Chains cfg) name = true.

Definition settings_ok (s : ChainSettings) : Prop :=
  (0 <= MaxConcurrency s)%Z /\ OnTimeout s ∈ [LimitActionDeny; LimitActionAllow] /\
  OnOverload s ∈ [LimitActionDeny; LimitActionAllow] /\
  (Timeout s <> "" -> (0 < TimeoutDuration s)%Z).

Record config_ok (regexp : string -> option Regex) (cfg : Config) : Prop := {
  ok_targets : forall r, r ∈ Routes (Router cfg) ->
    TargetChain r <> "" /\ chain_defined cfg (TargetChain r);
  ok_defaults : forall n, n ∈ [DefaultChain (Router cfg); Other (Router cfg);
      NorthSouth (DefaultChains (Router cfg)); EastWest (DefaultChains (Router cfg))] ->
    n = "" \/ chain_defined cfg n;
  ok_settings : forall n s, (n, s) ∈ Settings cfg -> chain_defined cfg n /\ settings_ok s;
  ok_matches : forall r m, r ∈ Routes (Router cfg) -> m ∈ Matches r ->
    exists m0, compile_match regexp (Enabled (cfgIdentity cfg)) m0 = Ok m;
  ok_unknown : UnknownSource (Router cfg) ∈ [UnknownSourceDeny; UnknownSourceDefault];
  ok_hops : (0 <= TrustedProxyHops (Server cfg))%Z;
  ok_shutdown : (0 <= MinDelayDuration (Shutdown (Server cfg)) <= MaxDelayDuration (Shutdown (Server cfg)))%Z;
  ok_identity : Enabled (cfgIdentity cfg) = true ->
    idAddress (cfgIdentity cfg) <> "" /\
    (idCAFile (cfgIdentity cfg) <> "" \/ Insecure (cfgIdentity cfg) = true)
}.

(** *** Defaults

    What an accepted configuration [cfg] has for the written one [c0]: the written value,
    or the documented default where it was left out. *)

Definition filled {A : Type} (left_out : Prop) (written def got : A) : Prop :=
  (left_out -> got = def) /\ (~ left_out -> got = written).
Definition filled_text (written def got : string) : Prop := filled (written = "") written def got.
Definition filled_count (written def got : Z) : Prop := filled (written <= 0)%Z written def got.

(** A duration that is written as text, with a lower bound. *)
Definition filled_duration (written : string) (def least got : Z) : Prop :=
  (written = "" /\ got = def) \/ (written <> "" /\ ParseDuration written = Some got /\ (least <= got)%Z).

Record server_filled (c0 c : ServerConfig) : Prop := {
  filled_server_kept : Address c = Address c0 /\ MaxConcurrentStreams c = MaxConcurrentStreams c0 /\
    PreallocBodyBufferBytes c = PreallocBodyBufferBytes c0 /\ PprofAddress c = PprofAddress c0 /\
    TrustedProxyHops c = TrustedProxyHops c0;
  filled_prewarm : filled_count (PoolPrewarmSize c0) 256 (PoolPrewarmSize c);
  filled_capacity : filled_count (InitialHeaderCapacity c0) 64 (InitialHeaderCapacity c);
  filled_health : filled_text (HealthAddress c0) ":9003" (HealthAddress c);
  filled_quiet : filled_duration (QuietPeriod (Shutdown c0)) (2 * Second) 0 (QuietPeriodDuration (Shutdown c));
  filled_min : filled_duration (MinDelay (Shutdown c0)) (3 * Second) 0 (MinDelayDuration (Shutdown c));
  filled_max : filled_duration (MaxDelay (Shutdown c0)) (15 * Second) 0 (MaxDelayDuration (Shutdown c));
  filled_drain : filled_duration (DrainTimeout (Shutdown c0)) (20 * Second) 0 (DrainTimeoutDuration (Shutdown c))
}.

Record logging_filled (l0 l : LoggingConfig) : Prop := {
  filled_level : filled_text (Level l0) "INFO" (Level l);
  filled_format : filled_text (Format l0) "console" (Format l);
  filled_output : filled_text (OutputPath l0) "stdout" (OutputPath l)
}.

(** The listener's certificate: the environment's when it names both files. *)
Definition tls_filled (getenv : string -> string) (t0 t : TLSConfig) : Prop :=
  let cert := getenv "TLS_CERT_FILE" in let key := getenv "TLS_KEY_FILE" in
  filled (cert = "" \/ key = "") (true, cert, key) (tlsEnabled t0, CertFile t0, KeyFile t0) (tlsEnabled t, CertFile t, KeyFile t) /\
  filled (cert = "" \/ key = "" \/ getenv "TLS_CA_FILE" = "") (getenv "TLS_CA_FILE") (tlsCAFile t0) (tlsCAFile t) /\
  filled (cert = "" \/ key = "" \/ getenv "TLS_MUTUAL_TLS" <> "true") true (MutualTLS t0) (MutualTLS t).

Definition identity_filled (i0 i : IdentityConfig) : Prop :=
  Enabled i = Enabled i0 /\ idAddress i = idAddress i0 /\ idCAFile i = idCAFile i0 /\ ServerName i = ServerName i0 /\
  Insecure i = Insecure i0 /\
  (Enabled i0 = true -> filled_text (TokenFile i0) "/var/run/secrets/hypergate/identity/token" (TokenFile i)).

Definition settings_filled (e0 e : string * ChainSettings) : Prop :=
  e.1 = e0.1 /\ MaxConcurrency e.2 = MaxConcurrency e0.2 /\
  filled_duration (Timeout e0.2) (TimeoutDuration e0.2) 1 (TimeoutDuration e.2) /\
  filled_text (OnTimeout e0.2) "deny" (OnTimeout e.2) /\ filled_text (OnOverload e0.2) "deny" (OnOverload e.2).

Definition route_filled (regexp : string -> option Regex) (identityEnabled : bool) (r0 r : RouteConfig) : Prop :=
  rName r = rName r0 /\ TargetChain r = TargetChain r0 /\
  Forall2 (fun m0 m => compile_match regexp identityEnabled m0 = Ok m) (Matches r0) (Matches r).

Record redis_filled (e0 e : string * RedisServiceConfig) : Prop := {
  filled_redis_name : e.1 = e0.1;
  filled_redis_kept : Auth e.2 = Auth e0.2 /\ SentinelAuth e.2 = SentinelAuth e0.2 /\ RTLS e.2 = RTLS e0.2 /\
    TLSClientCert e.2 = TLSClientCert e0.2 /\ TLSClientKey e.2 = TLSClientKey e0.2 /\ TLSCACert e.2 = TLSCACert e0.2 /\
    TLSSkipHostnameVerification e.2 = TLSSkipHostnameVerification e0.2 /\
    ActiveConnHealthCheck e.2 = ActiveConnHealthCheck e0.2;
  filled_type : filled_text (RType e0.2) "SINGLE" (RType e.2) /\ RType e.2 ∈ ["SINGLE"; "CLUSTER"; "SENTINEL"];
  filled_socket : filled_text (SocketType e0.2) "tcp" (SocketType e.2) /\ SocketType e.2 ∈ ["tcp"; "unix"];
  filled_url : filled_text (URL e0.2) "localhost:6379" (URL e.2);
  filled_pool : filled (PoolSize e0.2 = 0%Z) (PoolSize e0.2) 10%Z (PoolSize e.2);
  filled_parallelism : filled (ClusterPipelineParallelism e0.2 = 0%Z) (ClusterPipelineParallelism e0.2) 1%Z (ClusterPipelineParallelism e.2);
  filled_on_empty : filled_text (OnEmptyBehavior e0.2) "WAIT" (OnEmptyBehavior e.2);
  filled_window : ParseDuration (or_default (PipelineWindow e0.2) "0s") = Some (PipelineWindowDuration e.2);
  filled_timeout : ParseDuration (or_default (RTimeout e0.2) "10s") = Some (RTimeoutDuration e.2);
  filled_wait : ParseDuration (or_default (WaitTimeout e0.2) "1s") = Some (WaitTimeoutDuration e.2);
  filled_initial : ParseDuration (or_default (StartupInitialInterval e0.2) "1s") = Some (StartupInitialIntervalDuration e.2);
  filled_interval : ParseDuration (or_default (StartupMaxInterval e0.2) "30s") = Some (StartupMaxIntervalDuration e.2);
  filled_elapsed : ParseDuration (or_default (StartupMaxElapsedTime e0.2) "0s") = Some (StartupMaxElapsedTimeDuration e.2)
}.

Record config_filled (regexp : string -> option Regex) (getenv : string -> string) (c0 cfg : Config) : Prop := {
  filled_version : Version c0 = "v1" /\ Version cfg = "v1";
  filled_chains : Chains cfg = Chains c0;
  filled_server : server_filled (Server c0) (Server cfg);
  filled_tls : tls_filled getenv (TLS (Server c0)) (TLS (Server cfg));
  filled_logging : logging_filled (Logging c0) (Logging cfg);
  filled_routes : Forall2 (route_filled regexp (Enabled (cfgIdentity c0))) (Routes (Router c0)) (Routes (Router cfg));
  filled_default_chains : DefaultChains (Router cfg) = DefaultChains (Router c0) /\
    DefaultChain (Router cfg) = DefaultChain (Router c0) /\ Other (Router cfg) = Other (Router c0);
  filled_unknown : filled_text (UnknownSource (Router c0)) "deny" (UnknownSource (Router cfg));
  filled_redis : Forall2 redis_filled (Redis c0) (Redis cfg);
  filled_settings : Forall2 settings_filled (Settings c0) (Settings cfg);
  filled_identity : identity_filled (cfgIdentity c0) (cfgIdentity cfg)
}.

(** ** Lemmas *)

Lemma or_default_filled v def : filled_text v def (or_default v def).
Proof. unfold or_default. destruct (String.eqb_spec v "") as [->|]; by split. Qed.

Lemma or_default_Z_filled v def : filled (v = 0%Z) v def (or_default_Z v def).
Proof. unfold or_default_Z. destruct (Z.eqb_spec v 0) as [->|]; by split. Qed.

Lemma count_filled v def : filled_count v def (if (v <=? 0)%Z then def else v).
Proof. destruct (Z.leb_spec v 0); split; intros; [done|lia|lia|done]. Qed.

Lemma limit_action_filled v x : limit_action v = Ok x -> filled_text v "deny" x.
Proof.
  unfold limit_action. destruct (String.eqb_spec v "") as [->|]; [intros [= <-]; by split|].
  destruct (_ || _); [|done]. intros [= <-]. by split.
Qed.

Lemma shutdown_duration_filled raw def d : shutdown_duration raw def = Ok d -> filled_duration raw def 0 d.
Proof.
  unfold shutdown_duration. destruct (String.eqb_spec raw ""); [intros [= <-]; by left|].
  destruct (ParseDuration raw) as [d'|] eqn:E; [|done]. destruct (Z.ltb_spec d' 0); [done|]. intros [= <-]. by right.
Qed.

Lemma duration_or_error_Some v d : duration_or_error v = Ok d -> ParseDuration v = Some d.
Proof. unfold duration_or_error. destruct (ParseDuration v); [by intros [= <-]|done]. Qed.

Lemma one_of_elem v l : one_of v l = true -> v ∈ l.
Proof. unfold one_of. intros (x & Hx & E%String.eqb_eq)%existsb_elem. by subst. Qed.

Lemma applyRedisDefaults_filled n c c' : applyRedisDefaults c = Ok c' -> redis_filled (n, c) (n, c').
Proof.
  unfold applyRedisDefaults. set (c1 := _ <| StartupMaxElapsedTime := _ |>).
  destruct (one_of (RType c1) _) eqn:E1; [|done]. destruct (one_of (SocketType c1) _) eqn:E2; [|done].
  destruct (String.eqb (OnEmptyBehavior c1) "WAIT"); [|done]. cbn [negb].
  intros (pw & H1 & (t & H2 & (wt & H3 & (si & H4 & (sm & H5 & (se & H6 & [= <-])%result_bind_Ok)%result_bind_Ok)%result_bind_Ok)
    %result_bind_Ok)%result_bind_Ok)%result_bind_Ok.
  apply duration_or_error_Some in H1, H2, H3, H4, H5, H6. apply one_of_elem in E1, E2.
  split; cbn; try done; try apply or_default_filled; try apply or_default_Z_filled; split; [apply or_default_filled|exact E1|
    apply or_default_filled|exact E2].
Qed.

Lemma server_defaults_filled s s' : server_defaults s = Ok s' -> server_filled s s' /\ TLS s' = TLS s.
Proof.
  unfold server_defaults. intros (sh & Hsh & H)%result_bind_Ok. destruct (_ <? 0)%Z; [done|]. injection H as <-. split; [|done].
  unfold applyDefaults in Hsh.
  apply result_bind_Ok in Hsh as (q & Hq & (mn & Hmn & (mx & Hmx & (d & Hd & H)%result_bind_Ok)%result_bind_Ok)%result_bind_Ok).
  destruct (mx <? mn)%Z; [done|]. injection H as <-. apply shutdown_duration_filled in Hq, Hmn, Hmx, Hd.
  split; cbn; try done; [apply count_filled|apply count_filled|apply or_default_filled].
Qed.

Lemma applyTLSEnvOverrides_filled getenv t : tls_filled getenv t (applyTLSEnvOverrides getenv t).
Proof.
  unfold tls_filled, applyTLSEnvOverrides, filled.
  destruct (String.eqb_spec (getenv "TLS_CERT_FILE") "") as [E1|E1]; [split_and!; tauto|].
  destruct (String.eqb_spec (getenv "TLS_KEY_FILE") "") as [E2|E2]; [split_and!; tauto|]. cbn [orb].
  destruct (String.eqb_spec (getenv "TLS_CA_FILE") "") as [E3|E3], (String.eqb_spec (getenv "TLS_MUTUAL_TLS") "true") as [E4|E4];
    cbn; split_and!; intros; try tauto; try done.
Qed.

Lemma validate_filled n c c' : validate c = Ok c' -> settings_filled (n, c) (n, c').
Proof.
  unfold validate, settings_filled. intros (c1 & H1 & H)%result_bind_Ok.
  assert (MaxConcurrency c1 = MaxConcurrency c /\ OnTimeout c1 = OnTimeout c /\ OnOverload c1 = OnOverload c /\
          filled_duration (Timeout c) (TimeoutDuration c) 1 (TimeoutDuration c1)) as (Hm & Ht & Ho & Hd).
  { destruct (String.eqb_spec (Timeout c) ""); [injection H1 as <-; split_and!; try done; by left|].
    destruct (ParseDuration (Timeout c)) as [d|] eqn:E; [|done]. destruct (Z.leb_spec d 0); [done|].
    injection H1 as <-. split_and!; try done. right. split_and!; [done|done|cbn; lia]. }
  destruct (MaxConcurrency c1 <? 0)%Z; [done|].
  apply result_bind_Ok in H as (t & Hat%limit_action_filled & (o & Hao%limit_action_filled & [= <-])%result_bind_Ok).
  rewrite Ht in Hat. rewrite Ho in Hao. done.
Qed.

Lemma check_identity_filled i i' : check_identity i = Ok i' -> identity_filled i i'.
Proof.
  unfold check_identity, identity_filled. destruct (Enabled i) eqn:E; [|by intros [= <-]].
  destruct (String.eqb _ ""); [done|]. destruct (_ && _); [done|]. intros [= <-]. split_and!; try done.
  intros _. apply or_default_filled.
Qed.

Lemma check_unknown_source_filled v x : check_unknown_source v = Ok x -> filled_text v "deny" x.
Proof.
  unfold check_unknown_source. destruct (String.eqb_spec v "") as [->|]; [intros [= <-]; by split|].
  destruct (_ || _); [|done]. intros [= <-]. by split.
Qed.

Lemma limit_action_ok v x : limit_action v = Ok x -> x ∈ [LimitActionDeny; LimitActionAllow].
Proof.
  unfold limit_action. repeat case_match; try done; intros [= <-].
  - constructor.
  - apply orb_true_iff in H0 as [?|?]; bool_hyps; subst; [|constructor]; constructor.
Qed.

Lemma validate_ok c c' : validate c = Ok c' -> settings_ok c'.
Proof.
  unfold validate. intros (c1 & H1 & H)%result_bind_Ok.
  assert (Timeout c1 = Timeout c /\ MaxConcurrency c1 = MaxConcurrency c /\
          (Timeout c <> "" -> (0 < TimeoutDuration c1)%Z)) as (Ht & Hm & Hd).
  { destruct (String.eqb_spec (Timeout c) ""); [by injection H1 as <-|].
    destruct (ParseDuration (Timeout c)) as [d|]; [|done]. destruct (d <=? 0)%Z eqn:E; [done|].
    injection H1 as <-. bool_hyps. done. }
  destruct (MaxConcurrency c1 <? 0)%Z eqn:E; [done|].
  apply result_bind_Ok in H as (t & Hat & (o & Hao & H)%result_bind_Ok). injection H as <-. bool_hyps.
  split; [done|]. split; [by eapply limit_action_ok|]. split; [by eapply limit_action_ok|].
  cbn. by rewrite Ht.
Qed.

Lemma validateChainReferences_ok cfg :
  validateChainReferences cfg = Ok tt ->
  (forall r, r ∈ Routes (Router cfg) -> TargetChain r <> "" /\ chain_defined cfg (TargetChain r)) /\
  (forall n, n ∈ [DefaultChain (Router cfg); Other (Router cfg);
      NorthSouth (DefaultChains (Router cfg)); EastWest (DefaultChains (Router cfg))] ->
    n = "" \/ chain_defined cfg n).
Proof.
  unfold validateChainReferences. intros ([] & Hr & Hd)%result_bind_Ok.
  apply fold_check_Forall in Hr, Hd. rewrite Forall_forall in Hr. rewrite Forall_forall in Hd.
  split.
  - intros r Hin%Hr. destruct (String.eqb_spec (TargetChain r) ""); [done|].
    destruct (map_has _ _) eqn:E; done.
  - intros n Hin%Hd. unfold check_chain_ref in Hin. destruct (String.eqb_spec n ""); [by left|right].
    unfold chain_defined. destruct (map_has _ _) eqn:E; done.
Qed.

Lemma shutdown_duration_nonneg raw def d : (0 <= def)%Z -> shutdown_duration raw def = Ok d -> (0 <= d)%Z.
Proof.
  unfold shutdown_duration. intros Hd. destruct (String.eqb raw ""); [by intros [= <-]|].
  destruct (ParseDuration raw) as [d'|]; [|done]. destruct (Z.ltb_spec d' 0); [done|]. by intros [= <-].
Qed.

Lemma server_defaults_ok s s' :
  server_defaults s = Ok s' ->
  (0 <= TrustedProxyHops s')%Z /\ (0 <= MinDelayDuration (Shutdown s') <= MaxDelayDuration (Shutdown s'))%Z.
Proof.
  unfold server_defaults. intros (sh & Hsh & H)%result_bind_Ok.
  destruct (_ <? 0)%Z eqn:E; [done|]. injection H as <-. bool_hyps. split; [done|]. cbn.
  unfold applyDefaults in Hsh.
  apply result_bind_Ok in Hsh as (q & _ & (mn & Hmn & (mx & _ & (d & _ & H)%result_bind_Ok)%result_bind_Ok)%result_bind_Ok).
  destruct (mx <? mn)%Z eqn:E'; [done|]. injection H as <-. bool_hyps. split; [|done].
  by apply (shutdown_duration_nonneg _ _ _) in Hmn.
Qed.

Lemma check_unknown_source_ok v x :
  check_unknown_source v = Ok x -> x ∈ [UnknownSourceDeny; UnknownSourceDefault].
Proof.
  unfold check_unknown_source. repeat case_match; try done; intros [= <-].
  - constructor.
  - apply orb_true_iff in H0 as [?|?]; bool_hyps; subst; [|constructor]; constructor.
Qed.

Lemma check_identity_ok id id' :
  check_identity id = Ok id' ->
  Enabled id' = Enabled id /\
  (Enabled id' = true -> idAddress id' <> "" /\ (idCAFile id' <> "" \/ Insecure id' = true)).
Proof.
  unfold check_identity. destruct (Enabled id) eqn:E; [|intros [= <-]; by rewrite E].
  destruct (String.eqb_spec (idAddress id) ""); [done|].
  destruct (String.eqb_spec (idCAFile id) ""), (Insecure id) eqn:Ei; cbn; try done;
    intros [= <-]; cbn; rewrite E, ?Ei; auto.
Qed.

Lemma map_result_elem {A B : Type} (f : A -> result B) l ys y :
  map_result f l = Ok ys -> y ∈ ys -> exists x, x ∈ l /\ f x = Ok y.
Proof.
  intros H%map_result_Forall2 Hy. apply list_elem_of_lookup in Hy as [i Hi].
  destruct (Forall2_lookup_r _ _ _ _ _ H Hi) as (x & Hx & Hf). exists x.
  split; [by eapply list_elem_of_lookup_2|done].
Qed.

Lemma ParseBytes_ok (unmarshal : string -> result Config) (regexp : string -> option Regex)
  (getenv : string -> string) (data : string) (cfg : Config) :
  ParseBytes unmarshal regexp getenv data = Ok cfg -> config_ok regexp cfg.
Proof.
  unfold ParseBytes. intros (c0 & _ & H)%result_bind_Ok.
  apply result_bind_Ok in H as (redis & _ & H). destruct (negb _); [done|].
  apply result_bind_Ok in H as (server & Hserver & H).
  apply result_bind_Ok in H as (routes & Hroutes & H).
  apply result_bind_Ok in H as (us & Hus & H).
  apply result_bind_Ok in H as (id & Hid & H).
  apply result_bind_Ok in H as (settings & Hset & H).
  apply result_bind_Ok in H as ([] & Hrefs & H). injection H as <-.
  apply validateChainReferences_ok in Hrefs as [Ht Hd].
  apply server_defaults_ok in Hserver as [Hh Hs]. apply check_identity_ok in Hid as [He Hid].
  split; try done.
  - intros n s Hin. destruct (map_result_elem _ _ _ _ Hset Hin) as ([n' s'] & _ & Hc).
    unfold check_settings in Hc. cbn in Hc. destruct (map_has _ n') eqn:E; [|done]. cbn in Hc.
    apply result_bind_Ok in Hc as (s1 & Hv & Hc). injection Hc as <- <-. split; [done|].
    by eapply validate_ok.
  - intros r m Hr Hm. destruct (map_result_elem _ _ _ _ Hroutes Hr) as (r0 & _ & Hc).
    unfold compile_route in Hc. apply result_bind_Ok in Hc as (ms & Hms & Hc). injection Hc as <-.
    destruct (map_result_elem _ _ _ _ Hms Hm) as (m0 & _ & Hm0). exists m0. cbn. by rewrite He.
  - by eapply check_unknown_source_ok.
Qed.

Lemma ParseBytes_filled (unmarshal : string -> result Config) (regexp : string -> option Regex)
  (getenv : string -> string) (data : string) (cfg : Config) :
  ParseBytes unmarshal regexp getenv data = Ok cfg ->
  exists c0, unmarshal data = Ok c0 /\ config_filled regexp getenv c0 cfg.
Proof.
  unfold ParseBytes. intros (c0 & E & H)%result_bind_Ok. exists c0. split; [done|].
  apply result_bind_Ok in H as (redis & Hredis & H).
  destruct (String.eqb_spec (Version (c0 <| Redis := redis |>)) "v1") as [Hv|]; [|done]. cbn [negb] in H.
  apply result_bind_Ok in H as (server & Hserver & H). apply result_bind_Ok in H as (routes & Hroutes & H).
  apply result_bind_Ok in H as (us & Hus & H). apply result_bind_Ok in H as (id & Hid & H).
  apply result_bind_Ok in H as (settings & Hset & H). apply result_bind_Ok in H as ([] & _ & H). injection H as <-.
  apply server_defaults_filled in Hserver as [Hserver Htls].
  split; cbn; try done.
  - destruct Hserver. by split.
  - rewrite Htls. apply applyTLSEnvOverrides_filled.
  - split; apply or_default_filled.
  - eapply Forall2_impl; [apply map_result_Forall2, Hroutes|]. intros r0 r (ms & Hms & [= <-])%result_bind_Ok.
    split; [done|]. split; [done|]. by apply map_result_Forall2.
  - by apply check_unknown_source_filled.
  - eapply Forall2_impl; [apply map_result_Forall2, Hredis|]. intros [n c] e (c' & Hc & [= <-])%result_bind_Ok.
    by apply applyRedisDefaults_filled.
  - eapply Forall2_impl; [apply map_result_Forall2, Hset|]. intros [n c] e. unfold check_settings. destruct (negb _); [done|].
    intros (c' & Hc & [= <-])%result_bind_Ok. by apply validate_filled.
  - by apply check_identity_filled.
Qed.

(** ** Properties *)


Definition example_filter : FilterConfig := mkFilterConfig "" false "deny" [].
Definition example_match : MatchConfig :=
  mkMatchConfig "north_south" ["cidr:10.0.0.0/8"] ["host:*.example.com"] TrafficAny None None "/api" "" None
    [("X-Team", mkHeaderMatchConfig "a" "" None)].
Definition example_config : Config :=
  mkConfig "v1"
    (mkServerConfig ":9000" 0 0 0 0 (mkTLSConfig false "" "" "" false) "" "" 1
       (mkShutdownConfig "" "1s" "" "" 0 0 0 0))
    (mkLoggingConfig "" "" "") [("public", [example_filter])]
    (mkRouterConfig [mkRouteConfig "api" [example_match] "public"] (mkDefaultChainsConfig "" "public") "" "" "")
    [] [("public", mkChainSettings "250ms" 8 "" "allow" 0)]
    (mkIdentityConfig false "" "" "" "" false).
Definition example_unmarshal (data : string) : result Config :=
  if String.eqb data "doc" then Ok example_config else Err "yaml".

