(* ===== verification/RouterMatch.v ===== *)
(** * RouterMatch: choosing the chain of a request (internal/router/matcher.go)

    [RouteWith] walks the routes in order and falls back to the default chain of
    the traffic class. [written_match] states the meaning of a match entry on
    the strings an administrator writes; the theorems relate the two for every
    entry that the configuration parser accepts. *)

From S2P Require Import Prelude GoStrings GoTime Netip Identity Selector Context Config.

Local Open Scope string_scope.

(** ** The router *)

Definition trafficMatches (m : MatchConfig) (traffic : Traffic) : bool :=
  if negb (bool_decide (CompiledTraffic m = TrafficAny)) then bool_decide (CompiledTraffic m = traffic)
  else String.eqb (mTraffic m) "" || EqualFold (mTraffic m) "any".

Definition externalOK (c : RequestContext) : bool :=
  match SourceWorkload c with None => negb (bool_decide (CTraffic c = TrafficEastWest)) | Some _ => false end.

Definition header_matches (c : RequestContext) (e : string * HeaderMatchConfig) : bool :=
  let '(headerKey, ruleHeader) := e in
  match Headers c !! headerKey with
  | None => false
  | Some headerVal =>
      if String.eqb (Exact ruleHeader) "*" then true
      else if negb (String.eqb (Exact ruleHeader) "") && negb (String.eqb headerVal (Exact ruleHeader)) then false
      else match CompiledRegex ruleHeader with Some re => re headerVal | None => true end
  end.

Definition matches (m : MatchConfig) (c : RequestContext) : bool :=
  if negb (trafficMatches m (CTraffic c)) then false
  else if negb (String.eqb (PathPrefix m) "") && negb (HasPrefix (Path c) (PathPrefix m)) then false
  else if match CompiledPathRegex m with Some re => negb (re (Path c)) | None => false end then false
  else if (nonempty (Sources m) && is_none (CompiledSources m))
          || (nonempty (Destinations m) && is_none (CompiledDestinations m)) then false
  else if negb (MatchSource (CompiledSources m) (ClientAddr c) (SourceWorkload c) (externalOK c)) then false
  else if negb (MatchDestination (CompiledDestinations m) (DestinationAddr c) (Host c) (DestinationServices c))
    then false
  else forallb (header_matches c) (mHeaders m).

Definition defaultChain (rc : RouterConfig) (traffic : Traffic) : string :=
  let fallback := if String.eqb (DefaultChain rc) "" then Other rc else DefaultChain rc in
  match traffic with
  | TrafficNorthSouth => or_default (NorthSouth (DefaultChains rc)) fallback
  | TrafficEastWest => or_default (EastWest (DefaultChains rc)) fallback
  | TrafficAny => fallback
  end.

Fixpoint route_loop (routes : list RouteConfig) (c : RequestContext) : option RouteConfig :=
  match routes with
  | [] => None
  | r :: rs => if existsb (fun m => matches m c) (Matches r) then Some r else route_loop rs c
  end.

(** The chain name and the context with the matched route recorded. *)
Definition RouteWith (rc : RouterConfig) (c : RequestContext) : string * RequestContext :=
  match route_loop (Routes rc) c with
  | Some r => (TargetChain r, c <| MatchedRoute := rName r |>)
  | None => (defaultChain rc (CTraffic c), c)
  end.

(** [Route] uses the globally active configuration, when there is one. *)
Definition Route (activeCfg : option Config) (c : RequestContext) : string * RequestContext :=
  match activeCfg with
  | None => ("", c)
  | Some cfg => RouteWith (Router cfg) c
  end.

(** ** What a written match entry means *)

Section Meaning.
Variable regexp : string -> option Regex.

Definition regex_holds (pattern s : string) : Prop :=
  pattern = "" \/ exists re, regexp pattern = Some re /\ re s = true.

Definition written_header (c : RequestContext) (e : string * HeaderMatchConfig) : Prop :=
  exists v, Headers c !! ToLower e.1 = Some v /\
    (Exact e.2 = "*" \/ ((Exact e.2 = "" \/ v = Exact e.2) /\ regex_holds (RegexPattern e.2) v)).

(** The traffic value spells the word: case, dashes, underscores and space around it do
    not matter (traffic.go). *)
Definition spells (t word : string) : Prop :=
  delete_bytes (fun c => Ascii.eqb c "-" || Ascii.eqb c "_") (ToLower (TrimSpace t)) = word.

Definition written_traffic (t : string) (traffic : Traffic) : Prop :=
  spells t "" \/ spells t "any" \/ (spells t "northsouth" /\ traffic = TrafficNorthSouth) \/
  (spells t "eastwest" /\ traffic = TrafficEastWest).

(** A value that means any class is left out or written as the word alone. *)
Definition plain_any (m : MatchConfig) : Prop :=
  spells (mTraffic m) "" \/ spells (mTraffic m) "any" -> mTraffic m = "" \/ ToLower (mTraffic m) = "any".

Definition written_match (m : MatchConfig) (c : RequestContext) : Prop :=
  written_traffic (mTraffic m) (CTraffic c) /\
  HasPrefix (Path c) (PathPrefix m) = true /\
  regex_holds (PathRegexPattern m) (Path c) /\
  (Sources m = [] \/ exists raw sel, raw ∈ Sources m /\ Parse raw Source = Ok sel /\
     selects_source sel (ClientAddr c) (SourceWorkload c) (externalOK c)) /\
  (Destinations m = [] \/ exists raw sel, raw ∈ Destinations m /\ Parse raw Destination = Ok sel /\
     selects_destination sel (DestinationAddr c) (Host c) (DestinationServices c)) /\
  Forall (written_header c) (mHeaders m).

(** As the decoder delivers an entry: nothing compiled, header names distinct
    (up to case). *)
Definition decoded_match (m : MatchConfig) : Prop :=
  CompiledPathRegex m = None /\ Forall (fun e => CompiledRegex e.2 = None) (mHeaders m) /\
  NoDup (ToLower <$> (mHeaders m).*1).

End Meaning.

(** ** Lemmas *)

Lemma Compile_None list side allow : Compile list side allow = Ok None -> list = [].
Proof.
  unfold Compile. destruct list; [done|]. by intros (? & _ & H)%result_bind_Ok.
Qed.

Lemma lower_headers_fmap (h : GoMap HeaderMatchConfig) :
  NoDup (ToLower <$> h.*1) -> lower_headers h = (fun e => (ToLower e.1, e.2)) <$> h.
Proof.
  unfold lower_headers. intros Hnd.
  assert (forall acc : GoMap HeaderMatchConfig, NoDup (acc.*1 ++ (ToLower <$> h.*1)) ->
    fold_left (fun m '(k, v) => map_set m (ToLower k) v) h acc
    = acc ++ ((fun e => (ToLower e.1, e.2)) <$> h))%list as Hgen.
  { clear Hnd. induction h as [|[k v] h IH]; intros acc Hnd; cbn [fold_left].
    - cbn. by rewrite app_nil_r.
    - cbn in Hnd. apply NoDup_app in Hnd as Hs. destruct Hs as (_ & Hdis & _).
      assert (ToLower k ∉ acc.*1) as Hk by (intros Hin; apply (Hdis _ Hin); constructor).
      rewrite map_set_fresh by done. rewrite IH.
      + rewrite <- app_assoc. done.
      + by rewrite fmap_app, <- app_assoc. }
  apply (Hgen []). done.
Qed.

Lemma compile_regex_holds regexp pattern re s :
  compile_regex regexp pattern = Ok re ->
  match re with Some f => f s | None => true end = true <-> regex_holds regexp pattern s.
Proof.
  unfold compile_regex, regex_holds. destruct (String.eqb_spec pattern "") as [->|Hne].
  - intros [= <-]. naive_solver.
  - destruct (regexp pattern) as [f|]; [|done]. intros [= <-]. naive_solver.
Qed.

Lemma header_matches_written regexp c e e' :
  CompiledRegex e.2 = None -> compile_header regexp (ToLower e.1, e.2) = Ok e' ->
  header_matches c e' = true <-> written_header regexp c e.
Proof.
  destruct e as [k h]. cbn [fst snd]. intros Hn. unfold compile_header.
  intros (re & Hre & [= <-])%result_bind_Ok. unfold header_matches, written_header. cbn [fst snd].
  destruct (Headers c !! ToLower k) as [v|]; [|split; [done|]; intros (? & ? & _); done].
  pose proof (compile_regex_holds _ _ _ v Hre) as Hx.
  assert (CompiledRegex (match re with Some _ => h <| CompiledRegex := re |> | None => h end) = re /\
          Exact (match re with Some _ => h <| CompiledRegex := re |> | None => h end) = Exact h) as [-> ->].
  { destruct re; [done|]. by rewrite Hn. }
  destruct (String.eqb_spec (Exact h) "*") as [E|E]; [naive_solver|].
  destruct (String.eqb_spec (Exact h) "") as [E0|E0], (String.eqb_spec v (Exact h)) as [Ev|Ev]; cbn;
    rewrite ?Hx; naive_solver.
Qed.

Lemma headers_written regexp c hs hs' :
  Forall (fun e : string * HeaderMatchConfig => CompiledRegex e.2 = None) hs ->
  map_result (compile_header regexp) ((fun e => (ToLower e.1, e.2)) <$> hs) = Ok hs' ->
  forallb (header_matches c) hs' = true <-> Forall (written_header regexp c) hs.
Proof.
  intros Hn H%map_result_Forall2. revert hs' H. induction Hn as [|e hs He _ IH]; intros hs' H.
  - cbn in H. apply Forall2_nil_inv_l in H as ->. cbn. split; [constructor|done].
  - cbn in H. apply Forall2_cons_inv_l in H as (e' & hs1 & He' & Hhs & ->). cbn.
    rewrite andb_true_iff, Forall_cons, IH by done. by rewrite header_matches_written.
Qed.

Lemma ParseTraffic_spells t class : ParseTraffic t = Ok class ->
  match class with
  | TrafficAny => spells t "" \/ spells t "any"
  | TrafficNorthSouth => spells t "northsouth"
  | TrafficEastWest => spells t "eastwest"
  end.
Proof.
  unfold ParseTraffic, spells. set (n := delete_bytes _ _). destruct (String.eqb_spec n "") as [->|_]; [intros [= <-]; by left|].
  destruct (String.eqb_spec n "any") as [->|_]; [intros [= <-]; by right|].
  destruct (String.eqb_spec n "northsouth") as [->|_]; [by intros [= <-]|].
  by destruct (String.eqb_spec n "eastwest") as [->|_]; [intros [= <-]|].
Qed.

Lemma trafficMatches_written m t traffic :
  plain_any m -> ParseTraffic (mTraffic m) = Ok t -> CompiledTraffic m = t ->
  trafficMatches m traffic = true <-> written_traffic (mTraffic m) traffic.
Proof.
  intros Hany Hp%ParseTraffic_spells Hc. unfold trafficMatches, written_traffic, plain_any, spells in *. rewrite Hc.
  destruct t; [|rewrite Hp, (bool_decide_eq_false_2 (_ = TrafficAny)) by done; cbn [negb]; rewrite bool_decide_eq_true; naive_solver..].
  rewrite bool_decide_eq_true_2 by done. cbn [negb]. rewrite orb_true_iff. unfold EqualFold. rewrite !String.eqb_eq. change (ToLower "any") with "any". naive_solver.
Qed.

Lemma matches_written regexp id m0 m c :
  decoded_match m0 -> plain_any m0 -> compile_match regexp id m0 = Ok m ->
  matches m c = true <-> written_match regexp m0 c.
Proof.
  intros (Hre0 & Hh0 & Hnd) Hany (m1 & Hm1 & H)%result_bind_Ok.
  apply result_bind_Ok in H as (re & Hre & (hs & Hhs & [= <-])%result_bind_Ok).
  unfold MatchCompile in Hm1.
  apply result_bind_Ok in Hm1 as (t & Ht & (src & Hsrc & (dst & Hdst & [= <-])%result_bind_Ok)%result_bind_Ok).
  set (m2 := match re with Some _ => _ | None => _ end) in *.
  assert (mTraffic m2 = mTraffic m0 /\ CompiledTraffic m2 = t /\ PathPrefix m2 = PathPrefix m0 /\
    CompiledPathRegex m2 = re /\ Sources m2 = Sources m0 /\ Destinations m2 = Destinations m0 /\
    CompiledSources m2 = src /\ CompiledDestinations m2 = dst /\ mHeaders m2 = mHeaders m0)
    as (E1 & E2 & E3 & E4 & E5 & E6 & E7 & E8 & E9) by (subst m2; by destruct re).
  cbn in Hre. rewrite E9, lower_headers_fmap in Hhs by done.
  pose proof (headers_written _ c _ _ Hh0 Hhs) as Hhdr.
  pose proof (compile_regex_holds _ _ _ (Path c) Hre) as Hpath.
  pose proof (Compile_source_spec _ _ _ (ClientAddr c) (SourceWorkload c) (externalOK c) Hsrc) as Hs.
  pose proof (Compile_destination_spec _ _ _ (DestinationAddr c) (Host c) (DestinationServices c) Hdst) as Hd.
  assert (trafficMatches m2 (CTraffic c) = true <-> written_traffic (mTraffic m0) (CTraffic c)) as Htr.
  { unfold plain_any in Hany. rewrite <- E1 in *. by eapply trafficMatches_written. }
  assert (nonempty (Sources m0) && is_none src = false /\ nonempty (Destinations m0) && is_none dst = false)
    as [Hns Hnd'].
  { split; [destruct src|destruct dst]; cbn; rewrite ?andb_false_r; try done;
      [apply Compile_None in Hsrc as ->|apply Compile_None in Hdst as ->]; done. }
  unfold matches, written_match. change (trafficMatches (m2 <| mHeaders := hs |>)) with (trafficMatches m2).
  cbn [set_field PathPrefix CompiledPathRegex Sources Destinations CompiledSources CompiledDestinations mHeaders].
  rewrite E3, E4, E5, E6, E7, E8, Hns, Hnd'. cbn [orb]. rewrite <- Htr, <- Hpath, <- Hs, <- Hd, <- Hhdr.
  destruct (trafficMatches m2 (CTraffic c)); cbn; [|naive_solver].
  destruct (String.eqb_spec (PathPrefix m0) "") as [->|Hp]; cbn.
  - assert (HasPrefix (Path c) "" = true) as -> by (unfold HasPrefix; by destruct (Path c)).
    destruct (match re with Some _ => _ | None => false end) eqn:Er; destruct re as [f|]; cbn;
      destruct (MatchSource _ _ _ _), (MatchDestination _ _ _ _); cbn; bool_hyps; naive_solver.
  - destruct (HasPrefix (Path c) (PathPrefix m0)); cbn; [|naive_solver].
    destruct (match re with Some _ => _ | None => false end) eqn:Er; destruct re as [f|]; cbn;
      destruct (MatchSource _ _ _ _), (MatchDestination _ _ _ _); cbn; bool_hyps; naive_solver.
Qed.

(** The first route some match entry of which holds. *)
Lemma route_loop_spec routes c :
  (exists i r, routes !! i = Some r /\ existsb (fun m => matches m c) (Matches r) = true /\
     (forall j r', (j < i)%nat -> routes !! j = Some r' -> existsb (fun m => matches m c) (Matches r') = false) /\
     route_loop routes c = Some r) \/
  ((forall r, r ∈ routes -> existsb (fun m => matches m c) (Matches r) = false) /\ route_loop routes c = None).
Proof.
  induction routes as [|r rs IH]; cbn [route_loop]; [right; split; [set_solver|done]|].
  destruct (existsb _ (Matches r)) eqn:E.
  - left. exists 0%nat, r. repeat split; try done. intros j r' Hj. lia.
  - destruct IH as [(i & r0 & Hi & Hm & Hj & Hl)|[Hn Hl]].
    + left. exists (S i), r0. repeat split; try done. intros [|j] r' Hlt Hr'; [by simplify_eq/=|].
      apply (Hj j); [lia|done].
    + right. split; [|done]. intros r' [->|?]%elem_of_cons; auto.
Qed.

Lemma defaultChain_cases rc t :
  defaultChain rc t ∈ [DefaultChain rc; Other rc; NorthSouth (DefaultChains rc); EastWest (DefaultChains rc)].
Proof.
  unfold defaultChain, or_default. repeat case_match; set_solver.
Qed.

(** An accepted configuration routes to defined chains only. *)
Lemma RouteWith_defined regexp cfg c :
  config_ok regexp cfg ->
  (RouteWith (Router cfg) c).1 = "" \/ chain_defined cfg (RouteWith (Router cfg) c).1.
Proof.
  intros Hok. unfold RouteWith.
  destruct (route_loop_spec (Routes (Router cfg)) c) as [(i & r & Hi & _ & _ & ->)|[_ ->]]; cbn.
  - right. apply (ok_targets _ _ Hok). by eapply list_elem_of_lookup_2.
  - apply (ok_defaults _ _ Hok). apply defaultChain_cases.
Qed.

(** ** Properties *)

Section Properties.
Variable regexp : string -> option Regex.

(** Routes as written and as compiled by the parser. *)
Definition compiled_from (identityEnabled : bool) (written routes : list RouteConfig) : Prop :=
  Forall2 (fun r0 r => compile_route regexp identityEnabled r0 = Ok r /\ Forall decoded_match (Matches r0))
    written routes.

Definition plain_routes (written : list RouteConfig) : Prop := Forall (fun r0 => Forall plain_any (Matches r0)) written.

Lemma route_matches_written id r0 r c :
  compile_route regexp id r0 = Ok r -> Forall decoded_match (Matches r0) -> Forall plain_any (Matches r0) ->
  (existsb (fun m => matches m c) (Matches r) = true <-> Exists (fun m => written_match regexp m c) (Matches r0)) /\
  rName r = rName r0 /\ TargetChain r = TargetChain r0.
Proof.
  unfold compile_route. intros (ms & Hms & [= <-])%result_bind_Ok Hdec Hany. cbn. split; [|done].
  apply map_result_Forall2 in Hms. revert Hdec Hany. induction Hms as [|m0 m l0 l Hm _ IH]; intros Hdec Hany; cbn.
  - split; [done|]. by intros ?%Exists_nil.
  - apply Forall_cons in Hdec as [Hd Hdec]. apply Forall_cons in Hany as [Ha Hany].
    rewrite orb_true_iff, Exists_cons, IH by done.
    by rewrite matches_written.
Qed.

End Properties.

Definition example_request : RequestContext :=
  newContext <| Path := "/api/v1" |> <| CTraffic := TrafficNorthSouth |>
    <| ClientAddr := Addr4 167772161 |> <| Host := "shop.example.com" |>
    <| Headers := {["x-team" := "a"]} |>.

Definition example_routes : list RouteConfig := [mkRouteConfig "api" [example_match] "public"].


(** a spelling of the traffic class [any] that the parser accepts but the
    router does not recognise (padding, dashes) makes a route that is accepted
    and never matches any request. *)
Lemma padded_any_never_matches :
  exists m m', mTraffic m = " any" /\ decoded_match m /\
    compile_match (fun _ => None) false m = Ok m' /\ CompiledTraffic m' = TrafficAny /\
    forall c, matches m' c = false.
Proof.
  exists (mkMatchConfig " any" [] [] TrafficAny None None "" "" None []). eexists.
  split; [done|]. split; [repeat constructor|]. split; [vm_compute; reflexivity|]. by split.
Qed.
