(* ===== verification/Registry.v ===== *)
(** * Registry: policy snapshots and their lifetime (internal/engine/registry.go)

    The first part models snapshots as values: [NewSnapshot], [FilterName], the
    lookups. The second models the reference counting as a step relation over
    any number of goroutines, one step per atomic operation, so that every
    interleaving of [Acquire], [Release] and [Swap] is an execution. *)

From S2P Require Import Prelude GoStrings GoTime Netip Identity Selector Context Executor Config.

Local Open Scope string_scope.
Local Open Scope list_scope.

(** ** Snapshots *)

Section Snapshots.
Context {W : Type}.

Record Snapshot := mkSnapshot {
  snapConfig : option Config;
  snapChains : GoMap (Chain W);
  FilterNames : GoMap (list string)
}.

Definition filter_label (i : nat) (f : FilterConfig) : string :=
  if String.eqb (fcName f) "" then (Itoa (Z.of_nat i) +++ ":" +++ fcType f)%go else fcName f.

Definition NewSnapshot (cfg : option Config) (chains : GoMap (Chain W)) : Snapshot :=
  mkSnapshot cfg chains
    match cfg with
    | Some cfg => (fun e : string * ChainConfig => (e.1, imap filter_label e.2)) <$> Chains cfg
    | None => []
    end.

Definition FilterName (s : Snapshot) (chain : string) (index : Z) : string :=
  if (index <? 0)%Z then "engine"
  else match default [] (map_get (FilterNames s) chain) !! Z.to_nat index with
       | Some n => n
       | None => Itoa index
       end.

(** [Register] and [ReplaceAll]: the chains of the next snapshot. *)
Definition Register (s : Snapshot) (name : string) (chain : Chain W) : Snapshot :=
  NewSnapshot (snapConfig s) (map_set (snapChains s) name chain).
Definition ReplaceAll (s : Snapshot) (chains : GoMap (Chain W)) : Snapshot :=
  NewSnapshot (snapConfig s) chains.
Definition Get (s : Snapshot) (name : string) : option (Chain W) := map_get (snapChains s) name.

End Snapshots.
Arguments Snapshot : clear implicits.

(** ** Reference counting *)

(** The counters of one snapshot; [cleaned] is the state of [cleanOnce]. *)
Record SnapState := mkSnapState { refs : Z; retired : bool; cleaned : bool }.
#[export] Instance SnapState_eta : Eta SnapState := fun x => mkSnapState (refs x) (retired x) (cleaned x).

(** Where a goroutine is, between two atomic operations on snapshot [s]. *)
Inductive Thread : Type :=
| TIdle
| THolding (s : nat)      (* an ext_proc stream, between Acquire and Release *)
| TReleased (s : nat)     (* Release: refs.Add(-1) returned 0, retired.Load() is next *)
| TSwapped (s : nat)      (* Swap: the lock is released, retire's retired.Store(true) is next *)
| TLoading (s : nat)      (* retire: refs.Load() is next *)
| TCleaning (s : nat).    (* runCleanup is next *)

#[export] Instance Thread_eq_dec : EqDecision Thread.
Proof. solve_decision. Defined.

Record RegState := mkRegState { current : nat; snaps : list SnapState; threads : list Thread }.

Definition freshSnap : SnapState := mkSnapState 0 false false.
Definition NewChainRegistry (n : nat) : RegState := mkRegState 0 [freshSnap] (replicate n TIdle).

Definition upd_snap (s : nat) (f : SnapState -> SnapState) (l : list SnapState) : list SnapState :=
  alter f s l.

Inductive rstep : RegState -> RegState -> Prop :=
(* r.mu.RLock(); s := r.current; s.refs.Add(1); r.mu.RUnlock() *)
| step_acquire cur l ts t :
    ts !! t = Some TIdle ->
    rstep (mkRegState cur l ts)
          (mkRegState cur (upd_snap cur (fun x => x <| refs := (refs x + 1)%Z |>) l) (<[t := THolding cur]> ts))
(* s.refs.Add(-1) *)
| step_release cur l ts t s x :
    ts !! t = Some (THolding s) -> l !! s = Some x ->
    rstep (mkRegState cur l ts)
          (mkRegState cur (upd_snap s (fun x => x <| refs := (refs x - 1)%Z |>) l)
             (<[t := if (refs x - 1 =? 0)%Z then TReleased s else TIdle]> ts))
(* s.retired.Load() *)
| step_check cur l ts t s x :
    ts !! t = Some (TReleased s) -> l !! s = Some x ->
    rstep (mkRegState cur l ts)
          (mkRegState cur l (<[t := if retired x then TCleaning s else TIdle]> ts))
(* r.mu.Lock(); prev := r.current; r.current = next; r.mu.Unlock() *)
| step_swap cur l ts t :
    ts !! t = Some TIdle ->
    rstep (mkRegState cur l ts)
          (mkRegState (length l) (l ++ [freshSnap]) (<[t := TSwapped cur]> ts))
(* s.cleanup = cleanup; s.retired.Store(true) *)
| step_retire cur l ts t s :
    ts !! t = Some (TSwapped s) ->
    rstep (mkRegState cur l ts)
          (mkRegState cur (upd_snap s (fun x => x <| retired := true |>) l) (<[t := TLoading s]> ts))
(* s.refs.Load() == 0 *)
| step_load cur l ts t s x :
    ts !! t = Some (TLoading s) -> l !! s = Some x ->
    rstep (mkRegState cur l ts)
          (mkRegState cur l (<[t := if (refs x =? 0)%Z then TCleaning s else TIdle]> ts))
(* s.cleanOnce.Do(...) *)
| step_cleanup cur l ts t s :
    ts !! t = Some (TCleaning s) ->
    rstep (mkRegState cur l ts)
          (mkRegState cur (upd_snap s (fun x => x <| cleaned := true |>) l) (<[t := TIdle]> ts)).

(** How many goroutines hold a snapshot. *)
Definition holders (s : nat) (ts : list Thread) : Z :=
  Z.of_nat (length (filter (fun t => t = THolding s) ts)).

(** The snapshot a goroutine works on. *)
Definition thread_snap (t : Thread) : option nat :=
  match t with
  | TIdle => None
  | THolding s | TReleased s | TSwapped s | TLoading s | TCleaning s => Some s
  end.

(** Executions in which no other goroutine runs between the two halves of
    [Release]. *)
Definition uninterrupted (st st' : RegState) : Prop :=
  rstep st st' /\
  forall t s, threads st !! t = Some (TReleased s) -> threads st' !! t <> Some (TReleased s).

(** The cleanup of a snapshot has run although a stream still holds it. *)
Definition cleaned_while_held (st : RegState) : Prop :=
  exists t s x, threads st !! t = Some (THolding s) /\ snaps st !! s = Some x /\ cleaned x = true.

(** ** Lemmas *)

Definition some_thread (P : Thread -> Prop) (ts : list Thread) : Prop :=
  exists t th, ts !! t = Some th /\ P th.

(** Goroutines that will retire, respectively may still clean up, snapshot [s]. *)
Definition will_retire (s : nat) (th : Thread) : Prop := th = TSwapped s.
Definition may_clean (s : nat) (th : Thread) : Prop :=
  th = THolding s \/ th = TReleased s \/ th = TLoading s \/ th = TCleaning s.

Lemma lookup_upd s f l i :
  upd_snap s f l !! i = (fun x => if decide (s = i) then f x else x) <$> l !! i.
Proof.
  unfold upd_snap. destruct (decide (s = i)) as [->|Hne].
  - rewrite list_lookup_alter_eq. done.
  - rewrite list_lookup_alter_ne by done. by destruct (l !! i).
Qed.

Lemma length_upd s f l : length (upd_snap s f l) = length l.
Proof. apply length_alter. Qed.

Lemma some_thread_insert P ts t old new :
  ts !! t = Some old -> some_thread P ts -> (P old -> some_thread P (<[t := new]> ts)) ->
  some_thread P (<[t := new]> ts).
Proof.
  intros Ht (t' & th & Ht' & Hp) Hold. destruct (decide (t = t')) as [->|Hne].
  - simplify_eq. auto.
  - exists t', th. by rewrite list_lookup_insert_ne.
Qed.

Lemma some_thread_new (P : Thread -> Prop) ts t old new :
  ts !! t = Some old -> P new -> some_thread P (<[t := new]> ts).
Proof.
  intros Ht Hp. exists t, new. split; [|done]. apply list_lookup_insert_eq. by eapply lookup_lt_Some.
Qed.

Definition is_holder (s : nat) (th : Thread) : Z := if decide (th = THolding s) then 1 else 0.

Lemma holders_insert s ts t old new :
  ts !! t = Some old ->
  holders s (<[t := new]> ts) = (holders s ts - is_holder s old + is_holder s new)%Z.
Proof.
  intros Ht. unfold holders, is_holder.
  rewrite insert_take_drop by (by eapply lookup_lt_Some).
  rewrite <- (take_drop_middle ts t old Ht) at 3.
  rewrite !filter_app, !filter_cons, !length_app. repeat case_decide; cbn [length]; lia.
Qed.

Lemma holders_pos s ts : holders s ts <> 0%Z -> some_thread (fun th => th = THolding s) ts.
Proof.
  unfold holders. intros H. destruct (filter _ ts) as [|th l] eqn:E; [done|].
  assert (th ∈ filter (fun t => t = THolding s) ts) as [Hth Hin]%list_elem_of_filter
    by (rewrite E; constructor).
  apply list_elem_of_lookup in Hin as [t Ht]. by exists t, th.
Qed.

(** Every goroutine works on an existing snapshot, and on a replaced one when it
    retires or cleans up. *)
Definition thread_ok (cur : nat) (th : Thread) : Prop :=
  match th with
  | TIdle => True
  | THolding s | TReleased s => (s <= cur)%nat
  | TSwapped s | TLoading s | TCleaning s => (s < cur)%nat
  end.

(** The counter is exact; a replaced snapshot is retired or about to be; a
    retired one is cleaned up or some goroutine will do it. *)
Record snap_ok (cur : nat) (ts : list Thread) (s : nat) (x : SnapState) : Prop := {
  ok_refs : refs x = holders s ts;
  ok_retired : retired x = true -> (s < cur)%nat;
  ok_pending : (s < cur)%nat -> retired x = false -> some_thread (will_retire s) ts;
  ok_noleak : retired x = true -> cleaned x = false -> some_thread (may_clean s) ts
}.

Record reg_inv (st : RegState) : Prop := {
  inv_current : length (snaps st) = S (current st);
  inv_threads : Forall (thread_ok (current st)) (threads st);
  inv_snaps : forall s x, snaps st !! s = Some x -> snap_ok (current st) (threads st) s x
}.

Lemma initial_inv n : reg_inv (NewChainRegistry n).
Proof.
  split; cbn; [done|by apply Forall_replicate|].
  intros [|s] x H; [|done]. injection H as <-. split; cbn; try done; [|lia].
  unfold holders. induction n; [done|]. cbn [replicate]. by rewrite filter_cons_False.
Qed.

(** A goroutine's move that concerns neither retiring nor holding another
    snapshot keeps that snapshot's invariant. *)
Lemma snap_ok_other cur ts t old new s x :
  ts !! t = Some old -> thread_snap old <> Some s -> thread_snap new <> Some s ->
  snap_ok cur ts s x -> snap_ok cur (<[t := new]> ts) s x.
Proof.
  intros Ht Ho Hn [Hr Hret Hp Hl].
  assert (is_holder s old = 0%Z /\ is_holder s new = 0%Z) as [E1 E2].
  { unfold is_holder. split; rewrite decide_False; congruence || (intros ->; done). }
  split; [rewrite (holders_insert _ _ _ old), E1, E2 by done; lia|done| |].
  - intros H1 H2. eapply some_thread_insert; eauto. intros ->. done.
  - intros H1 H2. eapply some_thread_insert; eauto. intros [->|[->|[->| ->]]]; done.
Qed.

Lemma upd_snaps_ok cur ts ts' l s0 f :
  (forall s x, l !! s = Some x -> snap_ok cur ts s x) ->
  (forall s x, s <> s0 -> snap_ok cur ts s x -> snap_ok cur ts' s x) ->
  (forall x, l !! s0 = Some x -> snap_ok cur ts s0 x -> snap_ok cur ts' s0 (f x)) ->
  forall s x, upd_snap s0 f l !! s = Some x -> snap_ok cur ts' s x.
Proof.
  intros Hl Hother Hs0 s x. rewrite lookup_upd. intros (y & Hy & ->)%fmap_Some.
  case_decide as E; subst; eauto.
Qed.

Lemma same_snaps_ok cur ts ts' (l : list SnapState) s0 :
  (forall s x, l !! s = Some x -> snap_ok cur ts s x) ->
  (forall s x, s <> s0 -> snap_ok cur ts s x -> snap_ok cur ts' s x) ->
  (forall x, l !! s0 = Some x -> snap_ok cur ts s0 x -> snap_ok cur ts' s0 x) ->
  forall s x, l !! s = Some x -> snap_ok cur ts' s x.
Proof. intros Hl Hother Hs0 s x Hx. destruct (decide (s = s0)) as [->|]; eauto. Qed.

Ltac split_if := repeat match goal with |- context [if ?b then _ else _] => destruct b end.
Ltac other_snap := intros ?s ?x ? ?; eapply snap_ok_other; [eassumption|split_if; cbn; congruence..|done].

Lemma is_holder_eq s : is_holder s (THolding s) = 1%Z.
Proof. unfold is_holder. by rewrite decide_True. Qed.
Lemma is_holder_ne s th : th <> THolding s -> is_holder s th = 0%Z.
Proof. intros H. unfold is_holder. by rewrite decide_False. Qed.

(** Opens the invariant and the fact about the moving goroutine. *)
Ltac open_inv :=
  intros [Hlen Hth Hsn] Ht; cbn [current snaps threads] in *;
  pose proof (Forall_lookup_1 _ _ _ _ Hth Ht) as Hme; cbn in Hme.

Lemma acquire_inv cur l ts t :
  reg_inv (mkRegState cur l ts) -> ts !! t = Some TIdle ->
  reg_inv (mkRegState cur (upd_snap cur (fun x => x <| refs := (refs x + 1)%Z |>) l) (<[t := THolding cur]> ts)).
Proof.
  open_inv.
  split; cbn; [by rewrite length_upd|apply Forall_insert; [done|cbn; lia]|].
  eapply upd_snaps_ok; [exact Hsn|other_snap|]. intros x Hx [Hr Hret Hp Hl]. split; cbn.
  - rewrite (holders_insert _ _ _ TIdle), is_holder_eq, is_holder_ne by done. lia.
  - done.
  - lia.
  - intros H. apply Hret in H. lia.
Qed.

Lemma release_inv cur l ts t s x :
  reg_inv (mkRegState cur l ts) -> ts !! t = Some (THolding s) -> l !! s = Some x ->
  reg_inv (mkRegState cur (upd_snap s (fun x => x <| refs := (refs x - 1)%Z |>) l)
    (<[t := if (refs x - 1 =? 0)%Z then TReleased s else TIdle]> ts)).
Proof.
  open_inv. intros Hx.
  split; cbn; [by rewrite length_upd|apply Forall_insert; [done|by split_if]|].
  eapply upd_snaps_ok; [exact Hsn|other_snap|]. intros x' Hx' [Hr Hret Hp Hl]. simplify_eq.
  assert (holders s (<[t := if (refs x - 1 =? 0)%Z then TReleased s else TIdle]> ts) = refs x - 1)%Z as Hh.
  { rewrite (holders_insert _ _ _ (THolding s)), is_holder_eq, is_holder_ne by (split_if; done). lia. }
  split; cbn; [done|done| |].
  - intros H1 H2. eapply some_thread_insert; eauto. intros ?; done.
  - intros _ _. destruct (refs x - 1 =? 0)%Z eqn:E.
    + eapply some_thread_new; [done|]. right; by left.
    + bool_hyps. destruct (holders_pos s _ ltac:(by rewrite Hh)) as (t' & th & Ht' & ->).
      exists t', (THolding s). split; [done|by left].
Qed.

Lemma check_inv cur l ts t s x :
  reg_inv (mkRegState cur l ts) -> ts !! t = Some (TReleased s) -> l !! s = Some x ->
  reg_inv (mkRegState cur l (<[t := if retired x then TCleaning s else TIdle]> ts)).
Proof.
  open_inv. intros Hx.
  assert (retired x = true -> s < cur)%nat as Hlt by apply (ok_retired _ _ _ _ (Hsn _ _ Hx)).
  split; cbn; [done|apply Forall_insert; [done|destruct (retired x); cbn; auto]|].
  eapply (same_snaps_ok _ _ _ _ s); [exact Hsn|other_snap|]. intros x' Hx' [Hr Hret Hp Hl]. simplify_eq. split; [|done| |].
  - rewrite (holders_insert _ _ _ (TReleased s)), !is_holder_ne by (split_if; done). lia.
  - intros H1 H2. eapply some_thread_insert; eauto. intros ?; done.
  - intros H1 H2. rewrite H1. eapply some_thread_new; [done|]. by do 3 right.
Qed.

Lemma swap_inv cur l ts t :
  reg_inv (mkRegState cur l ts) -> ts !! t = Some TIdle ->
  reg_inv (mkRegState (length l) (l ++ [freshSnap]) (<[t := TSwapped cur]> ts)).
Proof.
  open_inv.
  split; cbn.
  - rewrite length_app. simpl. lia.
  - apply Forall_insert; [|cbn; lia]. eapply Forall_impl; [exact Hth|]. intros [] ?; cbn in *; lia.
  - intros s x Hx.
    assert (snap_ok (length l) (<[t := TSwapped cur]> ts) s x \/ (s = length l /\ x = freshSnap)) as [?|[-> ->]].
    { apply lookup_app_Some in Hx as [Hx|[Hge Hx]].
      * left. destruct (Hsn _ _ Hx) as [Hr Hret Hp Hl]. split.
        - rewrite (holders_insert _ _ _ TIdle), !is_holder_ne by done. lia.
        - intros H. apply Hret in H. lia.
        - intros H1 H2. destruct (decide (s = cur)) as [->|Hne]; [by eapply some_thread_new|].
          eapply some_thread_insert; [done|apply Hp; [lia|done]|intros ?; done].
        - intros H1 H2. eapply some_thread_insert; eauto. intros [?|[?|[?|?]]]; done.
      * right. apply lookup_lt_Some in Hx as Hlt. simpl in Hlt.
        replace (s - length l)%nat with 0%nat in Hx by lia. injection Hx as <-. split; [lia|done]. }
    { done. }
    split; cbn; try done; [|lia].
    rewrite (holders_insert _ _ _ TIdle), !is_holder_ne by (done || (intros [= E]; lia)).
    destruct (decide (holders (length l) ts = 0%Z)) as [->|Hne]; [done|].
    apply holders_pos in Hne as (t' & th & Ht' & ->).
    pose proof (Forall_lookup_1 _ _ _ _ Hth Ht') as Hbad. cbn in Hbad. lia.
Qed.

Lemma retire_inv cur l ts t s :
  reg_inv (mkRegState cur l ts) -> ts !! t = Some (TSwapped s) ->
  reg_inv (mkRegState cur (upd_snap s (fun x => x <| retired := true |>) l) (<[t := TLoading s]> ts)).
Proof.
  open_inv.
  split; cbn; [by rewrite length_upd|apply Forall_insert; [done|done]|].
  eapply upd_snaps_ok; [exact Hsn|other_snap|]. intros x Hx [Hr Hret Hp Hl]. split; cbn; try done.
  - rewrite (holders_insert _ _ _ (TSwapped s)), !is_holder_ne by done. lia.
  - intros _ _. eapply some_thread_new; [done|]. right; right; by left.
Qed.

Lemma load_inv cur l ts t s x :
  reg_inv (mkRegState cur l ts) -> ts !! t = Some (TLoading s) -> l !! s = Some x ->
  reg_inv (mkRegState cur l (<[t := if (refs x =? 0)%Z then TCleaning s else TIdle]> ts)).
Proof.
  open_inv. intros Hx.
  split; cbn; [done|apply Forall_insert; [done|by split_if]|].
  eapply (same_snaps_ok _ _ _ _ s); [exact Hsn|other_snap|]. intros x' Hx' [Hr Hret Hp Hl]. simplify_eq. split; [|done| |].
  - rewrite (holders_insert _ _ _ (TLoading s)), !is_holder_ne by (split_if; done). lia.
  - intros H1 H2. eapply some_thread_insert; eauto. intros ?; done.
  - intros H1 H2. destruct (refs x =? 0)%Z eqn:E.
    + eapply some_thread_new; [done|]. by do 3 right.
    + bool_hyps. destruct (holders_pos s ts) as (t' & th & Ht' & ->); [congruence|].
      exists t', (THolding s). rewrite list_lookup_insert_ne by (intros ->; simplify_eq).
      split; [done|by left].
Qed.

Lemma cleanup_inv cur l ts t s :
  reg_inv (mkRegState cur l ts) -> ts !! t = Some (TCleaning s) ->
  reg_inv (mkRegState cur (upd_snap s (fun x => x <| cleaned := true |>) l) (<[t := TIdle]> ts)).
Proof.
  open_inv.
  split; cbn; [by rewrite length_upd|apply Forall_insert; done|].
  eapply upd_snaps_ok; [exact Hsn|other_snap|]. intros x Hx [Hr Hret Hp Hl]. split; cbn; try done.
  - rewrite (holders_insert _ _ _ (TCleaning s)), !is_holder_ne by done. lia.
  - intros H1 H2. eapply some_thread_insert; eauto. intros ?; done.
Qed.

#[export] Hint Resolve acquire_inv release_inv check_inv swap_inv retire_inv load_inv cleanup_inv : hypergate.

Lemma step_inv st st' : reg_inv st -> rstep st st' -> reg_inv st'.
Proof. intros Hinv Hs. destruct Hs; eauto with hypergate. Qed.

Lemma reachable_inv n st : rtc rstep (NewChainRegistry n) st -> reg_inv st.
Proof.
  intros H. assert (forall st0, reg_inv st0 -> rtc rstep st0 st -> reg_inv st) as Hgen;
    [|by eapply Hgen; [apply initial_inv|]].
  clear H. intros st0 Hinv H. induction H; eauto using step_inv.
Qed.

(** *** Executions whose releases are not interrupted *)

(** A snapshot that is cleaned up, or about to be, has no holder and is not
    current; nor has one whose last reference was just dropped. *)
Record quiet_inv (st : RegState) : Prop := {
  quiet_reg : reg_inv st;
  quiet_released : forall t s x, threads st !! t = Some (TReleased s) -> snaps st !! s = Some x ->
    refs x = 0%Z;
  quiet_cleaned : forall s x, snaps st !! s = Some x ->
    cleaned x = true \/ some_thread (fun th => th = TCleaning s) (threads st) ->
    refs x = 0%Z /\ (s < current st)%nat
}.

Lemma some_thread_insert_inv P ts t new :
  some_thread P (<[t := new]> ts) -> P new \/ some_thread P ts.
Proof.
  intros (t' & th & Ht & Hp). apply list_lookup_insert_Some in Ht as [(-> & -> & _)|[_ Ht]]; [by left|].
  right. by exists t', th.
Qed.

Lemma holding_refs st t s x :
  reg_inv st -> threads st !! t = Some (THolding s) -> snaps st !! s = Some x -> (0 < refs x)%Z.
Proof.
  intros [_ _ Hsn] Ht Hx. rewrite (ok_refs _ _ _ _ (Hsn _ _ Hx)). unfold holders.
  assert (THolding s ∈ filter (fun th => th = THolding s) (threads st)) as Hin.
  { apply list_elem_of_filter. split; [done|]. by eapply list_elem_of_lookup_2. }
  destruct (filter _ _); [by apply not_elem_of_nil in Hin|]. simpl. lia.
Qed.

(** Unless the step is the second half of a release, nobody is inside one. *)
Lemma uninterrupted_cases st st' :
  uninterrupted st st' ->
  (forall t s, threads st !! t <> Some (TReleased s)) \/
  exists cur l ts t s x, ts !! t = Some (TReleased s) /\ l !! s = Some x /\ st = mkRegState cur l ts /\
    st' = mkRegState cur l (<[t := if retired x then TCleaning s else TIdle]> ts).
Proof.
  intros [Hs Hun]. destruct Hs as
    [cur l ts t Ht|cur l ts t s x Ht Hx|cur l ts t s x Ht Hx|cur l ts t Ht
    |cur l ts t s Ht|cur l ts t s x Ht Hx|cur l ts t s Ht]; cbn [threads] in *;
    try (left; intros t' s' Ht'; apply (Hun _ _ Ht'); rewrite list_lookup_insert_ne; [done|congruence]).
  right. eauto 12.
Qed.

Ltac step_cases Hs :=
  destruct Hs as
    [cur l ts t Ht|cur l ts t s x Ht Hx|cur l ts t s x Ht Hx|cur l ts t Ht
    |cur l ts t s Ht|cur l ts t s x Ht Hx|cur l ts t s Ht]; cbn [threads snaps current] in *.

Lemma released_step st st' t0 s0 y :
  quiet_inv st -> uninterrupted st st' -> threads st' !! t0 = Some (TReleased s0) ->
  snaps st' !! s0 = Some y -> refs y = 0%Z.
Proof.
  intros [_ Hrel _] Hu.
  destruct (uninterrupted_cases _ _ Hu) as [Hno|(cur & l & ts & t & s & x & Ht & Hx & -> & ->)].
  - destruct Hu as [Hs _]. step_cases Hs;
      intros [(-> & E & _)|[_ Ht']]%list_lookup_insert_Some; try (by destruct (Hno _ _ Ht'));
      try done; try (by destruct (retired x)); try (by destruct (refs x =? 0)%Z).
    destruct (refs x - 1 =? 0)%Z eqn:Ez; [|done]. injection E as <-. bool_hyps.
    rewrite lookup_upd, Hx. cbn. rewrite decide_True by done. by intros [= <-].
  - cbn. intros [(-> & E & _)|[_ Ht']]%list_lookup_insert_Some; [by destruct (retired x)|]. eauto.
Qed.

Lemma cleaned_step st st' s0 y :
  quiet_inv st -> rstep st st' -> snaps st' !! s0 = Some y ->
  cleaned y = true \/ some_thread (fun th => th = TCleaning s0) (threads st') ->
  refs y = 0%Z /\ (s0 < current st')%nat.
Proof.
  intros [Hreg Hrel Hcl] Hs Hy Hc. pose proof (holding_refs st) as Hhold.
  pose proof Hreg as [Hlen Hth Hsn].
  step_cases Hs.
  - (* acquire *)
    rewrite lookup_upd in Hy. apply fmap_Some in Hy as (x & Hx & ->).
    assert (cleaned x = true \/ some_thread (fun th => th = TCleaning s0) ts) as Hc'.
    { destruct Hc as [Hc|Hc]; [left; by case_decide|]. apply some_thread_insert_inv in Hc as [?|?]; [done|by right]. }
    destruct (Hcl _ _ Hx Hc') as [Hr Hlt]. rewrite decide_False by lia. done.
  - (* release *)
    rewrite lookup_upd in Hy. apply fmap_Some in Hy as (x' & Hx' & ->).
    assert (cleaned x' = true \/ some_thread (fun th => th = TCleaning s0) ts) as Hc'.
    { destruct Hc as [Hc|Hc]; [left; by case_decide|].
      apply some_thread_insert_inv in Hc as [?|?]; [by destruct (refs x - 1 =? 0)%Z|by right]. }
    destruct (Hcl _ _ Hx' Hc') as [Hr Hlt]. case_decide; [subst|done].
    simplify_eq. pose proof (Hhold _ _ _ Hreg Ht Hx). lia.
  - (* check *)
    destruct Hc as [Hc|Hc]; [by apply Hcl; [|left]|].
    apply some_thread_insert_inv in Hc as [Hc|Hc]; [|by apply Hcl; [|right]].
    destruct (retired x) eqn:Er; [|done]. injection Hc as ->. simplify_eq. split; [by eapply Hrel|].
    by apply (ok_retired _ _ _ _ (Hsn _ _ Hx)).
  - (* swap *)
    apply lookup_app_Some in Hy as [Hy|[Hge Hy]].
    + assert (refs y = 0%Z /\ (s0 < cur)%nat) as [? ?]; [|split; [done|lia]]. apply Hcl; [done|].
      destruct Hc as [?|Hc]; [by left|]. apply some_thread_insert_inv in Hc as [?|?]; [done|by right].
    + apply lookup_lt_Some in Hy as Hlt. simpl in Hlt.
      replace (s0 - length l)%nat with 0%nat in Hy by lia. injection Hy as <-.
      destruct Hc as [?|Hc]; [done|]. apply some_thread_insert_inv in Hc as [?|(t' & th & Ht' & ->)]; [done|].
      pose proof (Forall_lookup_1 _ _ _ _ Hth Ht') as Hbad. cbn in Hbad. lia.
  - (* retire *)
    rewrite lookup_upd in Hy. apply fmap_Some in Hy as (x' & Hx' & ->).
    assert (refs x' = 0%Z /\ (s0 < cur)%nat); [|by case_decide]. apply Hcl; [done|].
    destruct Hc as [Hc|Hc]; [left; by case_decide|]. apply some_thread_insert_inv in Hc as [?|?]; [done|by right].
  - (* load *)
    destruct Hc as [Hc|Hc]; [by apply Hcl; [|left]|].
    apply some_thread_insert_inv in Hc as [Hc|Hc]; [|by apply Hcl; [|right]].
    destruct (refs x =? 0)%Z eqn:Er; [|done]. injection Hc as ->. simplify_eq. bool_hyps. split; [done|].
    apply (Forall_lookup_1 _ _ _ _ Hth Ht).
  - (* cleanup *)
    rewrite lookup_upd in Hy. apply fmap_Some in Hy as (x' & Hx' & ->).
    assert (refs x' = 0%Z /\ (s0 < cur)%nat); [|by case_decide]. apply Hcl; [done|].
    destruct (decide (s = s0)) as [->|Hne]; [right; by exists t, (TCleaning s0)|].
    destruct Hc as [Hc|Hc]; [by left|]. apply some_thread_insert_inv in Hc as [?|?]; [done|by right].
Qed.

Lemma quiet_initial n : quiet_inv (NewChainRegistry n).
Proof.
  split; [apply initial_inv| |]; cbn.
  - intros t s x [? _]%lookup_replicate_1. done.
  - intros [|s] x [= <-]. intros [?|(t & th & [-> _]%lookup_replicate_1 & ?)]; done.
Qed.

Lemma quiet_reachable n st : rtc uninterrupted (NewChainRegistry n) st -> quiet_inv st.
Proof.
  intros H. assert (forall st0, quiet_inv st0 -> rtc uninterrupted st0 st -> quiet_inv st) as Hgen;
    [|by eapply Hgen; [apply quiet_initial|]].
  clear H. intros st0 Hinv H. induction H as [|x y z Hxy _ IH]; [done|]. apply IH.
  split; [eapply step_inv; [apply Hinv|apply Hxy]| |]; intros *.
  - by eapply released_step.
  - by eapply cleaned_step; [|apply Hxy].
Qed.

(** ** Properties *)

(** No retired resource is leaked: in every interleaving, whenever all
    goroutines have finished, each replaced snapshot has been cleaned up and its
    reference count is back to zero. *)
Lemma replaced_snapshots_cleaned (n : nat) (st : RegState) (s : nat) (x : SnapState) :
  rtc rstep (NewChainRegistry n) st -> Forall (fun th => th = TIdle) (threads st) ->
  snaps st !! s = Some x -> s <> current st -> cleaned x = true /\ refs x = 0%Z.
Proof.
  intros Hr Hidle Hx Hne. apply reachable_inv in Hr as [Hlen Hth Hsn].
  assert (forall P : Thread -> Prop, ~ P TIdle -> ~ some_thread P (threads st)) as Hnone.
  { intros P HP (t & th & Ht & Hp). apply (Forall_lookup_1 _ _ _ _ Hidle) in Ht. by subst. }
  destruct (Hsn _ _ Hx) as [Hrefs Hret Hp Hl]. apply lookup_lt_Some in Hx. split.
  - destruct (retired x) eqn:E.
    + destruct (cleaned x); [done|]. destruct (Hnone (may_clean s)); [unfold may_clean; naive_solver|auto].
    + destruct (Hnone (will_retire s) ltac:(done)). apply Hp; [lia|done].
  - rewrite Hrefs. destruct (decide (holders s (threads st) = 0%Z)) as [|Hh]; [done|].
    apply holders_pos in Hh. destruct (Hnone (fun th => th = THolding s) ltac:(done) Hh).
Qed.

Ltac do_step tac := eapply rtc_l; [tac; reflexivity|cbn].

(** A stream never works on released resources, as long as no other goroutine
    runs between the decrement and the check of [Release]: the cleanup of a
    snapshot runs only when nobody holds it, and nobody can acquire it again. *)
Lemma cleanup_only_unheld (n : nat) (st : RegState) :
  rtc uninterrupted (NewChainRegistry n) st -> ~ cleaned_while_held st.
Proof.
  intros Hr%quiet_reachable (t & s & x & Ht & Hx & Hc). destruct Hr as [Hreg _ Hcl].
  pose proof (holding_refs _ _ _ _ Hreg Ht Hx). destruct (Hcl _ _ Hx (or_introl Hc)). lia.
Qed.

(** The two halves of [Release] are not one atomic operation, and that is
    observable: with three goroutines there is an interleaving of [Acquire],
    [Release] and [Swap] that runs a snapshot's cleanup while a stream holds it
    (the last reference is dropped, the snapshot is acquired again, replaced and
    retired, and only then is [retired] read). *)
Lemma release_race :
  exists st, rtc rstep (NewChainRegistry 3) st /\ cleaned_while_held st.
Proof.
  exists (mkRegState 1 [mkSnapState 1 true true; freshSnap] [TIdle; THolding 0; TLoading 0]).
  split; [|by exists 1%nat, 0%nat, (mkSnapState 1 true true)].
  do_step ltac:(apply (step_acquire 0 [freshSnap] [TIdle; TIdle; TIdle] 0)).
  eapply rtc_l; [eapply (step_release _ _ _ 0 0); reflexivity|cbn].
  do_step ltac:(apply (step_acquire _ _ _ 1)).
  do_step ltac:(apply (step_swap _ _ _ 2)).
  do_step ltac:(apply (step_retire _ _ _ 2 0)).
  eapply rtc_l; [eapply (step_check _ _ _ 0 0); reflexivity|cbn].
  do_step ltac:(apply (step_cleanup _ _ _ 0 0)). apply rtc_refl.
Qed.

(** C21: replaced snapshots are cleaned up, and while they are unused. In every
    interleaving of any number of goroutines, once all of them have finished each
    replaced snapshot has been cleaned up and its reference count is zero; and as
    long as no goroutine runs between the decrement and the check of [Release], a
    snapshot is never cleaned up while a stream holds it. *)
Theorem snapshot_cleanup (n : nat) (st : RegState) :
  (rtc rstep (NewChainRegistry n) st -> Forall (fun th => th = TIdle) (threads st) ->
   forall s x, snaps st !! s = Some x -> s <> current st -> cleaned x = true /\ refs x = 0%Z) /\
  (rtc uninterrupted (NewChainRegistry n) st -> ~ cleaned_while_held st).
Proof. split; [intros Hr Hi s x; by apply (replaced_snapshots_cleaned n)|apply cleanup_only_unheld]. Qed.

Lemma snapshot_cleanup_witness :
  (exists st x, rtc rstep (NewChainRegistry 1) st /\ snaps st !! 0%nat = Some x /\ cleaned x = true /\ refs x = 0%Z) /\
  ~ cleaned_while_held (mkRegState 0 [mkSnapState 1 false false] [THolding 0]).
Proof.
  split.
  - exists (mkRegState 1 [mkSnapState 0 true true; freshSnap] [TIdle]), (mkSnapState 0 true true).
    assert (rtc rstep (NewChainRegistry 1) (mkRegState 1 [mkSnapState 0 true true; freshSnap] [TIdle])) as H.
    { do_step ltac:(apply (step_swap 0 [freshSnap] [TIdle] 0)).
      do_step ltac:(apply (step_retire _ _ _ 0 0)).
      eapply rtc_l; [eapply (step_load _ _ _ 0 0); reflexivity|cbn].
      do_step ltac:(apply (step_cleanup _ _ _ 0 0)). apply rtc_refl. }
    split; [exact H|]. split; [reflexivity|].
    apply (proj1 (snapshot_cleanup 1 _) H ltac:(repeat constructor) 0%nat); [reflexivity|discriminate].
  - apply (proj2 (snapshot_cleanup 1 _)). eapply rtc_l; [|apply rtc_refl]. split.
    + apply (step_acquire 0 [freshSnap] [TIdle] 0). reflexivity.
    + intros [|t] s H; discriminate.
Defined.
