(* ===== verification/Policy.v ===== *)
(** * Policy: applying a configuration (internal/policy/manager.go)

    [Apply] builds Redis clients and filters for a configuration, reusing what is
    unchanged, and publishes the result as a snapshot or aborts. Pointers
    (clients, Redis entries, filter instances) are allocation numbers. The
    factories, the YAML encoder used for filter keys and the [io.Closer] test are
    parameters. The last part composes [Apply] with the lifetime of snapshots:
    which resources are closed when. *)

From S2P Require Import Prelude GoStrings GoTime Netip Identity Selector Context Executor Config Registry.

Local Open Scope string_scope.
Local Open Scope list_scope.

Section Policy.
Context {W : Type}.

(** ** Parameters *)

(** [RedisFactory]: dials a service, within a time limit when one is given. *)
Variable newRedis : option Z -> string -> RedisServiceConfig -> W -> result () * W.
(** [FilterFactory]: compiles a filter; the Redis clients are looked up by name. *)
Variable newFilter : string -> GoMap Value -> (string -> option nat) -> W
                     -> result (option (list Phase) * Exec W) * W.
(** [yaml.Marshal] of filter options. *)
Variable marshal : GoMap Value -> option string.

(** ** State *)

Record redisEntry := mkRedisEntry {
  eId : nat;                       (* the entry's address *)
  eCfg : RedisServiceConfig;
  eClient : nat;
  stopHealth : bool                (* a health check is running *)
}.
#[export] Instance redisEntry_eta : Eta redisEntry := fun x =>
  mkRedisEntry (eId x) (eCfg x) (eClient x) (stopHealth x).

Record Manager := mkManager {
  ReloadDialTimeout : Z;
  mRedis : GoMap redisEntry;
  mFilters : GoMap (Filter W);
  ready : bool;
  nextAlloc : nat
}.
#[export] Instance Manager_eta : Eta Manager := fun x =>
  mkManager (ReloadDialTimeout x) (mRedis x) (mFilters x) (ready x) (nextAlloc x).

Definition NewManager : Manager := mkManager (30 * Second) [] [] false 0.

(** What the loops of [Apply] accumulate. *)
Record Build := mkBuild {
  bAlloc : nat;
  bWorld : W;
  nextRedis : GoMap redisEntry;
  createdClients : list nat;
  nextFilters : GoMap (Filter W);
  createdFilters : list (Filter W);
  chains : GoMap (Chain W)
}.
#[export] Instance Build_eta : Eta Build := fun x =>
  mkBuild (bAlloc x) (bWorld x) (nextRedis x) (createdClients x) (nextFilters x) (createdFilters x) (chains x).

(** A step of the build: the new accumulator, and the error that aborts it. *)
Definition Built : Type := Build * option string.

Definition then_build (r : Built) (k : Build -> Built) : Built :=
  match r with (b, None) => k b | (b, Some e) => (b, Some e) end.

Fixpoint build_loop {A : Type} (f : Build -> A -> Built) (b : Build) (l : list A) : Built :=
  match l with
  | [] => (b, None)
  | x :: l' => then_build (f b x) (fun b => build_loop f b l')
  end.

(** ** Apply *)

(** 1. Redis clients. *)
Definition apply_redis (m : Manager) (b : Build) (e : string * RedisServiceConfig) : Built :=
  let '(name, svcCfg) := e in
  let reuse := match map_get (mRedis m) name with
               | Some old => if bool_decide (eCfg old = svcCfg) then Some old else None
               | None => None
               end in
  match reuse with
  | Some old => (b <| nextRedis := map_set (nextRedis b) name old |>, None)
  | None =>
      let limit := if ready m && (StartupMaxElapsedTimeDuration svcCfg <=? 0)%Z
                      && (0 <? ReloadDialTimeout m)%Z
                   then Some (ReloadDialTimeout m) else None in
      match newRedis limit name svcCfg (bWorld b) with
      | (Err e, w) => (b <| bWorld := w |>, Some "redis service")
      | (Ok _, w) =>
          let client := bAlloc b in
          let entry := mkRedisEntry (S (bAlloc b)) svcCfg client false in
          (b <| bWorld := w |> <| bAlloc := S (S (bAlloc b)) |>
             <| createdClients := createdClients b ++ [client] |>
             <| nextRedis := map_set (nextRedis b) name entry |>, None)
      end
  end.

Definition redis_lookup (b : Build) (service : string) : option nat :=
  eClient <$> map_get (nextRedis b) service.

(** The address of the Redis entry is rendered as its allocation number. *)
Definition nul : string := String "000" "".
Definition filterKey (fc : FilterConfig) (nr : GoMap redisEntry) : option string :=
  match marshal (fcOptions fc) with
  | None => None
  | Some opts =>
      let key := (fcType fc +++ nul +++ opts)%go in
      Some match map_get (fcOptions fc) "redis_service" with
           | Some (VString svc) =>
               match map_get nr svc with
               | Some e => (key +++ nul +++ Itoa (Z.of_nat (eId e)))%go
               | None => key
               end
           | _ => key
           end
  end.

(** 2. One filter of a chain; the accumulator also carries the chain so far. *)
Definition apply_filter (m : Manager) (chainName : string) (b : Build) (fc : FilterConfig) : Built :=
  let add := fun b key f =>
    let b := b <| nextFilters := map_set (nextFilters b) key f |> in
    let position := if fcAudit fc then Audit f else f in
    (b <| chains := map_set (chains b) chainName
                      (default [] (map_get (chains b) chainName) ++ [position]) |>, None) in
  match filterKey fc (nextRedis b) with
  | None => (b, Some "invalid options")
  | Some key =>
      match (match map_get (nextFilters b) key with
             | Some f => Some f
             | None => map_get (mFilters m) key
             end) with
      | Some f => add b key f
      | None =>
          match newFilter (fcType fc) (fcOptions fc) (redis_lookup b) (bWorld b) with
          | (Err e, w) => (b <| bWorld := w |>, Some e)
          | (Ok (phases, exec), w) =>
              let f := Base (bAlloc b) phases exec in
              let b := b <| bWorld := w |> <| bAlloc := S (bAlloc b) |>
                         <| createdFilters := createdFilters b ++ [f] |> in
              add b key f
          end
      end
  end.

Definition apply_chain (m : Manager) (b : Build) (e : string * ChainConfig) : Built :=
  let '(chainName, filterCfgs) := e in
  build_loop (apply_filter m chainName) (b <| chains := map_set (chains b) chainName [] |>) filterCfgs.

Definition build (m : Manager) (w : W) (cfg : Config) : Built :=
  then_build (build_loop (apply_redis m) (mkBuild (nextAlloc m) w [] [] [] [] []) (Redis cfg))
    (fun b => build_loop (apply_chain m) b (Chains cfg)).

(** 3. What the new policy no longer uses. *)
Definition retired_filters (m : Manager) (nf : GoMap (Filter W)) : list (Filter W) :=
  omap (fun e : string * Filter W => if map_has nf e.1 then None else Some e.2) (mFilters m).
Definition retired_redis (m : Manager) (nr : GoMap redisEntry) : list redisEntry :=
  omap (fun e : string * redisEntry =>
          match map_get nr e.1 with
          | Some e' => if (eId e' =? eId e.2)%nat then None else Some e.2
          | None => Some e.2
          end) (mRedis m).

(** 5. Health checks follow client lifetimes. *)
Definition start_health (nr : GoMap redisEntry) : GoMap redisEntry :=
  (fun e : string * redisEntry =>
     (e.1, if ActiveConnHealthCheck (eCfg e.2) && negb (stopHealth e.2) then e.2 <| stopHealth := true |>
           else e.2)) <$> nr.

(** What [Apply] closes at once (abort), or hands to [Swap] to be closed later. *)
Record Closing := mkClosing { clFilters : list (Filter W); clClients : list nat }.

Inductive ApplyResult : Type :=
| Aborted (err : string) (m : Manager) (w : W) (closedNow : Closing)
| Applied (m : Manager) (w : W) (published : Snapshot W) (onRetire : Closing).

Definition Apply (m : Manager) (w : W) (cfg : Config) : ApplyResult :=
  match build m w cfg with
  | (b, Some err) =>
      Aborted err (m <| nextAlloc := bAlloc b |>) (bWorld b) (mkClosing (createdFilters b) (createdClients b))
  | (b, None) =>
      Applied
        (m <| mRedis := start_health (nextRedis b) |> <| mFilters := nextFilters b |>
           <| ready := true |> <| nextAlloc := bAlloc b |>)
        (bWorld b)
        (NewSnapshot (Some cfg) (chains b))
        (mkClosing (retired_filters m (nextFilters b)) (eClient <$> retired_redis m (nextRedis b)))
  end.

(** [Close]: everything the active policy holds. *)
Definition Close (m : Manager) : Manager * Closing :=
  (m <| mRedis := [] |> <| mFilters := [] |>,
   mkClosing ((mFilters m).*2) ((fun e : string * redisEntry => eClient e.2) <$> mRedis m)).

End Policy.
Arguments Manager : clear implicits.
Arguments Build : clear implicits.
Arguments Closing : clear implicits.

(** The identity of a filter instance; audit wrappers share it. *)
Fixpoint fid {W : Type} (f : Filter W) : nat :=
  match f with Base i _ _ => i | auditedFilter f => fid f end.

(** What has to be closed once: filter instances and Redis clients. *)
Inductive Res : Type := RFilter (i : nat) | RClient (i : nat).
#[export] Instance Res_eq_dec : EqDecision Res.
Proof. solve_decision. Defined.

#[export] Instance RFilter_inj : Inj (=) (=) RFilter.
Proof. by intros i j [= ->]. Qed.
#[export] Instance RClient_inj : Inj (=) (=) RClient.
Proof. by intros i j [= ->]. Qed.

Definition res_list {W : Type} (fs : list (Filter W)) (cs : list nat) : list Res :=
  (RFilter ∘ fid <$> fs) ++ (RClient <$> cs).
Definition resources {W : Type} (m : Manager W) : list Res :=
  res_list (mFilters m).*2 (eClient <$> (mRedis m).*2).
Definition closing_res {W : Type} (c : Closing W) : list Res := res_list (clFilters c) (clClients c).

(** *** Where instances come from *)

Section Made.
Context {W : Type}.
Variable newRedis : option Z -> string -> RedisServiceConfig -> W -> result () * W.
Variable newFilter : string -> GoMap Value -> (string -> option nat) -> W
                     -> result (option (list Phase) * Exec W) * W.
Variable marshal : GoMap Value -> option string.

(** The factory made the instance, for a definition with this key and with the clients of
    the services as they were then. *)
Definition made (key : string) (f : Filter W) : Prop :=
  exists fc nr w w' i phases exec, filterKey marshal fc nr = Some key /\ f = Base i phases exec /\
    newFilter (fcType fc) (fcOptions fc) (fun service => eClient <$> map_get nr service) w = (Ok (phases, exec), w').

Definition all_made (fs : GoMap (Filter W)) : Prop := forall key f, (key, f) ∈ fs -> made key f.

(** The Redis entry a definition is bound to. *)
Definition redis_of (fc : FilterConfig) (nr : GoMap redisEntry) : option nat :=
  match map_get (fcOptions fc) "redis_service" with
  | Some (VString svc) => eId <$> map_get nr svc
  | _ => None
  end.

(** The position [f] of a chain is what the factory makes of the configured filter [fc]: an instance
    it made for the same type, the same options text and the same Redis entry. *)
Definition compiled_from (nr : GoMap redisEntry) (fc : FilterConfig) (f : Filter W) : Prop :=
  (isAudited f).2 = fcAudit fc /\
  exists fc0 nr0 w w' i phases exec, (isAudited f).1 = Base i phases exec /\
    newFilter (fcType fc) (fcOptions fc0) (fun service => eClient <$> map_get nr0 service) w = (Ok (phases, exec), w') /\
    marshal (fcOptions fc0) = marshal (fcOptions fc) /\ redis_of fc0 nr0 = redis_of fc nr.

(** Filter types and the texts of the encoder have no NUL bytes. *)
Definition nul_free (s : string) : Prop := contains_byte s "000" = false.
Class NulFree : Prop := {
  types_nul_free : forall ty o l w r w', newFilter ty o l w = (Ok r, w') -> nul_free ty;
  texts_nul_free : forall o t, marshal o = Some t -> nul_free t
}.

(** [created] counts the successful calls of the factories. *)
Class Counts (created : W -> nat) : Prop := {
  counts_redis : forall l n c w,
    created (newRedis l n c w).2 = (created w + if is_ok (newRedis l n c w).1 then 1 else 0)%nat;
  counts_filter : forall ty o l w,
    created (newFilter ty o l w).2 = (created w + if is_ok (newFilter ty o l w).1 then 1 else 0)%nat
}.
End Made.

(** ** Lemmas *)

(** *** Maps whose values are reused from an older map or newly allocated *)

Section Reuse.
Context {A : Type} (ident : A -> nat) (old : GoMap A) (base : nat).

Record owned (n : nat) (m : GoMap A) : Prop := {
  own_keys : NoDup m.*1;
  own_ids : NoDup (ident <$> m.*2);
  own_from : forall k a, (k, a) ∈ m -> map_get old k = Some a \/ (base <= ident a < n)%nat
}.

Definition old_ok : Prop :=
  NoDup old.*1 /\ NoDup (ident <$> old.*2) /\ forall k a, (k, a) ∈ old -> (ident a < base)%nat.

Lemma owned_nil n : owned n [].
Proof. split; [constructor|constructor|]. intros k a H. by apply not_elem_of_nil in H. Qed.

Lemma owned_mono n n' m : (n <= n')%nat -> owned n m -> owned n' m.
Proof.
  intros Hle [Hk Hi Hf]. split; [done|done|]. intros k a H. apply Hf in H as [?|?]; [by left|right; lia].
Qed.

(** Equal identities of an old map are equal entries. *)
Lemma ident_inj (m : GoMap A) k1 a1 k2 a2 :
  NoDup (ident <$> m.*2) -> (k1, a1) ∈ m -> (k2, a2) ∈ m -> ident a1 = ident a2 -> k1 = k2 /\ a1 = a2.
Proof.
  intros Hnd [i Hi]%list_elem_of_lookup [j Hj]%list_elem_of_lookup E.
  assert (i = j) as ->; [|by simplify_eq].
  rewrite <- list_fmap_compose in Hnd.
  apply (NoDup_lookup _ i j (ident a1) Hnd); rewrite list_lookup_fmap, ?Hi, ?Hj; cbn; congruence.
Qed.

Lemma owned_append n m k a :
  k ∉ m.*1 -> ident a ∉ ident <$> m.*2 -> (map_get old k = Some a \/ (base <= ident a < n)%nat) ->
  owned n m -> owned n (map_set m k a).
Proof.
  intros Hk Hi Hfrom [Hnk Hni Hf]. rewrite map_set_fresh by done. split.
  - rewrite fmap_app. apply NoDup_app. split_and!; [done|set_solver|apply NoDup_singleton].
  - rewrite !fmap_app. apply NoDup_app. split_and!; [done|set_solver|apply NoDup_singleton].
  - intros k' a' [H|H%list_elem_of_singleton]%elem_of_app; [auto|]. by injection H as -> ->.
Qed.

Lemma owned_fresh n m k a :
  old_ok -> owned n m -> k ∉ m.*1 -> (base <= n)%nat -> ident a = n -> owned (S n) (map_set m k a).
Proof.
  intros (_ & _ & Hlt) Hm Hk Hbase Ha. apply owned_append; [done| |right; lia|by apply (owned_mono n); [lia|]].
  rewrite list_elem_of_fmap. intros (a' & E & (k' & Hin)%elem_of_values).
  apply (own_from _ _ Hm) in Hin as [Hin%map_get_elem%Hlt|?]; lia.
Qed.

Lemma owned_reuse n m k a :
  old_ok -> owned n m -> k ∉ m.*1 -> map_get old k = Some a -> owned n (map_set m k a).
Proof.
  intros (Hok & Hoi & Hlt) Hm Hk Ha. apply owned_append; [done| |by left|done].
  rewrite list_elem_of_fmap. intros (a' & E & (k' & Hin)%elem_of_values).
  apply map_get_elem in Ha as Hka.
  apply (own_from _ _ Hm) in Hin as Hfrom. destruct Hfrom as [Hold%map_get_elem|Hge].
  - destruct (ident_inj _ _ _ _ _ Hoi Hka Hold E) as [-> ->]. apply Hk. apply list_elem_of_fmap. by exists (k', a').
  - apply Hlt in Hka. lia.
Qed.
End Reuse.

(** *** The build *)

Section BuildLemmas.
Context {W : Type}.
Variable newRedis : option Z -> string -> RedisServiceConfig -> W -> result () * W.
Variable newFilter : string -> GoMap Value -> (string -> option nat) -> W
                     -> result (option (list Phase) * Exec W) * W.
Variable marshal : GoMap Value -> option string.
Implicit Types (m : Manager W) (b : Build W).

Record mgr_wf m : Prop := {
  wf_filters : old_ok fid (mFilters m) (nextAlloc m);
  wf_redis : old_ok eClient (mRedis m) (nextAlloc m);
  wf_eid : forall k e, (k, e) ∈ mRedis m -> eId e = S (eClient e);
  wf_base : forall f, f ∈ (mFilters m).*2 -> isAudited f = (f, false)
}.

Record build_ok m b : Prop := {
  bo_alloc : (nextAlloc m <= bAlloc b)%nat;
  bo_redis : owned eClient (mRedis m) (nextAlloc m) (bAlloc b) (nextRedis b);
  bo_filters : owned fid (mFilters m) (nextAlloc m) (bAlloc b) (nextFilters b);
  bo_prefer : forall k f g, (k, f) ∈ nextFilters b -> map_get (mFilters m) k = Some g -> f = g;
  bo_eid : forall k e, (k, e) ∈ nextRedis b -> eId e = S (eClient e);
  bo_base : forall f, f ∈ (nextFilters b).*2 -> isAudited f = (f, false);
  bo_range : forall r, r ∈ res_list (createdFilters b) (createdClients b) ->
    match r with RFilter i | RClient i => (nextAlloc m <= i < bAlloc b)%nat end;
  bo_clients : createdClients b ⊆ eClient <$> (nextRedis b).*2;
  bo_made : createdFilters b ⊆ (nextFilters b).*2;
  bo_nodup : NoDup (res_list (createdFilters b) (createdClients b));
  bo_all : forall k f, (k, f) ∈ nextFilters b -> (nextAlloc m <= fid f)%nat -> f ∈ createdFilters b;
  bo_all_clients : forall k e, (k, e) ∈ nextRedis b -> (nextAlloc m <= eClient e)%nat ->
    eClient e ∈ createdClients b
}.

Lemma map_set_same {A : Type} (mp : GoMap A) k v : map_get mp k = Some v -> map_set mp k v = mp.
Proof.
  induction mp as [|[k' v'] mp IH]; cbn; [done|]. destruct (String.eqb_spec k' k) as [->|Hne].
  - by intros [= ->].
  - intros H. by rewrite IH.
Qed.

Lemma elem_of_res_filter (fs : list (Filter W)) cs i : RFilter i ∈ res_list fs cs <-> i ∈ fid <$> fs.
Proof.
  unfold res_list. rewrite list_fmap_compose, elem_of_app, (list_elem_of_fmap_inj RFilter).
  split; [|by left]. intros [?|(j & ? & _)%list_elem_of_fmap]; done.
Qed.
Lemma elem_of_res_client (fs : list (Filter W)) cs i : RClient i ∈ res_list fs cs <-> i ∈ cs.
Proof.
  unfold res_list. rewrite elem_of_app, (list_elem_of_fmap_inj RClient).
  split; [|by right]. intros [(j & ? & _)%list_elem_of_fmap|?]; done.
Qed.

Lemma res_list_NoDup (fs : list (Filter W)) cs : NoDup (res_list fs cs) <-> NoDup (fid <$> fs) /\ NoDup cs.
Proof.
  unfold res_list. rewrite NoDup_app, list_fmap_compose, (NoDup_fmap RFilter), (NoDup_fmap RClient).
  split; [tauto|]. intros [? ?]. split_and!; [done| |done].
  intros r (i & -> & _)%list_elem_of_fmap (j & ? & _)%list_elem_of_fmap. done.
Qed.

Lemma build_ok_init m w : build_ok m (mkBuild (nextAlloc m) w [] [] [] [] []).
Proof.
  split; cbn; try done; try apply owned_nil; try (intros; set_solver); constructor.
Qed.

Ltac build_simpl :=
  cbn [set_field bAlloc bWorld nextRedis createdClients nextFilters createdFilters chains].

(** Publishing a further filter position never touches the resources. *)
Lemma build_ok_chains m b c : build_ok m b -> build_ok m (b <| chains := c |>).
Proof. by intros []. Qed.
Lemma build_ok_world m b w : build_ok m b -> build_ok m (b <| bWorld := w |>).
Proof. by intros []. Qed.

Lemma apply_redis_ok m b n c :
  mgr_wf m -> build_ok m b -> n ∉ (nextRedis b).*1 ->
  build_ok m (apply_redis newRedis m b (n, c)).1 /\
  ((apply_redis newRedis m b (n, c)).2 = None ->
   (nextRedis (apply_redis newRedis m b (n, c)).1).*1 = (nextRedis b).*1 ++ [n]).
Proof.
  intros [_ Hwr Hwe _] Hb Hn. unfold apply_redis.
  destruct (match map_get (mRedis m) n with Some _ => _ | None => None end) as [old|] eqn:E.
  - assert (map_get (mRedis m) n = Some old) as Hold.
    { destruct (map_get (mRedis m) n) as [o|]; [|done]. case_bool_decide; by simplify_eq. }
    apply map_get_elem in Hold as Hin. destruct Hwr as (Hwk & Hwi & Hwl).
    cbn [fst snd]. split; [|intros _; cbn [set_field nextRedis]; rewrite map_set_fresh by done; by rewrite fmap_app].
    destruct Hb as [Ha Hr Hf Hp He Hba Hra Hc Hm Hnd Hall Hac]. split; build_simpl; try done.
    + by apply owned_reuse.
    + intros k e [[= -> ->]|]%map_set_elem; eauto.
    + rewrite map_set_fresh by done. rewrite !fmap_app. set_solver.
    + intros k e [[= -> ->]|]%map_set_elem; [|eauto]. apply Hwl in Hin. lia.
  - destruct (newRedis _ n c (bWorld b)) as [[[]|err] w]; cbn [fst snd]; [|split; [by apply build_ok_world|done]].
    split; [|intros _; cbn [set_field nextRedis]; rewrite map_set_fresh by done; by rewrite fmap_app].
    destruct Hb as [Ha Hr Hf Hp He Hba Hra Hc Hm Hnd Hall Hac]. split; build_simpl; try done.
    + lia.
    + apply (owned_mono _ _ _ (S (bAlloc b))); [lia|]. by apply owned_fresh.
    + apply (owned_mono _ _ _ (bAlloc b)); [lia|done].
    + intros k e [[= -> ->]|]%map_set_elem; eauto.
    + intros [i|i].
      * rewrite elem_of_res_filter. rewrite <- (elem_of_res_filter _ (createdClients b)). intros H%Hra. lia.
      * rewrite elem_of_res_client. intros [H|H%list_elem_of_singleton]%elem_of_app; [|lia].
        rewrite <- (elem_of_res_client (createdFilters b)) in H. apply Hra in H. lia.
    + rewrite map_set_fresh by done. rewrite !fmap_app. set_solver.
    + apply res_list_NoDup in Hnd as [H1 H2]. apply res_list_NoDup. split; [done|].
      apply NoDup_app. split_and!; [done| |apply NoDup_singleton].
      intros i Hi ->%list_elem_of_singleton. rewrite <- (elem_of_res_client (createdFilters b)) in Hi.
      apply Hra in Hi. lia.
    + intros k e [[= -> ->]|H]%map_set_elem H'; [set_solver|]. apply elem_of_app. left. eauto.
Qed.

(** A filter instance found in the maps is used as it is. *)
Lemma build_ok_reuse m b key f :
  mgr_wf m -> build_ok m b ->
  map_get (nextFilters b) key = Some f \/
    (map_get (nextFilters b) key = None /\ map_get (mFilters m) key = Some f) ->
  build_ok m (b <| nextFilters := map_set (nextFilters b) key f |>).
Proof.
  intros [Hwf _ _ Hwb] Hb [Hk|[Hk Hold]].
  - rewrite map_set_same by done. by destruct Hb.
  - apply map_get_None in Hk. apply map_get_elem in Hold as Hin. pose proof Hwf as (Hwk & Hwi & Hwl).
    destruct Hb as [Ha Hr Hf Hp He Hba Hra Hc Hm Hnd Hall Hac]. split; build_simpl; try done.
    + by apply owned_reuse.
    + intros k f' g [[= -> ->]|H]%map_set_elem Hg; [congruence|eauto].
    + intros f' [k [[= -> ->]|H]%map_set_elem]%elem_of_values.
      * apply Hwb, elem_of_values. eauto.
      * apply Hba, elem_of_values. eauto.
    + rewrite map_set_fresh by done. rewrite fmap_app. set_solver.
    + intros k f' [[= -> ->]|H]%map_set_elem Hge; [|eauto]. apply Hwl in Hin. lia.
Qed.

(** A new filter instance. *)
Lemma build_ok_create m b key phases exec w :
  mgr_wf m -> build_ok m b -> map_get (nextFilters b) key = None -> map_get (mFilters m) key = None ->
  let f := Base (bAlloc b) phases exec in
  build_ok m (b <| bWorld := w |> <| bAlloc := S (bAlloc b) |>
                <| createdFilters := createdFilters b ++ [f] |>
                <| nextFilters := map_set (nextFilters b) key f |>).
Proof.
  intros [Hwf _ _ _] Hb Hk Hold f. apply map_get_None in Hk.
  destruct Hb as [Ha Hr Hf Hp He Hba Hra Hc Hm Hnd Hall Hac]. split; build_simpl; try done.
  - lia.
  - apply (owned_mono _ _ _ (bAlloc b)); [lia|done].
  - by apply owned_fresh.
  - intros k f' g [[= -> ->]|H]%map_set_elem Hg; [congruence|eauto].
  - intros f' [k [[= -> ->]|H]%map_set_elem]%elem_of_values; [done|]. apply Hba, elem_of_values. eauto.
  - intros [i|i].
    + rewrite elem_of_res_filter, fmap_app, elem_of_app. intros [H|H%list_elem_of_singleton]; [|cbn in H; lia].
      rewrite <- (elem_of_res_filter _ (createdClients b)) in H. apply Hra in H. lia.
    + rewrite elem_of_res_client. rewrite <- (elem_of_res_client (createdFilters b)). intros H%Hra. lia.
  - rewrite map_set_fresh by done. rewrite fmap_app. set_solver.
  - apply res_list_NoDup in Hnd as [H1 H2]. apply res_list_NoDup. split; [|done].
    rewrite fmap_app. apply NoDup_app. split_and!; [done| |apply NoDup_singleton].
    intros i Hi ->%list_elem_of_singleton. rewrite <- (elem_of_res_filter _ (createdClients b)) in Hi.
    apply Hra in Hi. cbn in Hi. lia.
  - intros k f' [[= -> ->]|H]%map_set_elem H'; [set_solver|]. apply elem_of_app. left. eauto.
Qed.

(** The chain position a configured filter becomes: the instance under its key, audited or not. *)
Definition position_of (b : Build W) (fc : FilterConfig) (f : Filter W) : Prop :=
  exists key, filterKey marshal fc (nextRedis b) = Some key /\ (key, (isAudited f).1) ∈ nextFilters b /\
    (isAudited f).2 = fcAudit fc.

Definition chain_of (b : Build W) (e : string * ChainConfig) (c : string * Chain W) : Prop :=
  c.1 = e.1 /\ Forall2 (position_of b) e.2 c.2.

(** Building chains keeps the clients and the instances already chosen. *)
Definition extends (b b' : Build W) : Prop := nextFilters b ⊆ nextFilters b' /\ nextRedis b' = nextRedis b.

#[local] Instance extends_preorder : PreOrder extends.
Proof.
  split; [by intros b|]. intros x y z [Hxy Exy] [Hyz Eyz]. split; [|congruence]. intros e He. by apply Hyz, Hxy.
Qed.

Lemma position_extends b b' fc f : extends b b' -> position_of b fc f -> position_of b' fc f.
Proof. intros [Hx E] (key & Hk & Hin & Ha). exists key. rewrite E. split; [done|]. split; [by apply Hx|done]. Qed.

Lemma chain_of_extends b b' e c : extends b b' -> chain_of b e c -> chain_of b' e c.
Proof.
  intros Hx [Hn Hf]. split; [done|]. eapply Forall2_impl; [exact Hf|]. intros fc f. by apply position_extends.
Qed.

Lemma map_set_entries (mp : GoMap (Filter W)) k f :
  map_get mp k = Some f \/ map_get mp k = None -> mp ⊆ map_set mp k f /\ (k, f) ∈ map_set mp k f.
Proof.
  intros [H|H].
  - rewrite map_set_same by done. split; [done|]. by apply map_get_elem.
  - apply map_get_None in H. rewrite map_set_fresh by done. set_solver.
Qed.

Lemma map_get_last {A : Type} (mp : GoMap A) k v :
  k ∉ mp.*1 -> map_get (mp ++ [(k, v)]) k = Some v /\ forall v', map_set (mp ++ [(k, v)]) k v' = mp ++ [(k, v')].
Proof.
  induction mp as [|[k' v'] mp IH]; cbn.
  - intros _. by rewrite String.eqb_refl.
  - intros Hk. destruct (String.eqb_spec k' k) as [->|Hne]; [set_solver|].
    destruct IH as [H1 H2]; [set_solver|]. split; [done|]. intros v1. by rewrite H2.
Qed.

(** One filter: the resources stay accounted for, and on success the chain under
    construction grows by the position of the configured filter. *)
Lemma apply_filter_ok m b n fc done ch :
  mgr_wf m -> build_ok m b -> chains b = done ++ [(n, ch)] -> n ∉ done.*1 ->
  let r := apply_filter newFilter marshal m n b fc in
  build_ok m r.1 /\
  (r.2 = None -> extends b r.1 /\ exists f, chains r.1 = done ++ [(n, ch ++ [f])] /\ position_of r.1 fc f).
Proof.
  intros Hwf Hb Hch Hn. cbv zeta. unfold apply_filter.
  destruct (filterKey marshal fc (nextRedis b)) as [key|] eqn:Ekey; [|done].
  destruct (map_get_last done n ch Hn) as [Hget Hset].
  assert (forall b' f, chains b' = chains b -> nextRedis b' = nextRedis b -> isAudited f = (f, false) -> (key, f) ∈ nextFilters b' ->
    let c := map_set (chains b') n (default [] (map_get (chains b') n) ++ [if fcAudit fc then Audit f else f]) in
    exists g, c = done ++ [(n, ch ++ [g])] /\ position_of (b' <| chains := c |>) fc g) as Hpos.
  { intros b' f E Er Hf Hin c. subst c. rewrite E, Hch, Hget, Hset. cbn. eexists. split; [done|].
    exists key. cbn. rewrite Er. split; [done|]. destruct (fcAudit fc); cbn; [done|]. by rewrite Hf. }
  destruct (match map_get (nextFilters b) key with Some f => Some f | None => map_get (mFilters m) key end)
    as [f|] eqn:E.
  - assert (map_get (nextFilters b) key = Some f \/
      (map_get (nextFilters b) key = None /\ map_get (mFilters m) key = Some f)) as Hc
      by (destruct (map_get (nextFilters b) key); [left|right]; done).
    pose proof (build_ok_reuse m b key f Hwf Hb Hc) as Hb'.
    destruct (map_set_entries (nextFilters b) key f) as [Hsub Hin]; [naive_solver|].
    cbn [fst snd]. split; [by apply build_ok_chains|]. intros _. split; [done|].
    apply Hpos; [done|done| |done]. apply (bo_base _ _ Hb'), elem_of_values. by exists key.
  - assert (map_get (nextFilters b) key = None) as Hk by (by destruct (map_get (nextFilters b) key)).
    rewrite Hk in E.
    destruct (newFilter _ _ _ _) as [[[phases exec]|err] w]; cbn [fst snd]; [|split; [by apply build_ok_world|done]].
    pose proof (build_ok_create m b key phases exec w Hwf Hb Hk E) as Hb'.
    destruct (map_set_entries (nextFilters b) key (Base (bAlloc b) phases exec)) as [Hsub Hin]; [by right|].
    split; [apply (build_ok_chains _ _ _ Hb')|]. intros _. split; [done|].
    by apply (Hpos (b <| bWorld := w |> <| bAlloc := S (bAlloc b) |>
      <| createdFilters := createdFilters b ++ [Base (bAlloc b) phases exec] |>
      <| nextFilters := map_set (nextFilters b) key (Base (bAlloc b) phases exec) |>)).
Qed.

Lemma apply_filters_ok m n done fcs b ch :
  mgr_wf m -> build_ok m b -> chains b = done ++ [(n, ch)] -> n ∉ done.*1 ->
  let r := build_loop (apply_filter newFilter marshal m n) b fcs in
  build_ok m r.1 /\
  (r.2 = None -> extends b r.1 /\ exists ch', chains r.1 = done ++ [(n, ch ++ ch')] /\
     Forall2 (position_of r.1) fcs ch').
Proof.
  intros Hwf. revert b ch. induction fcs as [|fc fcs IH]; intros b ch Hb Hch Hn; cbv zeta; cbn [build_loop].
  { split; [done|]. intros _. split; [done|]. exists []. by rewrite app_nil_r. }
  destruct (apply_filter_ok m b n fc done ch Hwf Hb Hch Hn) as [Hb1 H1].
  destruct (apply_filter newFilter marshal m n b fc) as [b1 [e|]]; cbn [then_build fst snd] in *; [done|].
  destruct (H1 eq_refl) as (Hx1 & f & Hch1 & Hf).
  destruct (IH b1 _ Hb1 Hch1 Hn) as [Hb2 H2]. split; [done|]. intros Hnone.
  destruct (H2 Hnone) as (Hx2 & ch' & Hch2 & Hpos). split; [by etransitivity|].
  exists (f :: ch'). rewrite Hch2, <- app_assoc. split; [done|]. constructor; [|done].
  by eapply position_extends.
Qed.

Lemma apply_chains_ok m cs b :
  mgr_wf m -> build_ok m b -> NoDup ((chains b).*1 ++ cs.*1) ->
  let r := build_loop (apply_chain newFilter marshal m) b cs in
  build_ok m r.1 /\
  (r.2 = None -> extends b r.1 /\ exists new, chains r.1 = chains b ++ new /\ Forall2 (chain_of r.1) cs new).
Proof.
  intros Hwf. revert b. induction cs as [|[n fcs] cs IH]; intros b Hb Hnd; cbv zeta; cbn [build_loop].
  { split; [done|]. intros _. split; [done|]. exists []. by rewrite app_nil_r. }
  apply NoDup_app in Hnd as Hnd'. destruct Hnd' as (_ & Hdis & _).
  assert (n ∉ (chains b).*1) as Hn by (intros H; apply (Hdis _ H); constructor).
  assert (apply_chain newFilter marshal m b (n, fcs) =
    build_loop (apply_filter newFilter marshal m n) (b <| chains := chains b ++ [(n, [])] |>) fcs) as ->
    by (unfold apply_chain; by rewrite map_set_fresh).
  match goal with |- context [build_loop _ ?b0 fcs] =>
    destruct (apply_filters_ok m n (chains b) fcs b0 [] Hwf (build_ok_chains _ _ _ Hb) eq_refl Hn) as [Hb1 H1];
    destruct (build_loop (apply_filter newFilter marshal m n) b0 fcs) as [b1 [e|]]
  end; cbn [then_build fst snd] in *; [done|].
  destruct (H1 eq_refl) as (Hx1 & ch & Hch & Hpos). cbn in Hch.
  destruct (IH b1 Hb1) as [Hb2 H2].
  { rewrite Hch, fmap_app, <- app_assoc. exact Hnd. }
  split; [done|]. intros Hnone. destruct (H2 Hnone) as (Hx2 & new & Hnew & Hall).
  split; [by etransitivity|]. exists ((n, ch) :: new). rewrite Hnew, Hch, <- app_assoc. split; [done|].
  constructor; [|done]. by eapply chain_of_extends; [exact Hx2|].
Qed.

Lemma apply_redis_loop_ok m rs b :
  mgr_wf m -> build_ok m b -> NoDup ((nextRedis b).*1 ++ rs.*1) -> chains b = [] ->
  let r := build_loop (apply_redis newRedis m) b rs in
  build_ok m r.1 /\ (r.2 = None -> chains r.1 = []).
Proof.
  intros Hwf. revert b. induction rs as [|[n c] rs IH]; intros b Hb Hnd Hch; cbv zeta; cbn [build_loop]; [done|].
  apply NoDup_app in Hnd as Hnd'. destruct Hnd' as (_ & Hdis & _).
  assert (n ∉ (nextRedis b).*1) as Hn by (intros H; apply (Hdis _ H); constructor).
  destruct (apply_redis_ok m b n c Hwf Hb Hn) as [Hb1 H1].
  assert (chains (apply_redis newRedis m b (n, c)).1 = []) as Hch1.
  { unfold apply_redis. destruct (match map_get _ _ with Some _ => _ | None => _ end); [done|].
    by destruct (newRedis _ _ _ _) as [[] ?]. }
  destruct (apply_redis newRedis m b (n, c)) as [b1 [e|]]; cbn [then_build fst snd] in *; [done|].
  apply IH; [done| |done]. rewrite (H1 eq_refl), <- app_assoc. exact Hnd.
Qed.

(** The whole build, for a configuration whose maps have distinct keys. *)
Lemma build_spec m w cfg :
  mgr_wf m -> NoDup (Redis cfg).*1 -> NoDup (Chains cfg).*1 ->
  let r := build newRedis newFilter marshal m w cfg in
  build_ok m r.1 /\ (r.2 = None -> Forall2 (chain_of r.1) (Chains cfg) (chains r.1)).
Proof.
  intros Hwf Hr Hc. cbv zeta. unfold build.
  destruct (apply_redis_loop_ok m (Redis cfg) _ Hwf (build_ok_init m w) Hr eq_refl) as [Hb1 H1].
  destruct (build_loop (apply_redis newRedis m) _ (Redis cfg)) as [b1 [e|]]; cbn [then_build fst snd] in *; [done|].
  destruct (apply_chains_ok m (Chains cfg) b1 Hwf Hb1) as [Hb2 H2]; [by rewrite (H1 eq_refl)|].
  split; [done|]. intros Hnone. destruct (H2 Hnone) as (_ & new & Hnew & Hall).
  by rewrite Hnew, (H1 eq_refl).
Qed.

(** What the new policy keeps and what it retires. *)
Lemma retired_filters_spec m b i :
  mgr_wf m -> build_ok m b ->
  i ∈ fid <$> retired_filters m (nextFilters b) <->
  i ∈ fid <$> (mFilters m).*2 /\ i ∉ fid <$> (nextFilters b).*2.
Proof.
  intros [(Hfk & Hfi & Hfl) _ _ _] Hb. unfold retired_filters. split.
  - intros (f & -> & (e & He & Hret)%list_elem_of_omap)%list_elem_of_fmap. destruct e as [k g]. cbn in Hret.
    destruct (map_has (nextFilters b) k) eqn:Eh; [done|]. injection Hret as ->. split.
    + apply list_elem_of_fmap. exists f. split; [done|]. apply elem_of_values. eauto.
    + intros (g & E & (k' & Hin)%elem_of_values)%list_elem_of_fmap.
      apply (own_from _ _ _ _ _ (bo_filters _ _ Hb)) in Hin as Hfrom. destruct Hfrom as [Hold%map_get_elem|Hge].
      * destruct (ident_inj fid _ _ _ _ _ Hfi He Hold E) as [-> ->].
        assert (map_has (nextFilters b) k' = true) as Eh'; [|congruence].
        apply map_has_spec, list_elem_of_fmap. by exists (k', g).
      * apply Hfl in He. lia.
  - intros [(f & -> & (k & Hin)%elem_of_values)%list_elem_of_fmap Hnot].
    apply list_elem_of_fmap. exists f. split; [done|]. apply list_elem_of_omap. exists (k, f). split; [done|].
    cbn. destruct (map_has (nextFilters b) k) eqn:Eh; [|done]. exfalso. apply Hnot.
    apply map_has_spec, list_elem_of_fmap in Eh as ([k' g] & -> & Hg). cbn in *.
    apply list_elem_of_fmap. exists g. split; [|apply elem_of_values; eauto].
    f_equal. symmetry. eapply bo_prefer; [exact Hb|exact Hg|]. by apply elem_map_get.
Qed.

Lemma retired_redis_spec m b i :
  mgr_wf m -> build_ok m b ->
  i ∈ eClient <$> retired_redis m (nextRedis b) <->
  i ∈ eClient <$> (mRedis m).*2 /\ i ∉ eClient <$> (nextRedis b).*2.
Proof.
  intros [_ (Hrk & Hri & Hrl) Hwe _] Hb. unfold retired_redis. split.
  - intros (e & -> & ([k e0] & He & Hret)%list_elem_of_omap)%list_elem_of_fmap. cbn in Hret.
    assert (e0 = e /\ map_get (nextRedis b) k <> Some e) as [-> Hne].
    { destruct (map_get (nextRedis b) k) as [e'|]; [|by injection Hret as ->].
      destruct (Nat.eqb_spec (eId e') (eId e0)); [done|]. injection Hret as ->. split; [done|]. congruence. }
    split.
    + apply list_elem_of_fmap. exists e. split; [done|]. apply elem_of_values. eauto.
    + intros (e1 & E & (k' & Hin)%elem_of_values)%list_elem_of_fmap.
      apply (own_from _ _ _ _ _ (bo_redis _ _ Hb)) in Hin as Hfrom. destruct Hfrom as [Hold%map_get_elem|Hge].
      * destruct (ident_inj eClient _ _ _ _ _ Hri He Hold E) as [-> ->].
        apply Hne. apply elem_map_get; [|done]. apply (own_keys _ _ _ _ _ (bo_redis _ _ Hb)).
      * apply Hrl in He. lia.
  - intros [(e & -> & (k & Hin)%elem_of_values)%list_elem_of_fmap Hnot].
    apply list_elem_of_fmap. exists e. split; [done|]. apply list_elem_of_omap. exists (k, e). split; [done|].
    cbn. destruct (map_get (nextRedis b) k) as [e'|] eqn:E; [|done]. apply map_get_elem in E.
    destruct (Nat.eqb_spec (eId e') (eId e)) as [Heq|]; [|done]. exfalso. apply Hnot.
    apply list_elem_of_fmap. exists e'. split; [|apply elem_of_values; eauto].
    apply (bo_eid _ _ Hb) in E. apply Hwe in Hin. lia.
Qed.

Lemma retired_spec m b r :
  mgr_wf m -> build_ok m b ->
  r ∈ res_list (retired_filters m (nextFilters b)) (eClient <$> retired_redis m (nextRedis b)) <->
  r ∈ resources m /\ r ∉ res_list (nextFilters b).*2 (eClient <$> (nextRedis b).*2).
Proof.
  intros Hwf Hb. unfold resources. destruct r as [i|i].
  - rewrite !elem_of_res_filter. by apply retired_filters_spec.
  - rewrite !elem_of_res_client. by apply retired_redis_spec.
Qed.

Lemma omap_values_NoDup {A B : Type} (ident : A -> B) (mp : GoMap A) (g : string * A -> option A) :
  (forall e a, g e = Some a -> a = e.2) -> NoDup (ident <$> mp.*2) -> NoDup (ident <$> omap g mp).
Proof.
  intros Hg. induction mp as [|e mp IH]; cbn; [constructor|]. intros [Hn Hnd]%NoDup_cons.
  destruct (g e) as [a|] eqn:E; [|auto]. apply Hg in E as ->. cbn. constructor; [|auto].
  intros (x & Ex & (e' & He' & Hx)%list_elem_of_omap)%list_elem_of_fmap. apply Hg in Hx as ->.
  apply Hn. rewrite Ex. apply list_elem_of_fmap. exists e'.2. split; [done|]. apply list_elem_of_fmap. eauto.
Qed.

Lemma retired_NoDup m b :
  mgr_wf m -> NoDup (res_list (retired_filters m (nextFilters b)) (eClient <$> retired_redis m (nextRedis b))).
Proof.
  intros [(_ & Hf & _) (_ & Hr & _) _ _]. apply res_list_NoDup. split; apply omap_values_NoDup; auto.
  - intros [k f] a. cbn. case_match; [done|]. by intros [= ->].
  - intros [k e] a. cbn. repeat case_match; intros; by simplify_eq.
Qed.

Lemma start_health_keys nr : (start_health nr).*1 = nr.*1.
Proof. unfold start_health. rewrite <- list_fmap_compose. done. Qed.

Lemma start_health_elem nr k e :
  (k, e) ∈ start_health nr -> exists e', (k, e') ∈ nr /\ eClient e = eClient e' /\ eId e = eId e'.
Proof.
  unfold start_health. intros ([k' e'] & [= -> ->] & H)%list_elem_of_fmap. exists e'. by case_match.
Qed.

Lemma start_health_clients nr : eClient <$> (start_health nr).*2 = eClient <$> nr.*2.
Proof.
  unfold start_health. rewrite <- !list_fmap_compose. apply list_fmap_ext. intros i [k e] _. cbn. by case_match.
Qed.

Lemma applied_wf m b :
  mgr_wf m -> build_ok m b ->
  mgr_wf (m <| mRedis := start_health (nextRedis b) |> <| mFilters := nextFilters b |>
            <| ready := true |> <| nextAlloc := bAlloc b |>).
Proof.
  intros [(_ & _ & Hfl) (_ & _ & Hrl) _ _] Hb. split; cbn.
  - split; [apply (bo_filters _ _ Hb)|]. split; [apply (bo_filters _ _ Hb)|].
    intros k f H. pose proof (bo_alloc _ _ Hb). apply (own_from _ _ _ _ _ (bo_filters _ _ Hb)) in H as [H%map_get_elem%Hfl|?]; lia.
  - unfold old_ok. rewrite start_health_keys, start_health_clients.
    split; [apply (bo_redis _ _ Hb)|]. split; [apply (bo_redis _ _ Hb)|].
    intros k e (e' & H & -> & _)%start_health_elem. pose proof (bo_alloc _ _ Hb).
    apply (own_from _ _ _ _ _ (bo_redis _ _ Hb)) in H as [H%map_get_elem%Hrl|?]; lia.
  - intros k e (e' & H & -> & ->)%start_health_elem. by apply (bo_eid _ _ Hb) in H.
  - apply (bo_base _ _ Hb).
Qed.
End BuildLemmas.

(** What one [Apply] does, in both outcomes: to the manager, to the chains, and to the
    resources, of which [n] were created. *)
Definition apply_accounted {W : Type} (marshal : GoMap Value -> option string) (m : Manager W) (cfg : Config) (n : nat)
  (r : ApplyResult (W := W)) : Prop :=
  match r with
  | Aborted err m' w' cl =>
      mRedis m' = mRedis m /\ mFilters m' = mFilters m /\ ready m' = ready m /\
      NoDup (closing_res cl) /\ length (closing_res cl) = n /\
      (forall x, x ∈ closing_res cl ->
         match x with RFilter i | RClient i => (nextAlloc m <= i < nextAlloc m')%nat end)
  | Applied m' w' snap cl =>
      snapConfig snap = Some cfg /\ ready m' = true /\
      Forall2 (fun (e : string * ChainConfig) (c : string * Chain W) => c.1 = e.1 /\
         Forall2 (fun fc f => exists key, filterKey marshal fc (mRedis m') = Some key /\
                    (key, (isAudited f).1) ∈ mFilters m' /\ (isAudited f).2 = fcAudit fc) e.2 c.2)
        (Chains cfg) (snapChains snap) /\
      NoDup (closing_res cl) /\ length (filter (fun x => x ∉ resources m) (resources m')) = n /\
      (forall x, x ∈ closing_res cl <-> x ∈ resources m /\ x ∉ resources m') /\
      (forall x, x ∈ resources m' -> x ∈ resources m \/
         match x with RFilter i | RClient i => (nextAlloc m <= i < nextAlloc m')%nat end)
  end.

Definition manager_of {W : Type} (r : ApplyResult (W := W)) : Manager W :=
  match r with Aborted _ m _ _ | Applied m _ _ _ => m end.
Definition world_of {W : Type} (r : ApplyResult (W := W)) : W :=
  match r with Aborted _ _ w _ | Applied _ w _ _ => w end.

Section ApplyLemmas.
Context {W : Type}.
Variable newRedis : option Z -> string -> RedisServiceConfig -> W -> result () * W.
Variable newFilter : string -> GoMap Value -> (string -> option nat) -> W
                     -> result (option (list Phase) * Exec W) * W.
Variable marshal : GoMap Value -> option string.

Lemma Apply_wf (m : Manager W) w cfg :
  mgr_wf m -> NoDup (Redis cfg).*1 -> NoDup (Chains cfg).*1 ->
  mgr_wf (manager_of (Apply newRedis newFilter marshal m w cfg)) /\
  (nextAlloc m <= nextAlloc (manager_of (Apply newRedis newFilter marshal m w cfg)))%nat.
Proof.
  intros Hwf Hr Hc. destruct (build_spec newRedis newFilter marshal m w cfg Hwf Hr Hc) as [Hb _].
  unfold Apply. destruct (build newRedis newFilter marshal m w cfg) as [b [err|]]; cbn [fst manager_of] in *.
  - pose proof (bo_alloc _ _ Hb). split; [|done]. destruct Hwf as [(? & ? & Hf) (? & ? & Hrl) ? ?]. split; try done.
    + split; [done|]. split; [done|]. intros k f H'. apply Hf in H'. cbn. lia.
    + split; [done|]. split; [done|]. intros k f H'. apply Hrl in H'. cbn. lia.
  - split; [by apply applied_wf|apply Hb].
Qed.

(** An invariant of every step is one of the loops and of the build. *)
Lemma build_loop_inv {A : Type} (P : Build W -> Prop) (f : Build W -> A -> Built) b l :
  (forall b x, P b -> P (f b x).1) -> P b -> P (build_loop f b l).1.
Proof.
  intros Hf. revert b. induction l as [|x l IH]; intros b Hb; [done|]. cbn [build_loop].
  specialize (Hf b x Hb). destruct (f b x) as [b1 [e|]]; cbn [then_build fst] in *; [done|by apply IH].
Qed.

Lemma build_inv (P : Build W -> Prop) m w cfg :
  (forall b e, P b -> P (apply_redis newRedis m b e).1) ->
  (forall b n, P b -> P (b <| chains := map_set (chains b) n [] |>)) ->
  (forall b n fc, P b -> P (apply_filter newFilter marshal m n b fc).1) ->
  P (mkBuild (nextAlloc m) w [] [] [] [] []) -> P (build newRedis newFilter marshal m w cfg).1.
Proof.
  intros Hr Hc Hf H0. unfold build.
  pose proof (build_loop_inv P (apply_redis newRedis m) _ (Redis cfg) Hr H0) as H1.
  destruct (build_loop (apply_redis newRedis m) _ (Redis cfg)) as [b1 [e|]]; cbn [then_build fst] in *; [done|].
  apply (build_loop_inv P (apply_chain newFilter marshal m)); [|done]. intros b [n fcs] Hb.
  apply (build_loop_inv P (apply_filter newFilter marshal m n)); auto.
Qed.

(** Every instance in use was made by the factory for its key. *)
Lemma build_made m w cfg : all_made newFilter marshal (mFilters m) ->
  all_made newFilter marshal (nextFilters (build newRedis newFilter marshal m w cfg).1).
Proof.
  intros Hm. apply (build_inv (fun b => all_made newFilter marshal (nextFilters b))); try done.
  - intros b [n c] Hb. unfold apply_redis. destruct (match map_get _ _ with Some _ => _ | None => None end); [done|].
    by destruct (newRedis _ _ _ _) as [[] ?].
  - intros b n fc Hb. unfold apply_filter. destruct (filterKey marshal fc (nextRedis b)) as [key|] eqn:Ek; [|done].
    assert (forall f, made newFilter marshal key f ->
      all_made newFilter marshal (map_set (nextFilters b) key f)) as Hset.
    { intros f Hf k g [[= -> ->]|H]%map_set_elem; auto. }
    destruct (match map_get (nextFilters b) key with Some f => Some f | None => map_get (mFilters m) key end) as [f|] eqn:E.
    + apply Hset. destruct (map_get (nextFilters b) key) eqn:En; [injection E as ->; by apply Hb, map_get_elem|].
      by apply Hm, map_get_elem.
    + destruct (newFilter _ _ _ _) as [[[phases exec]|err] w1] eqn:Ef; cbn; [|done]. apply Hset.
      by eexists fc, (nextRedis b), (bWorld b), w1, (bAlloc b), phases, exec.
  - intros k f H. by apply not_elem_of_nil in H.
Qed.

Lemma build_counts created m w cfg : Counts newRedis newFilter created ->
  let b := (build newRedis newFilter marshal m w cfg).1 in
  created (bWorld b) = (created w + length (res_list (createdFilters b) (createdClients b)))%nat.
Proof.
  intros [Cr Cf]. cbv zeta.
  apply (build_inv (fun b => created (bWorld b) = (created w + length (res_list (createdFilters b) (createdClients b)))%nat)); try done.
  - intros b [n c] Hb. unfold apply_redis. destruct (match map_get _ _ with Some _ => _ | None => None end); [done|].
    match goal with |- context [newRedis ?l ?n ?c ?w1] => pose proof (Cr l n c w1) as Hc; destruct (newRedis l n c w1) as [[] w2] end;
      cbn in *; rewrite Hc, Hb; unfold res_list; rewrite ?length_app, ?length_fmap, ?length_app; cbn; lia.
  - intros b n fc Hb. unfold apply_filter. destruct (filterKey marshal fc (nextRedis b)); [|done].
    destruct (match map_get (nextFilters b) _ with Some f => Some f | None => _ end); [done|].
    match goal with |- context [newFilter ?t ?o ?l ?w1] => pose proof (Cf t o l w1) as Hc; destruct (newFilter t o l w1) as [[[] |] w2] end;
      cbn in *; rewrite Hc, Hb; unfold res_list; rewrite ?length_app, ?length_fmap, ?length_app; cbn; lia.
Qed.

Lemma filterKey_health fc nr : filterKey marshal fc (start_health nr) = filterKey marshal fc nr.
Proof.
  assert (forall k, eId <$> map_get (start_health nr) k = eId <$> map_get nr k) as Hid.
  { intros k. induction nr as [|[n e] nr IH]; [done|]. cbn. destruct (String.eqb n k); [|done]. cbn. by case_match. }
  unfold filterKey. destruct (marshal (fcOptions fc)); [|done]. destruct (map_get (fcOptions fc) "redis_service") as [[]|]; try done.
  specialize (Hid s0). destruct (map_get (start_health nr) s0), (map_get nr s0); cbn in Hid; simplify_eq; by rewrite ?Hid.
Qed.

(** The created resources are the new ones of the policy. *)
Lemma created_fresh (m : Manager W) (b : Build W) : mgr_wf m -> build_ok m b ->
  let next := res_list (nextFilters b).*2 (eClient <$> (nextRedis b).*2) in
  length (filter (fun x => x ∉ resources m) next) = length (res_list (createdFilters b) (createdClients b)).
Proof.
  intros Hwf Hb. cbv zeta. apply Permutation_length, NoDup_Permutation; [|apply Hb|].
  - apply NoDup_filter, res_list_NoDup. split; [apply (bo_filters _ _ Hb)|apply (bo_redis _ _ Hb)].
  - destruct Hwf as [(_ & _ & Hfl) (_ & _ & Hrl) _ _]. intros [i|i]; rewrite list_elem_of_filter; unfold resources.
    + rewrite !elem_of_res_filter. split.
      * intros [Hn (f & -> & (k & Hf)%elem_of_values)%list_elem_of_fmap]. apply list_elem_of_fmap. exists f. split; [done|].
        apply (own_from _ _ _ _ _ (bo_filters _ _ Hb)) in Hf as Hfrom. destruct Hfrom as [Ho%map_get_elem|?].
        -- exfalso. apply Hn, list_elem_of_fmap. exists f. split; [done|]. apply elem_of_values. by exists k.
        -- eapply (bo_all _ _ Hb); [exact Hf|lia].
      * intros (f & -> & Hf)%list_elem_of_fmap. split.
        -- intros (g & E & (k & Hg)%elem_of_values)%list_elem_of_fmap. apply Hfl in Hg.
           assert (RFilter (fid f) ∈ res_list (createdFilters b) (createdClients b)) as H%(bo_range _ _ Hb)
             by (apply elem_of_res_filter, list_elem_of_fmap; by exists f). lia.
        -- apply list_elem_of_fmap. exists f. split; [done|]. by apply (bo_made _ _ Hb).
    + rewrite !elem_of_res_client. split.
      * intros [Hn (e & -> & (k & He)%elem_of_values)%list_elem_of_fmap].
        apply (own_from _ _ _ _ _ (bo_redis _ _ Hb)) in He as Hfrom. destruct Hfrom as [Ho%map_get_elem|?].
        -- exfalso. apply Hn, list_elem_of_fmap. exists e. split; [done|]. apply elem_of_values. by exists k.
        -- eapply (bo_all_clients _ _ Hb); [exact He|lia].
      * intros Hi. split; [|by apply (bo_clients _ _ Hb)].
        intros (g & -> & (k & Hg)%elem_of_values)%list_elem_of_fmap. apply Hrl in Hg.
        assert (RClient (eClient g) ∈ res_list (createdFilters b) (createdClients b)) as H%(bo_range _ _ Hb)
          by (by apply elem_of_res_client). lia.
Qed.

(** [n] is what a count of the creations shows. *)
Lemma Apply_accounted (m : Manager W) w cfg :
  mgr_wf m -> NoDup (Redis cfg).*1 -> NoDup (Chains cfg).*1 ->
  exists n, apply_accounted marshal m cfg n (Apply newRedis newFilter marshal m w cfg) /\
    forall created, Counts newRedis newFilter created ->
      created (world_of (Apply newRedis newFilter marshal m w cfg)) = (created w + n)%nat.
Proof.
  intros Hwf Hr Hc. destruct (build_spec newRedis newFilter marshal m w cfg Hwf Hr Hc) as [Hb Hch].
  pose proof (fun created => build_counts created m w cfg) as Hcount.
  exists (length (res_list (createdFilters (build newRedis newFilter marshal m w cfg).1)
                   (createdClients (build newRedis newFilter marshal m w cfg).1))).
  unfold Apply. destruct (build newRedis newFilter marshal m w cfg) as [b [err|]]; cbn [fst snd] in *; (split; [|exact Hcount]).
  - repeat (split; [done|]). split; [apply Hb|]. split; [done|]. intros x Hx. by apply (bo_range _ _ Hb) in Hx.
  - assert (resources (m <| mRedis := start_health (nextRedis b) |> <| mFilters := nextFilters b |>
             <| ready := true |> <| nextAlloc := bAlloc b |>)
           = res_list (nextFilters b).*2 (eClient <$> (nextRedis b).*2)) as Hres.
    { unfold resources. cbn [set_field mFilters mRedis]. by rewrite start_health_clients. }
    repeat (split; [done|]). split; [|split; [by apply retired_NoDup|split; [|split]]].
    + eapply Forall2_impl; [by apply Hch|]. intros [n1 fcs] [n2 ch] [Hn Hf]. split; [done|].
      eapply Forall2_impl; [exact Hf|]. intros fc f (key & Hk & Hin & Ha). exists key. cbn.
      by rewrite filterKey_health.
    + rewrite Hres. by apply created_fresh.
    + intros x. rewrite Hres. by apply retired_spec.
    + intros x. rewrite Hres. unfold resources. destruct x as [i|i].
      * rewrite !elem_of_res_filter. intros (f & -> & (k & H)%elem_of_values)%list_elem_of_fmap.
        apply (own_from _ _ _ _ _ (bo_filters _ _ Hb)) in H as [H%map_get_elem|?]; [left|by right].
        apply list_elem_of_fmap. exists f. split; [done|]. apply elem_of_values. eauto.
      * rewrite !elem_of_res_client. intros (e & -> & (k & H)%elem_of_values)%list_elem_of_fmap.
        apply (own_from _ _ _ _ _ (bo_redis _ _ Hb)) in H as [H%map_get_elem|?]; [left|by right].
        apply list_elem_of_fmap. exists e. split; [done|]. apply elem_of_values. eauto.
Qed.

(** The instances of the manager stay what the factory made for their keys. *)
Lemma Apply_made (m : Manager W) w cfg : all_made newFilter marshal (mFilters m) ->
  all_made newFilter marshal (mFilters (manager_of (Apply newRedis newFilter marshal m w cfg))).
Proof.
  intros Hm. pose proof (build_made m w cfg Hm) as H. unfold Apply.
  by destruct (build newRedis newFilter marshal m w cfg) as [b [err|]].
Qed.

End ApplyLemmas.

Lemma NewManager_wf {W : Type} : mgr_wf (NewManager (W := W)).
Proof.
  split; cbn; try (intros; set_solver); (split; [constructor|]; split; [constructor|]; intros; set_solver).
Qed.

(** *** Keys *)

Lemma nul_split a1 b1 a2 b2 :
  nul_free a1 -> nul_free a2 -> (a1 +++ nul +++ b1 = a2 +++ nul +++ b2)%go -> a1 = a2 /\ b1 = b2.
Proof.
  intros H1 H2 H. assert (forall a b, nul_free a -> Cut (a +++ nul +++ b) "000" = (a, b, true)) as Hcut
    by (intros a b Ha; by apply Cut_found).
  pose proof (Hcut a1 b1 H1) as C1. rewrite H, (Hcut a2 b2 H2) in C1. by injection C1 as -> ->.
Qed.

Lemma nul_last t1 t2 (x1 x2 : option nat) : nul_free t1 -> nul_free t2 ->
  let suffix x := match x with Some n => (nul +++ Itoa (Z.of_nat n))%go | None => "" end in
  (t1 +++ suffix x1 = t2 +++ suffix x2)%go -> t1 = t2 /\ x1 = x2.
Proof.
  intros H1 H2. cbv zeta. assert (contains_byte nul "000" = true) as Hn by done. destruct x1 as [n1|], x2 as [n2|]; rewrite ?string_app_nil_r.
  - intros [-> E]%nul_split; [|done|done]. unfold Itoa in E. apply (inj pretty) in E. split; [done|]. f_equal. lia.
  - intros <-. exfalso. unfold nul_free in H2. rewrite !contains_byte_app, Hn in H2. by destruct (contains_byte t1 _).
  - intros ->. exfalso. unfold nul_free in H1. rewrite !contains_byte_app, Hn in H1. by destruct (contains_byte t2 _).
  - by intros ->.
Qed.

Section Keys.
Context {W : Type}.
Variable newFilter : string -> GoMap Value -> (string -> option nat) -> W
                     -> result (option (list Phase) * Exec W) * W.
Variable marshal : GoMap Value -> option string.

Lemma filterKey_eq fc nr :
  filterKey marshal fc nr =
  (fun t => (fcType fc +++ nul +++ t +++ match redis_of fc nr with Some n => nul +++ Itoa (Z.of_nat n) | None => "" end)%go)
    <$> marshal (fcOptions fc).
Proof.
  unfold filterKey, redis_of. destruct (marshal (fcOptions fc)) as [t|]; [|done]. cbn. f_equal.
  destruct (map_get (fcOptions fc) "redis_service") as [[]|]; try by rewrite string_app_nil_r.
  destruct (map_get nr _); cbn; [|by rewrite string_app_nil_r]. by rewrite !string_app_assoc.
Qed.

(** Equal keys: the same type, the same text, the same Redis entry. *)
Lemma filterKey_inj {nf : NulFree newFilter marshal} fc nr fc0 nr0 key :
  nul_free (fcType fc) -> nul_free (fcType fc0) ->
  filterKey marshal fc nr = Some key -> filterKey marshal fc0 nr0 = Some key ->
  fcType fc0 = fcType fc /\ marshal (fcOptions fc0) = marshal (fcOptions fc) /\ redis_of fc0 nr0 = redis_of fc nr.
Proof.
  intros Ht Ht0. rewrite !filterKey_eq.
  destruct (marshal (fcOptions fc)) as [t|] eqn:Et; [|done]. destruct (marshal (fcOptions fc0)) as [t0|] eqn:Et0; [|done].
  cbn. intros [= <-] [= E]. apply nul_split in E as [-> E]; [|done|done].
  apply nul_last in E as [-> ->]; [done| |]; by eapply texts_nul_free.
Qed.

(** The live instance under a filter's key is what the factory makes of the filter. *)
Lemma made_compiled {nf : NulFree newFilter marshal} nr fc f key :
  nul_free (fcType fc) -> filterKey marshal fc nr = Some key -> (isAudited f).2 = fcAudit fc ->
  made newFilter marshal key (isAudited f).1 -> compiled_from newFilter marshal nr fc f.
Proof.
  intros Ht Hk Ha (fc0 & nr0 & w & w' & i & phases & exec & Hk0 & Hf & Hnew). split; [done|].
  assert (nul_free (fcType fc0)) as Ht0 by (by eapply types_nul_free).
  destruct (filterKey_inj fc nr fc0 nr0 key Ht Ht0 Hk Hk0) as (Ety & Eo & Er).
  exists fc0, nr0, w, w', i, phases, exec. rewrite <- Ety. done.
Qed.
End Keys.

(** ** Properties *)

(** C5: applying a configuration is transactional and accounts for every resource.
    If any part fails, the active policy is untouched and what is closed is what this
    attempt created: as many different new clients and filters as the factories made.
    If it succeeds, the published snapshot holds one chain per configured chain, in which
    the position of a configured filter is the live instance under that filter's own key
    (audited where configured), made by the factory for that key; everything the factories
    made is in use, and the resources handed over for closing are exactly the ones the
    old policy used and the new one does not. *)
Theorem Apply_transactional {W : Type} newRedis newFilter marshal (m : Manager W) (w : W) (cfg : Config) (created : W -> nat) :
  Counts newRedis newFilter created ->
  mgr_wf m -> all_made newFilter marshal (mFilters m) -> NoDup (Redis cfg).*1 -> NoDup (Chains cfg).*1 ->
  let r := Apply newRedis newFilter marshal m w cfg in
  mgr_wf (manager_of r) /\ all_made newFilter marshal (mFilters (manager_of r)) /\
  exists n, created (world_of r) = (created w + n)%nat /\ apply_accounted marshal m cfg n r.
Proof.
  intros Hn Hwf Hm Hr Hc. split; [by apply Apply_wf|]. split; [by apply Apply_made|].
  destruct (Apply_accounted newRedis newFilter marshal m w cfg Hwf Hr Hc) as (n & Hacc & Hcount).
  exists n. split; [by apply Hcount|done].
Qed.

(** Factories for examples: every service can be dialled, and filters of type
    "bad" cannot be created. *)
Definition exampleRedis (_ : option Z) (_ : string) (_ : RedisServiceConfig) (w : ()) : result () * () := (Ok tt, w).
Definition exampleFilter (t : string) (_ : GoMap Value) (_ : string -> option nat) (w : ())
  : result (option (list Phase) * Exec ()) * () :=
  if String.eqb t "deny" then (Ok (None, passAll), w) else (Err "bad", w).
Definition exampleMarshal (_ : GoMap Value) : option string := Some "".

(** The same with a world that counts. *)
Definition countingRedis (_ : option Z) (_ : string) (_ : RedisServiceConfig) (w : nat) : result () * nat := (Ok tt, S w).
Definition countingFilter (t : string) (_ : GoMap Value) (_ : string -> option nat) (w : nat)
  : result (option (list Phase) * Exec nat) * nat :=
  if String.eqb t "deny" then (Ok (None, fun c w => (None, c, w)), S w) else (Err "bad", w).

Lemma counting_counts : Counts countingRedis countingFilter id.
Proof.
  split.
  - intros l n c w. unfold countingRedis, id. cbn. lia.
  - intros t o l w. unfold countingFilter, id. destruct (String.eqb t "deny"); cbn; lia.
Qed.

(** A chain whose second filter cannot be built. *)
Definition failing_config : Config :=
  example_config <| Chains := [("public", [example_filter; mkFilterConfig "" false "bad" []])] |>.

Lemma Apply_transactional_witness :
  exists n, id (world_of (Apply countingRedis countingFilter exampleMarshal NewManager 0%nat failing_config)) = (id 0 + n)%nat /\
    n = 1%nat /\
    apply_accounted exampleMarshal NewManager failing_config n
      (Apply countingRedis countingFilter exampleMarshal NewManager 0%nat failing_config).
Proof.
  destruct (Apply_transactional countingRedis countingFilter exampleMarshal NewManager 0%nat failing_config id counting_counts)
    as (_ & _ & n & Hn & Hacc).
  - apply NewManager_wf.
  - intros k f H. by apply not_elem_of_nil in H.
  - constructor.
  - apply NoDup_singleton.
  - exists n. split; [exact Hn|]. split; [|exact Hacc]. vm_compute in Hn. congruence.
Defined.
