(* ===== verification/Lifetime.v ===== *)
(** * Lifetime: reloads and in-flight streams together (policy/manager.go with
    engine/registry.go)

    A step relation over reloads ([Apply]), stream starts ([Acquire]) and stream
    ends ([Release]); each is one step here, the interleavings inside them are
    the subject of Registry. A generation is a published snapshot with the
    resources its chains use and the number of streams holding it. *)

From S2P Require Import Prelude GoStrings GoTime Netip Identity Selector Context Executor Config Registry Policy.

Local Open Scope string_scope.
Local Open Scope list_scope.

(** ** State and steps *)

Inductive GenStatus : Type :=
| GCurrent
| GRetired (onRetire : list Res)   (* replaced; cleanup waits for the last holder *)
| GCleaned.

Record Gen := mkGen { gRes : list Res; gHolders : nat; gStatus : GenStatus }.
#[export] Instance Gen_eta : Eta Gen := fun x => mkGen (gRes x) (gHolders x) (gStatus x).

Section Lifetime.
Context {W : Type}.
Variable newRedis : option Z -> string -> RedisServiceConfig -> W -> result () * W.
Variable newFilter : string -> GoMap Value -> (string -> option nat) -> W
                     -> result (option (list Phase) * Exec W) * W.
Variable marshal : GoMap Value -> option string.

(** [current] is the published generation, [older] the replaced ones, newest
    first; [closed] lists what has been closed, in order. *)
Record LState := mkLState {
  mgr : Manager W; world : W; current : Gen; older : list Gen; closed : list Res }.

Definition initial (w : W) : LState := mkLState NewManager w (mkGen [] 0 GCurrent) [] [].

(** [retire] of a generation: cleans up at once when nobody holds it. *)
Definition retire (g : Gen) (cl : list Res) : Gen * list Res :=
  if (gHolders g =? 0)%nat then (g <| gStatus := GCleaned |>, cl) else (g <| gStatus := GRetired cl |>, []).

(** [Release] of a generation. *)
Definition release (g : Gen) : Gen * list Res :=
  let g := g <| gHolders := (gHolders g - 1)%nat |> in
  match gStatus g with
  | GRetired cl => if (gHolders g =? 0)%nat then (g <| gStatus := GCleaned |>, cl) else (g, [])
  | _ => (g, [])
  end.

Inductive lstep : LState -> LState -> Prop :=
| l_apply m w cur old cls cfg m' w' snap cl g' now :
    NoDup (Redis cfg).*1 -> NoDup (Chains cfg).*1 ->
    Apply newRedis newFilter marshal m w cfg = Applied m' w' snap cl ->
    retire cur (closing_res cl) = (g', now) ->
    lstep (mkLState m w cur old cls)
          (mkLState m' w' (mkGen (resources m') 0 GCurrent) (g' :: old) (cls ++ now))
| l_abort m w cur old cls cfg m' w' err cl :
    NoDup (Redis cfg).*1 -> NoDup (Chains cfg).*1 ->
    Apply newRedis newFilter marshal m w cfg = Aborted err m' w' cl ->
    lstep (mkLState m w cur old cls) (mkLState m' w' cur old (cls ++ closing_res cl))
| l_acquire m w cur old cls :
    lstep (mkLState m w cur old cls) (mkLState m w (cur <| gHolders := S (gHolders cur) |>) old cls)
| l_release_current m w cur old cls g' now :
    (0 < gHolders cur)%nat -> release cur = (g', now) ->
    lstep (mkLState m w cur old cls) (mkLState m w g' old (cls ++ now))
| l_release m w cur old1 g old2 cls g' now :
    (0 < gHolders g)%nat -> release g = (g', now) ->
    lstep (mkLState m w cur (old1 ++ g :: old2) cls) (mkLState m w cur (old1 ++ g' :: old2) (cls ++ now)).

(** ** Invariant: every resource is in one place *)

Definition pending (g : Gen) : list Res := match gStatus g with GRetired cl => cl | _ => [] end.
Definition pendings (l : list Gen) : list Res := l ≫= pending.

(** Closed, waiting to be closed, or in use by the active policy. *)
Definition everything (st : LState) : list Res := closed st ++ pendings (older st) ++ resources (mgr st).

Definition below (n : nat) (r : Res) : Prop := match r with RFilter i | RClient i => (i < n)%nat end.

Record life_inv (st : LState) : Prop := {
  li_wf : mgr_wf (mgr st);
  li_current : gStatus (current st) = GCurrent /\ gRes (current st) = resources (mgr st);
  li_older : Forall (fun g => gStatus g <> GCurrent /\ (gHolders g = 0%nat -> gStatus g = GCleaned)) (older st);
  li_once : NoDup (everything st);
  li_below : Forall (below (nextAlloc (mgr st))) (everything st)
}.
End Lifetime.
Arguments LState : clear implicits.

(** ** Lemmas *)

Lemma release_cases g g' now :
  release g = (g', now) ->
  gRes g' = gRes g /\ gHolders g' = (gHolders g - 1)%nat /\ pending g ≡ₚ now ++ pending g' /\
  (gStatus g = GCurrent -> gStatus g' = GCurrent /\ now = []) /\
  (gStatus g <> GCurrent -> gStatus g' <> GCurrent).
Proof.
  unfold release, pending. cbn. destruct g as [gr h s]. cbn.
  destruct s as [|cl|]; [|destruct (h - 1 =? 0)%nat|]; intros [= <- <-]; cbn; rewrite ?app_nil_r; done.
Qed.

Lemma retire_cases g cl g' now :
  gStatus g = GCurrent -> retire g cl = (g', now) ->
  gRes g' = gRes g /\ gHolders g' = gHolders g /\ cl = now ++ pending g' /\ gStatus g' <> GCurrent /\
  (gHolders g' = 0%nat -> gStatus g' = GCleaned).
Proof.
  unfold retire, pending. intros Hs. destruct (Nat.eqb_spec (gHolders g) 0) as [Hz|Hz];
    intros [= <- <-]; cbn; rewrite ?app_nil_r; done.
Qed.

Section LifetimeLemmas.
Context {W : Type}.
Variable newRedis : option Z -> string -> RedisServiceConfig -> W -> result () * W.
Variable newFilter : string -> GoMap Value -> (string -> option nat) -> W
                     -> result (option (list Phase) * Exec W) * W.
Variable marshal : GoMap Value -> option string.
Implicit Types (m : Manager W) (st : LState W).

Lemma resources_NoDup m : mgr_wf m -> NoDup (resources m).
Proof. intros [(_ & Hf & _) (_ & Hr & _) _ _]. by apply res_list_NoDup. Qed.

Lemma resources_below m : mgr_wf m -> Forall (below (nextAlloc m)) (resources m).
Proof.
  intros [(_ & _ & Hf) (_ & _ & Hr) _ _]. apply Forall_forall. unfold resources. intros [i|i].
  - rewrite elem_of_res_filter. intros (f & -> & (k & H)%elem_of_values)%list_elem_of_fmap. by apply Hf in H.
  - rewrite elem_of_res_client. intros (e & -> & (k & H)%elem_of_values)%list_elem_of_fmap. by apply Hr in H.
Qed.

Lemma below_mono n n' l : (n <= n')%nat -> Forall (below n) l -> Forall (below n') l.
Proof. intros Hle H. eapply Forall_impl; [exact H|]. intros [i|i]; cbn; lia. Qed.

Lemma not_below_fresh n n' (r : Res) :
  match r with RFilter i | RClient i => (n <= i < n')%nat end -> ~ below n r.
Proof. destruct r; cbn; lia. Qed.

(** Moving a cleanup from pending to closed, or back, loses nothing. *)
Lemma release_everything m w cur old1 g old2 cls g' now :
  release g = (g', now) ->
  everything (mkLState m w cur (old1 ++ g :: old2) cls) ≡ₚ
  everything (mkLState m w cur (old1 ++ g' :: old2) (cls ++ now)).
Proof.
  intros (_ & _ & Hp & _)%release_cases. unfold everything, pendings. cbn.
  rewrite !bind_app, !bind_cons, Hp. solve_Permutation.
Qed.

Lemma apply_everything m w old cls cfg m' w' snap cl :
  mgr_wf m -> NoDup (Redis cfg).*1 -> NoDup (Chains cfg).*1 ->
  Apply newRedis newFilter marshal m w cfg = Applied m' w' snap cl ->
  NoDup (cls ++ pendings old ++ resources m) -> Forall (below (nextAlloc m)) (cls ++ pendings old ++ resources m) ->
  mgr_wf m' /\ NoDup (cls ++ pendings old ++ closing_res cl ++ resources m') /\
  Forall (below (nextAlloc m')) (cls ++ pendings old ++ closing_res cl ++ resources m').
Proof.
  intros Hwf Hr Hc HA Hnd Hbe.
  pose proof (Apply_wf newRedis newFilter marshal m w cfg Hwf Hr Hc) as [Hwf' Hle].
  pose proof (Apply_accounted newRedis newFilter marshal m w cfg Hwf Hr Hc) as (n & Hacc & _).
  rewrite HA in *. cbn [manager_of apply_accounted] in *.
  destruct Hacc as (_ & _ & _ & Hcl & _ & Hiff & Hnew). split; [done|].
  rewrite app_assoc in Hnd, Hbe. rewrite app_assoc. set (rest := cls ++ pendings old) in *. clearbody rest.
  apply NoDup_app in Hnd as (Hn1 & Hdis & _). apply Forall_app in Hbe as [Hb1 Hb2]. split.
  - apply NoDup_app. split; [done|]. split.
    + intros r Hin [H%Hiff|H%Hnew]%elem_of_app.
      * destruct H as [H _]. by apply (Hdis _ Hin).
      * destruct H as [H|H%not_below_fresh]; [by apply (Hdis _ Hin)|]. rewrite Forall_forall in Hb1. auto.
    + apply NoDup_app. split; [done|]. split; [|by apply resources_NoDup]. intros r [_ H]%Hiff. done.
  - rewrite !Forall_app. split; [by eapply below_mono|]. split; [|by apply resources_below].
    eapply below_mono; [exact Hle|]. apply Forall_forall. intros r [H _]%Hiff.
    rewrite Forall_forall in Hb2. auto.
Qed.

Lemma abort_everything m w old cls cfg m' w' err cl :
  mgr_wf m -> NoDup (Redis cfg).*1 -> NoDup (Chains cfg).*1 ->
  Apply newRedis newFilter marshal m w cfg = Aborted err m' w' cl ->
  NoDup (cls ++ pendings old ++ resources m) -> Forall (below (nextAlloc m)) (cls ++ pendings old ++ resources m) ->
  mgr_wf m' /\ resources m' = resources m /\ NoDup (closing_res cl ++ cls ++ pendings old ++ resources m') /\
  Forall (below (nextAlloc m')) (closing_res cl ++ cls ++ pendings old ++ resources m').
Proof.
  intros Hwf Hr Hc HA Hnd Hbe.
  pose proof (Apply_wf newRedis newFilter marshal m w cfg Hwf Hr Hc) as [Hwf' Hle].
  pose proof (Apply_accounted newRedis newFilter marshal m w cfg Hwf Hr Hc) as (n & Hacc & _).
  rewrite HA in *. cbn [manager_of apply_accounted] in *.
  destruct Hacc as (E1 & E2 & _ & Hcl & _ & Hfresh). unfold resources. rewrite E1, E2. fold (resources m).
  split; [done|]. split; [done|]. split.
  - apply NoDup_app. split; [done|]. split; [|done]. intros r H%Hfresh%not_below_fresh Hin.
    rewrite Forall_forall in Hbe. auto.
  - rewrite Forall_app. split; [|by eapply below_mono]. apply Forall_forall. intros r H%Hfresh.
    destruct r; cbn in *; lia.
Qed.

Lemma pendings_nil (l : list Gen) :
  Forall (fun g => gStatus g <> GCurrent /\ (gHolders g = 0%nat -> gStatus g = GCleaned)) l ->
  Forall (fun g => gHolders g = 0%nat) l -> pendings l = [].
Proof.
  intros Hold Hz. unfold pendings. induction Hold as [|g l [_ Hg] _ IH]; [done|].
  apply Forall_cons in Hz as [Hz1 Hz2]. rewrite bind_cons, (IH Hz2). unfold pending. by rewrite (Hg Hz1).
Qed.

Lemma lstep_inv st st' : life_inv st -> lstep newRedis newFilter marshal st st' -> life_inv st'.
Proof.
  intros [Hwf [Hcs Hcr] Hold Hnd Hbe] Hs. unfold everything in *.
  destruct Hs as [m w cur old cls cfg m' w' snap cl g' now Hr Hc HA Hret|m w cur old cls cfg m' w' err cl Hr Hc HA
    |m w cur old cls|m w cur old cls g' now Hh Hrel|m w cur old1 g old2 cls g' now Hh Hrel];
    cbn [mgr current older closed] in *.
  - destruct (apply_everything m w old cls _ _ _ _ _ Hwf Hr Hc HA Hnd Hbe) as (Hwf' & Hnd' & Hbe').
    destruct (retire_cases _ _ _ _ Hcs Hret) as (_ & Hhold & Hcl & Hst & Hz).
    assert (cls ++ pendings old ++ closing_res cl ++ resources m' ≡ₚ
            (cls ++ now) ++ (pending g' ++ pendings old) ++ resources m') as Hperm
      by (rewrite Hcl; solve_Permutation).
    split; cbn; [done|done|by constructor| |]; unfold everything; cbn; [by rewrite <- Hperm|].
    by rewrite <- Hperm.
  - destruct (abort_everything m w old cls _ _ _ _ _ Hwf Hr Hc HA Hnd Hbe) as (Hwf' & Hres & Hnd' & Hbe').
    assert (closing_res cl ++ cls ++ pendings old ++ resources m' ≡ₚ
            (cls ++ closing_res cl) ++ pendings old ++ resources m') as Hperm by solve_Permutation.
    split; cbn; [done|by rewrite Hres|done| |]; unfold everything; cbn; by rewrite <- Hperm.
  - split; done.
  - destruct (release_cases _ _ _ Hrel) as (Hg & _ & _ & Hcur & _). destruct (Hcur Hcs) as [Hst ->].
    split; cbn; [done|by rewrite Hg|done| |]; unfold everything; cbn; by rewrite app_nil_r.
  - pose proof (release_everything m w cur old1 g old2 cls g' now Hrel) as Hperm. unfold everything in Hperm. cbn in Hperm.
    destruct (release_cases _ _ _ Hrel) as (_ & Hh' & _ & _ & Hst).
    apply Forall_app in Hold as [Ho1 [[Hs1 Hs2] Ho2]%Forall_cons].
    split; cbn; [done|done| | |]; unfold everything; cbn; [|by rewrite <- Hperm|by rewrite <- Hperm].
    apply Forall_app. split; [done|]. constructor; [|done]. split; [auto|]. intros Hz.
    unfold release in Hrel. cbn in Hrel. destruct (gStatus g) eqn:Eg; [done| |].
    + destruct (Nat.eqb_spec (gHolders g - 1) 0); injection Hrel as <- <-; cbn in *; [done|lia].
    + injection Hrel as <- <-. by cbn.
Qed.

Lemma reachable_life w st : rtc (lstep newRedis newFilter marshal) (initial w) st -> life_inv st.
Proof.
  intros H. assert (forall st0, life_inv st0 -> rtc (lstep newRedis newFilter marshal) st0 st -> life_inv st) as Hgen.
  { clear H. intros st0 Hinv H. induction H; eauto using lstep_inv. }
  eapply Hgen; [|exact H]. split; cbn; [apply NewManager_wf|done|constructor|constructor|constructor].
Qed.
End LifetimeLemmas.

(** ** Properties *)

(** C20: across any history of reloads (successful or aborted) and streams, the
    resources of the active policy are open, nothing is closed twice, what a
    reload retires stays open while a stream holds the snapshot it replaced, and
    once no stream holds an old snapshot nothing is left waiting to be closed. *)
Theorem reload_lifetimes {W : Type} newRedis newFilter marshal (w : W) (st : LState W) :
  rtc (lstep newRedis newFilter marshal) (initial w) st ->
  (forall r, r ∈ resources (mgr st) -> r ∉ closed st) /\
  NoDup (closed st) /\
  (forall g r, g ∈ older st -> r ∈ pending g -> r ∉ closed st) /\
  (Forall (fun g => gHolders g = 0%nat) (older st) -> everything st = closed st ++ resources (mgr st)).
Proof.
  intros [Hwf _ Hold Hnd _]%reachable_life. unfold everything in *.
  apply NoDup_app in Hnd as (Hc & Hdis & _). split_and!.
  - intros r Hr Hin. apply (Hdis _ Hin). apply elem_of_app. by right.
  - done.
  - intros g r Hg Hr Hin. apply (Hdis _ Hin). apply elem_of_app. left.
    apply list_elem_of_bind. by exists g.
  - intros Hz. by rewrite pendings_nil.
Qed.

(** Two configurations: one with a filter, one without. *)
Definition with_filter : Config := example_config <| Redis := [] |>.
Definition without_filter : Config := example_config <| Redis := [] |> <| Chains := [("public", [])] |>.

Definition example_reload (m : Manager ()) (cfg : Config) : Manager () :=
  manager_of (Apply exampleRedis exampleFilter exampleMarshal m () cfg).

Lemma reload_lifetimes_witness :
  exists st, rtc (lstep exampleRedis exampleFilter exampleMarshal) (initial ()) st /\
    resources (mgr st) = [RFilter 0] /\ (forall r, r ∈ resources (mgr st) -> r ∉ closed st).
Proof.
  exists (mkLState (example_reload NewManager with_filter) ()
            (mkGen (resources (example_reload NewManager with_filter)) 0 GCurrent) [mkGen [] 0 GCleaned] []).
  assert (rtc (lstep exampleRedis exampleFilter exampleMarshal) (initial ())
    (mkLState (example_reload NewManager with_filter) ()
            (mkGen (resources (example_reload NewManager with_filter)) 0 GCurrent) [mkGen [] 0 GCleaned] [])) as H.
  { eapply rtc_l; [|apply rtc_refl].
    eapply (l_apply exampleRedis exampleFilter exampleMarshal NewManager () (mkGen [] 0 GCurrent) [] []
              with_filter _ _ _ _ _ []);
      [apply NoDup_nil_2|apply NoDup_singleton|reflexivity|reflexivity]. }
  split; [exact H|]. split; [reflexivity|].
  apply (reload_lifetimes exampleRedis exampleFilter exampleMarshal () _ H).
Defined.

(** What a stream uses is only protected against the next reload. A stream
    that holds a snapshot across two reloads, the second of which drops a filter
    the first had kept, runs on with that filter closed. *)
Lemma two_reloads_close_used_filter :
  exists st g r, rtc (lstep exampleRedis exampleFilter exampleMarshal) (initial ()) st /\
    g ∈ older st /\ (0 < gHolders g)%nat /\ r ∈ gRes g /\ r ∈ closed st.
Proof.
  eexists _, (mkGen [RFilter 0] 1 (GRetired [])), (RFilter 0). split.
  { eapply rtc_l; [eapply (l_apply _ _ _ NewManager () _ _ _ with_filter);
      [apply NoDup_nil_2|apply NoDup_singleton|vm_compute; reflexivity|reflexivity]|cbn].
    eapply rtc_l; [apply l_acquire|cbn].
    eapply rtc_l; [eapply (l_apply _ _ _ _ () _ _ _ with_filter);
      [apply NoDup_nil_2|apply NoDup_singleton|vm_compute; reflexivity|reflexivity]|cbn].
    eapply rtc_l; [eapply (l_apply _ _ _ _ () _ _ _ without_filter);
      [apply NoDup_nil_2|apply NoDup_singleton|vm_compute; reflexivity|reflexivity]|apply rtc_refl]. }
  cbn. repeat split; [right; left| |left|left]. lia.
Qed.
