(* ===== verification/Limiter.v ===== *)
(** * Limiter: the per-chain concurrency limit (chainLimiter of internal/grpc/handlers.go)

    The limiter as a step relation over any number of requests, one step per
    atomic operation of [counter], [acquire] and [release]; every interleaving
    of the requests of every chain is an execution. [GrpcServer] sees the limiter
    through [inFlight]. *)

From S2P Require Import Prelude.

Local Open Scope string_scope.
Local Open Scope list_scope.

(** ** The limiter and its requests *)

(** Where a request is in [acquire] ([acq = true]) or [release]. *)
Inductive Pc : Type :=
| Loading (acq : bool)             (* counter: inFlight.Load is next *)
| Missed (acq : bool)              (* counter: inFlight.LoadOrStore is next *)
| Have (acq : bool) (p : nat)      (* c.Add(1), or c.Add(-1) in release, is next *)
| Added (p : nat) (v : Z)          (* c.Add(1) returned v *)
| Running                          (* acquire returned true, release not yet called *)
| Done (ran : bool).

Record Request := mkRequest { rchain : string; rmax : Z; rpc : Pc }.
#[export] Instance Request_eta : Eta Request := fun x => mkRequest (rchain x) (rmax x) (rpc x).

(** The sync.Map from chain names to counters, the counters by allocation, and
    the requests that have called [run] with a limit. *)
Record chainLimiter := mkLimiter {
  inFlightMap : gmap string nat; counters : list Z; requests : list Request }.

Definition emptyLimiter : chainLimiter := mkLimiter ∅ [] [].

Inductive limiter_step : chainLimiter -> chainLimiter -> Prop :=
(* s.limiter.acquire(st.name, limits.MaxConcurrency) is called *)
| ls_call m cs rs chain max :
    limiter_step (mkLimiter m cs rs) (mkLimiter m cs (rs ++ [mkRequest chain max (Loading true)]))
(* l.inFlight.Load(chain), hit and miss *)
| ls_load_hit m cs rs t r acq p :
    rs !! t = Some r -> rpc r = Loading acq -> m !! rchain r = Some p ->
    limiter_step (mkLimiter m cs rs) (mkLimiter m cs (<[t := r <| rpc := Have acq p |>]> rs))
| ls_load_miss m cs rs t r acq :
    rs !! t = Some r -> rpc r = Loading acq -> m !! rchain r = None ->
    limiter_step (mkLimiter m cs rs) (mkLimiter m cs (<[t := r <| rpc := Missed acq |>]> rs))
(* l.inFlight.LoadOrStore(chain, new(atomic.Int64)), loaded and stored *)
| ls_loaded m cs rs t r acq p :
    rs !! t = Some r -> rpc r = Missed acq -> m !! rchain r = Some p ->
    limiter_step (mkLimiter m cs rs) (mkLimiter m cs (<[t := r <| rpc := Have acq p |>]> rs))
| ls_stored m cs rs t r acq :
    rs !! t = Some r -> rpc r = Missed acq -> m !! rchain r = None ->
    limiter_step (mkLimiter m cs rs)
      (mkLimiter (<[rchain r := length cs]> m) (cs ++ [0%Z]) (<[t := r <| rpc := Have acq (length cs) |>]> rs))
(* acquire: c.Add(1) *)
| ls_add m cs rs t r p v :
    rs !! t = Some r -> rpc r = Have true p -> cs !! p = Some v ->
    limiter_step (mkLimiter m cs rs)
      (mkLimiter m (<[p := (v + 1)%Z]> cs) (<[t := r <| rpc := Added p (v + 1)%Z |>]> rs))
(* ... > int64(max): c.Add(-1), return false *)
| ls_reject m cs rs t r p v x :
    rs !! t = Some r -> rpc r = Added p v -> (rmax r < v)%Z -> cs !! p = Some x ->
    limiter_step (mkLimiter m cs rs)
      (mkLimiter m (<[p := (x - 1)%Z]> cs) (<[t := r <| rpc := Done false |>]> rs))
(* return true *)
| ls_admit m cs rs t r p v :
    rs !! t = Some r -> rpc r = Added p v -> (v <= rmax r)%Z ->
    limiter_step (mkLimiter m cs rs) (mkLimiter m cs (<[t := r <| rpc := Running |>]> rs))
(* defer s.limiter.release(st.name) *)
| ls_leave m cs rs t r :
    rs !! t = Some r -> rpc r = Running ->
    limiter_step (mkLimiter m cs rs) (mkLimiter m cs (<[t := r <| rpc := Loading false |>]> rs))
(* release: l.counter(chain).Add(-1) *)
| ls_sub m cs rs t r p x :
    rs !! t = Some r -> rpc r = Have false p -> cs !! p = Some x ->
    limiter_step (mkLimiter m cs rs)
      (mkLimiter m (<[p := (x - 1)%Z]> cs) (<[t := r <| rpc := Done true |>]> rs)).

(** The value of a chain's counter. *)
Definition cell (s : chainLimiter) (n : string) : Z :=
  match inFlightMap s !! n with Some p => default 0%Z (counters s !! p) | None => 0%Z end.

(** ** Counting requests *)

Fixpoint count (P : Request -> bool) (l : list Request) : Z :=
  match l with [] => 0%Z | r :: l => ((if P r then 1 else 0) + count P l)%Z end.

Definition of_chain (n : string) (P : Request -> bool) (r : Request) : bool := String.eqb (rchain r) n && P r.

(** Between the Add(1) and the Add(-1) that undoes it. *)
Definition counted (r : Request) : bool :=
  match rpc r with
  | Added _ _ | Running | Loading false | Missed false | Have false _ => true
  | _ => false
  end.
(** Counted, and not about to be rejected. *)
Definition admitted (r : Request) : bool :=
  match rpc r with
  | Added _ v => (v <=? rmax r)%Z
  | Running | Loading false | Missed false | Have false _ => true
  | _ => false
  end.
Definition running (r : Request) : bool := match rpc r with Running => true | _ => false end.

(** The largest limit a request of the chain was given. *)
Definition largest (n : string) (l : list Request) : Z :=
  foldr (fun r acc => if String.eqb (rchain r) n then Z.max (rmax r) acc else acc) 0%Z l.

Lemma count_app P l l' : count P (l ++ l') = (count P l + count P l')%Z.
Proof. induction l; cbn; lia. Qed.

Lemma count_insert P l t r r' :
  l !! t = Some r ->
  count P (<[t := r']> l) = (count P l - (if P r then 1 else 0) + (if P r' then 1 else 0))%Z.
Proof.
  revert t. induction l as [|a l IH]; intros [|t] H; [done|done| |].
  - injection H as ->. cbn. lia.
  - change (<[S t := r']> (a :: l)) with (a :: <[t := r']> l). cbn [count]. rewrite (IH _ H). lia.
Qed.

Lemma count_mono (P Q : Request -> bool) l : (forall r, P r = true -> Q r = true) -> (count P l <= count Q l)%Z.
Proof.
  intros H. induction l as [|r l IH]; cbn; [done|]. specialize (H r). destruct (P r), (Q r); lia || (exfalso; discriminate (H eq_refl)).
Qed.

Lemma count_nonneg P l : (0 <= count P l)%Z.
Proof. induction l; cbn; [done|]. destruct (P _); lia. Qed.

Lemma largest_cons n r l :
  largest n (r :: l) = if String.eqb (rchain r) n then Z.max (rmax r) (largest n l) else largest n l.
Proof. done. Qed.

Lemma largest_insert n l t r pc : l !! t = Some r -> largest n (<[t := r <| rpc := pc |>]> l) = largest n l.
Proof.
  revert t. induction l as [|a l IH]; intros [|t] H; [done|done| |].
  - by injection H as ->.
  - change (largest n (a :: <[t := r <| rpc := pc |>]> l) = largest n (a :: l)).
    by rewrite !largest_cons, (IH _ H).
Qed.

Lemma largest_ge n l r : r ∈ l -> rchain r = n -> (rmax r <= largest n l)%Z.
Proof.
  intros Hin Hn. induction l as [|a l IH]; [by apply elem_of_nil in Hin|]. rewrite largest_cons.
  apply elem_of_cons in Hin as [<-|Hin].
  - rewrite Hn, String.eqb_refl. lia.
  - specialize (IH Hin). case_match; lia.
Qed.

Lemma largest_le n l (M : Z) :
  (0 <= M)%Z -> (forall r, r ∈ l -> rchain r = n -> (rmax r <= M)%Z) -> (largest n l <= M)%Z.
Proof.
  intros H0 H. induction l as [|a l IH]; [done|]. rewrite largest_cons.
  assert (largest n l <= M)%Z by (apply IH; intros r Hr; apply H; by right).
  destruct (String.eqb_spec (rchain a) n) as [E|]; [|done]. specialize (H a (list_elem_of_here _ _) E). lia.
Qed.

Lemma largest_app n l r : (largest n l <= largest n (l ++ [r]))%Z.
Proof.
  induction l as [|a l IH]; cbn [app]; rewrite ?largest_cons; case_match; cbn; lia.
Qed.

(** ** The invariant *)

Definition b2z (b : bool) : Z := if b then 1%Z else 0%Z.

(** The counter a request works on is its chain's, and stays it. *)
Definition located (m : gmap string nat) (r : Request) : Prop :=
  match rpc r with
  | Have _ p | Added p _ => m !! rchain r = Some p
  | Running | Loading false | Missed false => is_Some (m !! rchain r)
  | _ => True
  end.

Record limiter_inv (s : chainLimiter) : Prop := {
  li_range : forall n p, inFlightMap s !! n = Some p -> p < length (counters s);
  li_inj : forall n n' p, inFlightMap s !! n = Some p -> inFlightMap s !! n' = Some p -> n = n';
  li_located : Forall (located (inFlightMap s)) (requests s);
  li_exact : forall n, cell s n = count (of_chain n counted) (requests s);
  li_bound : forall n, (count (of_chain n admitted) (requests s) <= largest n (requests s))%Z
}.

Lemma count_chain_insert n P l t r pc :
  l !! t = Some r ->
  count (of_chain n P) (<[t := r <| rpc := pc |>]> l) =
  (count (of_chain n P) l + (if String.eqb (rchain r) n then b2z (P (r <| rpc := pc |>)) - b2z (P r) else 0))%Z.
Proof.
  intros H. rewrite (count_insert _ _ _ _ _ H). unfold of_chain, b2z. cbn [rchain set_field].
  destruct (String.eqb (rchain r) n); cbn [andb]; repeat case_match; lia.
Qed.

(** A step that neither counts nor admits a request. *)
Lemma inv_move m cs rs t r pc :
  limiter_inv (mkLimiter m cs rs) -> rs !! t = Some r -> counted (r <| rpc := pc |>) = counted r ->
  admitted (r <| rpc := pc |>) = admitted r -> located m (r <| rpc := pc |>) ->
  limiter_inv (mkLimiter m cs (<[t := r <| rpc := pc |>]> rs)).
Proof.
  intros [H1 H2 H3 H4 H5] Ht Hc Ha Hl. split; [exact H1|exact H2| | |].
  - by apply Forall_insert.
  - intros n. cbn [requests]. rewrite (count_chain_insert _ _ _ _ _ _ Ht), Hc, Z.sub_diag.
    destruct (String.eqb (rchain r) n); rewrite Z.add_0_r; exact (H4 n).
  - intros n. cbn [requests]. rewrite (count_chain_insert _ _ _ _ _ _ Ht), Ha, Z.sub_diag, largest_insert by done.
    specialize (H5 n). cbn [requests] in H5. case_match; lia.
Qed.

Lemma cell_insert m cs rs rs' n0 p v d n :
  (forall n n' p, m !! n = Some p -> m !! n' = Some p -> n = n') ->
  m !! n0 = Some p -> cs !! p = Some v ->
  cell (mkLimiter m (<[p := (v + d)%Z]> cs) rs') n =
  (cell (mkLimiter m cs rs) n + (if String.eqb n0 n then d else 0))%Z.
Proof.
  intros Hinj Hp Hv. unfold cell. cbn [inFlightMap counters].
  assert (p < length cs) as Hlt by (by eapply lookup_lt_Some).
  destruct (String.eqb_spec n0 n) as [<-|Hn].
  - rewrite Hp, list_lookup_insert_eq, Hv by done. done.
  - destruct (m !! n) as [q|] eqn:Hq; [|lia]. rewrite list_lookup_insert_ne; [lia|].
    intros ->. by eapply Hn, Hinj.
Qed.

(** A step that adds [d] to the counter of the request's chain. *)
Lemma inv_count m cs rs t r pc p v d :
  limiter_inv (mkLimiter m cs rs) -> rs !! t = Some r -> m !! rchain r = Some p -> cs !! p = Some v ->
  (b2z (counted (r <| rpc := pc |>)) - b2z (counted r) = d)%Z -> located m (r <| rpc := pc |>) ->
  (forall n, n = rchain r -> (count (of_chain n admitted) rs + b2z (admitted (r <| rpc := pc |>)) - b2z (admitted r)
                              <= largest n rs)%Z) ->
  limiter_inv (mkLimiter m (<[p := (v + d)%Z]> cs) (<[t := r <| rpc := pc |>]> rs)).
Proof.
  intros [H1 H2 H3 H4 H5] Ht Hp Hv Hd Hl Hb. split; [| exact H2 | | |].
  - cbn. intros n q Hq. rewrite length_insert. by apply (H1 n).
  - by apply Forall_insert.
  - intros n. rewrite (cell_insert m cs rs _ (rchain r)) by done. rewrite (H4 n). cbn [requests].
    rewrite (count_chain_insert _ _ _ _ _ _ Ht). case_match; lia.
  - intros n. cbn [requests]. rewrite (count_chain_insert _ _ _ _ _ _ Ht), largest_insert by done.
    specialize (H5 n). cbn [requests] in H5. destruct (String.eqb_spec (rchain r) n) as [E|]; [|lia].
    specialize (Hb n (eq_sym E)). lia.
Qed.

Lemma located_insert m (rs : list Request) (n : string) (p : nat) :
  m !! n = None -> Forall (located m) rs -> Forall (located (<[n := p]> m)) rs.
Proof.
  intros Hn Hall. eapply Forall_impl; [exact Hall|]. intros r. unfold located.
  assert (forall q, m !! rchain r = Some q -> <[n := p]> m !! rchain r = Some q) as Hk.
  { intros q Hq. rewrite lookup_insert_ne; [done|]. intros ->. congruence. }
  assert (is_Some (m !! rchain r) -> is_Some (<[n := p]> m !! rchain r)) by (intros [q Hq]; eauto).
  repeat case_match; auto.
Qed.

(** LoadOrStore storing a fresh zero counter. *)
Lemma inv_store m cs rs n :
  limiter_inv (mkLimiter m cs rs) -> m !! n = None ->
  limiter_inv (mkLimiter (<[n := length cs]> m) (cs ++ [0%Z]) rs).
Proof.
  intros [H1 H2 H3 H4 H5] Hn. cbn in *. split; cbn [inFlightMap counters requests]; [| | | |done].
  - intros k p Hk. rewrite length_app. cbn. destruct (decide (k = n)) as [->|Hkn].
    + rewrite lookup_insert_eq in Hk. injection Hk as <-. lia.
    + rewrite lookup_insert_ne in Hk by done. apply H1 in Hk. lia.
  - intros k k' p Hk Hk'. destruct (decide (k = n)) as [->|Hkn], (decide (k' = n)) as [->|Hkn']; [done| | |].
    + rewrite lookup_insert_eq in Hk. rewrite lookup_insert_ne in Hk' by done. apply H1 in Hk'. simplify_eq. lia.
    + rewrite lookup_insert_eq in Hk'. rewrite lookup_insert_ne in Hk by done. apply H1 in Hk. simplify_eq. lia.
    + rewrite lookup_insert_ne in Hk, Hk' by done. by eapply H2.
  - by apply located_insert.
  - intros k. rewrite <- (H4 k). unfold cell. cbn. destruct (decide (k = n)) as [->|Hkn].
    + by rewrite lookup_insert_eq, Hn, lookup_app_r, Nat.sub_diag by lia.
    + rewrite lookup_insert_ne by done. destruct (m !! k) as [p|] eqn:Hk; [|done].
      by rewrite lookup_app_l by (by eapply H1).
Qed.

Lemma inv_call m cs rs chain max :
  limiter_inv (mkLimiter m cs rs) -> limiter_inv (mkLimiter m cs (rs ++ [mkRequest chain max (Loading true)])).
Proof.
  intros [H1 H2 H3 H4 H5]. split; [done|done| | |]; cbn [inFlightMap counters requests] in *.
  - apply Forall_app_2; [done|]. by repeat constructor.
  - intros n. rewrite count_app. unfold cell in *. cbn in *. rewrite H4. unfold of_chain. cbn.
    rewrite andb_false_r. lia.
  - intros n. rewrite count_app. specialize (H5 n). pose proof (largest_app n rs (mkRequest chain max (Loading true))).
    cbn. unfold of_chain at 2. cbn. rewrite andb_false_r. lia.
Qed.

Lemma limiter_step_inv s s' : limiter_step s s' -> limiter_inv s -> limiter_inv s'.
Proof.
  intros Hs Hi. pose proof Hi as [_ _ Hloc Hex Hbd]. destruct Hs as
    [ m cs rs chain max | m cs rs t r acq p Ht Hpc Hm | m cs rs t r acq Ht Hpc Hm | m cs rs t r acq p Ht Hpc Hm
    | m cs rs t r acq Ht Hpc Hm | m cs rs t r p v Ht Hpc Hv | m cs rs t r p v x Ht Hpc Hlt Hx
    | m cs rs t r p v Ht Hpc Hle | m cs rs t r Ht Hpc | m cs rs t r p x Ht Hpc Hx ];
    [by apply inv_call|..]; pose proof (Forall_lookup_1 _ _ _ _ Hloc Ht) as Hr;
    cbn [inFlightMap counters requests] in *; unfold located in Hr; rewrite Hpc in Hr.
  - apply inv_move; [done..| | |]; unfold counted, admitted, located; cbn; rewrite ?Hpc; by destruct acq.
  - apply inv_move; [done..| | |]; unfold counted, admitted, located; cbn; rewrite ?Hpc; by destruct acq.
  - apply inv_move; [done..| | |]; unfold counted, admitted, located; cbn; rewrite ?Hpc; by destruct acq.
  - destruct acq; [|by destruct Hr; congruence].
    apply inv_move; [by apply inv_store|done|..]; unfold counted, admitted, located; cbn; rewrite ?Hpc; try done.
    by rewrite lookup_insert_eq.
  - apply (inv_count m cs rs t r _ p v 1); try done; [unfold counted; cbn; by rewrite Hpc|].
    intros n ->. specialize (Hex (rchain r)). unfold cell in Hex. cbn in Hex. rewrite Hr, Hv in Hex. cbn in Hex.
    pose proof (count_mono (of_chain (rchain r) admitted) (of_chain (rchain r) counted) rs) as Hmono.
    specialize (Hbd (rchain r)). unfold admitted at 2 3. cbn. rewrite Hpc. cbn [b2z].
    assert (rmax r <= largest (rchain r) rs)%Z by (apply largest_ge; [by eapply list_elem_of_lookup_2|done]).
    assert (count (of_chain (rchain r) admitted) rs <= v)%Z.
    { rewrite Hex. apply Hmono. intros r0. unfold of_chain. destruct (String.eqb _ _); [|done].
      unfold admitted, counted. cbn. by repeat case_match. }
    destruct (v + 1 <=? rmax r)%Z eqn:E; cbn [b2z]; [apply Z.leb_le in E|]; lia.
  - replace (x - 1)%Z with (x + (-1))%Z by lia.
    apply (inv_count m cs rs t r _ p x (-1)); try done; [unfold counted; cbn; by rewrite Hpc|].
    intros n ->. specialize (Hbd (rchain r)). unfold admitted at 2 3. cbn. rewrite Hpc.
    destruct (v <=? rmax r)%Z; cbn [b2z]; lia.
  - apply inv_move; [done..| | |]; unfold counted, admitted, located; cbn; rewrite ?Hpc; [done| |by eexists].
    symmetry. by apply Z.leb_le.
  - apply inv_move; [done..| | |]; unfold counted, admitted, located; cbn; by rewrite ?Hpc.
  - replace (x - 1)%Z with (x + (-1))%Z by lia.
    apply (inv_count m cs rs t r _ p x (-1)); try done; [unfold counted; cbn; by rewrite Hpc|].
    intros n ->. specialize (Hbd (rchain r)). unfold admitted at 2 3. cbn. rewrite Hpc. cbn [b2z]. lia.
Qed.

Lemma limiter_reachable_inv s : rtc limiter_step emptyLimiter s -> limiter_inv s.
Proof.
  intros H. assert (limiter_inv emptyLimiter) as H0.
  { split; cbn; try done. }
  revert H0. induction H; eauto using limiter_step_inv.
Qed.

(** ** Properties *)

(** C22: in every interleaving of acquire and release over any number of requests
    and chains, at most [M] requests run a chain's filters at a time when every
    request of the chain was given a limit of at most [M]; and the chain's
    counter is exactly the number of requests that have added to it and not yet
    undone it, so it is zero whenever none is in flight. *)
Theorem limiter_bounds (s : chainLimiter) (n : string) (M : Z) :
  rtc limiter_step emptyLimiter s -> (0 <= M)%Z ->
  (forall r, r ∈ requests s -> rchain r = n -> (rmax r <= M)%Z) ->
  (count (of_chain n running) (requests s) <= M)%Z /\ cell s n = count (of_chain n counted) (requests s).
Proof.
  intros Hs H0 HM. apply limiter_reachable_inv in Hs as [_ _ _ Hex Hbd]. split; [|apply Hex].
  specialize (Hbd n). pose proof (largest_le n (requests s) M H0 HM).
  assert (count (of_chain n running) (requests s) <= count (of_chain n admitted) (requests s))%Z; [|lia].
  apply count_mono. intros r. unfold of_chain. destruct (String.eqb _ _); [|done].
  unfold running, admitted. cbn. by case_match.
Qed.

Lemma limiter_bounds_witness :
  let s := mkLimiter {["public" := 0%nat]} [2%Z]
             [mkRequest "public" 1 Running; mkRequest "public" 1 (Added 0 2)] in
  (count (of_chain "public" running) (requests s) <= 1)%Z /\ cell s "public" = count (of_chain "public" counted) (requests s).
Proof.
  intros s. apply limiter_bounds; [|done|].
  - eapply rtc_l; [eapply (ls_call _ _ _ "public" 1)|].
    eapply rtc_l; [eapply (ls_load_miss _ _ _ 0 _ true); reflexivity|].
    eapply rtc_l; [eapply (ls_stored _ _ _ 0 _ true); reflexivity|].
    eapply rtc_l; [eapply (ls_add _ _ _ 0 _ 0 0); reflexivity|].
    eapply rtc_l; [eapply (ls_call _ _ _ "public" 1)|].
    eapply rtc_l; [eapply (ls_load_hit _ _ _ 1 _ true 0); reflexivity|].
    eapply rtc_l; [eapply (ls_add _ _ _ 1 _ 0 1); reflexivity|].
    eapply rtc_l; [eapply (ls_admit _ _ _ 0 _ 0 1); [reflexivity|reflexivity|done]|].
    apply rtc_refl.
  - intros r Hr _. cbn in Hr. set_unfold in Hr. destruct Hr as [->|[->|[]]]; done.
Defined.
