(* ===== verification/GrpcServer.v ===== *)
(** * GrpcServer: the ext_proc stream (internal/grpc/server.go, handlers.go,
    mutators.go, and the counters of internal/metrics)

    One stream is a sequence of messages from Envoy; each handler updates the
    stream's state and produces one response. The world of the filters provides
    the clock and the number of other requests inside a chain; gRPC itself is the
    list of received messages and whether each answer could be sent. *)

From S2P Require Import Prelude GoStrings GoTime Netip Identity ClientIP Selector Context Executor.
From S2P Require Import Config RouterMatch Registry Policy.

Local Open Scope string_scope.
Local Open Scope list_scope.

(** ** Messages and responses *)

Record HeaderValue := mkHeaderValue { hvKey : string; hvValue : string; hvRawValue : string }.

Inductive Message : Type :=
| MRequestHeaders (attrs : Attributes) (headers : list HeaderValue) (endOfStream : bool)
| MRequestBody (body : string)
| MRequestTrailers (trailers : list HeaderValue)
| MResponseHeaders (headers : list HeaderValue)
| MResponseBody (body : string)
| MResponseTrailers (trailers : list HeaderValue).

Record HeaderMutation := mkHeaderMutation {
  SetHeaders : list HeaderValueOption; RemoveHeaders : list string }.

Inductive BodyMutation : Type := ClearBody | SetBody (body : string).

Inductive BodyMode : Type := NONE | BUFFERED.
Inductive TrailerMode : Type := SEND | SKIP.

(** Request and response headers are always sent (SEND). *)
Record ProcessingMode := mkProcessingMode {
  RequestBodyMode : BodyMode; ResponseBodyMode : BodyMode;
  RequestTrailerMode : TrailerMode; ResponseTrailerMode : TrailerMode }.

Inductive Response : Type :=
| RespRequestHeaders (mut : option HeaderMutation) (mode : option ProcessingMode)
| RespRequestBody (mut : option HeaderMutation) (body : option BodyMutation)
| RespRequestTrailers (mut : option HeaderMutation)
| RespResponseHeaders (mut : option HeaderMutation) (mode : option ProcessingMode)
| RespResponseBody (body : option BodyMutation)
| RespResponseTrailers (mut : option HeaderMutation)
| RespImmediate (status : Z) (headers : option HeaderMutation) (body : string).

Definition is_immediate (r : Response) : bool :=
  match r with RespImmediate _ _ _ => true | _ => false end.

(** Counter increments, with the label values metrics.go records. *)
Inductive Metric : Type :=
| MetRequest (route chain outcome : string)
| MetDeny (chain filter : string) (status : Z)
| MetAudit (chain filter : string) (status : Z)
| MetRejection (chain reason : string)
| MetUnknownSource.

Definition labelOr (v fallback : string) : string := if String.eqb v "" then fallback else v.
Definition MetricsRequest (route chain outcome : string) : Metric :=
  MetRequest (labelOr route "default") (labelOr chain "none") outcome.
Definition MetricsDeny (chain filter : string) (status : Z) : Metric :=
  MetDeny (labelOr chain "none") filter status.
Definition MetricsAudit (chain filter : string) (status : Z) : Metric :=
  MetAudit (labelOr chain "none") filter status.

(** ** Mutations (mutators.go) *)

Definition buildHeaderMutation (c : RequestContext) (headers : list Header) (removes : list string)
  : option HeaderMutation * RequestContext :=
  match headers, removes with
  | [], [] => (None, c)
  | _, _ =>
      let setHeaders := (fun h => mkHeaderValueOption (hKey h) (hValue h)) <$> headers in
      (Some (mkHeaderMutation setHeaders removes), c <| SetHeaderOptions := setHeaders |>)
  end.

Definition buildBodyMutation (body : string) (modified : bool) : option BodyMutation :=
  if negb modified then None
  else if (String.length body =? 0)%nat then Some ClearBody
  else Some (SetBody body).

Definition buildModeOverride (c : RequestContext) : option ProcessingMode :=
  if negb (RequestBodyRequired c) && negb (ResponseBodyRequired c)
     && negb (RequestTrailersRequired c) && negb (ResponseTrailersRequired c) then None
  else Some (mkProcessingMode
    (if RequestBodyRequired c then BUFFERED else NONE)
    (if ResponseBodyRequired c then BUFFERED else NONE)
    (if RequestTrailersRequired c then SEND else SKIP)
    (if ResponseTrailersRequired c then SEND else SKIP)).

(** ** Headers and attributes *)

Definition copy_header (dst : gmap string string) (h : HeaderValue) : gmap string string :=
  let key := ToLower (hvKey h) in
  let val := if (0 <? String.length (hvRawValue h))%nat then hvRawValue h else hvValue h in
  let val := match dst !! key with
             | Some prev =>
                 if String.eqb prev "" then val
                 else (prev +++ (if String.eqb key "cookie" then "; " else ", ") +++ val)%go
             | None => val
             end in
  <[key := val]> dst.

Definition copyHeaders (dst : gmap string string) (headers : list HeaderValue) : gmap string string :=
  fold_left copy_header headers dst.

Definition destinationAddressAttribute : string := "destination.address".

Fixpoint stringAttribute (attrs : Attributes) (key : string) : string :=
  match attrs with
  | [] => ""
  | (_, None) :: rest => stringAttribute rest key
  | (_, Some fields) :: rest =>
      match fields !! key with
      | Some v => if String.eqb (GetStringValue v) "" then stringAttribute rest key else GetStringValue v
      | None => stringAttribute rest key
      end
  end.

(** [md] is the incoming metadata value of x-hypergate-traffic, if any. *)
Definition trafficFromContext (md : list string) : Traffic :=
  match md with
  | v :: _ => match ParseTraffic v with Ok t => t | Err _ => TrafficAny end
  | [] => TrafficAny
  end.

(** ** The filters' world *)

(** What the server observes of the outside: the clock, when the client
    cancelled the stream, and how many other requests run a chain's filters. *)
Class World (W : Type) := {
  clock : W -> Z;
  canceledAt : W -> option Z;
  inFlight : W -> string -> Z
}.

Inductive CtxErr : Type := Canceled | DeadlineExceeded.

(** [ctx.Err()]: the first of cancellation and deadline that has happened. *)
Definition ctx_Err {W : Type} `{World W} (w : W) (ctx : GoContext) : option CtxErr :=
  let cancelled := match canceledAt w with Some t => if (t <=? clock w)%Z then Some t else None | None => None end in
  let expired := match deadline ctx with Some t => if (t <=? clock w)%Z then Some t else None | None => None end in
  match cancelled, expired with
  | Some tc, Some td => if (td <=? tc)%Z then Some DeadlineExceeded else Some Canceled
  | Some _, None => Some Canceled
  | None, Some _ => Some DeadlineExceeded
  | None, None => None
  end.

(** [context.WithTimeout]: the earlier of the two deadlines. *)
Definition WithTimeout {W : Type} `{World W} (w : W) (parent : option GoContext) (timeout : Z) : GoContext :=
  let d := (clock w + timeout)%Z in
  mkGoContext (Some match parent with
                    | Some p => match deadline p with Some d' => Z.min d d' | None => d end
                    | None => d
                    end).

(** ** The stream *)

Section Server.
Context {W : Type} `{!World W}.

Record streamState := mkStreamState {
  snap : Snapshot W; resolved : bool; chain : Chain W; sname : string }.
#[export] Instance streamState_eta : Eta streamState := fun x =>
  mkStreamState (snap x) (resolved x) (chain x) (sname x).

(** Everything a handler reads and writes. *)
Record HState := mkHState {
  st : streamState; ctx : RequestContext; world : W; metrics : list Metric }.
#[export] Instance HState_eta : Eta HState := fun x => mkHState (st x) (ctx x) (world x) (metrics x).

Definition record (m : Metric) (h : HState) : HState := h <| metrics := metrics h ++ [m] |>.
Definition block503 (h : HState) : HState := h <| ctx := Block (ctx h) 503 "Service Unavailable" |>.

(** The identity map, [None] when identity is disabled. *)
Variable identity : option Index.

Definition resolveIdentity (c : RequestContext) : RequestContext :=
  let inferred := bool_decide (CTraffic c = TrafficAny) in
  let c := if inferred then c <| CTraffic := TrafficNorthSouth |> else c in
  match identity with
  | None => c
  | Some _ =>
      let c := c <| SourceWorkload := Lookup identity (ClientAddr c) |> in
      let c := if inferred && IsPod (SourceWorkload c) then c <| CTraffic := TrafficEastWest |> else c in
      let services :=
        match ServiceByClusterIP identity (DestinationAddr c) with
        | Some svc => [Key svc]
        | None =>
            let w := Lookup identity (DestinationAddr c) in
            if IsPod w then match w with Some w => Services w | None => [] end
            else match ServiceFromHost identity (Host c) with
                 | Some svc => [Key svc]
                 | None => []
                 end
        end in
      c <| DestinationServices := services |>
  end.

(** East-west callers must be known, unless the router says otherwise. *)
Definition unknown_caller (cfg : Config) (c : RequestContext) : bool :=
  match identity with Some _ => true | None => false end
  && bool_decide (CTraffic c = TrafficEastWest) && is_none (SourceWorkload c)
  && negb (String.eqb (UnknownSource (Router cfg)) UnknownSourceDefault).

Definition resolve (h : HState) : HState :=
  if resolved (st h) then h
  else
    let h := h <| st := (st h) <| resolved := true |> |> in
    match snapConfig (snap (st h)) with
    | None => block503 h
    | Some cfg =>
        let h := h <| ctx := resolveIdentity (ctx h) |> in
        if unknown_caller cfg (ctx h) then block503 (record MetUnknownSource h)
        else
          let '(name, c) := RouteWith (Router cfg) (ctx h) in
          let h := h <| ctx := c |> <| st := (st h) <| sname := name |> |> in
          if String.eqb name "" then h
          else match map_get (snapChains (snap (st h))) name with
               | None => block503 h
               | Some ch => h <| st := (st h) <| chain := ch |> |>
               end
    end.

(** The chain's limits; a chain without settings has none. *)
Definition limits_of (s : streamState) : ChainSettings :=
  match snapConfig (snap s) with
  | Some cfg => default zeroChainSettings (map_get (Settings cfg) (sname s))
  | None => zeroChainSettings
  end.

(** [chainLimiter.acquire] as this request sees it. *)
Definition limiter_acquire (w : W) (name : string) (max : Z) : bool := (inFlight w name + 1 <=? max)%Z.

(** The body of [run] once the concurrency slot is held (or none is needed). *)
Definition run_filters (limits : ChainSettings) (h : HState) (phase : Phase) : HState :=
  if (0 <? TimeoutDuration limits)%Z then
    let parent := Ctx (ctx h) in
    let tctx := WithTimeout (world h) parent (TimeoutDuration limits) in
    let '(err, c, w) := Execute ((ctx h) <| Ctx := Some tctx |>) (world h) (chain (st h)) phase in
    let c := c <| Ctx := parent |> in
    let h := h <| ctx := c |> <| world := w |> in
    match err with
    | Some _ =>
        match ctx_Err w tctx with
        | Some DeadlineExceeded =>
            let h := record (MetRejection (sname (st h)) "timeout") h in
            if String.eqb (OnTimeout limits) LimitActionAllow then
              h <| ctx := (ctx h) <| Blocked := false |> <| FilterFailed := false |>
                                  <| ResponseStatus := 0%Z |> <| ResponseBody := "" |> |>
            else block503 (h <| ctx := (ctx h) <| FilterFailed := false |> |>)
        | _ => h
        end
    | None => h
    end
  else
    let '(_, c, w) := Execute (ctx h) (world h) (chain (st h)) phase in
    h <| ctx := c |> <| world := w |>.

Definition run (h : HState) (phase : Phase) : HState :=
  if Blocked (ctx h) || negb (nonempty (chain (st h))) then h
  else
    let limits := limits_of (st h) in
    if (0 <? MaxConcurrency limits)%Z
       && negb (limiter_acquire (world h) (sname (st h)) (MaxConcurrency limits)) then
      let h := record (MetRejection (sname (st h)) "overload") h in
      if String.eqb (OnOverload limits) LimitActionAllow then h
      else block503 (h <| ctx := SetHeaderDownstream (ctx h) "retry-after" "1" |>)
    else run_filters limits h phase.

Definition immediateResponse (h : HState) : Response * HState :=
  let c := ctx h in
  let status := if (ResponseStatus c =? 0)%Z then 403%Z else ResponseStatus c in
  let '(mut, c') := buildHeaderMutation c (ResponseHeadersToAdd c) [] in
  (RespImmediate status mut (ResponseBody c), h <| ctx := c' |>).

(** Sends [ok] built from the context, unless the request is blocked. *)
Definition answer (h : HState) (ok : RequestContext -> Response * RequestContext) : Response * HState :=
  if Blocked (ctx h) then immediateResponse h
  else let '(r, c) := ok (ctx h) in (r, h <| ctx := c |>).

(** The request attributes [handleRequestHeaders] derives from the message. *)
Definition read_request (hops : Z) (c : RequestContext) (attrs : Attributes) (headers : list HeaderValue)
  (eos : bool) : RequestContext :=
  let c := c <| Headers := copyHeaders (Headers c) headers |> in
  let c := c <| Path := default "" (Headers c !! ":path") |> <| Method := default "" (Headers c !! ":method") |>
             <| RequestEndOfStream := eos |> in
  let c := c <| ClientIP := Resolve (default "" (Headers c !! "x-forwarded-for")) (PeerFromAttributes attrs) hops |> in
  let c := c <| ClientAddr := ParseAddr (ClientIP c) |>
             <| DestinationAddress := stringAttribute attrs destinationAddressAttribute |> in
  let c := c <| DestinationAddr := ParseAddr (DestinationAddress c) |> in
  let authority := default "" (Headers c !! ":authority") in
  let authority := if String.eqb authority "" then default "" (Headers c !! "host") else authority in
  c <| Host := NormalizeHost authority |>.

Definition handleRequestHeaders (h : HState) (attrs : Attributes) (headers : list HeaderValue) (eos : bool)
  : Response * HState :=
  let hops := match snapConfig (snap (st h)) with Some cfg => TrustedProxyHops (Server cfg) | None => 0%Z end in
  let h := h <| ctx := read_request hops (ctx h) attrs headers eos |> in
  let h := run (resolve h) PhaseRequestHeaders in
  answer h (fun c =>
    let '(mut, c) := buildHeaderMutation c (HeadersToAdd c) (HeadersToRemove c) in
    (RespRequestHeaders mut (buildModeOverride c), c)).

Definition handleRequestBody (h : HState) (body : string) : Response * HState :=
  let h := h <| ctx := (ctx h) <| RequestBodySeen := true |> <| RequestBody := body |> |> in
  let h := run (resolve h) PhaseRequestBody in
  answer h (fun c =>
    let '(mut, c) := buildHeaderMutation c (HeadersToAdd c) (HeadersToRemove c) in
    (RespRequestBody mut (buildBodyMutation (RequestBody c) (RequestBodyModified c)), c)).

Definition handleRequestTrailers (h : HState) (trailers : list HeaderValue) : Response * HState :=
  let h := h <| ctx := (ctx h) <| Headers := copyHeaders (Headers (ctx h)) trailers |> |> in
  let h := run (resolve h) PhaseRequestTrailers in
  answer h (fun c =>
    let '(mut, c) := buildHeaderMutation c (RequestTrailersToAdd c) (RequestTrailersToRemove c) in
    (RespRequestTrailers mut, c)).

(** A filter asked for the request body and Envoy forwarded the request without it. *)
Definition body_never_sent (c : RequestContext) : bool :=
  negb (Blocked c) && RequestBodyRequired c && negb (RequestBodySeen c) && negb (RequestEndOfStream c).

Definition handleResponseHeaders (h : HState) (headers : list HeaderValue) : Response * HState :=
  let h := h <| ctx := (ctx h) <| ResponseHeaders := copyHeaders (ResponseHeaders (ctx h)) headers |> |> in
  let h := resolve h in
  let h := if body_never_sent (ctx h) then h <| ctx := Block (ctx h) 500 "Internal Server Error" |> else h in
  let h := run h PhaseResponseHeaders in
  answer h (fun c =>
    let '(mut, c) := buildHeaderMutation c (ResponseHeadersToAdd c) (ResponseHeadersToRemove c) in
    (RespResponseHeaders mut (buildModeOverride c), c)).

Definition handleResponseBody (h : HState) (body : string) : Response * HState :=
  let h := h <| ctx := (ctx h) <| ResponseBodyBytes := body |> |> in
  let h := run (resolve h) PhaseResponseBody in
  answer h (fun c => (RespResponseBody (buildBodyMutation (ResponseBodyBytes c) (ResponseBodyModified c)), c)).

(** The response headers are already sent, so a block cannot replace the response. *)
Definition handleResponseTrailers (h : HState) (trailers : list HeaderValue) : Response * HState :=
  let h := h <| ctx := (ctx h) <| ResponseHeaders := copyHeaders (ResponseHeaders (ctx h)) trailers |> |> in
  let h := run (resolve h) PhaseResponseTrailers in
  let '(mut, c) := buildHeaderMutation (ctx h) (ResponseTrailersToAdd (ctx h)) (ResponseTrailersToRemove (ctx h)) in
  (RespResponseTrailers mut, h <| ctx := c |>).

Definition handle (h : HState) (m : Message) : Response * HState :=
  match m with
  | MRequestHeaders attrs headers eos => handleRequestHeaders h attrs headers eos
  | MRequestBody body => handleRequestBody h body
  | MRequestTrailers trailers => handleRequestTrailers h trailers
  | MResponseHeaders headers => handleResponseHeaders h headers
  | MResponseBody body => handleResponseBody h body
  | MResponseTrailers trailers => handleResponseTrailers h trailers
  end.

(** What [stream.Recv] returns; for a message, whether the answer can be sent. *)
Inductive Received : Type :=
| RecvMsg (m : Message) (sendOk : bool)
| RecvUnsupported
| RecvEOF
| RecvErr (cancelled : bool).

(** How the stream ended: a nil error or a gRPC status. *)
Inductive Ended : Type := EndOk | EndErr.

Definition ctx_cancelled (w : W) : bool :=
  match canceledAt w with Some t => (t <=? clock w)%Z | None => false end.

Fixpoint process_loop (h : HState) (rs : list Received) : Ended * list Response * HState :=
  match rs with
  | [] | RecvEOF :: _ => (EndOk, [], h)
  | RecvErr cancelled :: _ => (if ctx_cancelled (world h) || cancelled then EndOk else EndErr, [], h)
  | RecvUnsupported :: _ => (if ctx_cancelled (world h) then EndOk else EndErr, [], h)
  | RecvMsg m sendOk :: rs' =>
      let '(r, h) := handle h m in
      if negb sendOk then (if ctx_cancelled (world h) then EndOk else EndErr, [], h)
      else let '(e, out, h) := process_loop h rs' in (e, r :: out, h)
  end.

Definition outcome_of (c : RequestContext) (status : Z) : string :=
  if FilterFailed c then "error"
  else if Answered c || (status <? 400)%Z then "answered"
  else "denied".

Definition recordOutcome (h : HState) : list Metric :=
  if negb (resolved (st h)) then []
  else
    let c := ctx h in
    let s := st h in
    let audits := (fun hit => MetricsAudit (sname s) (FilterName (snap s) (sname s) (Index_ hit)) (Status hit))
                    <$> AuditHits c in
    if Blocked c then
      let status := if (ResponseStatus c =? 0)%Z then 403%Z else ResponseStatus c in
      let outcome := outcome_of c status in
      let deny := if String.eqb outcome "answered" then []
                  else [MetricsDeny (sname s) (FilterName (snap s) (sname s) (BlockedBy c)) status] in
      audits ++ deny ++ [MetricsRequest (MatchedRoute c) (sname s) outcome]
    else audits ++ [MetricsRequest (MatchedRoute c) (sname s) "allowed"].

(** A stream: a pooled context, the snapshot current when it opened, the
    messages, and the metrics recorded at its end. *)
Definition Process (sn : Snapshot W) (pooled : RequestContext) (gctx : GoContext) (md : list string)
  (w : W) (rs : list Received) : Ended * list Response * list Metric :=
  let c := pooled <| Ctx := Some gctx |> <| CTraffic := trafficFromContext md |> in
  let '(e, out, h) := process_loop (mkHState (mkStreamState sn false [] "") c w []) rs in
  (e, out, metrics h ++ recordOutcome h).

End Server.

(** ** Lemmas *)

Section ServerLemmas.
Context {W : Type} `{!World W}.
Variable identity : option Index.
Implicit Types (h : HState (W := W)) (c : RequestContext).

Lemma resolve_resolved h : resolved (st (resolve identity h)) = true.
Proof.
  unfold resolve. destruct (resolved (st h)) eqn:E; [done|].
  destruct (snapConfig _) as [cfg|]; [|done]. case_match; [done|].
  destruct (RouteWith _ _) as [name c]. repeat case_match; done.
Qed.

Lemma resolve_again h : resolved (st h) = true -> resolve identity h = h.
Proof. intros H. unfold resolve. by rewrite H. Qed.

Lemma resolve_keeps h :
  world (resolve identity h) = world h /\ snap (st (resolve identity h)) = snap (st h).
Proof.
  unfold resolve. destruct (resolved (st h)); [done|].
  destruct (snapConfig _) as [cfg|]; [|done]. case_match; [done|].
  destruct (RouteWith _ _) as [name c]. repeat case_match; done.
Qed.

Lemma run_blocked h phase : Blocked (ctx h) = true -> run h phase = h.
Proof. intros H. unfold run. by rewrite H. Qed.

Lemma run_st h phase : st (run h phase) = st h.
Proof.
  unfold run, run_filters. repeat case_match; try done.
Qed.

Lemma buildHeaderMutation_ctx c hs rs :
  exists o, (buildHeaderMutation c hs rs).2 = c <| SetHeaderOptions := o |>.
Proof.
  unfold buildHeaderMutation. destruct hs, rs; cbn; eauto. exists (SetHeaderOptions c). by destruct c.
Qed.

(** The mutation that carries exactly these additions and removals. *)
Definition asked (adds : list Header) (removes : list string) : option HeaderMutation :=
  if nonempty adds || nonempty removes
  then Some (mkHeaderMutation ((fun x => mkHeaderValueOption (hKey x) (hValue x)) <$> adds) removes) else None.

Lemma buildHeaderMutation_asked c adds removes : (buildHeaderMutation c adds removes).1 = asked adds removes.
Proof. by destruct adds, removes. Qed.

(** The status and body of an immediate response, and the changes of the response trailers
    that the filters have asked for. *)
Definition verdict (c : RequestContext) : Z * string * option HeaderMutation :=
  (if (ResponseStatus c =? 0)%Z then 403%Z else ResponseStatus c, ResponseBody c,
   asked (ResponseTrailersToAdd c) (ResponseTrailersToRemove c)).

Lemma immediateResponse_spec h :
  exists hd o, immediateResponse h = (RespImmediate (verdict (ctx h)).1.1 hd (verdict (ctx h)).1.2,
                                      h <| ctx := (ctx h) <| SetHeaderOptions := o |> |>) /\
    hd = asked (ResponseHeadersToAdd (ctx h)) [].
Proof.
  unfold immediateResponse. pose proof (buildHeaderMutation_asked (ctx h) (ResponseHeadersToAdd (ctx h)) []) as Ha.
  destruct (buildHeaderMutation_ctx (ctx h) (ResponseHeadersToAdd (ctx h)) []) as [o Ho].
  destruct (buildHeaderMutation _ _ _) as [mut c']. cbn in Ho, Ha. subst c'. by eexists _, o.
Qed.

(** A stream whose request has been refused. *)
Definition refused (h : HState (W := W)) (v : Z * string * option HeaderMutation) : Prop :=
  resolved (st h) = true /\ Blocked (ctx h) = true /\ verdict (ctx h) = v.

(** The answer to a message of a refused request. Only response trailers, which come when the
    response is already on its way, do not get the refusal, but the changes asked for before. *)
Definition repeats (v : Z * string * option HeaderMutation) (m : Message) (r : Response) : Prop :=
  match m with
  | MResponseTrailers _ => r = RespResponseTrailers v.2
  | _ => exists hd, r = RespImmediate v.1.1 hd v.1.2
  end.

(** The part of every handler after its own bookkeeping. *)
Lemma answer_refused h v ok :
  refused h v -> exists hd h', answer h ok = (RespImmediate v.1.1 hd v.1.2, h') /\ refused h' v /\ world h' = world h.
Proof.
  intros (Hr & Hb & <-). unfold answer. rewrite Hb.
  destruct (immediateResponse_spec h) as (hd & o & -> & Hhd). by eexists _, _.
Qed.

Lemma refused_ctx h v c :
  refused h v -> Blocked c = Blocked (ctx h) -> verdict c = verdict (ctx h) -> refused (h <| ctx := c |>) v.
Proof. intros (Hr & Hb & Hv) Eb Ev. unfold refused. cbn. by rewrite Eb, Ev. Qed.

Lemma refused_run h v phase : refused h v -> run (resolve identity h) phase = h.
Proof. intros (Hr & Hb & _). by rewrite resolve_again, run_blocked. Qed.

Lemma refused_answer h v (f : RequestContext -> RequestContext) phase ok :
  refused h v -> Blocked (f (ctx h)) = Blocked (ctx h) -> verdict (f (ctx h)) = verdict (ctx h) ->
  exists hd h', answer (run (resolve identity (h <| ctx := f (ctx h) |>)) phase) ok = (RespImmediate v.1.1 hd v.1.2, h') /\
    refused h' v /\ world h' = world h.
Proof.
  intros Href Eb Ev. assert (refused (h <| ctx := f (ctx h) |>) v) as Href' by (by apply refused_ctx).
  rewrite (refused_run _ v) by exact Href'. exact (answer_refused _ v _ Href').
Qed.

Lemma handle_refused h m v :
  refused h v -> exists r h', handle identity h m = (r, h') /\ repeats v m r /\ refused h' v /\ world h' = world h.
Proof.
  intros Href.
  assert (forall a, (exists hd h', a = (RespImmediate v.1.1 hd v.1.2, h') /\ refused h' v /\ world h' = world h) ->
    (exists r h', a = (r, h') /\ (exists hd, r = RespImmediate v.1.1 hd v.1.2) /\ refused h' v /\ world h' = world h)) as Himm
    by naive_solver.
  destruct m; cbn [handle].
  - apply Himm. unfold handleRequestHeaders. set (hops := match snapConfig _ with Some _ => _ | None => _ end).
    assert (refused (h <| ctx := read_request hops (ctx h) attrs headers endOfStream |>) v) as Href'
      by (apply refused_ctx; [done|reflexivity|reflexivity]).
    rewrite (refused_run _ v) by exact Href'. exact (answer_refused _ v _ Href').
  - apply Himm. by apply (refused_answer h v (fun c => c <| RequestBodySeen := true |> <| RequestBody := body |>)).
  - apply Himm. by apply (refused_answer h v (fun c => c <| Headers := copyHeaders (Headers (ctx h)) trailers |>)).
  - apply Himm. unfold handleResponseHeaders. set (h1 := h <| ctx := _ |>).
    assert (refused h1 v) as Href' by (by apply refused_ctx). pose proof Href' as (Hr & Hb & Hv).
    rewrite resolve_again by done. unfold body_never_sent. rewrite Hb. cbn [negb andb].
    rewrite run_blocked by done. exact (answer_refused h1 v _ Href').
  - apply Himm. by apply (refused_answer h v (fun c => c <| ResponseBodyBytes := body |>)).
  - unfold handleResponseTrailers.
    rewrite (refused_run _ v) by (by apply refused_ctx). cbn [ctx set_field].
    match goal with |- context [buildHeaderMutation ?c ?a ?r] =>
      pose proof (buildHeaderMutation_asked c a r) as Ha;
      destruct (buildHeaderMutation_ctx c a r) as [o Ho]; destruct (buildHeaderMutation c a r) as [mut c'] end.
    cbn in Ho, Ha. subst c'. eexists _, _. split; [done|]. split; [|done].
    destruct Href as (_ & _ & <-). cbn. by rewrite Ha.
Qed.

Lemma answer_immediate h ok s hd b h' :
  (forall c, is_immediate (ok c).1 = false) -> resolved (st h) = true ->
  answer h ok = (RespImmediate s hd b, h') -> exists tr, refused h' (s, b, tr).
Proof.
  intros Hok Hr. unfold answer. destruct (Blocked (ctx h)) eqn:Hb.
  - destruct (immediateResponse_spec h) as (hd' & o & -> & _). intros [= <- <- <- <-]. by eexists.
  - specialize (Hok (ctx h)). destruct (ok (ctx h)) as [r c]. cbn in Hok. intros [= -> <-]. done.
Qed.

Lemma run_resolved h phase : resolved (st (run (resolve identity h) phase)) = true.
Proof. rewrite run_st. apply resolve_resolved. Qed.

(** An immediate response is sent exactly when the request has been refused. *)
Lemma handle_immediate h m s hd b h' :
  handle identity h m = (RespImmediate s hd b, h') -> exists tr, refused h' (s, b, tr).
Proof.
  destruct m; cbn [handle].
  - apply answer_immediate; [|apply run_resolved]. intros c. by destruct (buildHeaderMutation _ _ _).
  - apply answer_immediate; [|apply run_resolved]. intros c. by destruct (buildHeaderMutation _ _ _).
  - apply answer_immediate; [|apply run_resolved]. intros c. by destruct (buildHeaderMutation _ _ _).
  - apply answer_immediate; [intros c; by destruct (buildHeaderMutation _ _ _)|].
    rewrite run_st. case_match; cbn; apply resolve_resolved.
  - apply answer_immediate; [done|apply run_resolved].
  - unfold handleResponseTrailers. destruct (buildHeaderMutation _ _ _). done.
Qed.

(** The messages whose answers are sent. *)
Fixpoint answered (rs : list Received) : list Message :=
  match rs with RecvMsg m true :: rs' => m :: answered rs' | _ => [] end.

Lemma process_refused h v rs e out h' :
  refused h v -> process_loop identity h rs = (e, out, h') -> Forall2 (repeats v) (answered rs) out /\ world h' = world h.
Proof.
  revert h e out h'. induction rs as [|r rs IH]; intros h e out h' Href; cbn [process_loop answered].
  { intros [= <- <- <-]. by split. }
  destruct r as [m ok| | |]; try (by intros [= <- <- <-]).
  destruct (handle_refused h m v Href) as (r & h1 & Hh & Hr & Href1 & Hw). rewrite Hh.
  destruct ok; cbn [negb]; [|by intros [= <- <- <-]].
  destruct (process_loop identity h1 rs) as [[e1 out1] h2] eqn:E. intros [= <- <- <-].
  destruct (IH _ _ _ _ Href1 E) as [Hout Hw2]. split; [by constructor|congruence].
Qed.

(** *** Header mutations *)

(** Envoy applying a mutation to the headers it has. *)
Definition apply_mutation (mut : option HeaderMutation) (base : gmap string string) : gmap string string :=
  match mut with
  | None => base
  | Some m => fold_left (fun acc o => if envoy_mutable (ovKey o) then <[ovKey o := ovRawValue o]> acc else acc) (SetHeaders m)
                (envoy_remove (RemoveHeaders m) base)
  end.

(** The response makes Envoy's headers those the filters decided on, where Envoy lets them;
    trailers and immediate responses carry exactly what the filters asked for. *)
Definition delivers (r : Response) (c : RequestContext) : Prop :=
  match r with
  | RespRequestHeaders mut _ | RespRequestBody mut _ => carried (Headers c) (effective c).1 (apply_mutation mut (Headers c))
  | RespResponseHeaders mut _ => carried (ResponseHeaders c) (effective c).2 (apply_mutation mut (ResponseHeaders c))
  | RespRequestTrailers mut => mut = asked (RequestTrailersToAdd c) (RequestTrailersToRemove c)
  | RespResponseTrailers mut => mut = asked (ResponseTrailersToAdd c) (ResponseTrailersToRemove c)
  | RespImmediate _ mut _ => mut = asked (ResponseHeadersToAdd c) []
  | RespResponseBody _ => True
  end.

Lemma buildHeaderMutation_applies c base o :
  ops_wf o -> carried base (in_effect base o) (apply_mutation (buildHeaderMutation c (adds o) (removes o)).1 base).
Proof.
  intros Hwf. destruct (envoy_in_effect base o Hwf) as [He _]. unfold buildHeaderMutation, envoy_set in *.
  destruct (adds o) as [|a l], (removes o) as [|r rs]; [done|done| |];
    cbn [fst apply_mutation SetHeaders RemoveHeaders]; by rewrite fold_left_fmap.
Qed.

Definition filters_ok (ch : Chain W) : Prop := Forall (fun f => FilterOk (FilterExecute f)) ch.
Definition snapshot_ok (sn : Snapshot W) : Prop := Forall filters_ok (snapChains sn).*2.

(** What every handler keeps true of the stream. *)
Definition stream_ok h : Prop := snapshot_ok (snap (st h)) /\ filters_ok (chain (st h)) /\ ctx_wf (ctx h).

Lemma keeps_wf c c' : keeps c c' -> ctx_wf c -> ctx_wf c'.
Proof. by intros [H _]. Qed.

Lemma run_filters_keeps limits h phase :
  filters_ok (chain (st h)) -> keeps (ctx h) (ctx (run_filters limits h phase)).
Proof.
  intros Hok. unfold run_filters. case_match.
  - set (c0 := (ctx h) <| Ctx := _ |>).
    assert (keeps (ctx h) c0) as H0 by (by apply keeps_other).
    pose proof (Execute_keeps (chain (st h)) phase c0 (world h) Hok) as Hk.
    destruct (Execute c0 (world h) (chain (st h)) phase) as [[err c] w]. cbn in Hk.
    assert (keeps (ctx h) c) as Hc by (by etrans).
    repeat case_match; exact Hc.
  - pose proof (Execute_keeps (chain (st h)) phase (ctx h) (world h) Hok) as Hk.
    by destruct (Execute (ctx h) (world h) (chain (st h)) phase) as [[err c] w].
Qed.

Lemma run_keeps h phase : filters_ok (chain (st h)) -> keeps (ctx h) (ctx (run h phase)).
Proof.
  intros Hok. unfold run. case_match; [done|]. case_match; [|by apply run_filters_keeps].
  case_match; [done|]. exact (keeps_call (ctx h) (CallSetDown "retry-after" "1")).
Qed.

Lemma resolve_keeps_ctx h : keeps (ctx h) (ctx (resolve identity h)).
Proof.
  assert (forall c, keeps c (resolveIdentity identity c)) as Hid.
  { intros c. apply keeps_other; unfold resolveIdentity; repeat case_match; done. }
  unfold resolve. destruct (resolved (st h)); [done|]. destruct (snapConfig _) as [cfg|]; [|by apply keeps_other].
  case_match; [exact (Hid (ctx h))|].
  cbn [ctx set_field]. destruct (RouteWith (Router cfg) (resolveIdentity identity (ctx h))) as [name c] eqn:Hr.
  assert (keeps (resolveIdentity identity (ctx h)) c).
  { unfold RouteWith in Hr. case_match; simplify_eq; by apply keeps_other. }
  assert (keeps (ctx h) c) as Hc by (etrans; [apply Hid|done]). repeat case_match; exact Hc.
Qed.

Lemma resolve_ok h : stream_ok h -> stream_ok (resolve identity h).
Proof.
  intros (Hs & Hc & Hw). split; [by rewrite (proj2 (resolve_keeps h))|].
  split; [|exact (keeps_wf _ _ (resolve_keeps_ctx h) Hw)].
  unfold resolve. destruct (resolved (st h)); [done|]. destruct (snapConfig _) as [cfg|]; [|done].
  case_match; [done|]. destruct (RouteWith _ _) as [name c]. repeat case_match; try done.
  cbn. apply (proj1 (Forall_forall _ _) Hs). apply list_elem_of_fmap. eexists (_, _). split; [done|].
  by eapply map_get_elem.
Qed.

Lemma run_ok h phase : stream_ok h -> stream_ok (run h phase).
Proof.
  intros (Hs & Hc & Hw). unfold stream_ok. rewrite run_st. split; [done|]. split; [done|].
  exact (keeps_wf _ _ (run_keeps h phase Hc) Hw).
Qed.

Lemma answer_ok h ok :
  stream_ok h -> (forall c, exists o, (ok c).2 = c <| SetHeaderOptions := o |>) ->
  (forall c, ctx_wf c -> delivers (ok c).1 (ok c).2) ->
  stream_ok (answer h ok).2 /\ delivers (answer h ok).1 (ctx (answer h ok).2).
Proof.
  intros (Hs & Hc & Hw) Hctx Hdel. unfold answer. destruct (Blocked (ctx h)).
  - destruct (immediateResponse_spec h) as (hd & o & -> & Hhd). split; [|exact Hhd]. split; [done|]. split; [done|exact Hw].
  - destruct (Hctx (ctx h)) as [o Ho]. specialize (Hdel (ctx h) Hw). destruct (ok (ctx h)) as [r c].
    cbn in *. subst c. split; [|done]. split; [done|]. split; [done|exact Hw].
Qed.

Lemma stream_ok_ctx h c : stream_ok h -> ctx_wf c -> stream_ok (h <| ctx := c |>).
Proof. by intros (Hs & Hc & _) Hw. Qed.

Lemma handler_ok h c phase ok :
  stream_ok h -> ctx_wf c -> (forall c, exists o, (ok c).2 = c <| SetHeaderOptions := o |>) ->
  (forall c, ctx_wf c -> delivers (ok c).1 (ok c).2) ->
  let a := answer (run (resolve identity (h <| ctx := c |>)) phase) ok in
  stream_ok a.2 /\ delivers a.1 (ctx a.2).
Proof. intros Hh Hw Hctx Hdel. apply answer_ok; [|done|done]. by apply run_ok, resolve_ok, stream_ok_ctx. Qed.

Lemma request_mutation_ok c :
  ctx_wf c ->
  let '(mut, c') := buildHeaderMutation c (HeadersToAdd c) (HeadersToRemove c) in
  carried (Headers c') (effective c').1 (apply_mutation mut (Headers c')) /\ exists o, c' = c <| SetHeaderOptions := o |>.
Proof.
  intros [Hu _]. pose proof (buildHeaderMutation_applies c (Headers c) (upstream c) Hu) as Ha.
  destruct (buildHeaderMutation_ctx c (HeadersToAdd c) (HeadersToRemove c)) as [o Ho]. cbn [upstream adds removes] in Ha.
  destruct (buildHeaderMutation _ _ _) as [mut c']. cbn in *. subst c'. split; [exact Ha|by exists o].
Qed.

Lemma response_mutation_ok c :
  ctx_wf c ->
  let '(mut, c') := buildHeaderMutation c (ResponseHeadersToAdd c) (ResponseHeadersToRemove c) in
  carried (ResponseHeaders c') (effective c').2 (apply_mutation mut (ResponseHeaders c')).
Proof.
  intros [_ Hd]. pose proof (buildHeaderMutation_applies c (ResponseHeaders c) (downstream c) Hd) as Ha.
  destruct (buildHeaderMutation_ctx c (ResponseHeadersToAdd c) (ResponseHeadersToRemove c)) as [o Ho].
  cbn [downstream adds removes] in Ha. destruct (buildHeaderMutation _ _ _) as [mut c']. cbn in *. by subst c'.
Qed.

Lemma mutation_answer_ctx c hs rs (k : option HeaderMutation -> RequestContext -> Response) :
  exists o, (let '(mut, c') := buildHeaderMutation c hs rs in (k mut c', c')).2 = c <| SetHeaderOptions := o |>.
Proof. destruct (buildHeaderMutation_ctx c hs rs) as [o Ho]. exists o. by destruct (buildHeaderMutation c hs rs). Qed.

(** Every handler keeps the stream's invariant and sends the mutation that
    produces the headers in effect. *)
Lemma handle_ok h m :
  stream_ok h -> stream_ok (handle identity h m).2 /\ delivers (handle identity h m).1 (ctx (handle identity h m).2).
Proof.
  intros Hh. pose proof Hh as (_ & _ & Hw). destruct m; cbn [handle].
  - apply handler_ok; [done|exact Hw|intros c; by apply mutation_answer_ctx|].
    intros c Hc. pose proof (request_mutation_ok c Hc) as H. destruct (buildHeaderMutation _ _ _). apply H.
  - apply handler_ok; [done|exact Hw|intros c; by apply mutation_answer_ctx|].
    intros c Hc. pose proof (request_mutation_ok c Hc) as H. destruct (buildHeaderMutation _ _ _). apply H.
  - apply handler_ok; [done|exact Hw|intros c; by apply (mutation_answer_ctx c _ _ (fun mut _ => RespRequestTrailers mut))|].
    intros c Hc. pose proof (buildHeaderMutation_asked c (RequestTrailersToAdd c) (RequestTrailersToRemove c)) as Ha.
    destruct (buildHeaderMutation_ctx c (RequestTrailersToAdd c) (RequestTrailersToRemove c)) as [o Ho].
    destruct (buildHeaderMutation _ _ _) as [mut c']. cbn in *. by subst c' mut.
  - unfold handleResponseHeaders. apply answer_ok; [|intros c; by apply mutation_answer_ctx|].
    + apply run_ok. set (h1 := h <| ctx := _ |>).
      assert (stream_ok (resolve identity h1)) as H1 by (by apply resolve_ok, stream_ok_ctx).
      case_match; [|exact H1]. apply stream_ok_ctx; [done|apply H1].
    + intros c Hc. pose proof (response_mutation_ok c Hc) as H. destruct (buildHeaderMutation _ _ _). apply H.
  - apply handler_ok; [done|exact Hw| |done]. intros c. exists (SetHeaderOptions c). by destruct c.
  - unfold handleResponseTrailers. set (h2 := run _ _).
    assert (stream_ok h2) as H2 by (by apply run_ok, resolve_ok, stream_ok_ctx).
    pose proof (buildHeaderMutation_asked (ctx h2) (ResponseTrailersToAdd (ctx h2)) (ResponseTrailersToRemove (ctx h2))) as Ha.
    destruct (buildHeaderMutation_ctx (ctx h2) (ResponseTrailersToAdd (ctx h2)) (ResponseTrailersToRemove (ctx h2))) as [o Ho].
    destruct (buildHeaderMutation _ _ _) as [mut c']. cbn in Ho, Ha. subst c'. split; [|exact Ha].
    apply stream_ok_ctx; [done|apply H2].
Qed.

(** *** Requests that are not admitted *)

(** The bookkeeping a handler does before it resolves the chain. *)
Definition received h (attrs : Attributes) (headers : list HeaderValue) (eos : bool) : RequestContext :=
  read_request (match snapConfig (snap (st h)) with Some cfg => TrustedProxyHops (Server cfg) | None => 0%Z end)
    (ctx h) attrs headers eos.

Lemma handleRequestHeaders_refused h attrs headers eos v :
  refused (resolve identity (h <| ctx := received h attrs headers eos |>)) v ->
  exists r h', handle identity h (MRequestHeaders attrs headers eos) = (r, h') /\
    repeats v (MRequestHeaders attrs headers eos) r /\ refused h' v /\ world h' = world h.
Proof.
  intros Href. cbn [handle]. unfold handleRequestHeaders. fold (received h attrs headers eos).
  rewrite run_blocked by apply Href.
  match goal with |- context [answer _ ?ok] => destruct (answer_refused _ v ok Href) as (hd & h' & He & Hh & Hw) end.
  eexists _, h'. rewrite (proj1 (resolve_keeps _)) in Hw. split; [exact He|]. split; [by exists hd|done].
Qed.

(** No policy is loaded, or the caller must be known and is not. *)
Definition unadmitted h (c : RequestContext) : Prop :=
  match snapConfig (snap (st h)) with
  | None => True
  | Some cfg => unknown_caller identity cfg (resolveIdentity identity c) = true
  end.

Lemma resolve_unadmitted h :
  resolved (st h) = false -> unadmitted h (ctx h) ->
  refused (resolve identity h)
    (503%Z, "Service Unavailable", asked (ResponseTrailersToAdd (ctx h)) (ResponseTrailersToRemove (ctx h))).
Proof.
  intros Hr Hu. split; [apply resolve_resolved|]. unfold unadmitted in Hu.
  assert (forall c, ResponseTrailersToAdd (resolveIdentity identity c) = ResponseTrailersToAdd c /\
                    ResponseTrailersToRemove (resolveIdentity identity c) = ResponseTrailersToRemove c) as Hid.
  { intros c. unfold resolveIdentity. repeat case_match; done. }
  unfold resolve. rewrite Hr. cbn [st set_field snap].
  destruct (snapConfig (snap (st h))) as [cfg|]; [|done]. cbn [ctx set_field]. rewrite Hu.
  split; [done|]. unfold verdict. cbn. by destruct (Hid (ctx h)) as [-> ->].
Qed.

(** *** What an unblocked request has been through *)

(** The context the filters of [run] see. *)
Definition exec_ctx (limits : ChainSettings) h : RequestContext :=
  if (0 <? TimeoutDuration limits)%Z
  then (ctx h) <| Ctx := Some (WithTimeout (world h) (Ctx (ctx h)) (TimeoutDuration limits)) |> else ctx h.

Definition overloaded (limits : ChainSettings) h : Prop :=
  (0 < MaxConcurrency limits <= inFlight (world h) (sname (st h)))%Z.

(** The deadline of this execution had passed when the filters stopped in [w]. *)
Definition timed_out (limits : ChainSettings) h (w : W) : Prop :=
  (0 < TimeoutDuration limits)%Z /\
  ctx_Err w (WithTimeout (world h) (Ctx (ctx h)) (TimeoutDuration limits)) = Some DeadlineExceeded.

Lemma run_filters_passes limits h phase err c w :
  Blocked (ctx h) = false -> Execute (exec_ctx limits h) (world h) (chain (st h)) phase = (err, c, w) ->
  let h' := run_filters limits h phase in
  Blocked (ctx h') = false ->
  world h' = w /\
  ((err = None /\ Blocked c = false /\ exists g, ctx h' = c <| Ctx := g |>) \/
   (is_Some err /\ timed_out limits h w /\ OnTimeout limits = LimitActionAllow)).
Proof.
  intros Hb He. assert (Blocked (exec_ctx limits h) = false) as Hb0 by (unfold exec_ctx; by case_match).
  pose proof (fun e => Execute_error_blocks (chain (st h)) phase (exec_ctx limits h) (world h) e c w Hb0) as Herr.
  revert He. unfold run_filters, exec_ctx in *. destruct (0 <? TimeoutDuration limits)%Z eqn:Ht.
  - intros He. rewrite He. cbv zeta. destruct err as [e|].
    + specialize (Herr e He). unfold timed_out.
      destruct (ctx_Err w _) as [[]|] eqn:Ec; cbn; try congruence.
      destruct (String.eqb_spec (OnTimeout limits) LimitActionAllow) as [Ea|]; cbn; [|done].
      intros _. split; [done|]. right. apply Z.ltb_lt in Ht. eauto.
    + cbn. intros Hc. split; [done|]. left. split; [done|]. split; [exact Hc|by eexists].
  - intros He. rewrite He. cbn. intros Hc. split; [done|]. left. destruct err as [e|].
    + specialize (Herr e He). congruence.
    + split; [done|]. split; [done|]. exists (Ctx c). by destruct c.
Qed.

(** *** Routing decisions *)

(** The four ways [resolve] can end. *)
Lemma resolve_cases h :
  resolved (st h) = false ->
  let h' := resolve identity h in
  let c := resolveIdentity identity (ctx h) in
  match snapConfig (snap (st h)) with
  | None => ctx h' = Block (ctx h) 503 "Service Unavailable"
  | Some cfg =>
      if unknown_caller identity cfg c then ctx h' = Block c 503 "Service Unavailable"
      else
        let '(name, c1) := RouteWith (Router cfg) c in
        sname (st h') = name /\
        if String.eqb name "" then ctx h' = c1 /\ chain (st h') = chain (st h)
        else match map_get (snapChains (snap (st h))) name with
             | None => ctx h' = Block c1 503 "Service Unavailable"
             | Some ch => ctx h' = c1 /\ chain (st h') = ch
             end
  end.
Proof.
  intros Hr. cbv zeta. unfold resolve. rewrite Hr. cbn [st snap set_field].
  destruct (snapConfig (snap (st h))) as [cfg|]; [|done]. cbn [ctx set_field].
  destruct (unknown_caller identity cfg _); [done|].
  destruct (RouteWith _ _) as [name c]. destruct (String.eqb name ""); [done|].
  cbn [st snap set_field]. by destruct (map_get _ name).
Qed.

(** The chains of a published snapshot are those of its configuration, filter by filter. *)
Lemma published_chain newRedis newFilter marshal (m : Manager W) w cfg m' w' sn cl name :
  NulFree newFilter marshal -> mgr_wf m -> all_made newFilter marshal (mFilters m) ->
  NoDup (Redis cfg).*1 -> NoDup (Chains cfg).*1 ->
  (forall n fcs fc, (n, fcs) ∈ Chains cfg -> fc ∈ fcs -> nul_free (fcType fc)) ->
  Apply newRedis newFilter marshal m w cfg = Applied m' w' sn cl ->
  snapConfig sn = Some cfg /\
  (chain_defined cfg name -> exists fcs ch, map_get (Chains cfg) name = Some fcs /\ map_get (snapChains sn) name = Some ch /\
     Forall2 (compiled_from newFilter marshal (mRedis m')) fcs ch).
Proof.
  intros Hnul Hwf Hm Hr Hc Ht HA.
  destruct (Apply_accounted newRedis newFilter marshal m w cfg Hwf Hr Hc) as (n & Hacc & _).
  pose proof (Apply_made newRedis newFilter marshal m w cfg Hm) as Hm'. rewrite HA in Hacc, Hm'. cbn in Hm'.
  destruct Hacc as (Hcfg & _ & Hch & _). split; [done|]. intros Hd.
  unfold chain_defined in Hd. unfold map_has in Hd. destruct (map_get (Chains cfg) name) as [fcs|] eqn:Ef; [|done].
  exists fcs. clear Hd HA Hcfg. induction Hch as [|[n1 fcs1] [n2 ch] es cs [En Hf] _ IH]; [done|]. cbn in *. subst n2.
  destruct (String.eqb_spec n1 name) as [->|Hne].
  - injection Ef as ->. exists ch. split; [done|]. split; [done|].
    apply Forall2_same_length_lookup. split; [by eapply Forall2_length|]. intros i fc f Hi Hi'.
    destruct (Forall2_lookup_lr _ _ _ _ _ _ Hf Hi Hi') as (key & Hk & Hin & Ha).
    apply (made_compiled newFilter marshal _ _ _ key); [|exact Hk|exact Ha|by apply Hm'].
    eapply Ht; [by left|]. by eapply list_elem_of_lookup_2.
  - apply NoDup_cons in Hc as [_ Hc]. apply IH; [done| |done]. intros n2 fcs2 fc H. apply (Ht n2). by right.
Qed.
End ServerLemmas.

(** ** Properties *)

(** C10: a verdict is final for the stream: once a message has been answered with an
    immediate response, every later message other than response trailers is answered
    with an immediate response of the same status and body, and no filter runs any more.
    Response trailers, which come when the response can no longer be replaced, are
    answered with the same trailer changes each time. *)
Theorem verdict_is_final {W : Type} `{!World W} (identity : option Index) (h0 : HState) (m : Message)
  (status : Z) (hd : option HeaderMutation) (body : string) (h : HState) (rs : list Received)
  (e : Ended) (out : list Response) (h' : HState (W := W)) :
  handle identity h0 m = (RespImmediate status hd body, h) -> process_loop identity h rs = (e, out, h') ->
  (exists tr, Forall2 (repeats (status, body, tr)) (answered rs) out) /\ world h' = world h.
Proof.
  intros Hm Hp. apply handle_immediate in Hm as [tr Href].
  destruct (process_refused _ _ _ _ _ _ _ Href Hp) as [Hout Hw]. split; [by exists tr|done].
Qed.

#[export] Instance unit_world : World () := {| clock _ := 0%Z; canceledAt _ := None; inFlight _ _ := 0%Z |}.

(** A stream on which no policy is loaded yet. *)
Definition example_stream : HState (W := ()) :=
  mkHState (mkStreamState (NewSnapshot None []) false [] "") newContext () [].

Lemma verdict_is_final_witness :
  let h := (handle None example_stream (MRequestBody "x")).2 in
  exists e out h', process_loop None h [RecvMsg (MResponseHeaders []) true] = (e, out, h') /\
    exists tr, Forall2 (repeats (503%Z, "Service Unavailable", tr)) [MResponseHeaders []] out.
Proof.
  destruct (handle None example_stream (MRequestBody "x")) as [r h] eqn:Hh. vm_compute in Hh. cbv zeta.
  cbn [snd]. destruct (process_loop None h [RecvMsg (MResponseHeaders []) true]) as [[e out] h'] eqn:Hp.
  exists e, out, h'. split; [done|].
  refine (proj1 (verdict_is_final None example_stream (MRequestBody "x") 503 None
      "Service Unavailable" h _ e out h' _ Hp)).
  injection Hh as <- <-. vm_compute. reflexivity.
Defined.

(** C1: with a policy that was parsed, validated and applied, a request that is not
    refused as an unknown east-west caller gets the chain of the route that matched it,
    filter by filter as the configuration lists it: every position is an instance that the
    factory made for the type, the options text and the Redis entry of the
    configured filter, audited where configured. Only a request that matches no route and has
    no default chain passes without a chain; a route never leads to a missing one. Types
    and option texts are taken to be free of NUL bytes, which separate them in a key. *)
Theorem published_policy_enforced {W : Type} `{!World W} (identity : option Index) newRedis newFilter marshal
  unmarshal regexp getenv (data : string) (cfg : Config) (m : Manager W) (w : W) (m' : Manager W) (w' : W)
  (sn : Snapshot W) (cl : Closing W) (h : HState) :
  NulFree newFilter marshal -> (forall n fcs fc, (n, fcs) ∈ Chains cfg -> fc ∈ fcs -> nul_free (fcType fc)) ->
  ParseBytes unmarshal regexp getenv data = Ok cfg ->
  mgr_wf m -> all_made newFilter marshal (mFilters m) -> NoDup (Redis cfg).*1 -> NoDup (Chains cfg).*1 ->
  Apply newRedis newFilter marshal m w cfg = Applied m' w' sn cl ->
  snap (st h) = sn -> resolved (st h) = false ->
  let h' := resolve identity h in
  let c := resolveIdentity identity (ctx h) in
  let name := (RouteWith (Router cfg) c).1 in
  if unknown_caller identity cfg c then ctx h' = Block c 503 "Service Unavailable"
  else ctx h' = (RouteWith (Router cfg) c).2 /\ sname (st h') = name /\
       (name = "" \/ exists fcs, map_get (Chains cfg) name = Some fcs /\
          Forall2 (compiled_from newFilter marshal (mRedis m')) fcs (chain (st h'))).
Proof.
  intros Hnul Ht Hp Hwf Hm Hr Hc HA Hsn Hres. cbv zeta.
  pose proof (resolve_cases identity h Hres) as Hcases. cbv zeta in Hcases. rewrite Hsn in Hcases.
  pose proof (fun name => published_chain newRedis newFilter marshal m w cfg m' w' sn cl name Hnul Hwf Hm Hr Hc Ht HA) as Hpub.
  rewrite (proj1 (Hpub "")) in Hcases. destruct (unknown_caller identity cfg _); [done|].
  set (c := resolveIdentity identity (ctx h)) in *.
  assert ((RouteWith (Router cfg) c).1 = "" \/ chain_defined cfg (RouteWith (Router cfg) c).1) as Hd.
  { eapply RouteWith_defined. by apply ParseBytes_ok in Hp. }
  destruct (RouteWith (Router cfg) c) as [name c1]. cbn [fst snd] in *. destruct Hcases as [Hn Hcases].
  destruct (String.eqb_spec name "") as [->|Hne]; [naive_solver|].
  destruct Hd as [?|Hd]; [done|]. destruct (proj2 (Hpub name) Hd) as (fcs & ch & Hf & Hch & Hall).
  rewrite Hch in Hcases. destruct Hcases as [Hctx ->]. eauto 6.
Qed.

(** The example configuration as the parser returns it. *)
Definition example_parsed : Config := Eval vm_compute in
  match ParseBytes example_unmarshal (fun _ => None) (fun _ => "") "doc" with Ok cfg => cfg | Err _ => example_config end.

Definition example_ew : RequestContext := newContext <| CTraffic := TrafficEastWest |>.

Lemma example_nul_free : NulFree exampleFilter exampleMarshal.
Proof.
  split.
  - intros ty o l w r w'. unfold exampleFilter. destruct (String.eqb_spec ty "deny") as [->|]; done.
  - intros o t [= <-]. done.
Qed.

Lemma published_policy_enforced_witness :
  exists m' w' sn cl,
    Apply exampleRedis exampleFilter exampleMarshal NewManager () example_parsed = Applied m' w' sn cl /\
    let h := mkHState (mkStreamState sn false [] "") example_ew () [] in
    Forall2 (compiled_from exampleFilter exampleMarshal (mRedis m')) [example_filter] (chain (st (resolve None h))).
Proof.
  assert (ParseBytes example_unmarshal (fun _ => None) (fun _ => "") "doc" = Ok example_parsed) as Hp
    by (vm_compute; reflexivity).
  assert (NoDup (Redis example_parsed).*1 /\ NoDup (Chains example_parsed).*1) as [Hr Hc].
  { split; vm_compute; repeat constructor; set_solver. }
  destruct (Apply exampleRedis exampleFilter exampleMarshal NewManager () example_parsed) as [? ? ? ?|m' w' sn cl] eqn:HA;
    [by vm_compute in HA|].
  exists m', w', sn, cl. split; [done|]. cbv zeta.
  pose proof (published_policy_enforced None exampleRedis exampleFilter exampleMarshal example_unmarshal
    (fun _ => None) (fun _ => "") "doc" example_parsed NewManager () m' w' sn cl
    (mkHState (mkStreamState sn false [] "") example_ew () []) example_nul_free) as H.
  cbv zeta in H. cbn [ctx] in H.
  assert ((RouteWith (Router example_parsed) (resolveIdentity None example_ew)).1 = "public") as Hn
    by (vm_compute; reflexivity).
  destruct (unknown_caller None example_parsed _) eqn:Hu; [by vm_compute in Hu|].
  destruct H as (_ & _ & [H|(fcs & Hf & H)]).
  - intros n fcs fc [= -> ->]%list_elem_of_singleton ->%list_elem_of_singleton. reflexivity.
  - exact Hp.
  - apply NewManager_wf.
  - intros k f H0. by apply not_elem_of_nil in H0.
  - exact Hr.
  - exact Hc.
  - exact HA.
  - reflexivity.
  - reflexivity.
  - exfalso. rewrite Hn in H. done.
  - rewrite Hn in Hf. vm_compute in Hf. injection Hf as <-. exact H.
Defined.

(** C11: a stream without a policy, or whose east-west caller is not in the identity map
    while the router requires it, is refused as a whole: every message other than
    response trailers is answered 503, response trailers are answered without any change,
    and no filter runs and nothing outside is touched. *)
Theorem unadmitted_never_passes {W : Type} `{!World W} (identity : option Index) (h : HState (W := W))
  (attrs : Attributes) (headers : list HeaderValue) (eos ok : bool) (rs : list Received)
  (e : Ended) (out : list Response) (h' : HState) :
  resolved (st h) = false -> ResponseTrailersToAdd (ctx h) = [] -> ResponseTrailersToRemove (ctx h) = [] ->
  unadmitted identity h (received h attrs headers eos) ->
  process_loop identity h (RecvMsg (MRequestHeaders attrs headers eos) ok :: rs) = (e, out, h') ->
  Forall2 (repeats (503%Z, "Service Unavailable", None)) (answered (RecvMsg (MRequestHeaders attrs headers eos) ok :: rs)) out /\
  world h' = world h.
Proof.
  intros Hr Ha Hd Hu. cbn [process_loop answered].
  destruct (handleRequestHeaders_refused identity h attrs headers eos (503%Z, "Service Unavailable", None)) as
    (r & h1 & -> & Hrep & Href & Hw).
  { set (h1 := h <| ctx := received h attrs headers eos |>). pose proof (resolve_unadmitted identity h1) as H.
    change (ResponseTrailersToAdd (ctx h1)) with (ResponseTrailersToAdd (ctx h)) in H.
    change (ResponseTrailersToRemove (ctx h1)) with (ResponseTrailersToRemove (ctx h)) in H. rewrite Ha, Hd in H. by apply H. }
  destruct ok; cbn [negb]; [|by intros [= <- <- <-]].
  destruct (process_loop identity h1 rs) as [[e1 out1] h2] eqn:E. intros [= <- <- <-].
  destruct (process_refused identity _ _ _ _ _ _ Href E) as [Hout Hw2]. split; [by constructor|congruence].
Qed.

Lemma unadmitted_never_passes_witness :
  exists e out h', process_loop None example_stream
      [RecvMsg (MRequestHeaders [] [mkHeaderValue ":path" "" "/"] true) true; RecvMsg (MResponseTrailers []) true]
    = (e, out, h') /\
    Forall2 (repeats (503%Z, "Service Unavailable", None))
      [MRequestHeaders [] [mkHeaderValue ":path" "" "/"] true; MResponseTrailers []] out.
Proof.
  destruct (process_loop None example_stream _) as [[e out] h'] eqn:E. exists e, out, h'. split; [done|].
  exact (proj1 (unadmitted_never_passes None example_stream [] [mkHeaderValue ":path" "" "/"] true true _ e out h'
    eq_refl eq_refl eq_refl I E)).
Defined.

(** C2: a request is only let past a phase of a non-empty chain in one of three ways.
    Every filter of the chain, in order, let it go on: a filter is skipped only in a phase
    it does not declare, an enforced filter ran without an error and without a verdict,
    and an audited one may have failed or denied, which is only recorded. Or the operator
    configured on_overload "allow", the chain was at its concurrency limit, and nothing ran.
    Or the operator configured on_timeout "allow", an enforced filter failed after its
    predecessors let the request go on, and the deadline of the chain had passed then. *)
Theorem run_passes_only {W : Type} `{!World W} (h : HState (W := W)) (phase : Phase) :
  Blocked (ctx h) = false -> chain (st h) <> [] -> Blocked (ctx (run h phase)) = false ->
  let limits := limits_of (st h) in
  let start := (exec_ctx limits h) <| CPhase := phase |> in
  (overloaded limits h /\ OnOverload limits = LimitActionAllow /\ ctx (run h phase) = ctx h /\
     world (run h phase) = world h) \/
  (exists c w, passed phase 0 (chain (st h)) start (world h) c w /\ world (run h phase) = w /\
     exists g, ctx (run h phase) = c <| Ctx := g |>) \/
  (exists n f e c0 w0 c1 w1, chain (st h) !! n = Some f /\ passed phase 0 (take n (chain (st h))) start (world h) c0 w0 /\
     isAudited f = (f, false) /\ called f phase /\ FilterExecute f c0 w0 = (Some e, c1, w1) /\
     timed_out limits h w1 /\ OnTimeout limits = LimitActionAllow /\ world (run h phase) = w1).
Proof.
  intros Hb Hc. unfold run. rewrite Hb. destruct (chain (st h)) as [|f ch] eqn:Ech; [done|]. rewrite <- Ech in *.
  cbn [nonempty orb negb]. replace (nonempty (chain (st h))) with true by (by rewrite Ech). cbn [negb orb].
  destruct ((0 <? _)%Z && _) eqn:Hov.
  - destruct (String.eqb_spec (OnOverload (limits_of (st h))) LimitActionAllow) as [Ea|]; [|done].
    intros _. left. split; [|done]. unfold overloaded. apply andb_true_iff in Hov as [H0 H1].
    unfold limiter_acquire in H1. apply negb_true_iff, Z.leb_gt in H1. apply Z.ltb_lt in H0. lia.
  - intros Hun. right. clear Ech f ch.
    destruct (Execute (exec_ctx (limits_of (st h)) h) (world h) (chain (st h)) phase) as [[err c] w] eqn:He.
    destruct (run_filters_passes _ _ _ _ _ _ Hb He Hun) as (Hw & Hcase).
    pose proof (execute_loop_ended 0 (chain (st h)) phase ((exec_ctx (limits_of (st h)) h) <| CPhase := phase |>) (world h)) as Hr.
    unfold Execute in He. rewrite He in Hr. destruct Hcase as [(-> & Hcb & g & Hg)|([e ->] & Ht & Ha)].
    + left. destruct Hr as [(_ & _ & Hp)|(H & _)]; [by unfold exec_ctx; case_match| |congruence].
      exists c, w. split; [exact Hp|]. split; [exact Hw|by exists g].
    + right. destruct Hr as [(H & _)|(_ & n & f & c0 & w0 & Hn & Hp & Hend)]; [by unfold exec_ctx; case_match|done|].
      unfold ended_by in Hend. destruct f as [k phases exec|g]; cbn [isAudited] in Hend;
        destruct Hend as (Hcl & e' & c1 & Hf & Ee & Hend); subst e'; [|by destruct Hend].
      by exists n, (Base k phases exec), e, c0, w0, c1, w.
Qed.

(** A stream whose chain is one filter that passes every request. *)
Definition example_running : HState (W := ()) :=
  mkHState (mkStreamState (NewSnapshot None [("public", [Base 0 None passAll])]) true [Base 0 None passAll] "public")
    newContext () [].

Lemma run_passes_only_witness :
  exists c w, passed PhaseRequestHeaders 0 [Base 0 None passAll] (newContext <| CPhase := PhaseRequestHeaders |>) () c w /\
    exists g, ctx (run example_running PhaseRequestHeaders) = c <| Ctx := g |>.
Proof.
  destruct (run_passes_only example_running PhaseRequestHeaders) as [H|[(c & w & Hp & _ & Hg)|H]].
  - vm_compute. reflexivity.
  - discriminate.
  - vm_compute. reflexivity.
  - exfalso. destruct H as [[H _] _]. vm_compute in H. discriminate.
  - exists c, w. split; [exact Hp|exact Hg].
  - exfalso. destruct H as (n & f & e & c0 & w0 & c1 & w1 & _ & _ & _ & _ & _ & [H _] & _). vm_compute in H. discriminate.
Defined.

(** when a filter asked for the request body and Envoy answered the request
    without ever sending it, the response is replaced by a 500 before any
    response filter runs: an uninspected request never gets its answer. *)
Lemma uninspected_body_refused {W : Type} `{!World W} (identity : option Index) (h : HState (W := W))
  (headers : list HeaderValue) :
  resolved (st h) = true -> body_never_sent (ctx h) = true ->
  exists hd, (handle identity h (MResponseHeaders headers)).1 = RespImmediate 500 hd "Internal Server Error" /\
    world (handle identity h (MResponseHeaders headers)).2 = world h.
Proof.
  intros Hr Hb. cbn [handle]. unfold handleResponseHeaders. rewrite resolve_again by done.
  unfold body_never_sent in *. cbn [ctx set_field Blocked RequestBodyRequired RequestBodySeen RequestEndOfStream].
  rewrite Hb. rewrite run_blocked by done. unfold answer. cbn [ctx set_field Blocked Block].
  match goal with |- context [immediateResponse ?h1] =>
    destruct (immediateResponse_spec h1) as (hd & o & -> & _) end.
  by exists hd.
Qed.

Lemma uninspected_body_refused_witness :
  let h := example_running <| ctx := newContext <| RequestBodyRequired := true |> |> in
  exists hd, (handle None h (MResponseHeaders [])).1 = RespImmediate 500 hd "Internal Server Error" /\
    world (handle None h (MResponseHeaders [])).2 = world h.
Proof. intros h. apply (uninspected_body_refused None h []); reflexivity. Defined.

(** The stream after a sequence of messages. *)
Definition after {W : Type} `{!World W} (identity : option Index) (h : HState (W := W)) (ms : list Message) : HState :=
  fold_left (fun h m => (handle identity h m).2) ms h.

(** If every filter of the snapshot keeps the context's contract, then on
    every stream opened on it, after any messages, the header mutation sent to
    Envoy turns the headers Envoy sent into exactly the headers in effect for the
    filters (what their own set and remove calls mean). *)
Lemma snapshot_delivers {W : Type} `{!World W} (identity : option Index) (sn : Snapshot W) (gctx : GoContext)
  (t : Traffic) (w : W) (ms : list Message) (m : Message) :
  snapshot_ok sn ->
  let h := after identity
    (mkHState (mkStreamState sn false [] "") (newContext <| Ctx := Some gctx |> <| CTraffic := t |>) w []) ms in
  delivers (handle identity h m).1 (ctx (handle identity h m).2).
Proof.
  intros Hsn. cbv zeta. apply handle_ok.
  set (h0 := mkHState _ _ _ _). assert (stream_ok h0) as H0.
  { split; [done|]. split; [constructor|exact newContext_wf]. }
  clearbody h0. unfold after. revert h0 H0. induction ms as [|m0 ms IH]; intros h0 H0; [done|].
  cbn [fold_left]. by apply IH, handle_ok.
Qed.

