(* ===== verification/GrpcListen.v ===== *)
(** * GrpcListen: the settings of the ext_proc server (internal/grpc/server.go)

    [NewGRPCServer] turns the server block of the active configuration into the options of
    the gRPC server; [buildTLSCredentials] reads its certificates. The files and their
    parsing are parameters. *)

From S2P Require Import Prelude GoStrings GoTime Netip Identity Selector Context Executor Config.

Local Open Scope string_scope.
Local Open Scope list_scope.

Module GrpcListen.

(** [tls.Config]: the certificate, and the client authorities when their certificates
    are required and verified. *)
Inductive TLSVersion : Type := VersionTLS12 | VersionTLS13.
Record TLSSettings := mkTLSSettings {
  Certificate : string * string; MinVersion : TLSVersion; RequireClientCert : option string }.

Inductive Credentials : Type := Insecure | TLSCreds (t : TLSSettings).

Record ServerOptions := mkServerOptions {
  MaxConnectionIdle : Z; MaxConnectionAge : Z; MaxConnectionAgeGrace : Z; KeepaliveTime : Z; KeepaliveTimeout : Z;
  MinTime : Z; PermitWithoutStream : bool; maxConcurrentStreams : Z; creds : Credentials }.

Section Listen.
(** [tls.LoadX509KeyPair], [os.ReadFile] and [AppendCertsFromPEM]. *)
Variable load_pair : string -> string -> bool.
Variable read_file : string -> option string.
Variable has_certs : string -> bool.

Definition buildTLSCredentials (cfg : TLSConfig) : result TLSSettings :=
  if negb (load_pair (CertFile cfg) (KeyFile cfg)) then Err "failed to load server certificate/key pair"
  else
    let t := mkTLSSettings (CertFile cfg, KeyFile cfg) VersionTLS13 None in
    if MutualTLS cfg then
      if String.eqb (tlsCAFile cfg) "" then Err "mutual_tls is true but ca_file is empty"
      else match read_file (tlsCAFile cfg) with
           | None => Err "failed to read CA file"
           | Some pem => if has_certs pem then Ok (mkTLSSettings (CertFile cfg, KeyFile cfg) VersionTLS13 (Some pem))
                         else Err "failed to parse CA certificate"
           end
    else Ok t.

(** [None] for a [GlobalConfig] that was never stored. *)
Definition NewGRPCServer (activeCfg : option ServerConfig) : result ServerOptions :=
  let streams := match activeCfg with
                 | Some c => if (0 <? MaxConcurrentStreams c)%Z then MaxConcurrentStreams c else 10000%Z
                 | None => 10000%Z
                 end in
  let? cr := match activeCfg with
             | Some c => if tlsEnabled (TLS c) then let? t := buildTLSCredentials (TLS c) in Ok (TLSCreds t) else Ok Insecure
             | None => Ok Insecure
             end in
  Ok (mkServerOptions (15 * Minute) (30 * Minute) (5 * Minute) (5 * Minute) Second (5 * Minute) true streams cr).

(** A client of the server: whether it speaks TLS 1.3, and the authorities that its
    certificate verifies against. *)
Record Peer := mkPeer { speaksTLS13 : bool; verifies : string -> bool }.

(** The handshake of crypto/tls with these settings. *)
Definition admits (o : ServerOptions) (p : Peer) : bool :=
  match creds o with
  | Insecure => true
  | TLSCreds t => speaksTLS13 p && match RequireClientCert t with Some ca => verifies p ca | None => true end
  end.

(** With TLS the server starts only with a certificate that loads, admits only TLS 1.3
    and, with mutual TLS, only a client whose certificate the configured authority
    signed; it never falls back to an open listener. *)
Lemma tls_enforced c o : tlsEnabled (TLS c) = true -> NewGRPCServer (Some c) = Ok o ->
  load_pair (CertFile (TLS c)) (KeyFile (TLS c)) = true /\
  forall p, admits o p = true ->
    speaksTLS13 p = true /\
    (MutualTLS (TLS c) = true -> exists ca, read_file (tlsCAFile (TLS c)) = Some ca /\ has_certs ca = true /\ verifies p ca = true).
Proof.
  unfold NewGRPCServer, buildTLSCredentials. intros ->. destruct (load_pair _ _); [|done]. cbn [negb].
  destruct (MutualTLS (TLS c)).
  - destruct (String.eqb _ ""); [done|]. destruct (read_file _) as [ca|]; [|done]. destruct (has_certs ca) eqn:Hc; [|done].
    intros [= <-]. split; [done|]. intros p Hp. cbn in Hp. bool_hyps. naive_solver.
  - intros [= <-]. split; [done|]. intros p Hp. cbn in Hp. bool_hyps. done.
Qed.

(** The number of concurrent streams is always bounded. *)
Lemma streams_bounded cfg o : NewGRPCServer cfg = Ok o -> (0 < maxConcurrentStreams o)%Z.
Proof.
  unfold NewGRPCServer. intros H. destruct cfg as [c|]; cbn in H; [|injection H as <-; cbn; lia].
  destruct (if tlsEnabled (TLS c) then _ else _) as [cr|]; [|done]. injection H as <-. cbn.
  destruct (Z.ltb_spec 0 (MaxConcurrentStreams c)); lia.
Qed.
End Listen.

End GrpcListen.
