(* ===== verification/Deny.v ===== *)
(** * Deny: the deny filter (internal/filters/deny/deny.go)

    [NewDenyFilter] normalises the configuration, [Execute] evaluates the
    conditions in the code's order. The reference definition [deny_matches] reads
    the configuration as written. *)

From S2P Require Import Prelude GoStrings Selector Context Executor Config.

Local Open Scope string_scope.
Local Open Scope list_scope.

Module Deny.

(** ** The filter *)

Record DenyMatchConfig := mkDenyMatchConfig {
  dPathPrefix : string;
  dPathRegex : string;
  dCompiledPathRegex : option Regex;
  dHeaders : GoMap string;
  dResponseHeaders : GoMap string;
  dNotHeaders : GoMap string;
  dNotResponseHeaders : GoMap string
}.
#[export] Instance DenyMatchConfig_eta : Eta DenyMatchConfig := fun x =>
  mkDenyMatchConfig (dPathPrefix x) (dPathRegex x) (dCompiledPathRegex x) (dHeaders x) (dResponseHeaders x)
    (dNotHeaders x) (dNotResponseHeaders x).

Record DenyFilterConfig := mkDenyFilterConfig { StatusCode : Z; Body : string; Match : DenyMatchConfig }.
#[export] Instance DenyFilterConfig_eta : Eta DenyFilterConfig := fun x =>
  mkDenyFilterConfig (StatusCode x) (Body x) (Match x).

Record DenyFilter := mkDenyFilter { config : DenyFilterConfig; hasConditions : bool; matchesResponse : bool }.

Definition lowercaseHeaderMapKeys (m : GoMap string) : GoMap string :=
  match m with
  | [] => m
  | _ => rekey ToLower m
  end.

(** [hasConditions] of [NewDenyFilter]. *)
Definition conditions (m : DenyMatchConfig) : bool :=
  negb (String.eqb (dPathPrefix m) "") || negb (String.eqb (dPathRegex m) "") || nonempty (dHeaders m)
  || nonempty (dResponseHeaders m) || nonempty (dNotHeaders m) || nonempty (dNotResponseHeaders m).

Section New.
(** [regexp.Compile] *)
Variable regexp : string -> option Regex.

Definition NewDenyFilter (cfg : DenyFilterConfig) : result DenyFilter :=
  let? cfg := (if String.eqb (dPathRegex (Match cfg)) "" then Ok cfg
               else match regexp (dPathRegex (Match cfg)) with
                    | None => Err "deny filter: invalid path_regex"
                    | Some re => Ok (cfg <| Match := (Match cfg) <| dCompiledPathRegex := Some re |> |>)
                    end) in
  let cfg := if (StatusCode cfg =? 0)%Z then cfg <| StatusCode := 403%Z |> else cfg in
  let cfg := if String.eqb (Body cfg) "" then cfg <| Body := "Forbidden" |> else cfg in
  let m := Match cfg in
  let m := m <| dHeaders := lowercaseHeaderMapKeys (dHeaders m) |>
             <| dResponseHeaders := lowercaseHeaderMapKeys (dResponseHeaders m) |>
             <| dNotHeaders := lowercaseHeaderMapKeys (dNotHeaders m) |>
             <| dNotResponseHeaders := lowercaseHeaderMapKeys (dNotResponseHeaders m) |> in
  let cfg := cfg <| Match := m |> in
  Ok (mkDenyFilter cfg (conditions m) (nonempty (dResponseHeaders m) || nonempty (dNotResponseHeaders m))).
End New.

Definition SupportedPhases (f : DenyFilter) : list Phase :=
  if matchesResponse f then [PhaseResponseHeaders] else [PhaseRequestHeaders].

(** The body of the loop over required headers, and over forbidden ones: [true]
    when the loop goes on. *)
Definition header_required (actual expected : string) : bool :=
  if String.eqb expected "*" then negb (String.eqb actual "") else String.eqb actual expected.
Definition header_forbidden (actual expected : string) : bool :=
  if String.eqb expected "*" then String.eqb actual "" else negb (String.eqb actual expected).

Definition applyBlock (f : DenyFilter) (c : RequestContext) : RequestContext :=
  c <| Blocked := true |> <| ResponseStatus := StatusCode (config f) |> <| ResponseBody := Body (config f) |>.

Definition Execute {W : Type} (f : DenyFilter) : Exec W := fun c w =>
  let m := Match (config f) in
  if negb (hasConditions f) then (None, applyBlock f c, w)
  else if negb (String.eqb (dPathPrefix m) "") && negb (HasPrefix (Path c) (dPathPrefix m)) then (None, c, w)
  else if match dCompiledPathRegex m with Some re => negb (re (Path c)) | None => false end then (None, c, w)
  else if negb (forallb (fun e => header_required (GetHeader c e.1) e.2) (dHeaders m)) then (None, c, w)
  else if negb (forallb (fun e => header_required (GetResponseHeader c e.1) e.2) (dResponseHeaders m)) then (None, c, w)
  else if negb (forallb (fun e => header_forbidden (GetHeader c e.1) e.2) (dNotHeaders m)) then (None, c, w)
  else if negb (forallb (fun e => header_forbidden (GetResponseHeader c e.1) e.2) (dNotResponseHeaders m)) then (None, c, w)
  else (None, applyBlock f c, w).

(** ** What the configuration says *)

(** A header condition as written: the name in any case, "*" for any value. *)
Definition says (headers : gmap string string) (e : string * string) : Prop :=
  let actual := default "" (headers !! ToLower e.1) in
  if String.eqb e.2 "*" then actual <> "" else actual = e.2.

Definition deny_matches (regexp : string -> option Regex) (m : DenyMatchConfig) (c : RequestContext) : Prop :=
  HasPrefix (Path c) (dPathPrefix m) = true /\
  (dPathRegex m = "" \/ exists re, regexp (dPathRegex m) = Some re /\ re (Path c) = true) /\
  Forall (says (effective c).1) (dHeaders m) /\ Forall (says (effective c).2) (dResponseHeaders m) /\
  Forall (fun e => ~ says (effective c).1 e) (dNotHeaders m) /\
  Forall (fun e => ~ says (effective c).2 e) (dNotResponseHeaders m).

(** Header names that differ only in case would be one condition. *)
Definition names_distinct (m : DenyMatchConfig) : Prop :=
  NoDup (ToLower <$> (dHeaders m).*1) /\ NoDup (ToLower <$> (dResponseHeaders m).*1) /\
  NoDup (ToLower <$> (dNotHeaders m).*1) /\ NoDup (ToLower <$> (dNotResponseHeaders m).*1).

(** ** Lemmas *)

Lemma lowercaseHeaderMapKeys_spec m :
  NoDup (ToLower <$> m.*1) -> lowercaseHeaderMapKeys m = (fun e => (ToLower e.1, e.2)) <$> m.
Proof. intros Hnd. destruct m as [|e m]; [done|]. exact (rekey_spec ToLower (e :: m) Hnd). Qed.

Lemma required_says headers e actual :
  actual = default "" (headers !! ToLower e.1) -> header_required actual e.2 = true <-> says headers e.
Proof.
  intros ->. unfold header_required, says. destruct (String.eqb e.2 "*"); [|apply String.eqb_eq].
  by rewrite negb_true_iff, String.eqb_neq.
Qed.

Lemma forbidden_required actual expected : header_forbidden actual expected = negb (header_required actual expected).
Proof. unfold header_forbidden, header_required. case_match; by rewrite ?negb_involutive. Qed.

(** Each loop of [Execute], read against the configuration as written. *)
Lemma required_loop headers get m :
  NoDup (ToLower <$> m.*1) -> (forall k, get (ToLower k) = default "" (headers !! ToLower k)) ->
  forallb (fun e => header_required (get e.1) e.2) (lowercaseHeaderMapKeys m) = true <-> Forall (says headers) m.
Proof.
  intros Hnd Hget. rewrite lowercaseHeaderMapKeys_spec by done. rewrite forallb_Forall, Forall_fmap.
  apply Forall_iff. intros e. cbn. by apply required_says.
Qed.

Lemma forbidden_loop headers get m :
  NoDup (ToLower <$> m.*1) -> (forall k, get (ToLower k) = default "" (headers !! ToLower k)) ->
  forallb (fun e => header_forbidden (get e.1) e.2) (lowercaseHeaderMapKeys m) = true <->
  Forall (fun e => ~ says headers e) m.
Proof.
  intros Hnd Hget. rewrite lowercaseHeaderMapKeys_spec by done. rewrite forallb_Forall, Forall_fmap.
  apply Forall_iff. intros e. cbn. rewrite forbidden_required, negb_true_iff.
  rewrite <- (required_says headers e) by apply Hget. by rewrite not_true_iff_false.
Qed.

Lemma getters c :
  (forall k, GetHeader c (ToLower k) = default "" ((effective c).1 !! ToLower k)) /\
  (forall k, GetResponseHeader c (ToLower k) = default "" ((effective c).2 !! ToLower k)).
Proof.
  split; intros k; [apply GetHeader_effective|]. by rewrite GetResponseHeader_effective, ToLower_idem.
Qed.

#[export] Instance Execute_ok {W : Type} (f : DenyFilter) : FilterOk (W := W) (Execute f).
Proof.
  intros c w err c' w'. unfold Execute. repeat case_match; intros [= <- <- <-]; by apply keeps_other.
Qed.

(** The filter built from [cfg]: the fields [Execute] reads. *)
Lemma NewDenyFilter_spec regexp cfg f :
  NewDenyFilter regexp cfg = Ok f -> dCompiledPathRegex (Match cfg) = None ->
  let m := Match (config f) in
  dPathPrefix m = dPathPrefix (Match cfg) /\ dPathRegex m = dPathRegex (Match cfg) /\
  match dCompiledPathRegex m with
  | Some re => dPathRegex (Match cfg) <> "" /\ regexp (dPathRegex (Match cfg)) = Some re
  | None => dPathRegex (Match cfg) = ""
  end /\
  dHeaders m = lowercaseHeaderMapKeys (dHeaders (Match cfg)) /\
  dResponseHeaders m = lowercaseHeaderMapKeys (dResponseHeaders (Match cfg)) /\
  dNotHeaders m = lowercaseHeaderMapKeys (dNotHeaders (Match cfg)) /\
  dNotResponseHeaders m = lowercaseHeaderMapKeys (dNotResponseHeaders (Match cfg)) /\
  hasConditions f = conditions m /\
  matchesResponse f = nonempty (dResponseHeaders m) || nonempty (dNotResponseHeaders m) /\
  StatusCode (config f) = (if (StatusCode cfg =? 0)%Z then 403%Z else StatusCode cfg) /\
  Body (config f) = (if String.eqb (Body cfg) "" then "Forbidden" else Body cfg).
Proof.
  destruct cfg as [sc body [pp pr cre h rh nh nrh]]. unfold NewDenyFilter. cbn. intros H ->.
  destruct (String.eqb_spec pr "") as [->|Hre]; [|destruct (regexp pr) as [re|] eqn:Er; [|done]]; cbn in H;
    destruct (sc =? 0)%Z; cbn in H; destruct (String.eqb body ""); injection H as <-; repeat (split; [done|]); done.
Qed.

Lemma conditions_false m :
  conditions m = false -> dPathPrefix m = "" /\ dPathRegex m = "" /\ dHeaders m = [] /\ dResponseHeaders m = [] /\
    dNotHeaders m = [] /\ dNotResponseHeaders m = [].
Proof.
  unfold conditions. rewrite !orb_false_iff, !negb_false_iff, !String.eqb_eq.
  destruct (dHeaders m), (dResponseHeaders m), (dNotHeaders m), (dNotResponseHeaders m); naive_solver.
Qed.

(** [Execute] blocks exactly when all its checks pass, and changes nothing otherwise. *)
Lemma Execute_cases {W : Type} (f : DenyFilter) c (w : W) (P : Prop) :
  (hasConditions f = false -> P) ->
  (let m := Match (config f) in
   P <-> (dPathPrefix m = "" \/ HasPrefix (Path c) (dPathPrefix m) = true) /\
         match dCompiledPathRegex m with Some re => re (Path c) = true | None => True end /\
         forallb (fun e => header_required (GetHeader c e.1) e.2) (dHeaders m) = true /\
         forallb (fun e => header_required (GetResponseHeader c e.1) e.2) (dResponseHeaders m) = true /\
         forallb (fun e => header_forbidden (GetHeader c e.1) e.2) (dNotHeaders m) = true /\
         forallb (fun e => header_forbidden (GetResponseHeader c e.1) e.2) (dNotResponseHeaders m) = true) ->
  (P /\ Execute f c w = (None, applyBlock f c, w)) \/ (~ P /\ Execute f c w = (None, c, w)).
Proof.
  intros H0 Hiff. cbv zeta in Hiff. unfold Execute. destruct (hasConditions f); [|left; by auto]. cbn [negb].
  destruct (String.eqb_spec (dPathPrefix (Match (config f))) "") as [Hp|Hp]; cbn [negb andb];
    [|destruct (HasPrefix (Path c) _); cbn [negb]; [|right; naive_solver]];
  (destruct (dCompiledPathRegex _) as [re|]; [destruct (re (Path c)); cbn [negb]; [|right; naive_solver]|];
   repeat (match goal with |- context [forallb ?g ?l] => destruct (forallb g l) end; cbn [negb]; [|right; naive_solver]);
   left; naive_solver).
Qed.

(** ** Properties *)

(** C33: the deny filter does what its configuration says: a request (or response)
    is refused with the configured status and body exactly when the path and
    header conditions as written hold of the headers in effect (names in any
    case, "*" meaning any value, no conditions meaning always), the context is
    left alone otherwise, and conditions on the response are evaluated in the
    response phase only. *)
Theorem Deny_decides {W : Type} (regexp : string -> option Regex) (cfg : DenyFilterConfig) (f : DenyFilter)
  (c : RequestContext) (w : W) :
  NewDenyFilter regexp cfg = Ok f -> dCompiledPathRegex (Match cfg) = None -> names_distinct (Match cfg) ->
  let status := if (StatusCode cfg =? 0)%Z then 403%Z else StatusCode cfg in
  let body := if String.eqb (Body cfg) "" then "Forbidden" else Body cfg in
  ((deny_matches regexp (Match cfg) c /\ Execute f c w = (None, Block c status body, w)) \/
   (~ deny_matches regexp (Match cfg) c /\ Execute f c w = (None, c, w))) /\
  SupportedPhases f = (if nonempty (dResponseHeaders (Match cfg)) || nonempty (dNotResponseHeaders (Match cfg))
                       then [PhaseResponseHeaders] else [PhaseRequestHeaders]).
Proof.
  intros HN Hnone (N1 & N2 & N3 & N4). cbv zeta.
  destruct (NewDenyFilter_spec regexp cfg f HN Hnone) as (Epp & Epr & Ere & E1 & E2 & E3 & E4 & Eh & Em & Es & Eb).
  split; [|unfold SupportedPhases; rewrite Em, E2, E4, !lowercaseHeaderMapKeys_spec by done;
           by destruct (dResponseHeaders (Match cfg)), (dNotResponseHeaders (Match cfg))].
  unfold Block. rewrite <- Es, <- Eb. destruct (getters c) as [G1 G2].
  assert (dPathPrefix (Match cfg) = "" -> HasPrefix (Path c) (dPathPrefix (Match cfg)) = true) as Hpre
    by (intros ->; by destruct (Path c)).
  apply (Execute_cases f c w (deny_matches regexp (Match cfg) c)).
  - intros Hc. rewrite Eh in Hc. apply conditions_false in Hc.
    rewrite E1, E2, E3, E4, Epp, Epr, !lowercaseHeaderMapKeys_spec in Hc by done.
    destruct Hc as (H1 & H2 & H3%fmap_nil_inv & H4%fmap_nil_inv & H5%fmap_nil_inv & H6%fmap_nil_inv).
    unfold deny_matches. rewrite H3, H4, H5, H6. split; [auto|]. split; [by left|]. by repeat split.
  - cbv zeta. rewrite E1, E2, E3, E4, Epp. unfold deny_matches.
    rewrite (required_loop _ (GetHeader c)), (required_loop _ (GetResponseHeader c)),
      (forbidden_loop _ (GetHeader c)), (forbidden_loop _ (GetResponseHeader c)) by done.
    destruct (dCompiledPathRegex (Match (config f))) as [re|]; naive_solver.
Qed.

Definition example_deny : DenyFilterConfig :=
  mkDenyFilterConfig 0 "" (mkDenyMatchConfig "/admin" "" None [("X-Role", "guest")] [] [("X-Trace", "*")] []).
Definition example_ctx : RequestContext :=
  newContext <| Path := "/admin/users" |> <| Headers := {["x-role" := "guest"]} |>.

Lemma Deny_decides_witness :
  exists f, NewDenyFilter (fun _ => None) example_deny = Ok f /\
    Execute f example_ctx () = (None, Block example_ctx 403 "Forbidden", ()).
Proof.
  destruct (NewDenyFilter (fun _ => None) example_deny) as [f|] eqn:HN; [|by vm_compute in HN].
  exists f. split; [done|].
  destruct (Deny_decides (fun _ => None) example_deny f example_ctx () HN eq_refl) as [[[_ H]|[H _]] _].
  - repeat split; cbn; repeat constructor; set_solver.
  - exact H.
  - exfalso. apply H. split; [done|]. split; [by left|]. split; [by repeat constructor|].
    split; [constructor|]. split; [|constructor]. repeat constructor. vm_compute. intros H1. by apply H1.
Defined.

End Deny.
