(* ===== verification/HeaderModifier.v ===== *)
(** * HeaderModifier: the header_modifier filter
    (internal/filters/header_modifier/modifier.go)

    The Go maps are lists in their iteration order of the call; the theorem
    describes the result by finite maps, so it is the same for every order. *)

From S2P Require Import Prelude GoStrings Context Executor.

Local Open Scope string_scope.
Local Open Scope list_scope.

Module HeaderModifier.

(** ** The filter *)

Record HeaderOptions := mkHeaderOptions { Add : GoMap string; Override : GoMap string; Remove : list string }.

(** [Top] are the three shorthand fields of the configuration itself. *)
Record HeaderModifierConfig := mkHeaderModifierConfig {
  Upstream : HeaderOptions; Downstream : HeaderOptions; Top : HeaderOptions }.

Definition lowercaseMap (m : GoMap string) : GoMap string := rekey ToLower m.
Definition lowercaseSlice (l : list string) : list string := ToLower <$> l.

Definition lowercaseOptions (o : HeaderOptions) : HeaderOptions :=
  mkHeaderOptions (lowercaseMap (Add o)) (lowercaseMap (Override o)) (lowercaseSlice (Remove o)).

Definition NewHeaderModifierFilter (config : HeaderModifierConfig) : HeaderModifierConfig :=
  mkHeaderModifierConfig (lowercaseOptions (Upstream config)) (lowercaseOptions (Downstream config))
    (lowercaseOptions (Top config)).

(** The three loops over one block of options. *)
Definition apply_upstream (o : HeaderOptions) (c : RequestContext) : RequestContext :=
  let c := fold_left (fun c e => SetHeaderUpstream c e.1 e.2) (Add o) c in
  let c := fold_left (fun c e => SetHeaderUpstream c e.1 e.2) (Override o) c in
  fold_left RemoveHeaderUpstream (Remove o) c.
Definition apply_downstream (o : HeaderOptions) (c : RequestContext) : RequestContext :=
  let c := fold_left (fun c e => SetHeaderDownstream c e.1 e.2) (Add o) c in
  let c := fold_left (fun c e => SetHeaderDownstream c e.1 e.2) (Override o) c in
  fold_left RemoveHeaderDownstream (Remove o) c.

Definition Execute {W : Type} (f : HeaderModifierConfig) : Exec W := fun c w =>
  (None, apply_downstream (Downstream f) (apply_upstream (Upstream f) (apply_upstream (Top f) c)), w).

(** ** Reference *)

Definition lowered (m : GoMap string) : gmap string string := list_to_map ((fun e => (ToLower e.1, e.2)) <$> m).

(** What one block of options does to a header map: overrides win over
    additions, removals over both. *)
Definition rewrite_headers (o : HeaderOptions) (m : gmap string string) : gmap string string :=
  foldr delete (lowered (Override o) ∪ (lowered (Add o) ∪ m)) (ToLower <$> Remove o).

Definition names_distinct (o : HeaderOptions) : Prop :=
  NoDup (ToLower <$> (Add o).*1) /\ NoDup (ToLower <$> (Override o).*1).

(** ** Lemmas *)

(** One block of options as header calls on a side. *)
Definition block_calls (set : string -> string -> HeaderCall) (remove : string -> HeaderCall) (o : HeaderOptions)
  : list HeaderCall :=
  ((fun e => set e.1 e.2) <$> Add o) ++ ((fun e => set e.1 e.2) <$> Override o) ++ (remove <$> Remove o).

Lemma apply_upstream_calls o c : apply_upstream o c = do_calls (block_calls CallSetUp CallRemoveUp o) c.
Proof.
  unfold do_calls, block_calls, apply_upstream. rewrite !fold_left_app, !fold_left_fmap. done.
Qed.
Lemma apply_downstream_calls o c : apply_downstream o c = do_calls (block_calls CallSetDown CallRemoveDown o) c.
Proof.
  unfold do_calls, block_calls, apply_downstream. rewrite !fold_left_app, !fold_left_fmap. done.
Qed.

#[export] Instance Execute_ok {W : Type} (f : HeaderModifierConfig) : FilterOk (W := W) (Execute f).
Proof.
  intros c w err c' w' [= <- <- <-]. rewrite apply_downstream_calls, !apply_upstream_calls.
  etrans; [|apply keeps_calls]. etrans; [|apply keeps_calls]. apply keeps_calls.
Qed.

(** Setting every pair of a map with distinct names. *)
Lemma fold_set_lowered (m : GoMap string) (b : gmap string string) :
  NoDup (ToLower <$> m.*1) ->
  fold_left (fun b e => <[ToLower e.1 := e.2]> b) m b = lowered m ∪ b.
Proof.
  unfold lowered. revert b. induction m as [|[k v] m IH]; intros b Hnd; cbn; [by rewrite map_empty_union|].
  cbn in Hnd. apply NoDup_cons in Hnd as [Hk Hnd]. rewrite IH by done.
  rewrite <- insert_union_r; [by rewrite insert_union_l|].
  apply not_elem_of_list_to_map_1. by rewrite <- list_fmap_compose, <- (list_fmap_compose fst ToLower) in *.
Qed.

Lemma fold_delete_lowered (l : list string) (b : gmap string string) :
  fold_left (fun b k => delete (ToLower k) b) l b = foldr delete b (ToLower <$> l).
Proof.
  revert b. induction l as [|k l IH]; intros b; cbn; [done|]. rewrite IH. clear IH.
  induction l as [|k' l IH]; cbn; [done|]. by rewrite IH, delete_delete.
Qed.

(** The calls of one block on the upstream and on the downstream map. *)
Lemma fold_set_up (m : GoMap string) x :
  fold_left (fun x e => spec_call x (CallSetUp e.1 e.2)) m x =
  (fold_left (fun b e => <[ToLower e.1 := e.2]> b) m x.1, x.2).
Proof. revert x. induction m as [|e m IH]; intros x; [by destruct x|]. cbn [fold_left]. by rewrite IH. Qed.
Lemma fold_set_down (m : GoMap string) x :
  fold_left (fun x e => spec_call x (CallSetDown e.1 e.2)) m x =
  (x.1, fold_left (fun b e => <[ToLower e.1 := e.2]> b) m x.2).
Proof. revert x. induction m as [|e m IH]; intros x; [by destruct x|]. cbn [fold_left]. by rewrite IH. Qed.
Lemma fold_remove_up (l : list string) x :
  fold_left (fun x k => spec_call x (CallRemoveUp k)) l x =
  (fold_left (fun b k => delete (ToLower k) b) l x.1, x.2).
Proof. revert x. induction l as [|e l IH]; intros x; [by destruct x|]. cbn [fold_left]. by rewrite IH. Qed.
Lemma fold_remove_down (l : list string) x :
  fold_left (fun x k => spec_call x (CallRemoveDown k)) l x =
  (x.1, fold_left (fun b k => delete (ToLower k) b) l x.2).
Proof. revert x. induction l as [|e l IH]; intros x; [by destruct x|]. cbn [fold_left]. by rewrite IH. Qed.

(** Lower-casing twice changes nothing. *)
Lemma lowered_idem (m : GoMap string) :
  NoDup (ToLower <$> m.*1) -> NoDup (ToLower <$> (rekey ToLower m).*1) /\ lowered (rekey ToLower m) = lowered m.
Proof.
  intros Hnd. rewrite rekey_spec by done. unfold lowered.
  assert (forall l : GoMap string, ToLower <$> ((fun e => (ToLower e.1, e.2)) <$> l).*1 = ToLower <$> l.*1 /\
    (fun e => (ToLower e.1, e.2)) <$> ((fun e => (ToLower e.1, e.2)) <$> l) = (fun e => (ToLower e.1, e.2)) <$> l) as H.
  { induction l as [|e l [E1 E2]]; [done|]. cbn in *. by rewrite E1, E2, ToLower_idem. }
  destruct (H m) as [-> ->]. done.
Qed.

Lemma remove_idem (l : list string) : ToLower <$> (lowercaseSlice l) = ToLower <$> l.
Proof. unfold lowercaseSlice. rewrite <- list_fmap_compose. apply list_fmap_ext. intros i k _. apply ToLower_idem. Qed.

Lemma block_effect_up o x :
  names_distinct o ->
  fold_left spec_call (block_calls CallSetUp CallRemoveUp (lowercaseOptions o)) x = (rewrite_headers o x.1, x.2).
Proof.
  intros [[Ha Ea]%lowered_idem [Ho Eo]%lowered_idem]. unfold block_calls, rewrite_headers.
  rewrite !fold_left_app, !fold_left_fmap, !fold_set_up, fold_remove_up. cbn [fst snd lowercaseOptions Add Override Remove].
  unfold lowercaseMap. by rewrite fold_delete_lowered, remove_idem, !fold_set_lowered, Ea, Eo by done.
Qed.

Lemma block_effect_down o x :
  names_distinct o ->
  fold_left spec_call (block_calls CallSetDown CallRemoveDown (lowercaseOptions o)) x = (x.1, rewrite_headers o x.2).
Proof.
  intros [[Ha Ea]%lowered_idem [Ho Eo]%lowered_idem]. unfold block_calls, rewrite_headers.
  rewrite !fold_left_app, !fold_left_fmap, !fold_set_down, fold_remove_down. cbn [fst snd lowercaseOptions Add Override Remove].
  unfold lowercaseMap. by rewrite fold_delete_lowered, remove_idem, !fold_set_lowered, Ea, Eo by done.
Qed.

(** ** Properties *)

(** Whatever order the configuration's maps are iterated in, the filter gives
    the upstream the request headers in effect rewritten first by the top-level
    options and then by the upstream block, gives the client the response headers
    rewritten by the downstream block, and touches nothing else: header names
    match in any case, overrides win over additions, removals over both. *)
Theorem Execute_rewrites {W : Type} (cfg : HeaderModifierConfig) (c : RequestContext) (w : W) :
  ctx_wf c -> names_distinct (Top cfg) -> names_distinct (Upstream cfg) -> names_distinct (Downstream cfg) ->
  exists c', Execute (NewHeaderModifierFilter cfg) c w = (None, c', w) /\ ctx_wf c' /\
    effective c' = (rewrite_headers (Upstream cfg) (rewrite_headers (Top cfg) (effective c).1),
                    rewrite_headers (Downstream cfg) (effective c).2).
Proof.
  intros Hc Ht Hu Hd. eexists. split; [reflexivity|]. cbn [NewHeaderModifierFilter Upstream Downstream Top].
  rewrite apply_downstream_calls, !apply_upstream_calls.
  destruct (do_calls_spec (block_calls CallSetUp CallRemoveUp (lowercaseOptions (Top cfg))) c Hc) as [H1 E1].
  destruct (do_calls_spec (block_calls CallSetUp CallRemoveUp (lowercaseOptions (Upstream cfg))) _ H1) as [H2 E2].
  destruct (do_calls_spec (block_calls CallSetDown CallRemoveDown (lowercaseOptions (Downstream cfg))) _ H2) as [H3 E3].
  split; [exact H3|]. by rewrite E3, E2, E1, block_effect_down, !block_effect_up by done.
Qed.

Lemma Execute_rewrites_witness :
  let cfg := mkHeaderModifierConfig (mkHeaderOptions [("X-A", "1")] [] ["Cookie"]) (mkHeaderOptions [] [] ["server"])
               (mkHeaderOptions [] [("x-a", "2")] []) in
  exists c', Execute (NewHeaderModifierFilter cfg) newContext () = (None, c', ()) /\
    (effective c').1 = rewrite_headers (Upstream cfg) (rewrite_headers (Top cfg) (effective newContext).1).
Proof.
  intros cfg. destruct (Execute_rewrites cfg newContext ()) as (c' & He & _ & Hf);
    [apply newContext_wf|repeat split; repeat constructor; set_solver..|].
  exists c'. split; [exact He|]. rewrite Hf. reflexivity.
Defined.

End HeaderModifier.
