(* ===== verification/Cors.v ===== *)
(** * Cors: the cors filter (internal/filters/cors/cors.go)

    [NewFilter] validates the configuration, [Execute] decides preflights and
    queues the Access-Control headers. The lemmas describe what a response can
    tell a browser; the theorem states when it may. *)

From S2P Require Import Prelude GoStrings Selector Context Executor Config.

Local Open Scope string_scope.
Local Open Scope list_scope.

Module Cors.

(** ** The filter *)

Record CorsConfig := mkCorsConfig {
  AllowOrigins : list string;
  AllowOriginRegex : list string;
  AllowMethods : list string;
  AllowHeaders : list string;
  ExposeHeaders : list string;
  AllowCredentials : bool;
  MaxAge : Z;
  BlockDisallowedOrigins : bool
}.

Record Filter := mkFilter {
  cfg : CorsConfig;
  anyOrigin : bool;
  origins : gset string;
  originRegexps : list Regex;
  methods : string;
  anyMethod : bool;
  headers : string;
  anyHeader : bool;
  expose : string;
  maxAge : string
}.

(** The loop of [joinList] after the items before it gave [out]. *)
Fixpoint join_loop (norm : string -> string) (out : list string) (items : list string) : string * bool :=
  match items with
  | [] => (Join out ", ", false)
  | it :: rest =>
      let it := TrimSpace it in
      if String.eqb it "*" then ("", true)
      else join_loop norm (if String.eqb it "" then out else out ++ [norm it]) rest
  end.
Definition joinList (items : list string) (norm : string -> string) : string * bool := join_loop norm [] items.

(** The loop over [AllowOrigins]. *)
Definition add_origin (acc : bool * gset string) (o : string) : bool * gset string :=
  let o := TrimSpace o in
  if String.eqb o "*" then (true, acc.2)
  else if String.eqb o "" then acc
  else (acc.1, {[ToLower (TrimSuffix o "/")]} ∪ acc.2).

Section New.
(** [regexp.Compile] *)
Variable regexp : string -> option Regex.

Definition origin_pattern (pattern : string) : string := ("^(?:" +++ pattern +++ ")$")%go.

Definition NewFilter (c : CorsConfig) : result Filter :=
  let '(any, os) := fold_left add_origin (AllowOrigins c) (false, ∅) in
  let? res := map_result (fun p => match regexp (origin_pattern p) with
                                   | Some re => Ok re
                                   | None => Err "cors: invalid allow_origin_regex"
                                   end) (AllowOriginRegex c) in
  if negb any && bool_decide (os = ∅) && negb (nonempty res)
  then Err "cors: at least one of allow_origins or allow_origin_regex is required"
  else if any && AllowCredentials c then Err "cors: allow_credentials cannot be combined with any origin"
  else if (MaxAge c <? 0)%Z then Err "cors: max_age must be >= 0"
  else
    let ms := if nonempty (AllowMethods c) then AllowMethods c else ["GET"; "HEAD"; "POST"] in
    let '(m, anyM) := joinList ms ToUpper in
    let '(h, anyH) := joinList (AllowHeaders c) ToLower in
    let '(e, _) := joinList (ExposeHeaders c) ToLower in
    Ok (mkFilter c any os res m anyM h anyH e (if (0 <? MaxAge c)%Z then Itoa (MaxAge c) else "")).
End New.

Definition SupportedPhases : list Phase := [PhaseRequestHeaders; PhaseResponseHeaders].

Definition originAllowed (f : Filter) (origin : string) : bool :=
  if anyOrigin f then true
  else if bool_decide (ToLower origin ∈ origins f) then true
  else existsb (fun re : Regex => re origin) (originRegexps f).

Definition reflectsOrigin (f : Filter) : bool := negb (anyOrigin f).

Definition setAllowOrigin (f : Filter) (c : RequestContext) (origin : string) : RequestContext :=
  let c := if reflectsOrigin f
           then SetHeaderDownstream (SetHeaderDownstream c "access-control-allow-origin" origin) "vary" "Origin"
           else SetHeaderDownstream c "access-control-allow-origin" "*" in
  if AllowCredentials (cfg f) then SetHeaderDownstream c "access-control-allow-credentials" "true" else c.

Definition mergeVary (existing token : string) : string :=
  if String.eqb existing "" then token
  else if existsb (fun part => let p := TrimSpace part in String.eqb p "*" || EqualFold p token)
            (Split existing ",") then existing
  else (existing +++ ", " +++ token)%go.

(** The preflight branch of [Execute]. *)
Definition answer_preflight (f : Filter) (c : RequestContext) : RequestContext :=
  let ms := if anyMethod f then ToUpper (GetHeader c "access-control-request-method") else methods f in
  let c := SetHeaderDownstream c "access-control-allow-methods" ms in
  let hs := if anyHeader f then GetHeader c "access-control-request-headers" else headers f in
  let c := if String.eqb hs "" then c else SetHeaderDownstream c "access-control-allow-headers" hs in
  let c := if String.eqb (maxAge f) "" then c else SetHeaderDownstream c "access-control-max-age" (maxAge f) in
  Answer c 204 "".

Definition is_preflight (c : RequestContext) : bool :=
  String.eqb (Method c) "OPTIONS" && negb (String.eqb (GetHeader c "access-control-request-method") "").

Definition Execute {W : Type} (f : Filter) : Exec W := fun c w =>
  let origin := GetHeader c "origin" in
  if String.eqb origin "" then (None, c, w)
  else
    let allowed := originAllowed f origin in
    if bool_decide (CPhase c = PhaseResponseHeaders) then
      (None, if allowed && reflectsOrigin f
             then SetHeaderDownstream c "vary" (mergeVary (default "" (ResponseHeaders c !! "vary")) "Origin")
             else c, w)
    else
      let preflight := is_preflight c in
      if negb allowed then
        (None, if preflight || BlockDisallowedOrigins (cfg f) then Block c 403 "CORS origin not allowed" else c, w)
      else
        let c := setAllowOrigin f c origin in
        if preflight then (None, answer_preflight f c, w)
        else (None, if String.eqb (expose f) "" then c
                    else SetHeaderDownstream c "access-control-expose-headers" (expose f), w).

(** ** What the configuration says *)

(** The origin is allowed as the configuration is written. *)
Definition origin_listed (regexp : string -> option Regex) (c : CorsConfig) (origin : string) : Prop :=
  (exists e, e ∈ AllowOrigins c /\ TrimSpace e = "*") \/
  (exists e, e ∈ AllowOrigins c /\ TrimSpace e <> "" /\ TrimSpace e <> "*" /\
             ToLower (TrimSuffix (TrimSpace e) "/") = ToLower origin) \/
  (exists p re, p ∈ AllowOriginRegex c /\ regexp (origin_pattern p) = Some re /\ re origin = true).

Definition allow_origin : string := "access-control-allow-origin".
Definition allow_credentials : string := "access-control-allow-credentials".

(** ** Lemmas *)

(** The loop over [AllowOrigins], one entry at a time. *)
Definition names (e o : string) : Prop :=
  TrimSpace e <> "" /\ TrimSpace e <> "*" /\ ToLower (TrimSuffix (TrimSpace e) "/") = o.

Lemma add_origin_spec acc e :
  ((add_origin acc e).1 = true <-> acc.1 = true \/ TrimSpace e = "*") /\
  (forall o, o ∈ (add_origin acc e).2 <-> o ∈ acc.2 \/ names e o).
Proof.
  unfold add_origin, names.
  destruct (String.eqb_spec (TrimSpace e) "*") as [E1|E1]; [|destruct (String.eqb_spec (TrimSpace e) "") as [E2|E2]];
    cbn [fst snd].
  - split; [by split; [right|]|]. intros o. split; [by left|]. by intros [?|(_ & ? & _)].
  - split; [split; [by left|by intros [?|?]]|]. intros o. split; [by left|]. by intros [?|(? & _)].
  - split; [split; [by left|by intros [?|?]]|]. intros o. rewrite elem_of_union, elem_of_singleton. split.
    + intros [->|?]; [right|by left]. done.
    + intros [?|(_ & _ & <-)]; [by right|by left].
Qed.

Lemma fold_add_origin l acc :
  ((fold_left add_origin l acc).1 = true <-> acc.1 = true \/ exists e, e ∈ l /\ TrimSpace e = "*") /\
  (forall o, o ∈ (fold_left add_origin l acc).2 <-> o ∈ acc.2 \/ exists e, e ∈ l /\ names e o).
Proof.
  revert acc. induction l as [|e l IH]; intros acc; cbn [fold_left].
  { split; [|intros o]; (split; [by left|]); intros [?|(e & He & _)]; try done; by apply elem_of_nil in He. }
  destruct (IH (add_origin acc e)) as [H1 H2]. destruct (add_origin_spec acc e) as [A1 A2]. split.
  - rewrite H1, A1. setoid_rewrite elem_of_cons. split; [intros [[?|?]|(x & ? & ?)]|intros [?|(x & [->|?] & ?)]]; eauto 6.
  - intros o. rewrite H2, A2. setoid_rewrite elem_of_cons.
    split; [intros [[?|?]|(x & ? & ?)]|intros [?|(x & [->|?] & ?)]]; eauto 6.
Qed.

Lemma regexps_spec regexp ps (res : list Regex) o :
  map_result (fun p => match regexp (origin_pattern p) with
                       | Some re => Ok re
                       | None => Err "cors: invalid allow_origin_regex"
                       end) ps = Ok res ->
  existsb (fun re : Regex => re o) res = true <->
  exists p re, p ∈ ps /\ regexp (origin_pattern p) = Some re /\ re o = true.
Proof.
  intros Hre%map_result_Forall2. rewrite existsb_elem.
  induction Hre as [|p re ps res Hp _ IH].
  { split; [intros (re & H & _)|intros (p & re & H & _)]; by apply elem_of_nil in H. }
  destruct (regexp (origin_pattern p)) as [re'|] eqn:E; [|done]. injection Hp as ->. setoid_rewrite elem_of_cons. split.
  - intros (r & [->|Hr] & Ho); [by eauto 6|]. destruct (proj1 IH) as (q & r' & ? & ? & ?); eauto 8.
  - intros (q & r & [->|Hq] & Hr & Ho); [exists r; split; [left; congruence|done]|].
    destruct (proj2 IH) as (r' & ? & ?); eauto 6.
Qed.

Lemma NewFilter_spec regexp c f :
  NewFilter regexp c = Ok f ->
  cfg f = c /\ (forall o, originAllowed f o = true <-> origin_listed regexp c o) /\
  (AllowCredentials c = true -> anyOrigin f = false).
Proof.
  unfold NewFilter. destruct (fold_add_origin (AllowOrigins c) (false, ∅)) as [Hany Hos].
  destruct (fold_left add_origin (AllowOrigins c) (false, ∅)) as [any os]. cbn [fst snd] in *.
  destruct (map_result _ (AllowOriginRegex c)) as [res|] eqn:Hre; [|done]. cbn [result_bind].
  destruct (negb any && _ && _); [done|]. destruct (any && AllowCredentials c) eqn:Hc; [done|].
  destruct (MaxAge c <? 0)%Z; [done|]. repeat destruct (joinList _ _) as [? ?]. intros [= <-].
  split; [done|]. split; [|intros HA; cbn; destruct any; [by rewrite HA in Hc|done]].
  intros o. unfold originAllowed, origin_listed. cbn [anyOrigin origins originRegexps].
  pose proof (regexps_spec regexp _ res o Hre) as Hres. specialize (Hos (ToLower o)). unfold names in Hos.
  destruct any.
  - split; [|done]. intros _. left. by destruct (proj1 Hany eq_refl).
  - case_bool_decide as Hin.
    + split; [|done]. intros _. apply Hos in Hin as [Hin|Hin]; [set_solver|]. by right; left.
    + rewrite Hres. split; [by right; right|]. intros [H|[H|H]]; [| |done].
      * by discriminate (proj2 Hany (or_intror H)).
      * exfalso. apply Hin, Hos. by right.
Qed.

(** A sequence of downstream headers set by the filter. *)
Definition set_all (l : list (string * string)) (c : RequestContext) : RequestContext :=
  fold_left (fun c e => SetHeaderDownstream c e.1 e.2) l c.

Lemma set_all_spec l c :
  ctx_wf c -> ctx_wf (set_all l c) /\ (effective (set_all l c)).1 = (effective c).1 /\
  (effective (set_all l c)).2 = fold_left (fun m e => <[ToLower e.1 := e.2]> m) l (effective c).2.
Proof.
  unfold set_all. revert c. induction l as [|[k v] l IH]; intros c Hc; [done|]. cbn [fold_left fst snd].
  destruct (SetHeaderDownstream_spec c k v Hc) as [Hw He]. destruct (IH _ Hw) as (H1 & H2 & H3).
  split; [done|]. rewrite H2, H3, He. done.
Qed.

Lemma set_all_app l l' c : set_all (l ++ l') c = set_all l' (set_all l c).
Proof. apply fold_left_app. Qed.

Lemma set_all_keeps l c : keeps c (set_all l c).
Proof.
  unfold set_all. revert c. induction l as [|[k v] l IH]; intros c; [done|]. cbn [fold_left].
  etrans; [exact (keeps_call c (CallSetDown k v))|apply IH].
Qed.

Lemma set_all_same l c :
  Blocked (set_all l c) = Blocked c /\ CPhase (set_all l c) = CPhase c /\ forall k, GetHeader (set_all l c) k = GetHeader c k.
Proof. unfold set_all. revert c. induction l as [|[k v] l IH]; intros c; [done|]. cbn [fold_left]. exact (IH _). Qed.

(** The headers of each branch. *)
Definition origin_headers (f : Filter) (origin : string) : list (string * string) :=
  (if reflectsOrigin f then [(allow_origin, origin); ("vary", "Origin")] else [(allow_origin, "*")]) ++
  (if AllowCredentials (cfg f) then [(allow_credentials, "true")] else []).

Lemma setAllowOrigin_all f c origin : setAllowOrigin f c origin = set_all (origin_headers f origin) c.
Proof. unfold setAllowOrigin, origin_headers. by destruct (reflectsOrigin f), (AllowCredentials (cfg f)). Qed.

Definition preflight_headers (f : Filter) (c : RequestContext) : list (string * string) :=
  let ms := if anyMethod f then ToUpper (GetHeader c "access-control-request-method") else methods f in
  let hs := if anyHeader f then GetHeader c "access-control-request-headers" else headers f in
  [("access-control-allow-methods", ms)] ++
  (if String.eqb hs "" then [] else [("access-control-allow-headers", hs)]) ++
  (if String.eqb (maxAge f) "" then [] else [("access-control-max-age", maxAge f)]).

Lemma answer_preflight_all f c : answer_preflight f c = Answer (set_all (preflight_headers f c) c) 204 "".
Proof.
  unfold answer_preflight, preflight_headers, set_all. rewrite !fold_left_app. cbn [fold_left fst snd].
  set (ms := if anyMethod f then _ else _).
  change (GetHeader (SetHeaderDownstream c "access-control-allow-methods" ms) "access-control-request-headers")
    with (GetHeader c "access-control-request-headers").
  destruct (anyHeader f); repeat case_match; done.
Qed.

(** The branches of [Execute] as header lists and a verdict. *)
Definition cors_headers (f : Filter) (c : RequestContext) : list (string * string) :=
  let origin := GetHeader c "origin" in
  if String.eqb origin "" || negb (originAllowed f origin) then []
  else if bool_decide (CPhase c = PhaseResponseHeaders) then
    if reflectsOrigin f then [("vary", mergeVary (default "" (ResponseHeaders c !! "vary")) "Origin")] else []
  else origin_headers f origin ++
       (if is_preflight c then preflight_headers f c
        else if String.eqb (expose f) "" then [] else [("access-control-expose-headers", expose f)]).

Definition cors_verdict (f : Filter) (c : RequestContext) (c' : RequestContext) : RequestContext :=
  let origin := GetHeader c "origin" in
  if String.eqb origin "" || bool_decide (CPhase c = PhaseResponseHeaders) then c'
  else if negb (originAllowed f origin)
  then if is_preflight c || BlockDisallowedOrigins (cfg f) then Block c' 403 "CORS origin not allowed" else c'
  else if is_preflight c then Answer c' 204 "" else c'.

Lemma Execute_branches {W : Type} f c (w : W) :
  Execute f c w = (None, cors_verdict f c (set_all (cors_headers f c) c), w).
Proof.
  unfold Execute, cors_verdict, cors_headers. destruct (String.eqb (GetHeader c "origin") ""); [done|]. cbn [orb].
  case_bool_decide as Hp.
  - by destruct (originAllowed f _), (reflectsOrigin f).
  - destruct (originAllowed f (GetHeader c "origin")); cbn [negb]; [|by destruct (is_preflight c || _)].
    rewrite setAllowOrigin_all, set_all_app.
    destruct (is_preflight c).
    + rewrite answer_preflight_all. f_equal. f_equal. unfold preflight_headers.
      destruct (set_all_same (origin_headers f (GetHeader c "origin")) c) as (_ & _ & Hg). by rewrite !Hg.
    + by destruct (String.eqb (expose f) "").
Qed.

#[export] Instance Execute_ok {W : Type} (f : Filter) : FilterOk (W := W) (Execute f).
Proof.
  intros c w err c' w'. rewrite Execute_branches. intros [= <- <- <-]. etrans; [apply set_all_keeps|].
  unfold cors_verdict. repeat case_match; by apply keeps_other.
Qed.

Lemma fold_insert_notin (l : list (string * string)) (m : gmap string string) k :
  Forall (fun e => ToLower e.1 <> k) l -> fold_left (fun m e => <[ToLower e.1 := e.2]> m) l m !! k = m !! k.
Proof.
  intros H. revert m. induction H as [|e l He _ IH]; intros m; [done|]. cbn [fold_left].
  by rewrite IH, lookup_insert_ne.
Qed.

(** Neither grant is among the other headers. *)
Lemma preflight_headers_no_grant f c k :
  k = allow_origin \/ k = allow_credentials -> Forall (fun e => ToLower e.1 <> k) (preflight_headers f c).
Proof.
  intros Hk. unfold preflight_headers. repeat case_match; repeat constructor; cbn [fst]; by destruct Hk as [->| ->]; vm_compute.
Qed.
Lemma later_headers_no_grant f c k :
  k = allow_origin \/ k = allow_credentials ->
  Forall (fun e => ToLower e.1 <> k) (if is_preflight c then preflight_headers f c
        else if String.eqb (expose f) "" then [] else [("access-control-expose-headers", expose f)]).
Proof.
  intros Hk. destruct (is_preflight c); [by apply preflight_headers_no_grant|].
  case_match; repeat constructor; cbn [fst]; by destruct Hk as [->| ->]; vm_compute.
Qed.

(** The two grants are what the origin headers say. *)
Lemma origin_headers_grant f c l (m : gmap string string) :
  Forall (fun e => ToLower e.1 <> allow_origin) l -> Forall (fun e => ToLower e.1 <> allow_credentials) l ->
  let m' := fold_left (fun m e => <[ToLower e.1 := e.2]> m) (origin_headers f (GetHeader c "origin") ++ l) m in
  m' !! allow_origin = Some (if anyOrigin f then "*" else GetHeader c "origin") /\
  (AllowCredentials (cfg f) = false -> m' !! allow_credentials = m !! allow_credentials).
Proof.
  intros Ho Hc. cbv zeta. rewrite fold_left_app.
  split; [|intros Hno]; rewrite fold_insert_notin by done; unfold origin_headers, reflectsOrigin; [|rewrite Hno];
    destruct (anyOrigin f), (AllowCredentials (cfg f)); cbn [negb app fold_left fst snd];
    rewrite !lookup_insert; repeat case_decide; done.
Qed.

(** ** Properties *)

(** C39: what a browser is told is what the configuration allows. The filter never
    changes the request; for a request without an allowed origin it leaves the
    response headers alone; for an allowed origin it grants exactly that origin
    ("*" only when "*" is configured); credentials are granted only when
    configured, only to a listed origin, and never together with "*"; and it ends
    a request itself exactly for preflights and, if so configured, for origins
    that are not allowed. *)
Theorem cors_grants_only_listed {W : Type} (regexp : string -> option Regex) (cc : CorsConfig) (f : Filter)
  (c : RequestContext) (w : W) :
  NewFilter regexp cc = Ok f -> ctx_wf c ->
  exists c', Execute f c w = (None, c', w) /\ ctx_wf c' /\
    let origin := GetHeader c "origin" in
    (effective c').1 = (effective c).1 /\
    (origin = "" \/ ~ origin_listed regexp cc origin -> (effective c').2 = (effective c).2) /\
    (origin <> "" -> origin_listed regexp cc origin -> CPhase c <> PhaseResponseHeaders ->
       (effective c').2 !! allow_origin = Some (if anyOrigin f then "*" else origin)) /\
    ((effective c').2 !! allow_credentials <> (effective c).2 !! allow_credentials ->
       AllowCredentials cc = true /\ origin_listed regexp cc origin /\ (effective c').2 !! allow_origin = Some origin) /\
    (Blocked c = false -> Blocked c' = true <->
       origin <> "" /\ CPhase c <> PhaseResponseHeaders /\
       (is_preflight c = true \/ (~ origin_listed regexp cc origin /\ BlockDisallowedOrigins cc = true))).
Proof.
  intros (Hcfg & Hall & Hcred)%NewFilter_spec Hc. rewrite Execute_branches. eexists. split; [reflexivity|].
  destruct (set_all_spec (cors_headers f c) c Hc) as (Hw & E1 & E2).
  assert (forall c', ctx_wf (cors_verdict f c c') = ctx_wf c' /\ effective (cors_verdict f c c') = effective c') as Hv.
  { intros c'. unfold cors_verdict. by repeat case_match. }
  destruct (Hv (set_all (cors_headers f c) c)) as [-> ->]. rewrite E1, E2. split; [done|]. cbv zeta. split; [done|].
  specialize (Hall (GetHeader c "origin")). unfold cors_headers, cors_verdict.
  destruct (String.eqb_spec (GetHeader c "origin") "") as [Ho|Ho]; cbn [orb].
  { split; [done|]. split; [done|]. split; [done|]. cbn. intros ->. by split; [|intros [? _]]. }
  rewrite <- Hall, Hcfg. destruct (originAllowed f (GetHeader c "origin")) eqn:Ea; cbn [negb].
  - split; [by intros [?|?]|]. case_bool_decide as Hp.
    + split; [done|]. destruct (reflectsOrigin f); cbn [fold_left fst snd].
      * split; [intros Hne; by rewrite lookup_insert_ne in Hne|]. cbn. intros ->. by split; [|intros (_ & ? & _)].
      * split; [done|]. cbn. intros ->. by split; [|intros (_ & ? & _)].
    + destruct (origin_headers_grant f c _ (effective c).2 (later_headers_no_grant f c allow_origin (or_introl eq_refl))
        (later_headers_no_grant f c allow_credentials (or_intror eq_refl))) as [G1 G2].
      split; [intros _ _ _; exact G1|]. split.
      * intros Hne. rewrite Hcfg in *. destruct (AllowCredentials cc); [|by specialize (G2 eq_refl)].
        rewrite Hcred in G1 by done. done.
      * intros Hb. destruct (is_preflight c) eqn:Epf; cbn [Answer Block]; [by split; [|]; eauto|].
        destruct (set_all_same (origin_headers f (GetHeader c "origin") ++ (if String.eqb (expose f) "" then [] else [("access-control-expose-headers", expose f)])) c) as (-> & _ & _).
        rewrite Hb. split; [done|]. by intros (_ & _ & [?|[? _]]).
  - split; [done|]. split; [done|]. split; [done|]. intros Hb. cbn [set_all fold_left].
    case_bool_decide; [rewrite Hb; by split; [|intros (_ & ? & _)]|].
    destruct (is_preflight c); cbn [orb]; [by split; [|]; eauto|].
    destruct (BlockDisallowedOrigins cc); cbn; [by split; [|]; eauto 8|].
    rewrite Hb. split; [done|]. by intros (_ & _ & [?|[_ ?]]).
Qed.

Definition example_cors : CorsConfig := mkCorsConfig ["https://app.example.com/"] [] [] [] [] true 600 true.

Lemma cors_grants_only_listed_witness :
  exists f, NewFilter (fun _ => None) example_cors = Ok f /\
  let c := newContext <| Headers := {["origin" := "https://APP.example.com"]} |> in
  exists c', Execute f c () = (None, c', ()) /\ (effective c').2 !! allow_origin = Some "https://APP.example.com".
Proof.
  destruct (NewFilter (fun _ => None) example_cors) as [f|] eqn:HN; [|by vm_compute in HN].
  exists f. split; [done|]. cbv zeta. set (c := newContext <| Headers := _ |>).
  assert (ctx_wf c) as Hc by exact newContext_wf.
  destruct (cors_grants_only_listed (fun _ => None) example_cors f c () HN Hc) as (c' & He & _ & _ & _ & Hg & _).
  exists c'. split; [exact He|]. vm_compute in HN. injection HN as <-. apply Hg.
  - by vm_compute.
  - right. left. exists "https://app.example.com/". split; [left|]. by vm_compute.
  - by vm_compute.
Defined.

End Cors.
