(* ===== verification/Correlation.v ===== *)
(** * Correlation: the correlation_id filter
    (internal/filters/correlation_id/correlation.go)

    The identifier generators (uuid, xid, ulid) are third-party packages: they
    are parameters that draw from the world. *)

From S2P Require Import Prelude GoStrings Selector Context Executor Config.

Local Open Scope string_scope.
Local Open Scope list_scope.

Module Correlation.

(** ** The filter *)

Record CorrelationConfig := mkCorrelationConfig {
  HeaderName : string;
  Algorithm : string;
  Mode : string;
  Prefix : string;
  PropagateToUpstream : bool;
  PropagateToDownstream : bool;
  InputHeaderName : string;
  ResponseHeaderName : string;
  ValidationRegex : string;
  CompiledValidationRegex : option Regex
}.
#[export] Instance CorrelationConfig_eta : Eta CorrelationConfig := fun x =>
  mkCorrelationConfig (HeaderName x) (Algorithm x) (Mode x) (Prefix x) (PropagateToUpstream x)
    (PropagateToDownstream x) (InputHeaderName x) (ResponseHeaderName x) (ValidationRegex x)
    (CompiledValidationRegex x).

Definition NewCorrelationFilter (regexp : string -> option Regex) (cfg : CorrelationConfig) : result CorrelationConfig :=
  let cfg := cfg <| HeaderName := or_default (HeaderName cfg) "x-request-id" |>
                 <| Algorithm := or_default (Algorithm cfg) "uuidv4" |>
                 <| Mode := or_default (Mode cfg) "if_missing" |> in
  let cfg := cfg <| InputHeaderName := or_default (InputHeaderName cfg) (HeaderName cfg) |>
                 <| ResponseHeaderName := or_default (ResponseHeaderName cfg) (HeaderName cfg) |> in
  if String.eqb (ValidationRegex cfg) "" then Ok cfg
  else match regexp (ValidationRegex cfg) with
       | Some re => Ok (cfg <| CompiledValidationRegex := Some re |>)
       | None => Err "invalid regexp"
       end.

(** The two conditional header calls at the end of [Execute]. *)
Definition propagate (f : CorrelationConfig) (c : RequestContext) (finalID : string) : RequestContext :=
  let c := if PropagateToUpstream f then SetHeaderUpstream c (HeaderName f) finalID else c in
  if PropagateToDownstream f then SetHeaderDownstream c (ResponseHeaderName f) finalID else c.

Section Execute.
Context {W : Type}.
(** [uuid.NewString], [uuid.NewV7] as a string, [xid.New] and [ulid.Make]. *)
Variables uuidv4 uuidv7 xid ulid : W -> string * W.

(** The three conditions under which a new identifier is generated. *)
Definition must_generate (f : CorrelationConfig) (incomingID : string) : bool :=
  if String.eqb incomingID "" then true
  else if String.eqb (Mode f) "overwrite" then true
  else match CompiledValidationRegex f with Some re => negb (re incomingID) | None => false end.

Definition generator (f : CorrelationConfig) : W -> string * W :=
  if String.eqb (Algorithm f) "uuidv7" then uuidv7
  else if String.eqb (Algorithm f) "xid" then xid
  else if String.eqb (Algorithm f) "ulid" then ulid
  else uuidv4.

Definition Execute (f : CorrelationConfig) : Exec W := fun c w =>
  let incomingID := GetHeader c (InputHeaderName f) in
  let '(finalID, w) := (if must_generate f incomingID
                        then let '(id, w) := generator f w in ((Prefix f +++ id)%go, w)
                        else (incomingID, w)) in
  (None, propagate f c finalID, w).

End Execute.

(** ** Lemmas *)

Lemma propagate_keeps f c id : keeps c (propagate f c id).
Proof.
  unfold propagate. set (c1 := if PropagateToUpstream f then _ else c).
  assert (keeps c c1) as H1 by (subst c1; case_match; [exact (keeps_call c (CallSetUp _ _))|done]).
  etrans; [exact H1|]. case_match; [exact (keeps_call c1 (CallSetDown _ _))|done].
Qed.

#[export] Instance Execute_ok {W : Type} (g1 g2 g3 g4 : W -> string * W) f : FilterOk (Execute g1 g2 g3 g4 f).
Proof.
  intros c w err c' w'. unfold Execute.
  destruct (if must_generate _ _ then _ else _) as [id w1]. intros [= <- <- <-]. apply propagate_keeps.
Qed.

Lemma propagate_spec f c id :
  ctx_wf c -> ctx_wf (propagate f c id) /\ Blocked (propagate f c id) = Blocked c /\
  effective (propagate f c id) =
    (if PropagateToUpstream f then <[ToLower (HeaderName f) := id]> (effective c).1 else (effective c).1,
     if PropagateToDownstream f then <[ToLower (ResponseHeaderName f) := id]> (effective c).2 else (effective c).2).
Proof.
  intros Hc. unfold propagate. destruct (SetHeaderUpstream_spec c (HeaderName f) id Hc) as [Hw1 E1].
  destruct (SetHeaderDownstream_spec c (ResponseHeaderName f) id Hc) as [Hw2 E2].
  destruct (SetHeaderDownstream_spec _ (ResponseHeaderName f) id Hw1) as [Hw3 E3].
  destruct (PropagateToUpstream f), (PropagateToDownstream f); (split; [done|]); (split; [done|]);
    rewrite ?E3, ?E2, ?E1; cbn [fst snd]; by destruct (effective c).
Qed.

(** Every name in the map is in lower case, as copyHeaders leaves it. *)
Definition lower_names (m : gmap string string) : Prop := forall k, is_Some (m !! k) -> is_lower k.

Lemma lower_names_miss m k : lower_names m -> ~ is_lower k -> m !! k = None.
Proof. intros Hm Hk. destruct (m !! k) eqn:E; [|done]. exfalso. apply Hk, Hm. by rewrite E. Qed.

(** ** Properties *)

(** The identifier is consistent: whatever the request carried, the upstream
    and the client receive one and the same identifier under the configured
    names; it is the incoming one exactly when the header is present, the mode is
    not overwrite and the value passes validation, and otherwise the prefix with a
    fresh identifier; no other header changes and the request is never blocked. *)
Lemma correlation_consistent {W : Type} (uuidv4 uuidv7 xid ulid : W -> string * W) (f : CorrelationConfig)
  (c : RequestContext) (w : W) :
  ctx_wf c ->
  let incoming := GetHeader c (InputHeaderName f) in
  let keep := negb (String.eqb incoming "") && negb (String.eqb (Mode f) "overwrite") &&
              match CompiledValidationRegex f with Some re => re incoming | None => true end in
  exists c' w' id, Execute uuidv4 uuidv7 xid ulid f c w = (None, c', w') /\ ctx_wf c' /\ Blocked c' = Blocked c /\
    (if keep then id = incoming /\ w' = w
     else exists fresh, generator uuidv4 uuidv7 xid ulid f w = (fresh, w') /\ id = (Prefix f +++ fresh)%go) /\
    effective c' = (if PropagateToUpstream f then <[ToLower (HeaderName f) := id]> (effective c).1 else (effective c).1,
                    if PropagateToDownstream f then <[ToLower (ResponseHeaderName f) := id]> (effective c).2 else (effective c).2).
Proof.
  intros Hc. cbv zeta. unfold Execute, must_generate.
  set (incoming := GetHeader c (InputHeaderName f)).
  assert ((if String.eqb incoming "" then true else if String.eqb (Mode f) "overwrite" then true
           else match CompiledValidationRegex f with Some re => negb (re incoming) | None => false end) =
          negb (negb (String.eqb incoming "") && negb (String.eqb (Mode f) "overwrite") &&
                match CompiledValidationRegex f with Some re => re incoming | None => true end)) as ->.
  { destruct (String.eqb incoming ""), (String.eqb (Mode f) "overwrite"); cbn; try done. by destruct (CompiledValidationRegex f). }
  destruct (negb (String.eqb incoming "") && _ && _); cbn [negb]; [|destruct (generator _ _ _ _ f w) as [fresh w'] eqn:Eg].
  - destruct (propagate_spec f c incoming Hc) as (Hw & Hb & He). eexists _, _, incoming. split; [reflexivity|]. done.
  - destruct (propagate_spec f c (Prefix f +++ fresh)%go Hc) as (Hw & Hb & He).
    eexists _, _, _. split; [reflexivity|]. split; [done|]. split; [done|]. split; [by exists fresh|done].
Qed.

Definition example_correlation : CorrelationConfig :=
  mkCorrelationConfig "X-Request-ID" "uuidv4" "if_missing" "req-" true true "X-Request-ID" "X-Request-ID" "" None.

Lemma correlation_consistent_witness :
  exists c' w' id, Execute (fun w : nat => ("u", S w)) (fun w => ("v7", w)) (fun w => ("x", w)) (fun w => ("l", w))
    example_correlation newContext 0%nat = (None, c', w') /\ (effective c').1 !! "x-request-id" = Some id.
Proof.
  destruct (correlation_consistent (fun w : nat => ("u", S w)) (fun w => ("v7", w)) (fun w => ("x", w)) (fun w => ("l", w))
    example_correlation newContext 0%nat newContext_wf) as (c' & w' & id & He & _ & _ & _ & Hf).
  exists c', w', id. split; [exact He|]. rewrite Hf. cbn [PropagateToUpstream example_correlation fst].
  apply lookup_insert_eq.
Defined.

(** a configured input header name with an upper-case letter never matches,
    because request headers are stored in lower case and the name is not lowered:
    the incoming identifier is replaced in every mode. *)
Lemma mixed_case_input_never_kept {W : Type} (uuidv4 uuidv7 xid ulid : W -> string * W) (f : CorrelationConfig)
  (c : RequestContext) (w : W) :
  ~ is_lower (InputHeaderName f) -> lower_names (Headers c) -> lower_names (UpstreamShadow c) ->
  PropagateToUpstream f = true ->
  exists c' fresh w', generator uuidv4 uuidv7 xid ulid f w = (fresh, w') /\
    Execute uuidv4 uuidv7 xid ulid f c w = (None, c', w') /\
    UpstreamShadow c' !! ToLower (HeaderName f) = Some (Prefix f +++ fresh)%go.
Proof.
  intros Hm Hh Hs Hp. unfold Execute.
  assert (GetHeader c (InputHeaderName f) = "") as ->.
  { unfold GetHeader. rewrite (lower_names_miss _ _ Hs Hm), (lower_names_miss _ _ Hh Hm). by case_match. }
  unfold must_generate. cbn [String.eqb]. destruct (generator _ _ _ _ f w) as [fresh w'] eqn:Eg.
  unfold propagate. rewrite Hp.
  eexists _, fresh, w'. split; [done|]. split; [reflexivity|].
  destruct (PropagateToDownstream f); cbn; apply lookup_insert_eq.
Qed.

Lemma mixed_case_input_never_kept_witness :
  exists c' fresh w', Execute (fun w : nat => ("u", S w)) (fun w => ("v7", w)) (fun w => ("x", w)) (fun w => ("l", w))
    example_correlation (newContext <| Headers := {["x-request-id" := "abc"]} |>) 0%nat = (None, c', w') /\
    UpstreamShadow c' !! "x-request-id" = Some ("req-" +++ fresh)%go.
Proof.
  destruct (mixed_case_input_never_kept (fun w : nat => ("u", S w)) (fun w => ("v7", w)) (fun w => ("x", w))
    (fun w => ("l", w)) example_correlation (newContext <| Headers := {["x-request-id" := "abc"]} |>) 0%nat)
    as (c' & fresh & w' & _ & He & Hs).
  - by vm_compute.
  - intros k [v Hv]. change (({["x-request-id" := "abc"]} : gmap string string) !! k = Some v) in Hv.
    apply lookup_singleton_Some in Hv as [<- _]. by vm_compute.
  - intros k [v Hv]. change ((∅ : gmap string string) !! k = Some v) in Hv. by rewrite lookup_empty in Hv.
  - reflexivity.
  - exists c', fresh, w'. split; [exact He|exact Hs].
Defined.

End Correlation.
