(* ===== verification/RateLimit.v ===== *)
(** * RateLimit: the rate limit filter (internal/filters/rate_limiter: filter.go,
    executor.go, fixed_window.go)

    The filter ([ApplyDefaults], [requestCost], [Execute]) over any executor; the
    loop over policies that the executors share; the fixed window executor, with
    its local cache. [fw_step] runs the loop iterations of any number of requests,
    on any number of engines, in any order against one Redis. Redis and freecache
    are interfaces with the laws the code relies on. *)

From S2P Require Import Prelude GoStrings GoTime Context Executor.
From Stdlib Require Import Floats.SpecFloat.
From stdpp Require Import sorting.

Local Open Scope string_scope.
Local Open Scope list_scope.

Module RateLimit.

(** ** Options *)

Record DescriptorEntryDef := mkEntryDef { edKey : string; edValue : string }.

Record YamlDescriptor := mkDescriptor {
  Entries : list DescriptorEntryDef;
  Limit : Z;  (* uint32 *)
  Unit : string;
  ShadowMode : bool;
  StopIncrementWhenOverlimit : bool;
  FailOpen : bool;
  ShareThresholdPattern : string;
  MaxTokens : spec_float;
  FillRate : spec_float;
  BucketCapacity : Z;  (* uint32 *)
  LeakRate : spec_float
}.
#[export] Instance YamlDescriptor_eta : Eta YamlDescriptor := fun x =>
  mkDescriptor (Entries x) (Limit x) (Unit x) (ShadowMode x) (StopIncrementWhenOverlimit x) (FailOpen x)
    (ShareThresholdPattern x) (MaxTokens x) (FillRate x) (BucketCapacity x) (LeakRate x).

Record ResponseHeadersOpts := mkResponseHeaders {
  rhEnabled : bool; LimitHeader : string; RemainingHeader : string; ResetHeader : string }.

Record DynamicCostOpts := mkDynamicCost {
  dcEnabled : bool; SourceHeader : string; DefaultFallbackCost : Z; MaxAllowedCost : Z }.

Record FilterOptions := mkFilterOptions {
  Domain : string; Algorithm : string; RedisService : string; HeaderMappings : GoMap string;
  ResponseHeaders : ResponseHeadersOpts; DynamicCost : DynamicCostOpts; Descriptors : list YamlDescriptor }.
#[export] Instance FilterOptions_eta : Eta FilterOptions := fun x =>
  mkFilterOptions (Domain x) (Algorithm x) (RedisService x) (HeaderMappings x) (ResponseHeaders x) (DynamicCost x)
    (Descriptors x).

Definition header_default (v d : string) : string := if String.eqb v "" then d else ToLower v.

Definition lower_entry (e : DescriptorEntryDef) : DescriptorEntryDef :=
  mkEntryDef (ToLower (edKey e)) (if String.eqb (edValue e) "" then edValue e else ToLower (edValue e)).

Definition ApplyDefaults (opts : FilterOptions) : FilterOptions :=
  let dc := DynamicCost opts in
  let rh := ResponseHeaders opts in
  opts <| DynamicCost := mkDynamicCost (dcEnabled dc) (ToLower (SourceHeader dc))
            (if (DefaultFallbackCost dc <? 1)%Z then 1%Z else DefaultFallbackCost dc) (MaxAllowedCost dc) |>
       <| ResponseHeaders := mkResponseHeaders (rhEnabled rh) (header_default (LimitHeader rh) "ratelimit-limit")
            (header_default (RemainingHeader rh) "ratelimit-remaining")
            (header_default (ResetHeader rh) "ratelimit-reset") |>
       <| HeaderMappings := rekey ToLower ((fun e => (e.1, ToLower e.2)) <$> HeaderMappings opts) |>
       <| Descriptors := (fun d => d <| Entries := lower_entry <$> Entries d |>) <$> Descriptors opts |>.

(** ** The filter *)

Record DescriptorEntry := mkEntry { eKey : string; eValue : string }.

(** [ResetDuration] in nanoseconds; the two counts are uint32. *)
Record Decision := mkDecision { dBlocked : bool; dLimit : Z; LimitRemaining : Z; ResetDuration : Z }.
#[export] Instance Decision_eta : Eta Decision := fun x =>
  mkDecision (dBlocked x) (dLimit x) (LimitRemaining x) (ResetDuration x).

Definition requestCost (opts : FilterOptions) (c : RequestContext) : Z :=
  let dc := DynamicCost opts in
  if negb (dcEnabled dc) then 1%Z
  else
    let cost := match ParseInt64 (GetHeader c (SourceHeader dc)) with
                | Some parsed => if (1 <=? parsed)%Z then parsed else DefaultFallbackCost dc
                | None => DefaultFallbackCost dc
                end in
    if (0 <? MaxAllowedCost dc)%Z && (MaxAllowedCost dc <? cost)%Z then MaxAllowedCost dc else cost.

(** Rules A to D: the value a request has for a descriptor key. *)
Definition entry_value (opts : FilterOptions) (c : RequestContext) (key : string) : string :=
  let val := match map_get (HeaderMappings opts) key with
             | Some headerName => GetHeader c headerName
             | None => GetHeader c key
             end in
  let val := if String.eqb key "ip" || String.eqb key "client_ip" || String.eqb key "remote_ip" then ClientIP c else val in
  if String.eqb val "" then "default" else val.

Definition extract_entry (opts : FilterOptions) (c : RequestContext) (ds : list DescriptorEntry) (e : DescriptorEntryDef)
  : list DescriptorEntry :=
  if bool_decide (edKey e ∈ eKey <$> ds) then ds else ds ++ [mkEntry (edKey e) (entry_value opts c (edKey e))].

Definition extract (opts : FilterOptions) (c : RequestContext) : list DescriptorEntry :=
  fold_left (fun ds d => fold_left (extract_entry opts c) (Entries d) ds) (Descriptors opts) [].

(** [int64(math.Ceil(_))] of a non-negative value. *)
Definition Ceil (f : spec_float) : Z :=
  let z := Z_of_float64 f in
  match SFcompare (float64_of_Z z) f with Some Lt => (z + 1)%Z | _ => z end.

(** [RateLimitExecutor.Evaluate]: the request id of the context, the descriptors
    and the cost. *)
Definition Executor (W : Type) : Type := string -> list DescriptorEntry -> Z -> W -> result Decision * W.

Record RateLimiterFilter (W : Type) := mkRateLimiter { name : string; options : FilterOptions; executor : Executor W }.
Arguments mkRateLimiter {W}.
Arguments name {W}.
Arguments options {W}.
Arguments executor {W}.

Definition NewRateLimiterFilter {W : Type} (name : string) (opts : FilterOptions) (ex : Executor W) : RateLimiterFilter W :=
  mkRateLimiter name (ApplyDefaults opts) ex.

Definition quota_headers (opts : FilterOptions) (d : Decision) (c : RequestContext) : RequestContext :=
  let rh := ResponseHeaders opts in
  if rhEnabled rh then
    let c := SetHeaderDownstream c (LimitHeader rh) (Itoa (dLimit d)) in
    let c := SetHeaderDownstream c (RemainingHeader rh) (Itoa (LimitRemaining d)) in
    SetHeaderDownstream c (ResetHeader rh) (Itoa (Ceil (Seconds (ResetDuration d))))
  else c.

Definition Execute {W : Type} (f : RateLimiterFilter W) : Exec W := fun c w =>
  let '(r, w) := executor f (GetHeader c "x-request-id") (extract (options f) c) (requestCost (options f) c) w in
  match r with
  | Err e => (Some e, c, w)
  | Ok d =>
      let c := quota_headers (options f) d c in
      if dBlocked d
      then (None, c <| Blocked := true |> <| ResponseStatus := 429%Z |> <| ResponseBody := "Too Many Requests" |>, w)
      else (None, c, w)
  end.

(** ** The loop over policies *)

(** The order of [sort.Slice] in the constructors: [true] when [a] comes first. *)
Definition specific_values (d : YamlDescriptor) : nat :=
  length (List.filter (fun e => negb (String.eqb (edValue e) "")) (Entries d)).
Definition more_specific (a b : YamlDescriptor) : bool :=
  if Nat.eqb (length (Entries a)) (length (Entries b)) then Nat.ltb (specific_values b) (specific_values a)
  else Nat.ltb (length (Entries b)) (length (Entries a)).

Definition getDivider (unit : string) : Z :=
  let u := ToLower unit in
  if String.eqb u "second" then 1
  else if String.eqb u "minute" then 60
  else if String.eqb u "hour" then 3600
  else if String.eqb u "day" then 86400
  else if String.eqb u "week" then 604800
  else if String.eqb u "month" then 2592000
  else if String.eqb u "year" then 31536000
  else 60.

Definition extracted_map (ds : list DescriptorEntry) : GoMap string :=
  fold_left (fun m d => map_set m (eKey d) (eValue d)) ds [].

Definition dimension (p : YamlDescriptor) : string := GoStrings.Join (edKey <$> Entries p) "_".

Definition matched (extracted : GoMap string) (p : YamlDescriptor) : bool :=
  forallb (fun e => match map_get extracted (edKey e) with
                    | None => false
                    | Some v => String.eqb (edValue e) "" || String.eqb (edValue e) v
                    end) (Entries p).

(** How the evaluation of one policy ends: within the limit, over the limit of a
    shadow policy, no answer from Redis with [fail_open], or a return. *)
Inductive Outcome : Type :=
| Within (remain limit reset : Z)
| Shadowed (limit reset : Z)
| FailedOpen
| Refused (d : Decision)
| Failed (e : string).

Definition maxUint32 : Z := 4294967295.
Definition initialDecision : Decision := mkDecision false 0 maxUint32 0.

Definition observe (fin : Decision) (remain limit reset : Z) : Decision :=
  if (remain <? LimitRemaining fin)%Z
  then fin <| LimitRemaining := remain |> <| dLimit := limit |> <| ResetDuration := reset |> else fin.

Definition normalize (fin : Decision) : Decision :=
  let fin := if (LimitRemaining fin =? maxUint32)%Z then fin <| LimitRemaining := 0%Z |> <| dLimit := 0%Z |> else fin in
  fin <| dBlocked := false |>.

(** What one iteration leaves: go on with the dimensions evaluated and the
    decision so far, or the return value. *)
Inductive Control : Type :=
| Continue (dims : list string) (fin : Decision)
| Return (r : result Decision).

Definition after (dims : list string) (fin : Decision) (o : Outcome) : Control :=
  match o with
  | Within remain limit reset => Continue dims (observe fin remain limit reset)
  | Shadowed limit reset => Continue dims (observe fin 0 limit reset)
  | FailedOpen => Continue dims fin
  | Refused d => Return (Ok d)
  | Failed e => Return (Err e)
  end.

(** [None]: the policy does not apply, [evaluatedDimensions] or its entries. *)
Definition applies (extracted : GoMap string) (dims : list string) (p : YamlDescriptor) : bool :=
  negb (bool_decide (dimension p ∈ dims)) && matched extracted p.

(** The loop, the evaluation of one policy being [check]. *)
Fixpoint evaluate_loop {W : Type} (check : YamlDescriptor -> W -> Outcome * W) (extracted : GoMap string)
  (ps : list YamlDescriptor) (dims : list string) (fin : Decision) (w : W) : result Decision * W :=
  match ps with
  | [] => (Ok (normalize fin), w)
  | p :: ps =>
      if applies extracted dims p then
        let '(o, w) := check p w in
        match after (dimension p :: dims) fin o with
        | Continue dims fin => evaluate_loop check extracted ps dims fin w
        | Return r => (r, w)
        end
      else evaluate_loop check extracted ps dims fin w
  end.

(** ** Interfaces *)

(** The pipeline INCRBY key cost; EXPIRE key ttl (seconds) at time [t], with the
    reply of INCRBY; and the value GET has at a time. Times in nanoseconds. *)
Class RedisCounters (R : Type) := {
  pipe_incr : R -> Z -> string -> Z -> Z -> result Z * R;
  counter : R -> Z -> string -> Z
}.

(** Redis executes a command atomically or not at all, keeps a key until its time
    to live is over, and refuses an increment past int64. *)
Class RedisCountersOk (R : Type) `{RedisCounters R} : Prop := {
  counter_nonneg r t k : (0 <= counter r t k)%Z;
  incr_ok r t k c ttl n r' : (1 <= c)%Z -> pipe_incr r t k c ttl = (Ok n, r') ->
    n = (counter r t k + c)%Z /\ (n < two63)%Z /\ forall t', (t <= t' < t + ttl * Second)%Z -> counter r' t' k = n;
  incr_err r t k c ttl e r' : (1 <= c)%Z -> pipe_incr r t k c ttl = (Err e, r') ->
    forall t', (t <= t' < t + ttl * Second)%Z -> (counter r t' k <= counter r' t' k)%Z;
  incr_mono r t t' k : (t <= t')%Z -> (counter r t' k <= counter r t k)%Z;
  incr_other r t k c ttl t' k' : k' <> k -> counter (pipe_incr r t k c ttl).2 t' k' = counter r t' k'
}.

(** freecache: it forgets, it does not invent. *)
Class LocalCache (C : Type) := {
  cache_empty : C;
  cache_get : C -> Z -> string -> bool;
  cache_set : C -> Z -> string -> Z -> C
}.
Class LocalCacheOk (C : Type) `{LocalCache C} : Prop := {
  cache_get_empty t k : cache_get cache_empty t k = false;
  cache_get_set c t k ttl t' k' : cache_get (cache_set c t k ttl) t' k' = true -> k' = k \/ cache_get c t' k' = true
}.

(** ** The fixed window executor *)

Definition u32 (z : Z) : Z := z mod 4294967296.
Definition u64 (z : Z) : Z := z mod two64.

Definition fw_key (domain : string) (extracted : GoMap string) (p : YamlDescriptor) (now : Z) : string :=
  let d := getDivider (Unit p) in
  (fold_left (fun s e => s +++ "_" +++ edKey e +++ "_" +++ default "" (map_get extracted (edKey e))) (Entries p) domain
   +++ "_" +++ Itoa (now / d * d))%go.

Section FixedWindow.
Context {R C : Type} `{RedisCounters R, LocalCache C}.

(** [localCache] is nil when the executor has none; [jitter] is the draw of
    [jitterRand.Int63n], 0 without a generator. *)
Definition fw_check (domain : string) (extracted : GoMap string) (cost now t jitter : Z) (p : YamlDescriptor)
  (w : R * option C) : Outcome * (R * option C) :=
  let '(redis, cache) := w in
  let divider := getDivider (Unit p) in
  let resetSeconds := (divider - now mod divider)%Z in
  let key := fw_key domain extracted p now in
  let reset := (resetSeconds * Second)%Z in
  if match cache with Some c => cache_get c t key | None => false end
  then (Refused (mkDecision true (Limit p) 0 reset), (redis, cache))
  else
    match pipe_incr redis t key cost (resetSeconds + jitter) with
    | (Err e, redis) => (if FailOpen p then FailedOpen else Failed e, (redis, cache))
    | (Ok count, redis) =>
        if (Limit p <? count)%Z then
          if ShadowMode p then (Shadowed (Limit p) reset, (redis, cache))
          else
            let cache := match cache with
                         | Some c => if (cost =? 1)%Z || (Limit p <=? u64 (count - cost))%Z
                                     then Some (cache_set c t key resetSeconds) else Some c
                         | None => None
                         end in
            (Refused (mkDecision true (Limit p) 0 reset), (redis, cache))
        else (Within (u32 (Limit p - u32 count)) (Limit p) reset, (redis, cache))
    end.

(** One call, every policy evaluated at the time it started. *)
Definition fw_Evaluate (opts : FilterOptions) (t jitter : Z) (ds : list DescriptorEntry) (cost : Z) (w : R * option C)
  : result Decision * (R * option C) :=
  let extracted := extracted_map ds in
  evaluate_loop (fw_check (Domain opts) extracted cost (t / Second) t jitter) extracted (Descriptors opts) [] initialDecision w.

(** ** The fleet *)

(** A call of [Evaluate] in progress on an executor, or its result. [tNow] is what it read
    from the engine's clock, in seconds, [tAt] the time of its last step; [tPassed] lists
    the keys it was counted on, within their limit. *)
Record Call := mkCall {
  tExec : nat; tNow : Z; tAt : Z; tExtracted : GoMap string; tCost : Z; tTodo : list YamlDescriptor; tDims : list string;
  tFinal : Decision; tPassed : list string; tResult : option (result Decision) }.

(** The executors, by number, with their options. *)
Variable fleet : nat -> FilterOptions.

Record Fleet := mkFleet { clock : Z; redis : R; caches : gmap nat C; calls : list Call }.

Definition cache_of (s : Fleet) (e : nat) : C := default cache_empty (caches s !! e).

Definition start_call (e : nat) (ds : list DescriptorEntry) (cost now t : Z) : Call :=
  mkCall e now t (extracted_map ds) cost (Descriptors (fleet e)) [] initialDecision []
    (match Descriptors (fleet e) with [] => Some (Ok (normalize initialDecision)) | _ => None end).

(** What an iteration of the loop at time [t] does to a call. *)
Definition proceed (c : Call) (t : Z) (rest : list YamlDescriptor) (passed : list string) (k : Control) : Call :=
  match k with
  | Continue dims fin =>
      mkCall (tExec c) (tNow c) t (tExtracted c) (tCost c) rest dims fin passed
        (match rest with [] => Some (Ok (normalize fin)) | _ => None end)
  | Return r => mkCall (tExec c) (tNow c) t (tExtracted c) (tCost c) rest (tDims c) (tFinal c) passed (Some r)
  end.

Definition passed_after (c : Call) (key : string) (o : Outcome) : list string :=
  match o with Within _ _ _ => key :: tPassed c | _ => tPassed c end.

(** A call starts with any reading of its engine's clock; a policy is evaluated at any
    later time, also after the window of the reading is over. The engine's clock is not
    ahead of Redis's. *)
Inductive fw_step : Fleet -> Fleet -> Prop :=
| fw_call s e ds cost now t :
    (clock s <= t)%Z -> (1 <= cost)%Z ->
    fw_step s (mkFleet t (redis s) (caches s) (calls s ++ [start_call e ds cost now t]))
| fw_skip s i c p rest t :
    calls s !! i = Some c -> tResult c = None -> tTodo c = p :: rest -> applies (tExtracted c) (tDims c) p = false ->
    (clock s <= t)%Z ->
    fw_step s (mkFleet t (redis s) (caches s)
      (<[i := proceed c t rest (tPassed c) (Continue (tDims c) (tFinal c))]> (calls s)))
| fw_eval s i c p rest t jitter o r' c' :
    calls s !! i = Some c -> tResult c = None -> tTodo c = p :: rest -> applies (tExtracted c) (tDims c) p = true ->
    (clock s <= t)%Z -> (tNow c * Second <= t)%Z -> (0 <= jitter)%Z ->
    fw_check (Domain (fleet (tExec c))) (tExtracted c) (tCost c) (tNow c) t jitter p (redis s, Some (cache_of s (tExec c))) =
      (o, (r', Some c')) ->
    fw_step s (mkFleet t r' (<[tExec c := c']> (caches s))
      (<[i := proceed c t rest (passed_after c (fw_key (Domain (fleet (tExec c))) (tExtracted c) p (tNow c)) o)
                (after (dimension p :: tDims c) (tFinal c) o)]> (calls s))).

Definition fw_initial (s : Fleet) : Prop := caches s = ∅ /\ calls s = [].

(** ** What the limit means *)

(** The policies that govern a request: of each dimension, the first that matches. *)
Fixpoint governing (extracted : GoMap string) (dims : list string) (ps : list YamlDescriptor) : list YamlDescriptor :=
  match ps with
  | [] => []
  | p :: ps => if applies extracted dims p then p :: governing extracted (dimension p :: dims) ps
               else governing extracted dims ps
  end.

(** Enforced policies: neither shadow nor open on a Redis failure. *)
Definition enforced (p : YamlDescriptor) : bool := negb (ShadowMode p) && negb (FailOpen p).

(** The time the window of a clock reading ends. *)
Definition window_close (p : YamlDescriptor) (now : Z) : Z :=
  ((now / getDivider (Unit p) * getDivider (Unit p) + getDivider (Unit p)) * Second)%Z.

(** An enforced policy governs the call and counts on the key, and the call's last step
    was before the window ended. *)
Definition charged (c : Call) (key : string) : bool :=
  existsb (fun p => enforced p && String.eqb (fw_key (Domain (fleet (tExec c))) (tExtracted c) p (tNow c)) key &&
                    (tAt c <? window_close p (tNow c))%Z)
    (governing (tExtracted c) [] (Descriptors (fleet (tExec c)))).

Definition admitted (c : Call) : bool := match tResult c with Some (Ok d) => negb (dBlocked d) | _ => false end.

Fixpoint zsum {A : Type} (f : A -> Z) (l : list A) : Z :=
  match l with [] => 0%Z | a :: l => (f a + zsum f l)%Z end.

(** The cost of the requests that were admitted within the window and charged on its key. *)
Definition admitted_cost (s : Fleet) (key : string) : Z :=
  zsum (fun c => if admitted c && charged c key then tCost c else 0%Z) (calls s).

(** A key counts one limit over one unit: no two policies share it unless they
    have both in common. *)
Definition key_counts (key : string) (limit divider : Z) : Prop :=
  forall e p extracted now, p ∈ Descriptors (fleet e) -> fw_key (Domain (fleet e)) extracted p now = key ->
    Limit p = limit /\ getDivider (Unit p) = divider.

End FixedWindow.
Arguments Fleet : clear implicits.

(** ** Lemmas *)

Lemma zsum_app {A : Type} (f : A -> Z) l1 l2 : zsum f (l1 ++ l2) = (zsum f l1 + zsum f l2)%Z.
Proof. induction l1 as [|a l1 IH]; cbn; [done|]. rewrite IH. lia. Qed.

Lemma zsum_insert {A : Type} (f : A -> Z) l i x y :
  l !! i = Some x -> zsum f (<[i := y]> l) = (zsum f l - f x + f y)%Z.
Proof.
  revert i. induction l as [|a l IH]; intros [|i] H; [done..| |].
  - injection H as ->. cbn. lia.
  - change (<[S i := y]> (a :: l)) with (a :: <[i := y]> l). cbn [zsum]. rewrite (IH i H). lia.
Qed.

Lemma zsum_mono {A : Type} (f g : A -> Z) l : (forall a, a ∈ l -> f a <= g a)%Z -> (zsum f l <= zsum g l)%Z.
Proof.
  induction l as [|a l IH]; intros H; cbn; [lia|]. specialize (IH ltac:(intros; apply H; by right)).
  specialize (H a ltac:(by left)). lia.
Qed.

Lemma zsum_zero {A : Type} (f : A -> Z) l : (forall a, a ∈ l -> f a = 0%Z) -> zsum f l = 0%Z.
Proof.
  induction l as [|a l IH]; intros Hf; cbn; [done|]. rewrite (Hf a) by (by left). apply IH. intros b Hb. apply Hf. by right.
Qed.

Lemma getDivider_pos u : (1 <= getDivider u)%Z.
Proof. unfold getDivider. repeat case_match; lia. Qed.

(** A key names its window. *)
Lemma fw_key_window d d' x x' p p' n n' : fw_key d x p n = fw_key d' x' p' n' ->
  (n / getDivider (Unit p) * getDivider (Unit p) = n' / getDivider (Unit p') * getDivider (Unit p'))%Z.
Proof.
  unfold fw_key. intros H. apply app_sep_inj in H as [_ H]; [|apply Itoa_no_sep..].
  by apply (inj pretty) in H.
Qed.

Lemma governing_after x dims p ps : applies x dims p = true ->
  governing x dims (p :: ps) = p :: governing x (dimension p :: dims) ps.
Proof. cbn. by intros ->. Qed.

Section FleetLemmas.
Context {R C : Type} `{RedisCountersOk R, LocalCacheOk C}.
Variable fleet : nat -> FilterOptions.

(** What one evaluation does: to the counter of its key until the window ends, to
    the cache, and what its outcome says of the counter. *)
Lemma fw_check_spec domain x cost now t jitter p (r r' : R) (c c' : C) o :
  fw_check domain x cost now t jitter p (r, Some c) = (o, (r', Some c')) ->
  (1 <= cost)%Z -> (0 <= jitter)%Z -> (now * Second <= t)%Z ->
  let d := getDivider (Unit p) in let key := fw_key domain x p now in
  (forall t' k, k <> key -> counter r' t' k = counter r t' k) /\
  (forall t', (t <= t' < (now / d * d + d) * Second)%Z ->
     (counter r t' key <= counter r' t' key)%Z /\
     match o with Within _ _ _ => counter r' t' key = (counter r t key + cost)%Z /\ (counter r' t' key <= Limit p)%Z | _ => True end /\
     forall tt, cache_get c' tt key = true -> cache_get c tt key = true \/ (Limit p <= counter r' t' key)%Z) /\
  (forall tt k, k <> key -> cache_get c' tt k = true -> cache_get c tt k = true) /\
  match o with
  | Shadowed _ _ => ShadowMode p = true
  | FailedOpen => FailOpen p = true
  | Refused dec => dBlocked dec = true
  | _ => True
  end.
Proof.
  intros Hc Hcost Hj Ht d key. unfold fw_check in Hc. fold d key in Hc. pose proof (getDivider_pos (Unit p)) as Hd. fold d in Hd.
  destruct (cache_get c t key); [injection Hc as <- <- <-; repeat split; auto; lia|].
  assert ((now / d * d + d) * Second <= t + (d - now mod d + jitter) * Second)%Z as Httl.
  { pose proof (Z.div_mod now d ltac:(lia)). unfold Second in *. nia. }
  pose proof (fun t' k Hk => incr_other r t key cost (d - now mod d + jitter) t' k Hk) as Hother.
  destruct (pipe_incr r t key cost (d - now mod d + jitter)) as [[n|e] r1] eqn:E; cbn [snd] in Hother.
  - destruct (incr_ok _ _ _ _ _ _ _ Hcost E) as (Hn & Hn63 & Hcnt). pose proof (counter_nonneg r t key) as Hnn.
    assert (u64 (n - cost) = counter r t key) as Hu.
    { unfold u64. rewrite Z.mod_small; [lia|]. unfold two63, two64 in *. lia. }
    rewrite Hu in Hc. clear Hu.
    assert (forall t', (t <= t' < (now / d * d + d) * Second)%Z -> (counter r t' key <= counter r1 t' key)%Z /\ counter r1 t' key = n) as Hmono.
    { intros t' Ht'. rewrite (Hcnt t') by lia. pose proof (incr_mono r t t' key ltac:(lia)). lia. }
    destruct (Z.ltb_spec (Limit p) n); [destruct (ShadowMode p) eqn:Es;
      [|destruct ((cost =? 1)%Z || (Limit p <=? counter r t key)%Z) eqn:Eg]|]; injection Hc as <- <- <-;
      (split; [done|]; split; [intros t' Ht'; destruct (Hmono t' Ht') as [? ?]; split; [done|]|]);
      try (split; [done|by left]); try done.
    + split; [done|]. intros tt _. right. lia.
    + split; [|done]. intros tt k Hk Hg. by apply cache_get_set in Hg as [?|?].
    + split; [lia|by left].
  - injection Hc as <- <- <-. pose proof (incr_err _ _ _ _ _ _ _ Hcost E) as Herr.
    split; [done|]. split; [intros t' Ht'; split; [apply Herr; lia|]; destruct (FailOpen p); (split; [done|by left])|].
    split; [done|]. by destruct (FailOpen p).
Qed.

(** The cost of every evaluation within the limit by a call that made no step from [E] on,
    whatever became of its request. *)
Definition cost_before (E : Z) (key : string) (c : Call) : Z :=
  if bool_decide (key ∈ tPassed c) && (tAt c <? E)%Z then tCost c else 0%Z.
Definition spent (s : Fleet R C) (E : Z) (key : string) : Z := zsum (cost_before E key) (calls s).

(** When the window of a key ends. *)
Definition window_end (key : string) (t : Z) : Prop :=
  exists e p x now, p ∈ Descriptors (fleet e) /\ fw_key (Domain (fleet e)) x p now = key /\
    t = window_close p now.

(** A call not refused so far was counted on every enforced policy behind it. *)
Record call_ok (c : Call) : Prop := {
  co_cost : (1 <= tCost c)%Z;
  co_todo : forall p, p ∈ tTodo c -> p ∈ Descriptors (fleet (tExec c));
  co_passed : match tResult c with
              | Some (Err _) => True
              | Some (Ok d) => dBlocked d = false -> forall p, p ∈ governing (tExtracted c) [] (Descriptors (fleet (tExec c))) ->
                  enforced p = true -> fw_key (Domain (fleet (tExec c))) (tExtracted c) p (tNow c) ∈ tPassed c
              | None => forall p, p ∈ governing (tExtracted c) [] (Descriptors (fleet (tExec c))) ->
                  enforced p = true -> fw_key (Domain (fleet (tExec c))) (tExtracted c) p (tNow c) ∈ tPassed c \/
                    p ∈ governing (tExtracted c) (tDims c) (tTodo c)
              end
}.

Record fleet_inv (key : string) (limit E : Z) (s : Fleet R C) : Prop := {
  fi_calls : Forall (fun c => call_ok c /\ (tAt c <= clock s)%Z) (calls s);
  fi_spent : (spent s E key <= limit)%Z;
  fi_counter : forall t, (clock s <= t < E)%Z -> (spent s E key <= counter (redis s) t key)%Z;
  fi_cache : forall e tt t, cache_get (cache_of s e) tt key = true -> (clock s <= t < E)%Z ->
    (limit <= counter (redis s) t key)%Z
}.

Lemma window_end_det key limit divider E E' :
  key_counts fleet key limit divider -> window_end key E -> window_end key E' -> E = E'.
Proof.
  intros Hk (e & p & x & n & Hp & Hkey & ->) (e' & p' & x' & n' & Hp' & Hkey' & ->).
  destruct (Hk e p x n Hp Hkey) as [_ Hd], (Hk e' p' x' n' Hp' Hkey') as [_ Hd'].
  rewrite <- Hkey' in Hkey. apply fw_key_window in Hkey. unfold window_close. rewrite Hd, Hd' in *. by rewrite Hkey.
Qed.

Lemma proceed_ok c t p rest o : call_ok c -> tResult c = None -> tTodo c = p :: rest ->
  applies (tExtracted c) (tDims c) p = true ->
  match o with
  | Shadowed _ _ => ShadowMode p = true
  | FailedOpen => FailOpen p = true
  | Refused dec => dBlocked dec = true
  | _ => True
  end ->
  call_ok (proceed c t rest (passed_after c (fw_key (Domain (fleet (tExec c))) (tExtracted c) p (tNow c)) o)
             (after (dimension p :: tDims c) (tFinal c) o)).
Proof.
  intros [Hcost Htodo Hp] Hr Ht Ha Ho. rewrite Hr, Ht, governing_after in Hp by done.
  assert (forall q, q ∈ rest -> q ∈ Descriptors (fleet (tExec c))) as Hrest by (intros q Hq; apply Htodo; rewrite Ht; by right).
  assert (match o with Refused _ | Failed _ => True | _ => enforced p = false \/
    fw_key (Domain (fleet (tExec c))) (tExtracted c) p (tNow c) ∈ passed_after c (fw_key (Domain (fleet (tExec c))) (tExtracted c) p (tNow c)) o end) as Hpass.
  { destruct o; cbn; try done; [right; by left|left..]; unfold enforced; rewrite Ho; [done|apply andb_false_r]. }
  assert (forall q, q ∈ tPassed c -> q ∈ passed_after c (fw_key (Domain (fleet (tExec c))) (tExtracted c) p (tNow c)) o) as Hsub
    by (intros q Hq; destruct o; try done; by right).
  destruct o; cbn [after proceed]; (split; cbn [tCost tTodo tExec tResult tExtracted tNow tPassed tDims]; [done|done|]);
    try done; try (intros E; congruence);
  destruct rest as [|q rest]; try intros _; intros p0 Hin Hen; (destruct (Hp p0 Hin Hen) as [?|[-> | ?]%elem_of_cons];
    [try left; by apply Hsub|try left; by destruct Hpass; [congruence|]|try (by right); exfalso; by eapply elem_of_nil]).
Qed.

Lemma skip_ok c t p rest : call_ok c -> tResult c = None -> tTodo c = p :: rest -> applies (tExtracted c) (tDims c) p = false ->
  call_ok (proceed c t rest (tPassed c) (Continue (tDims c) (tFinal c))).
Proof.
  intros [Hcost Htodo Hp] Hr Ht Ha. rewrite Hr, Ht in Hp. cbn in Hp. rewrite Ha in Hp.
  assert (forall q, q ∈ rest -> q ∈ Descriptors (fleet (tExec c))) by (intros q Hq; apply Htodo; rewrite Ht; by right).
  split; cbn [proceed tCost tTodo tExec tResult tExtracted tNow tPassed tDims]; [done|done|].
  destruct rest; [|done]. intros _ p0 Hin Hen. by destruct (Hp p0 Hin Hen) as [?|?%elem_of_nil].
Qed.

Lemma proceed_fields c t rest passed k :
  tPassed (proceed c t rest passed k) = passed /\ tCost (proceed c t rest passed k) = tCost c /\ tAt (proceed c t rest passed k) = t.
Proof. by destruct k. Qed.

Lemma spent_proceed s i c t rest passed k E key clk r cs : calls s !! i = Some c ->
  spent (mkFleet clk r cs (<[i := proceed c t rest passed k]> (calls s))) E key =
  (spent s E key - cost_before E key c + (if bool_decide (key ∈ passed) && (t <? E) then tCost c else 0))%Z.
Proof.
  intros Hi. unfold spent, cost_before. cbn [calls]. rewrite (zsum_insert _ _ _ c) by done.
  by destruct (proceed_fields c t rest passed k) as (-> & -> & ->).
Qed.

(** A step that counts nothing more on the key. *)
Lemma spent_proceed_le s i c t rest passed k E key clk r cs : calls s !! i = Some c -> (1 <= tCost c)%Z -> (tAt c <= t)%Z ->
  (key ∈ passed -> key ∈ tPassed c) ->
  (spent (mkFleet clk r cs (<[i := proceed c t rest passed k]> (calls s))) E key <= spent s E key)%Z.
Proof.
  intros Hi Hc Ht Hp. rewrite (spent_proceed s i c) by done. unfold cost_before.
  destruct (Z.ltb_spec t E), (Z.ltb_spec (tAt c) E); repeat case_bool_decide; cbn [andb]; try lia; tauto.
Qed.

Lemma before_end t now d : (1 <= d)%Z -> (t / Second / d = now / d)%Z -> (t < (now / d * d + d) * Second)%Z.
Proof.
  intros Hd <-. pose proof (Z.mod_pos_bound t Second eq_refl). pose proof (Z.div_mod t Second ltac:(done)).
  pose proof (Z.mod_pos_bound (t / Second) d ltac:(lia)). pose proof (Z.div_mod (t / Second) d ltac:(lia)). unfold Second in *. nia.
Qed.

Lemma calls_later (s s' : Fleet R C) : (clock s <= clock s')%Z -> Forall (fun c => call_ok c /\ (tAt c <= clock s)%Z) (calls s) ->
  Forall (fun c => call_ok c /\ (tAt c <= clock s')%Z) (calls s).
Proof. intros Ht Hf. eapply Forall_impl; [exact Hf|]. intros c [? ?]. split; [done|lia]. Qed.

(** A call starts. *)
Lemma fleet_call key limit E s e ds cost now t : (clock s <= t)%Z -> (1 <= cost)%Z -> fleet_inv key limit E s ->
  fleet_inv key limit E (mkFleet t (redis s) (caches s) (calls s ++ [start_call fleet e ds cost now t])).
Proof.
  intros Ht Hcost [Hcalls Hspent Hcounter Hcache].
  set (s' := mkFleet t (redis s) (caches s) (calls s ++ [start_call fleet e ds cost now t])).
  assert (spent s' E key = spent s E key) as Hs.
  { unfold spent, s'. cbn [calls]. rewrite zsum_app. cbn [zsum start_call]. unfold cost_before. cbn [tPassed].
    rewrite bool_decide_eq_false_2 by apply not_elem_of_nil. cbn [andb]. lia. }
  split; rewrite ?Hs; [|done|intros; apply Hcounter; cbn [s' clock] in *; lia|intros; eapply Hcache; [done|cbn [s' clock] in *; lia]].
  cbn [s' calls]. apply Forall_app_2; [by apply (calls_later s s')|]. apply Forall_singleton. split; [|done]. split; cbn; [done|done|].
  destruct (Descriptors (fleet e)); cbn; [set_solver|]. intros q Hq _. by right.
Qed.

(** A policy that does not apply is skipped. *)
Lemma fleet_skip key limit E s i c p rest t : calls s !! i = Some c -> tResult c = None -> tTodo c = p :: rest ->
  applies (tExtracted c) (tDims c) p = false -> (clock s <= t)%Z -> fleet_inv key limit E s ->
  fleet_inv key limit E (mkFleet t (redis s) (caches s)
    (<[i := proceed c t rest (tPassed c) (Continue (tDims c) (tFinal c))]> (calls s))).
Proof.
  intros Hi Hr Htodo Ha Ht [Hcalls Hspent Hcounter Hcache]. destruct (Forall_lookup_1 _ _ _ _ Hcalls Hi) as [Hok Hat].
  set (s' := mkFleet t (redis s) (caches s) (<[i := proceed c t rest (tPassed c) (Continue (tDims c) (tFinal c))]> (calls s))).
  assert (spent s' E key <= spent s E key)%Z as Hle by (apply spent_proceed_le; [done|apply Hok|lia|done]).
  split; [|lia| |].
  - apply Forall_insert; [by apply (calls_later s s')|]. split; [by eapply skip_ok|done].
  - intros t' Ht'. cbn [s' clock] in Ht'. specialize (Hcounter t' ltac:(lia)). cbn [s' redis]. lia.
  - intros e tt t' Hg Ht'. apply (Hcache e tt); [done|]. cbn [s' clock] in Ht'. lia.
Qed.

Section Evaluation.
Context (key : string) (limit divider E : Z) (s : Fleet R C) (i : nat) (c : Call) (p : YamlDescriptor) (rest : list YamlDescriptor).
Context (t jitter : Z) (o : Outcome) (r' : R) (c' : C).
Let key' := fw_key (Domain (fleet (tExec c))) (tExtracted c) p (tNow c).
Let s' := mkFleet t r' (<[tExec c := c']> (caches s))
  (<[i := proceed c t rest (passed_after c key' o) (after (dimension p :: tDims c) (tFinal c) o)]> (calls s)).
Context (Hi : calls s !! i = Some c) (Hr : tResult c = None) (Htodo : tTodo c = p :: rest).
Context (Ha : applies (tExtracted c) (tDims c) p = true) (Hclk : (clock s <= t)%Z) (Hnow : (tNow c * Second <= t)%Z).
Context (Hj : (0 <= jitter)%Z).
Context (Hchk : fw_check (Domain (fleet (tExec c))) (tExtracted c) (tCost c) (tNow c) t jitter p
                  (redis s, Some (cache_of s (tExec c))) = (o, (r', Some c'))).
Context (Hinv : fleet_inv key limit E s).

Lemma eval_call_ok : call_ok c /\ (tAt c <= t)%Z.
Proof. destruct (Forall_lookup_1 _ _ _ _ (fi_calls _ _ _ _ Hinv) Hi). split; [done|lia]. Qed.

Lemma eval_calls_ok : Forall (fun c => call_ok c /\ (tAt c <= clock s')%Z) (calls s').
Proof.
  destruct eval_call_ok as [Hok _].
  destruct (fw_check_spec _ _ _ _ _ _ _ _ _ _ _ _ Hchk (co_cost _ Hok) Hj Hnow) as (_ & _ & _ & Ho).
  apply Forall_insert; [apply (calls_later s s'); [done|apply (fi_calls _ _ _ _ Hinv)]|]. split; [by apply proceed_ok|].
  by destruct (proceed_fields c t rest (passed_after c key' o) (after (dimension p :: tDims c) (tFinal c) o)) as (_ & _ & ->).
Qed.

Lemma eval_cache e tt k : cache_get (cache_of s' e) tt k = true ->
  cache_get c' tt k = true \/ cache_get (cache_of s e) tt k = true.
Proof.
  unfold cache_of, s'. cbn [caches]. destruct (decide (e = tExec c)) as [->|Hne];
    [rewrite lookup_insert_eq; by left|rewrite lookup_insert_ne by done; by right].
Qed.

(** Another key is evaluated. *)
Lemma inv_eval_other : key <> key' -> fleet_inv key limit E s'.
Proof.
  intros Hne. destruct eval_call_ok as [Hok Hat]. destruct Hinv as [_ Hspent Hcounter Hcache].
  destruct (fw_check_spec _ _ _ _ _ _ _ _ _ _ _ _ Hchk (co_cost _ Hok) Hj Hnow) as (Hother & _ & Hcg & _). fold key' in Hother, Hcg.
  assert (spent s' E key <= spent s E key)%Z as Hle.
  { apply spent_proceed_le; [done|apply Hok|done|]. destruct o; cbn; try done. rewrite elem_of_cons. naive_solver. }
  split; [apply eval_calls_ok|lia|..]; change (redis s') with r'; change (clock s') with t.
  - intros t' Ht'. rewrite Hother by done. specialize (Hcounter t' ltac:(lia)). lia.
  - intros e tt t' [Hg|Hg]%eval_cache Ht'; rewrite Hother by done; [|eapply Hcache; [done|lia]].
    eapply Hcache; [by eapply Hcg|lia].
Qed.

(** The key itself, when its window is over: nothing is counted for it any more. *)
Lemma inv_eval_late : (E <= t)%Z -> fleet_inv key limit E s'.
Proof.
  intros Hlate. destruct eval_call_ok as [Hok Hat]. destruct Hinv as [_ Hspent _ _].
  split; [apply eval_calls_ok| |intros t' Ht'; cbn [s' clock] in Ht'; lia|intros e tt t' _ Ht'; cbn [s' clock] in Ht'; lia].
  unfold s'. rewrite (spent_proceed s i c) by done. unfold cost_before. pose proof (co_cost _ Hok).
  destruct (Z.ltb_spec t E); [lia|]. rewrite andb_false_r. destruct (bool_decide _), (Z.ltb_spec (tAt c) E); cbn [andb]; lia.
Qed.

(** The key itself in its window: the counter takes the cost along. *)
Lemma eval_spent t' : key = key' -> window_close p (tNow c) = E -> (t <= t' < E)%Z -> (spent s' E key <= counter r' t' key)%Z.
Proof.
  intros Heq HE Ht'. destruct eval_call_ok as [Hok Hat]. pose proof (fi_counter _ _ _ _ Hinv) as Hcounter.
  destruct (fw_check_spec _ _ _ _ _ _ _ _ _ _ _ _ Hchk (co_cost _ Hok) Hj Hnow) as (_ & Hself & _ & _).
  fold (window_close p (tNow c)) in Hself. rewrite HE in Hself.
  destruct (Hself t' Ht') as (Hm & Hw & _). fold key' in Hm, Hw. unfold s'. rewrite <- Heq in Hm, Hw. rewrite (spent_proceed s i c) by done.
  pose proof (Hcounter t' ltac:(lia)). pose proof (Hcounter t ltac:(lia)). pose proof (co_cost _ Hok).
  unfold cost_before. rewrite (proj2 (Z.ltb_lt t E)), (proj2 (Z.ltb_lt (tAt c) E)), !andb_true_r by lia.
  destruct o; cbn [passed_after]; rewrite ?Z.sub_add; try lia. repeat case_bool_decide; lia.
Qed.

Lemma inv_eval_same : key_counts fleet key limit divider -> key = key' -> window_close p (tNow c) = E -> (t < E)%Z ->
  fleet_inv key limit E s'.
Proof.
  intros Hk Heq HE Hin. destruct eval_call_ok as [Hok Hat].
  assert (p ∈ Descriptors (fleet (tExec c))) as Hp by (apply (co_todo _ Hok); rewrite Htodo; by left).
  destruct (Hk _ _ _ _ Hp (eq_sym Heq)) as [HL _].
  pose proof (fun t' => eval_spent t' Heq HE) as Hnew. destruct Hinv as [_ Hspent Hcounter Hcache].
  destruct (fw_check_spec _ _ _ _ _ _ _ _ _ _ _ _ Hchk (co_cost _ Hok) Hj Hnow) as (_ & Hself & _ & _).
  fold (window_close p (tNow c)) key' in Hself. rewrite HE, <- Heq in Hself. split; [apply eval_calls_ok|..].
  - destruct (Hself t ltac:(lia)) as (_ & Hw & _). pose proof (Hnew t ltac:(lia)) as Hn. pose proof (co_cost _ Hok).
    unfold s' in *. rewrite (spent_proceed s i c) in * by done. unfold cost_before in *.
    rewrite (proj2 (Z.ltb_lt t E)), (proj2 (Z.ltb_lt (tAt c) E)), !andb_true_r in * by lia.
    destruct o; cbn [passed_after] in *; lia.
  - intros t' Ht'. by apply Hnew.
  - intros e tt t' Hg Ht'. destruct (Hself t' Ht') as (Hm & _ & Hcg'). rewrite <- HL. cbn [s' redis clock] in *.
    assert (forall e, cache_get (cache_of s e) tt key = true -> (Limit p <= counter r' t' key)%Z) as Hold.
    { intros e0 H0'. pose proof (Hcache e0 tt t' H0' ltac:(lia)). lia. }
    destruct (eval_cache e tt key Hg) as [Hg'|Hg']; [destruct (Hcg' tt Hg'); eauto|eauto].
Qed.
End Evaluation.

Lemma fw_step_inv key limit divider E s s' : key_counts fleet key limit divider -> window_end key E ->
  fw_step fleet s s' -> fleet_inv key limit E s -> fleet_inv key limit E s'.
Proof.
  intros Hk HE Hstep Hinv.
  destruct Hstep as [s e ds cost now t Ht Hcost|s i c p rest t Hi Hr Htodo Ha Ht|s i c p rest t jitter o r' c' Hi Hr Htodo Ha Hclk Hnow Hj Hchk].
  - by apply fleet_call.
  - by eapply fleet_skip.
  - destruct (decide (key = fw_key (Domain (fleet (tExec c))) (tExtracted c) p (tNow c))) as [Heq|]; [|by eapply inv_eval_other].
    destruct (Z.lt_ge_cases t E) as [Hin|]; [|by eapply inv_eval_late].
    eapply inv_eval_same; try done. eapply window_end_det; [done| |done]. exists (tExec c), p, (tExtracted c), (tNow c).
    split; [|done]. destruct (Forall_lookup_1 _ _ _ _ (fi_calls _ _ _ _ Hinv) Hi) as [Hok _].
    apply (co_todo _ Hok). rewrite Htodo. by left.
Qed.

Lemma governing_elem x dims ps p : p ∈ governing x dims ps -> p ∈ ps.
Proof.
  revert dims. induction ps as [|q ps IH]; intros dims; cbn; [done|].
  destruct (applies x dims q); [intros [->|H']%elem_of_cons; [by left|]|intros H']; right; by eapply IH.
Qed.

(** Everything admitted in time was counted. *)
Lemma admitted_cost_bound key limit divider E s : key_counts fleet key limit divider -> window_end key E ->
  fleet_inv key limit E s -> (admitted_cost fleet s key <= limit)%Z.
Proof.
  intros Hk HE [Hcalls Hspent _ _]. etrans; [|exact Hspent]. apply zsum_mono. intros c Hc.
  destruct (proj1 (Forall_forall _ _) Hcalls c Hc) as [[Hcost _ Hp] _]. unfold cost_before.
  destruct (admitted c && charged fleet c key) eqn:E0; [|repeat case_match; lia].
  apply andb_true_iff in E0 as [Ha (p & Hp' & Hpk)%existsb_elem]. bool_hyps.
  assert (window_close p (tNow c) = E) as Hw.
  { eapply window_end_det; [done| |done]. exists (tExec c), p, (tExtracted c), (tNow c). split; [by eapply governing_elem|done]. }
  unfold admitted in Ha. destruct (tResult c) as [[d|]|]; try done. apply negb_true_iff in Ha.
  rewrite bool_decide_eq_true_2; [|match goal with Hkey : _ = key |- _ => rewrite <- Hkey end; by apply Hp].
  rewrite (proj2 (Z.ltb_lt _ _)); [done|]. lia.
Qed.

Lemma fleet_reachable_inv key limit divider E s0 s : key_counts fleet key limit divider -> window_end key E -> (0 <= limit)%Z ->
  fw_initial s0 -> rtc (fw_step fleet) s0 s -> fleet_inv key limit E s.
Proof.
  intros Hk HE HL [Hc0 Hs0] Hrun. assert (fleet_inv key limit E s0) as H00.
  { split; unfold spent; rewrite ?Hs0; cbn; [constructor|done|intros; apply counter_nonneg|].
    intros e tt t Hg. unfold cache_of in Hg. rewrite Hc0, lookup_empty in Hg. cbn in Hg. by rewrite cache_get_empty in Hg. }
  clear Hc0 Hs0. induction Hrun as [|s1 s2 s3 Hstep _ IH]; [done|]. apply IH. by eapply fw_step_inv.
Qed.

End FleetLemmas.

(** A call alone in the fleet is the executor's loop. *)
Lemma fw_run_alone {R C : Type} `{RedisCounters R, LocalCache C} (fleet : nat -> FilterOptions) (clk t jitter : Z) (r : R)
  (cs : gmap nat C) (l : list Call) (c : Call) :
  (clk <= t)%Z -> (0 <= jitter)%Z -> tNow c = (t / Second)%Z -> tResult c = None -> tTodo c <> [] ->
  exists clk' r' cs' c', rtc (fw_step fleet) (mkFleet clk r cs (l ++ [c])) (mkFleet clk' r' cs' (l ++ [c'])) /\
    let '(res, (rd, _)) := evaluate_loop (fw_check (Domain (fleet (tExec c))) (tExtracted c) (tCost c) (t / Second) t jitter)
      (tExtracted c) (tTodo c) (tDims c) (tFinal c) (r, Some (default cache_empty (cs !! tExec c))) in
    tResult c' = Some res /\ r' = rd.
Proof.
  destruct c as [e now at0 x cost todo dims fin passed res]. cbn. intros Hclk Hj -> -> Hne.
  revert clk r cs at0 dims fin passed Hclk Hne. induction todo as [|p todo IH]; intros clk r cs at0 dims fin passed Hclk Hne; [done|].
  set (c := mkCall e (t / Second) at0 x cost (p :: todo) dims fin passed None).
  assert ((l ++ [c]) !! length l = Some c) as Hl by (rewrite lookup_app_r, Nat.sub_diag by lia; done).
  assert (forall y, <[length l := y]> (l ++ [c]) = l ++ [y]) as Hins.
  { intros y. rewrite insert_app_r_alt, Nat.sub_diag by lia. done. }
  assert (t / Second * Second <= t)%Z as Hsec by (pose proof (Z.mul_div_le t Second eq_refl); lia).
  cbn [evaluate_loop]. destruct (applies x dims p) eqn:Ha.
  - destruct (fw_check _ _ _ _ _ _ p _) as [o [r1 oc]] eqn:Hchk.
    assert (exists c1, oc = Some c1) as [c1 ->].
    { unfold fw_check in Hchk. repeat case_match; simplify_eq; eauto. }
    assert (fw_step fleet (mkFleet clk r cs (l ++ [c])) _) as Hstep
      by exact (fw_eval fleet (mkFleet clk r cs (l ++ [c])) (length l) c p todo t jitter o r1 c1 Hl eq_refl eq_refl Ha Hclk Hsec Hj Hchk).
    cbn [calls] in Hstep. rewrite Hins in Hstep. cbn [tExec tDims tFinal c] in Hstep.
    cbn [caches] in Hstep. generalize dependent (passed_after c (fw_key (Domain (fleet e)) (tExtracted c) p (tNow c)) o).
    intros passed1 Hstep. destruct (after _ _ o) as [dims1 fin1|res]; cbn [proceed tExec tNow tExtracted tCost c] in Hstep;
      [|do 4 eexists; split; [by apply rtc_once|done]].
    destruct todo as [|q todo]; [do 4 eexists; split; [by apply rtc_once|done]|].
    destruct (IH t r1 (<[e := c1]> cs) t dims1 fin1 passed1 ltac:(lia) ltac:(done)) as (clk' & r' & cs' & c' & Hrun & Hres).
    rewrite lookup_insert_eq in Hres. exists clk', r', cs', c'. split; [by eapply rtc_l|exact Hres].
  - pose proof (fw_skip fleet (mkFleet clk r cs (l ++ [c])) (length l) c p todo t Hl eq_refl eq_refl Ha Hclk) as Hstep.
    cbn [calls clock redis caches] in Hstep. rewrite Hins in Hstep. cbn [proceed tExec tNow tExtracted tCost tDims tFinal tPassed c] in Hstep.
    destruct todo as [|q todo]; [do 4 eexists; split; [by apply rtc_once|done]|].
    destruct (IH t r cs t dims fin passed ltac:(lia) ltac:(done)) as (clk' & r' & cs' & c' & Hrun & Hres).
    exists clk', r', cs', c'. split; [by eapply rtc_l|exact Hres].
Qed.

(** Every request costs at least one unit, and at most the configured cap. *)
Lemma requestCost_bounds opts c : (1 <= requestCost (ApplyDefaults opts) c)%Z /\
  (dcEnabled (DynamicCost opts) = true -> (0 < MaxAllowedCost (DynamicCost opts))%Z ->
   (requestCost (ApplyDefaults opts) c <= MaxAllowedCost (DynamicCost opts))%Z).
Proof.
  unfold requestCost. destruct opts as [d a r hm rh [en src fb cap] ds]. cbn. destruct en; cbn; [|done].
  set (cost := match ParseInt64 _ with Some _ => _ | None => _ end).
  assert (1 <= cost)%Z.
  { unfold cost. destruct (ParseInt64 _) as [v|]; [destruct (Z.leb_spec 1 v); [lia|]|]; destruct (Z.ltb_spec fb 1); lia. }
  destruct (Z.ltb_spec 0 cap); cbn [andb]; [destruct (Z.ltb_spec cap cost); lia|]. lia.
Qed.

Lemma keeps_down c k v : keeps c (SetHeaderDownstream c k v).
Proof. exact (keeps_call c (CallSetDown k v)). Qed.

#[export] Instance Execute_ok {W : Type} (f : RateLimiterFilter W) : FilterOk (W := W) (Execute f).
Proof.
  intros c w err c' w'. unfold Execute. destruct (executor f _ _ _ w) as [[d|e] w1].
  - assert (keeps c (quota_headers (options f) d c)) as Hk.
    { unfold quota_headers. destruct (rhEnabled _); [|by apply keeps_other].
      etrans; [|apply keeps_down]. etrans; [|apply keeps_down]. apply keeps_down. }
    destruct (dBlocked d); intros [= <- <- <-]; [|done]. etrans; [exact Hk|by apply keeps_other].
  - intros [= <- <- <-]. by apply keeps_other.
Qed.

(** ** Properties *)

(** The local cache changes no answer. In every reachable state of the fleet,
    the evaluation of an enforcing policy in its window ends the same way with the
    executor's local cache as it does without one, when Redis answers: a key is
    only cached as exhausted once no request can be within its limit any more. *)
Lemma local_cache_agrees {R C : Type} `{RedisCountersOk R, LocalCacheOk C} (fleet : nat -> FilterOptions) (s0 s : Fleet R C)
  (limit divider : Z) (e : nat) (p : YamlDescriptor) (x : GoMap string) (cost now t jitter n : Z) (r' : R) :
  let key := fw_key (Domain (fleet e)) x p now in
  fw_initial s0 -> rtc (fw_step fleet) s0 s -> key_counts fleet key limit divider -> (0 <= limit)%Z ->
  p ∈ Descriptors (fleet e) -> ShadowMode p = false -> (1 <= cost)%Z -> (clock s <= t)%Z ->
  (t / Second / getDivider (Unit p) = now / getDivider (Unit p))%Z ->
  pipe_incr (redis s) t key cost (getDivider (Unit p) - now mod getDivider (Unit p) + jitter) = (Ok n, r') ->
  (fw_check (Domain (fleet e)) x cost now t jitter p (redis s, Some (cache_of s e))).1 =
  (fw_check (Domain (fleet e)) x cost now t jitter p (redis s, None)).1.
Proof.
  intros key Hi Hrun Hk HL Hp Hsh Hcost Hclk Hwin Hincr.
  destruct (fleet_reachable_inv fleet key limit divider (window_close p now) s0 s Hk ltac:(by exists e, p, x, now) HL Hi Hrun)
    as [_ _ _ Hcache].
  destruct (Hk _ _ _ _ Hp eq_refl) as [Hlim _]. unfold fw_check. fold key. rewrite Hincr, Hsh.
  destruct (cache_get (cache_of s e) t key) eqn:Eg.
  - destruct (incr_ok _ _ _ _ _ _ _ Hcost Hincr) as (-> & _ & _).
    assert (limit <= counter (redis s) t key)%Z.
    { apply (Hcache e t t Eg). split; [done|]. apply before_end; [apply getDivider_pos|done]. }
    destruct (Z.ltb_spec (Limit p) (counter (redis s) t key + cost)); [done|lia].
  - by destruct (Limit p <? n)%Z.
Qed.


(** ** Examples *)

(** Redis as a map from keys to a count and the time it expires. *)
#[export] Instance MemRedis : RedisCounters (gmap string (N * Z)) := {
  counter m t k := match m !! k with Some (v, x) => if (t <? x)%Z then Z.of_N v else 0%Z | None => 0%Z end;
  pipe_incr m t k c ttl :=
    let v := (match m !! k with Some (v, x) => if (t <? x)%Z then Z.of_N v else 0%Z | None => 0%Z end + c)%Z in
    if (v <? two63)%Z then (Ok v, <[k := (Z.to_N v, (t + ttl * Second)%Z)]> m) else (Err "overflow", m) }.
#[export] Instance MemRedis_ok : RedisCountersOk (gmap string (N * Z)).
Proof.
  split; cbn.
  - intros r t k. repeat case_match; lia.
  - intros r t k c ttl n r' Hc E. set (v := match r !! k with Some (v, x) => _ | None => _ end) in *.
    assert (0 <= v)%Z by (unfold v; repeat case_match; lia).
    destruct (Z.ltb_spec (v + c) two63); [|done]. injection E as <- <-. split; [done|]. split; [done|].
    intros t' Ht'. rewrite lookup_insert_eq. destruct (Z.ltb_spec t' (t + ttl * Second)); lia.
  - intros r t k c ttl e r' Hc E. case_match; [done|]. injection E as _ <-. lia.
  - intros r t t' k Ht. repeat case_match; lia.
  - intros r t k c ttl t' k' Hk. destruct (_ <? two63)%Z; cbn; [by rewrite lookup_insert_ne|done].
Qed.

#[export] Instance MemCache : LocalCache (gset string) := {
  cache_empty := ∅; cache_get c _ k := bool_decide (k ∈ c); cache_set c _ k _ := {[k]} ∪ c }.
#[export] Instance MemCache_ok : LocalCacheOk (gset string).
Proof.
  split; cbn; [done|]. intros c t k ttl t' k'. rewrite !bool_decide_eq_true. set_solver.
Qed.

Definition example_policy : YamlDescriptor :=
  mkDescriptor [mkEntryDef "ip" ""] 2 "minute" false false false "" (S754_zero false) (S754_zero false) 0 (S754_zero false).
Definition example_options : FilterOptions :=
  ApplyDefaults (mkFilterOptions "api" "fixed_window" "cache" [] (mkResponseHeaders true "" "" "")
    (mkDynamicCost false "" 0 0) [example_policy]).
Definition example_fleet (_ : nat) : FilterOptions := example_options.
Definition example_ds : list DescriptorEntry := [mkEntry "ip" "203.0.113.7"].
Definition example_key : string := "api_ip_203.0.113.7_60".

Lemma example_counts : key_counts example_fleet example_key 2 60.
Proof. intros e p x now Hp _. cbn in Hp. apply list_elem_of_singleton in Hp as ->. done. Qed.

Definition example_start : Fleet (gmap string (N * Z)) (gset string) := mkFleet 0 ∅ ∅ [].

(** The next policy of call [i], evaluated at [t]. *)
Definition example_eval (s : Fleet (gmap string (N * Z)) (gset string)) (i : nat) (t jitter : Z) : Fleet (gmap string (N * Z)) (gset string) :=
  match calls s !! i with
  | Some c =>
      match tTodo c with
      | p :: rest =>
          let '(o, (r', c')) := fw_check (Domain (example_fleet (tExec c))) (tExtracted c) (tCost c) (tNow c) t jitter p
                                  (redis s, Some (cache_of s (tExec c))) in
          mkFleet t r' (<[tExec c := default ∅ c']> (caches s))
            (<[i := proceed c t rest (passed_after c (fw_key (Domain (example_fleet (tExec c))) (tExtracted c) p (tNow c)) o)
                      (after (dimension p :: tDims c) (tFinal c) o)]> (calls s))
      | [] => s
      end
  | None => s
  end.

Definition example_ready (s : Fleet (gmap string (N * Z)) (gset string)) (i : nat) (t jitter : Z) : bool :=
  match calls s !! i with
  | Some c =>
      match tTodo c with
      | p :: rest =>
          is_none (tResult c) && applies (tExtracted c) (tDims c) p && (clock s <=? t)%Z && (tNow c * Second <=? t)%Z
          && (0 <=? jitter)%Z
      | [] => false
      end
  | None => false
  end.

Lemma example_eval_step s i t jitter : example_ready s i t jitter = true -> fw_step example_fleet s (example_eval s i t jitter).
Proof.
  unfold example_ready, example_eval. destruct (calls s !! i) as [c|] eqn:Hi; [|done]. destruct (tTodo c) as [|p rest] eqn:Ht; [done|].
  rewrite !andb_true_iff, !Z.leb_le. intros ((((Hr & Ha) & Hc) & Hn) & Hj).
  destruct (fw_check _ _ _ _ _ _ _ _) as [o [r' oc]] eqn:E.
  assert (exists c1, oc = Some c1) as [c1 ->] by (unfold fw_check in E; repeat case_match; simplify_eq; eauto).
  eapply fw_eval; try done. by destruct (tResult c).
Qed.

(** Three requests of one client in a minute, on two executors; the clock of the second
    is a second late. *)
Definition example_calls : Fleet (gmap string (N * Z)) (gset string) :=
  mkFleet (63 * Second) ∅ ∅ [start_call example_fleet 0 example_ds 1 61 (61 * Second);
    start_call example_fleet 1 example_ds 1 61 (62 * Second); start_call example_fleet 0 example_ds 1 63 (63 * Second)].
Definition example_final : Fleet (gmap string (N * Z)) (gset string) :=
  example_eval (example_eval (example_eval example_calls 1 (63 * Second) 4) 0 (63 * Second) 0) 2 (64 * Second) 1.

Lemma example_run : rtc (fw_step example_fleet) example_start example_final.
Proof.
  eapply rtc_l; [eapply (fw_call _ _ 0 example_ds 1 61 (61 * Second)); done|].
  eapply rtc_l; [eapply (fw_call _ _ 1 example_ds 1 61 (62 * Second)); done|].
  eapply rtc_l; [eapply (fw_call _ _ 0 example_ds 1 63 (63 * Second)); done|].
  change (mkFleet _ _ _ _) with example_calls.
  eapply rtc_l; [apply (example_eval_step _ 1 (63 * Second) 4); vm_compute; reflexivity|].
  eapply rtc_l; [apply (example_eval_step _ 0 (63 * Second) 0); vm_compute; reflexivity|].
  eapply rtc_l; [apply (example_eval_step _ 2 (64 * Second) 1); vm_compute; reflexivity|]. apply rtc_refl.
Qed.


End RateLimit.
