(* ===== verification/RateScripts.v ===== *)
(** * RateScripts: rate limits that run as Lua scripts in Redis, and the sliding log
    (internal/filters/rate_limiter: lua_script.go, sliding_window_log.go)

    A script is an atomic function of the keys' contents that answers and writes its
    first key. [Eval] is the EVALSHA protocol with its reload on NOSCRIPT. The
    sliding log executor is the loop of RateLimit over [log_check]; a fleet of
    executors is any sequence of checks against one Redis, which serialises them. *)

From S2P Require Import Prelude GoStrings GoTime Context Executor RateLimit.
From Stdlib Require Import QArith Lqa.

Local Open Scope string_scope.
Local Open Scope list_scope.
Local Close Scope Q_scope.

Module RateScripts.
Import RateLimit.

(** ** Scripts *)

(** What a script does to its first key: nothing, a change that leaves the time to
    live, or a new value that expires after [ttl] seconds. *)
Inductive Write (V : Type) : Type :=
| Keep
| Store (v : V)
| StoreEx (v : V) (ttl : Z).
Arguments Keep {V}.
Arguments Store {V}.
Arguments StoreEx {V}.

(** A script of the contents of its first key and of its other keys. *)
Definition Script (V A : Type) : Type := option V -> list (option V) -> A * Write V.

(** Redis as the executors use it: EVALSHA of a script at a time (seconds), by the
    digest it was loaded under, on a key and others; SCRIPT LOAD; and what a key
    holds at a time. *)
Class RedisScripts (R V : Type) := {
  content : R -> Q -> string -> option V;
  evalsha : forall {A : Type}, R -> Q -> string -> string -> list string -> Script V A -> result A * R;
  script_load : R -> string -> result string * R
}.

(** The effect of a write at time [t] on what the keys hold from then on. *)
Definition wrote {R V : Type} `{RedisScripts R V} (r : R) (t : Q) (k : string) (w : Write V) (r' : R) : Prop :=
  (forall t' k', (t <= t')%Q -> k' <> k -> content r' t' k' = content r t' k') /\
  match w with
  | Keep => forall t', (t <= t')%Q -> content r' t' k = content r t' k
  | Store v => forall t', (t <= t')%Q -> content r' t' k = match content r t' k with Some _ => Some v | None => None end
  | StoreEx v ttl => forall t', (t <= t')%Q -> (t' < t + inject_Z ttl)%Q -> content r' t' k = Some v
  end.

Definition ran {R V A : Type} `{RedisScripts R V} (r : R) (t : Q) (k : string) (ks : list string) (s : Script V A) : A * Write V :=
  s (content r t k) (content r t <$> ks).

(** Redis runs a script atomically; a command that fails may still have run, unless
    the script was not loaded; a key keeps its value until it expires. *)
Class RedisScriptsOk (R V : Type) `{RedisScripts R V} : Prop := {
  evalsha_ok A r t sha k ks (s : Script V A) a r' : evalsha r t sha k ks s = (Ok a, r') ->
    a = (ran r t k ks s).1 /\ wrote r t k (ran r t k ks s).2 r';
  evalsha_err A r t sha k ks (s : Script V A) e r' : evalsha r t sha k ks s = (Err e, r') ->
    wrote r t k Keep r' \/ (Contains e "NOSCRIPT" = false /\ wrote r t k (ran r t k ks s).2 r');
  load_keeps r body t k : content (script_load r body).2 t k = content r t k;
  content_later r t t' k : (t <= t')%Q -> content r t' k = content r t k \/ content r t' k = None
}.

(** ** lua_script.go *)

Record luaScript := mkLuaScript { body : string; sha : string }.

Section LuaScript.
Context {R V A : Type} `{RedisScripts R V}.

(** [Eval]: EVALSHA, and once more after SCRIPT LOAD when Redis does not know the
    script. *)
Definition Eval (l : luaScript) (r : R) (t : Q) (k : string) (ks : list string) (s : Script V A) : result A * luaScript * R :=
  match evalsha r t (sha l) k ks s with
  | (Ok a, r) => (Ok a, l, r)
  | (Err e, r) =>
      if negb (Contains e "NOSCRIPT") then (Err e, l, r)
      else
        match script_load r (body l) with
        | (Err e, r) => (Err ("SCRIPT LOAD failed: " +++ e)%go, l, r)
        | (Ok newSha, r) =>
            let l := mkLuaScript (body l) newSha in
            let '(res, r) := evalsha r t newSha k ks s in (res, l, r)
        end
  end.

End LuaScript.

(** The key of the scripts with one key: the domain, the entries with the values of
    the request, and a suffix. *)
Definition script_key (domain : string) (extracted : GoMap string) (p : YamlDescriptor) (suffix : string) : string :=
  (fold_left (fun s e => s +++ "_" +++ edKey e +++ "_" +++ default "" (map_get extracted (edKey e))) (Entries p) domain
   +++ "_" +++ suffix)%go.

(** The same key as the path that builds it in the batch buffer writes it. *)
Definition batch_key (domain : string) (extracted : GoMap string) (p : YamlDescriptor) (suffix : string) : string :=
  (fold_left (fun s e => s +++ edKey e +++ "_" +++ default "" (map_get extracted (edKey e)) +++ "_") (Entries p) (domain +++ "_")
   +++ suffix)%go.

(** ** The sliding log *)

(** A sorted set: members with their scores. *)
Abbreviation ZSet := (list (string * Z)).

Definition zadd (z : ZSet) (member : string) (score : Z) : ZSet :=
  List.filter (fun e => negb (String.eqb e.1 member)) z ++ [(member, score)].

(** The lowest score. *)
Definition oldest (z : ZSet) : option Z :=
  match z with [] => None | e :: z => Some (fold_left (fun m x => Z.min m x.2) z e.2) end.

(** ZREMRANGEBYSCORE key 0 (now - window). *)
Definition in_window (now window : Z) (z : ZSet) : ZSet :=
  List.filter (fun e => negb ((0 <=? e.2) && (e.2 <=? now - window))%Z) z.

(** [getLogLuaScriptBody]: times in milliseconds. *)
Definition log_script (limit now window : Z) (member : string) : Script ZSet (list Z) := fun held _ =>
  let z := in_window now window (default [] held) in
  let count := Z.of_nat (length z) in
  if (count <? limit)%Z
  then ([1; limit - count - 1]%Z, StoreEx (zadd z member now) ((window + 999) / 1000))
  else
    let reset := match oldest z with Some ts => window - (now - ts) | None => window end%Z in
    ([0; Z.max 0 reset]%Z, Store z).

(** The time in seconds of a clock in milliseconds. *)
Definition seconds (ms : Z) : Q := (ms # 1000)%Q.

Section SlidingLog.
Context {R C : Type} `{RedisScripts R ZSet, LocalCache C}.

(** The member of a request: the microsecond, with the request id or the process's
    counter, which is returned with its next value. *)
Definition memberID (micro : Z) (reqID : string) (logCounter : Z) : string * Z :=
  if negb (String.eqb reqID "") then ((Itoa micro +++ "_" +++ reqID)%go, logCounter)
  else let n := u64 (logCounter + 1) in ((Itoa micro +++ "_" +++ Itoa n)%go, n).

(** One policy of [Evaluate] on an executor's script, its process's counter and its
    local cache; [t] is the time in nanoseconds freecache reads, [u] Redis's clock in
    milliseconds when the script runs. *)
Definition log_check (domain reqID : string) (extracted : GoMap string) (nowMs t micro u : Z) (p : YamlDescriptor)
  (w : R * (luaScript * Z * option C)) : Outcome * (R * (luaScript * Z * option C)) :=
  let '(r, (script, counter, cache)) := w in
  let windowMs := (getDivider (Unit p) * 1000)%Z in
  let key := script_key domain extracted p "sliding_log" in
  if match cache with Some c => cache_get c t key | None => false end
  then (Refused (mkDecision true (Limit p) 0 (windowMs * Millisecond)), w)
  else
    let '(member, counter) := memberID micro reqID counter in
    let '(res, script, r) := Eval script r (seconds u) key [] (log_script (Limit p) nowMs windowMs member) in
    match res with
    | Err e => (if FailOpen p then FailedOpen else Failed e, (r, (script, counter, cache)))
    | Ok (allowed :: v :: _) =>
        if (allowed =? 0)%Z then
          if ShadowMode p then (Shadowed (Limit p) (v * Millisecond), (r, (script, counter, cache)))
          else
            let cacheTTL := Z.max 1 ((v + 999) / 1000) in
            (Refused (mkDecision true (Limit p) 0 (v * Millisecond)),
             (r, (script, counter, if (0 <? v)%Z then (fun c => cache_set c t key cacheTTL) <$> cache else cache)))
        else (Within (u32 (Z.max 0 v)) (Limit p) (windowMs * Millisecond), (r, (script, counter, cache)))
    | Ok _ => (if FailOpen p then FailedOpen else Failed "invalid sliding log script response length", (r, (script, counter, cache)))
    end.

(** The call; [when] is Redis's clock at the script of each policy. *)
Definition log_Evaluate (opts : FilterOptions) (reqID : string) (t micro : Z) (when : YamlDescriptor -> Z) (ds : list DescriptorEntry)
  (w : R * (luaScript * Z * option C)) : result Decision * (R * (luaScript * Z * option C)) :=
  let extracted := extracted_map ds in
  evaluate_loop (fun p => log_check (Domain opts) reqID extracted (t / Millisecond) t micro (when p) p) extracted (Descriptors opts) [] initialDecision w.

(** ** The fleet *)

(** The executors, by number, with their options. *)
Variable fleet : nat -> FilterOptions.

(** A check that ended within the limit: its key, the member that was added, Redis's
    clock then, and the request: the executor, the microsecond and the request id. *)
Record Pass := mkPass { pKey : string; pMember : string; pTime : Z; pExec : nat; pMicro : Z; pReq : string }.

(** Redis's clock, what is shared, what each executor holds, the checks that ended within
    the limit, and the number of checks so far. *)
Record LogFleet := mkLogFleet {
  lclock : Z; lredis : R; lexecs : nat -> luaScript * Z * option C; lpassed : list Pass; lchecks : Z }.

(** A check of any policy by any executor. Its timestamp, read before from the engine's
    own clock, is within [skew] milliseconds of Redis's clock when the script runs. *)
Inductive log_step (skew : Z) : LogFleet -> LogFleet -> Prop :=
| log_checked s e p reqID extracted now t micro u o r' x' :
    (lclock s <= u)%Z -> (u - skew <= now <= u + skew)%Z -> p ∈ Descriptors (fleet e) ->
    log_check (Domain (fleet e)) reqID extracted now t micro u p (lredis s, lexecs s e) = (o, (r', x')) ->
    log_step skew s (mkLogFleet u r' (fun n => if Nat.eqb n e then x' else lexecs s n)
      (match o with
       | Within _ _ _ => lpassed s ++ [mkPass (script_key (Domain (fleet e)) extracted p "sliding_log")
                                        (memberID micro reqID (lexecs s e).1.2).1 u e micro reqID]
       | _ => lpassed s
       end) (lchecks s + 1)).

(** The requests that passed on a key in the window of that length that ends at [T]. *)
Definition window_passes (s : LogFleet) (key : string) (window T : Z) : list Pass :=
  List.filter (fun e => String.eqb (pKey e) key && (T - window <? pTime e)%Z && (pTime e <=? T)%Z) (lpassed s).

(** Two requests that can be told apart: by the microsecond, by their ids, or by the
    counter of the process that handles both. *)
Definition apart (p q : Pass) : Prop :=
  pMicro p <> pMicro q \/ (pReq p <> "" /\ pReq q <> "" /\ pReq p <> pReq q) \/ (pExec p = pExec q /\ pReq p = "" /\ pReq q = "").

Definition log_initial (s : LogFleet) : Prop := lpassed s = [] /\ lchecks s = 0%Z.

(** A key counts one limit over one unit. *)
Definition log_key_counts (key : string) (limit divider : Z) : Prop :=
  forall e p extracted, p ∈ Descriptors (fleet e) -> script_key (Domain (fleet e)) extracted p "sliding_log" = key ->
    Limit p = limit /\ getDivider (Unit p) = divider.

End SlidingLog.
Arguments LogFleet : clear implicits.

(** ** Lemmas *)

(** Both ways to build a key agree. *)
Lemma batch_key_eq domain x p suffix : batch_key domain x p suffix = script_key domain x p suffix.
Proof.
  unfold batch_key, script_key. revert domain. induction (Entries p) as [|e l IH]; intros domain; cbn [fold_left].
  - by rewrite string_app_assoc.
  - rewrite <- IH. f_equal. f_equal. by rewrite !string_app_assoc.
Qed.

Section EvalLemmas.
Context {R V A : Type} `{RedisScriptsOk R V}.

Lemma wrote_keep_ran r t k ks (s : Script V A) k' r' : wrote r t k' Keep r' -> ran r' t k ks s = ran r t k ks s.
Proof.
  intros [Ho Hk]. assert (forall x, content r' t x = content r t x) as Heq.
  { intros x. destruct (decide (x = k')) as [->|Hx]; [apply Hk|apply Ho; [|done]]; lra. }
  unfold ran. rewrite Heq. f_equal. apply list_fmap_ext. intros i x _. apply Heq.
Qed.

Lemma wrote_after_keep r t k w r1 r' : wrote r t k Keep r1 -> wrote r1 t k w r' -> wrote r t k w r'.
Proof.
  intros [Ho Hk] [Ho' Hw]. split; [intros t' k' Ht Hne; by rewrite Ho', Ho|].
  destruct w; intros t' Ht; [by rewrite Hw, Hk|by rewrite Hw, Hk|by apply Hw].
Qed.

(** [Eval] is EVALSHA of a script that is loaded. *)
Lemma Eval_spec l r t k ks (s : Script V A) res l' r' : Eval l r t k ks s = (res, l', r') ->
  match res with
  | Ok a => a = (ran r t k ks s).1 /\ wrote r t k (ran r t k ks s).2 r'
  | Err _ => wrote r t k Keep r' \/ wrote r t k (ran r t k ks s).2 r'
  end.
Proof.
  unfold Eval. destruct (evalsha r t (sha l) k ks s) as [[a|e] r1] eqn:E1.
  { intros [= <- <- <-]. by apply evalsha_ok in E1. }
  apply evalsha_err in E1. destruct (Contains e "NOSCRIPT") eqn:En; cbn [negb].
  2:{ intros [= <- <- <-]. destruct E1 as [?|[_ ?]]; [by left|by right]. }
  destruct E1 as [E1|[? _]]; [|done].
  pose proof (fun t k => load_keeps r1 (body l) t k) as Hl.
  destruct (script_load r1 (body l)) as [[nsha|e'] r2]; cbn [snd] in Hl.
  2:{ intros [= <- <- <-]. left. destruct E1 as [Ho Hk]. split; intros; rewrite Hl; auto. }
  assert (wrote r t k Keep r2) as E2 by (destruct E1 as [Ho Hk]; split; intros; rewrite Hl; auto).
  destruct (evalsha r2 t nsha k ks s) as [[a|e2] r3] eqn:E3; intros [= <- <- <-].
  - apply evalsha_ok in E3 as [-> Hw]. rewrite (wrote_keep_ran _ _ _ _ _ _ _ E2) in *. split; [done|]. by eapply wrote_after_keep.
  - apply evalsha_err in E3 as [Hw|[_ Hw]]; [left|right; rewrite (wrote_keep_ran _ _ _ _ _ _ _ E2) in Hw]; by eapply wrote_after_keep.
Qed.
End EvalLemmas.

Lemma seconds_le a b : (seconds a <= seconds b)%Q <-> (a <= b)%Z.
Proof. unfold seconds, Qle. cbn. lia. Qed.
Lemma seconds_lt a b : (seconds a < seconds b)%Q <-> (a < b)%Z.
Proof. unfold seconds, Qlt. cbn. lia. Qed.
Lemma seconds_plus a d : (seconds a + inject_Z d == seconds (a + d * 1000))%Q.
Proof. unfold seconds, Qeq, inject_Z. cbn. lia. Qed.

Lemma zadd_new z m n : (m, n) ∈ zadd z m n.
Proof. apply elem_of_app. right. by apply list_elem_of_singleton. Qed.
Lemma zadd_old z m n m' n' : m' <> m -> (m', n') ∈ z -> (m', n') ∈ zadd z m n.
Proof.
  intros Hne Hin. apply elem_of_app. left. apply list_elem_of_In, filter_In. split; [by apply list_elem_of_In|].
  cbn. by destruct (String.eqb_spec m' m).
Qed.

Lemma in_window_elem now window z m n : (now - window < n)%Z -> (m, n) ∈ z -> (m, n) ∈ in_window now window z.
Proof.
  intros Hn Hin. apply list_elem_of_In, filter_In. split; [by apply list_elem_of_In|]. cbn.
  destruct (Z.leb_spec n (now - window)); [lia|]. by rewrite andb_false_r.
Qed.

Section LogLemmas.
Context {R C : Type} `{RedisScriptsOk R ZSet, LocalCache C}.
Variable fleet : nat -> FilterOptions.

Lemma log_script_cases limit now window m held : let z := in_window now window (default [] held) in
  (log_script limit now window m held []).2 = Store z \/
  (log_script limit now window m held []).2 = StoreEx (zadd z m now) ((window + 999) / 1000).
Proof. cbn. unfold log_script. destruct (_ <? limit)%Z; [by right|by left]. Qed.

(** What a check leaves in Redis, and what its passing says. *)
Lemma log_check_spec domain reqID x now t micro u p (r r' : R) (y y' : luaScript * Z * option C) o :
  log_check domain reqID x now t micro u p (r, y) = (o, (r', y')) ->
  let key := script_key domain x p "sliding_log" in let window := (getDivider (Unit p) * 1000)%Z in
  let m := (memberID micro reqID y.1.2).1 in let z := in_window now window (default [] (content r (seconds u) key)) in
  exists w, wrote r (seconds u) key w r' /\
    (w = Keep \/ w = Store z \/ w = StoreEx (zadd z m now) (getDivider (Unit p))) /\
    match o with Within _ _ _ => w = StoreEx (zadd z m now) (getDivider (Unit p)) /\ (Z.of_nat (length z) < Limit p)%Z | _ => True end.
Proof.
  destruct y as [[sc ctr] ca]. intros E key window m z. unfold log_check in E. fold key window in E. cbn [fst snd] in m.
  assert (forall w, match o with Within _ _ _ => False | _ => True end ->
    match o with Within _ _ _ => w = StoreEx (zadd z m now) (getDivider (Unit p)) /\ (Z.of_nat (length z) < Limit p)%Z | _ => True end) as Hno by by destruct o.
  destruct (match ca with Some c => cache_get c t key | None => false end).
  { injection E as <- <- _. exists Keep. split; [by split|]. split; [by left|done]. }
  unfold m in *. destruct (memberID micro reqID ctr) as [mem ctr']. cbn [fst] in *.
  destruct (Eval sc r (seconds u) key [] (log_script (Limit p) now window mem)) as [[res sc'] r1] eqn:Ee.
  apply Eval_spec in Ee. unfold ran in Ee. cbn [fmap list_fmap] in Ee.
  assert (((window + 999) / 1000)%Z = getDivider (Unit p)) as Httl.
  { unfold window. rewrite Z.div_add_l by done. change (999 / 1000)%Z with 0%Z. lia. }
  pose proof (log_script_cases (Limit p) now window mem (content r (seconds u) key)) as Hcases. fold z in Hcases. cbv zeta in Hcases.
  rewrite Httl in Hcases.
  destruct res as [a|e].
  - destruct Ee as [-> Hw]. exists (log_script (Limit p) now window mem (content r (seconds u) key) []).2.
    assert (r' = r1) as -> by (unfold log_script in E; repeat case_match; by simplify_eq).
    split; [done|]. split; [by right|]. clear Hcases. unfold log_script in *. fold z in E, Hw |- *. rewrite Httl in *.
    destruct (Z.ltb_spec (Z.of_nat (length z)) (Limit p)); cbn [fst snd] in *.
    + destruct o; try done; by split.
    + apply Hno. by destruct (ShadowMode p); injection E as <- _.
  - assert (r' = r1 /\ match o with Within _ _ _ => False | _ => True end) as [-> Ho] by (destruct (FailOpen p); by injection E as <- <- _).
    destruct Ee as [Hw|Hw]; [exists Keep|eexists]; (split; [exact Hw|]); (split; [|by apply Hno]); [by left|by right].
Qed.

Variable skew : Z.
Hypothesis Hskew : (0 <= skew)%Z.

(** Every member that passed stays in its key's set while its window, less what the clocks
    can be apart, lasts. *)
Definition retained (key : string) (window : Z) (s : LogFleet R C) : Prop :=
  forall p, p ∈ lpassed s -> pKey p = key -> (pTime p <= lclock s)%Z /\
    forall t', (seconds (lclock s) <= t')%Q -> (t' < seconds (pTime p + window - 2 * skew))%Q ->
      exists z sc, content (lredis s) t' key = Some z /\ (pMember p, sc) ∈ z /\ (pTime p - skew <= sc)%Z.

Lemma retained_wrote key div (s : LogFleet R C) u now r' w m0 p : retained key (div * 1000) s -> (lclock s <= u)%Z ->
  (u - skew <= now <= u + skew)%Z ->
  let z := in_window now (div * 1000) (default [] (content (lredis s) (seconds u) key)) in
  wrote (lredis s) (seconds u) key w r' -> (w = Keep \/ w = Store z \/ w = StoreEx (zadd z m0 now) div) ->
  p ∈ lpassed s -> pKey p = key -> forall t', (seconds u <= t')%Q -> (t' < seconds (pTime p + div * 1000 - 2 * skew))%Q ->
  exists z sc, content r' t' key = Some z /\ (pMember p, sc) ∈ z /\ (pTime p - skew <= sc)%Z.
Proof.
  intros Hr Hclk Hnow z [_ Hw] Hcases Hin Hpk t' Ht Hlt. destruct (Hr p Hin Hpk) as [Hn Hheld].
  assert (seconds (lclock s) <= seconds u)%Q as Hc by (by apply seconds_le).
  destruct (Hheld t' ltac:(lra) Hlt) as (z1 & sc1 & E1 & Hz1 & Hs1).
  assert (u < pTime p + div * 1000 - 2 * skew)%Z as Hlt' by (apply seconds_lt; lra).
  destruct (Hheld (seconds u) ltac:(lra) ltac:(lra)) as (z0 & sc & E0 & Hz0 & Hs).
  assert ((pMember p, sc) ∈ z) as Hz by (apply in_window_elem; [lia|by rewrite E0]).
  destruct Hcases as [-> | [-> | ->]].
  - rewrite Hw by done. eauto 10.
  - rewrite Hw by done. rewrite E1. eauto 10.
  - rewrite Hw; [|done|].
    + destruct (decide (pMember p = m0)) as [<-|Hne]; [exists (zadd z (pMember p) now), now|exists (zadd z m0 now), sc]; (split; [done|]).
      * split; [apply zadd_new|lia].
      * split; [by apply zadd_old|done].
    + rewrite seconds_plus. assert (seconds (pTime p + div * 1000 - 2 * skew) <= seconds (u + div * 1000))%Q by (apply seconds_le; lia). lra.
Qed.

Lemma size_insert_le (m : string) (X : gset string) : (size ({[m]} ∪ X) <= 1 + size X)%nat.
Proof.
  destruct (decide (m ∈ X)); [replace ({[m]} ∪ X) with X by set_solver; lia|].
  rewrite size_union by set_solver. rewrite size_singleton. lia.
Qed.
Lemma size_of_list (l : list string) : (size (list_to_set (C := gset string) l) <= length l)%nat.
Proof.
  induction l as [|m l IH]; [done|]. cbn [list_to_set length]. pose proof (size_insert_le m (list_to_set l)). lia.
Qed.

(** The members of the requests that passed. *)
Definition window_members (s : LogFleet R C) (key : string) (window T : Z) : gset string :=
  list_to_set (pMember <$> window_passes s key window T).

Lemma window_members_snoc (s : LogFleet R C) now (r : R) (x : nat -> luaScript * Z * option C) p c key window T :
  window_members (mkLogFleet now r x (lpassed s ++ [p]) c) key window T =
  if String.eqb (pKey p) key && (T - window <? pTime p)%Z && (pTime p <=? T)%Z then {[pMember p]} ∪ window_members s key window T
  else window_members s key window T.
Proof.
  unfold window_members, window_passes. cbn [lpassed]. rewrite List.filter_app, fmap_app, list_to_set_app_L. cbn [List.filter].
  destruct (_ && _ && _); cbn [fmap list_fmap list_to_set]; set_solver.
Qed.

Definition log_inv (key : string) (limit div : Z) (s : LogFleet R C) : Prop :=
  retained key (div * 1000) s /\ forall T, (Z.of_nat (size (window_members s key (div * 1000 - 2 * skew) T)) <= limit)%Z.

Lemma retained_other key window (s : LogFleet R C) u k w r' p : k <> key -> (lclock s <= u)%Z -> retained key window s ->
  wrote (lredis s) (seconds u) k w r' -> p ∈ lpassed s -> pKey p = key ->
  forall t', (seconds u <= t')%Q -> (t' < seconds (pTime p + window - 2 * skew))%Q ->
  exists z sc, content r' t' key = Some z /\ (pMember p, sc) ∈ z /\ (pTime p - skew <= sc)%Z.
Proof.
  intros Hne Hclk Hr [Ho _] Hin Hpk t' Ht Hlt. destruct (Hr p Hin Hpk) as [_ Hh]. rewrite Ho by done.
  apply Hh; [|done]. apply seconds_le in Hclk. lra.
Qed.

(** The members of a window are in the set its last check counted. *)
Lemma members_counted key div (s : LogFleet R C) u now T : retained key (div * 1000) s -> (lclock s <= u)%Z ->
  (u - skew <= now <= u + skew)%Z -> (u <= T)%Z ->
  window_members s key (div * 1000 - 2 * skew) T ⊆
  list_to_set (in_window now (div * 1000) (default [] (content (lredis s) (seconds u) key))).*1.
Proof.
  intros Hr Hclk Hnow HT m (p & -> & [Hin Hc]%list_elem_of_In%filter_In)%elem_of_list_to_set%list_elem_of_fmap.
  rewrite !andb_true_iff, String.eqb_eq, Z.ltb_lt, Z.leb_le in Hc. destruct Hc as [[Hpk Hlo] Hhi].
  destruct (Hr p ltac:(by apply list_elem_of_In) Hpk) as [Hpt Hh].
  destruct (Hh (seconds u) ltac:(by apply seconds_le) ltac:(apply seconds_lt; lia)) as (z0 & sc & E0 & Hz0 & Hsc).
  apply elem_of_list_to_set, list_elem_of_fmap. exists (pMember p, sc). split; [done|]. apply in_window_elem; [lia|by rewrite E0].
Qed.

Lemma log_inv_step key limit div s s' : log_key_counts fleet key limit div -> (0 < div)%Z -> log_step fleet skew s s' ->
  log_inv key limit div s -> log_inv key limit div s'.
Proof.
  intros Hk Hdiv [s0 e p reqID x now t micro u o r' x' Hclk Hnow Hp Hcheck] [Hr Hsize].
  destruct (log_check_spec _ _ _ _ _ _ _ _ _ _ _ _ _ Hcheck) as (w & Hw & Hcases & Hwithin).
  set (k := script_key (Domain (fleet e)) x p "sliding_log") in *. set (m0 := (memberID micro reqID (lexecs s0 e).1.2).1) in *.
  assert (forall q, q ∈ lpassed s0 -> pKey q = key -> forall t', (seconds u <= t')%Q -> (t' < seconds (pTime q + div * 1000 - 2 * skew))%Q ->
    exists z sc, content r' t' key = Some z /\ (pMember q, sc) ∈ z /\ (pTime q - skew <= sc)%Z) as Hkeep.
  { intros q Hin Hpk t' Ht Hlt. destruct (decide (k = key)) as [Ek|Hne]; [|by eapply retained_other].
    destruct (Hk e p x Hp Ek) as [_ Hd]. rewrite Ek, Hd in *. by eapply retained_wrote. }
  assert (retained key (div * 1000) (mkLogFleet u r' (fun n => if Nat.eqb n e then x' else lexecs s0 n) (lpassed s0) (lchecks s0 + 1))) as Hr'.
  { intros q Hin Hpk. split; [destruct (Hr q Hin Hpk); cbn; lia|]. cbn [lclock lredis]. by apply Hkeep. }
  destruct o; [|by split..]. destruct Hwithin as [-> Hlen]. split.
  - intros q Hin Hpk. cbn [lclock lredis lpassed] in *. apply elem_of_app in Hin as [Hin|Hin]; [by apply Hr'|].
    apply list_elem_of_singleton in Hin as ->. cbn [pKey pTime pMember] in *. split; [lia|]. intros t' Ht Hlt.
    destruct (Hk e p x Hp Hpk) as [_ Hd]. destruct Hw as [_ Hw]. rewrite <- Hpk. fold k. rewrite Hw; [|done|].
    + eexists _, now. split; [done|]. split; [apply zadd_new|lia].
    + rewrite Hd, seconds_plus. assert (seconds (u + div * 1000 - 2 * skew) <= seconds (u + div * 1000))%Q by (apply seconds_le; lia). lra.
  - intros T. rewrite window_members_snoc. cbn [pKey pTime pMember].
    destruct (String.eqb_spec k key) as [Ek|]; cbn [andb]; [|apply Hsize].
    destruct (Z.ltb_spec (T - (div * 1000 - 2 * skew)) u), (Z.leb_spec u T); cbn [andb]; try apply Hsize.
    destruct (Hk e p x Hp Ek) as [Hlim Hd]. rewrite Ek, Hd in Hlen.
    pose proof (members_counted key div s0 u now T Hr Hclk Hnow ltac:(lia)) as Hsub.
    set (z := in_window now (div * 1000) (default [] (content (lredis s0) (seconds u) key))) in *.
    apply subseteq_size in Hsub. pose proof (size_of_list z.*1). rewrite length_fmap in *.
    pose proof (size_insert_le m0 (window_members s0 key (div * 1000 - 2 * skew) T)). lia.
Qed.

End LogLemmas.

(** A request that is admitted was within the limit of every policy that governs it
    and enforces. *)
Definition honest {W : Type} (check : YamlDescriptor -> W -> Outcome * W) : Prop := forall p w,
  match (check p w).1 with
  | Shadowed _ _ => ShadowMode p = true
  | FailedOpen => FailOpen p = true
  | Refused d => dBlocked d = true
  | _ => True
  end.

Lemma evaluate_within {W : Type} (check : YamlDescriptor -> W -> Outcome * W) x ps dims fin w d w' : honest check ->
  evaluate_loop check x ps dims fin w = (Ok d, w') -> dBlocked d = false ->
  forall p, p ∈ governing x dims ps -> enforced p = true -> exists w1 remain limit reset, (check p w1).1 = Within remain limit reset.
Proof.
  intros Hh. revert dims fin w. induction ps as [|q ps IH]; intros dims fin w E Hd p Hp He; cbn in E, Hp; [by apply not_elem_of_nil in Hp|].
  destruct (applies x dims q) eqn:Ha; [|by eapply IH].
  pose proof (Hh q w) as Hq. destruct (check q w) as [o w1] eqn:Ec. cbn [fst] in Hq. apply elem_of_cons in Hp as [-> | Hp].
  - unfold enforced in He. apply andb_true_iff in He as [Hs Hf]. exists w. rewrite Ec. cbn [fst].
    destruct o; [by do 3 eexists| | | |]; exfalso; [by rewrite Hq in Hs|by rewrite Hq in Hf| |done].
    cbn in E. injection E as -> _. congruence.
  - destruct o; cbn [after] in E; [by eapply IH..| |]; [|done]. injection E as -> _. congruence.
Qed.

Lemma ForallOrdPairs_snoc {A : Type} (P : A -> A -> Prop) l x : ForallOrdPairs P l -> Forall (fun a => P a x) l -> ForallOrdPairs P (l ++ [x]).
Proof.
  induction 1 as [|a l Ha Hl IH]; intros Hx; cbn; [by repeat constructor|]. apply Forall_cons in Hx as [Hax Hx].
  constructor; [|by apply IH]. apply Forall_app. split; [done|by constructor].
Qed.

Lemma ForallOrdPairs_filter {A : Type} (P : A -> A -> Prop) f l : ForallOrdPairs P l -> ForallOrdPairs P (List.filter f l).
Proof.
  induction 1 as [|a l Ha Hl IH]; cbn; [constructor|]. destruct (f a); [|done]. constructor; [|done].
  apply Forall_forall. intros x Hx%list_elem_of_In. apply filter_In in Hx as [Hx _]. apply (proj1 (Forall_forall _ _) Ha). by apply list_elem_of_In.
Qed.

(** The part before the first separator. *)
Lemma sep_app_inj a b x y : contains_byte a "_" = false -> contains_byte b "_" = false ->
  (a +++ "_" +++ x)%go = (b +++ "_" +++ y)%go -> a = b /\ x = y.
Proof.
  intros Ha Hb E. pose proof E as E'. apply (f_equal (fun v => Split v "_")) in E'. cbn [String.append] in E'.
  rewrite !Split_app_sep, (Split_no_sep a), (Split_no_sep b) in E' by done. injection E' as <- _. split; [done|].
  clear Ha Hb. induction a as [|c a IH]; cbn in E; [by injection E|]. injection E as E. by apply IH.
Qed.

(** *** Members *)

Section Members.
Context {R C : Type} `{RedisScriptsOk R ZSet, LocalCache C}.
Variable fleet : nat -> FilterOptions.
Variable start : nat -> Z.

(** The member of a pass without a request id: the [d]-th number of its process. *)
Definition numbered (p : Pass) (d : Z) : Prop := pMember p = (Itoa (pMicro p) +++ "_" +++ Itoa (u64 (start (pExec p) + d)))%go.

Definition ordered (p q : Pass) : Prop := pExec p = pExec q -> pReq p = "" -> pReq q = "" ->
  exists d d', (1 <= d < d')%Z /\ (d' < two64)%Z /\ numbered p d /\ numbered q d'.

Definition drawn_inv (s : LogFleet R C) : Prop := (lchecks s < two64)%Z -> exists draws : nat -> Z,
  (forall e, (0 <= draws e <= lchecks s)%Z /\ u64 (lexecs s e).1.2 = u64 (start e + draws e)) /\
  Forall (fun p => if String.eqb (pReq p) "" then exists d, (1 <= d <= draws (pExec p))%Z /\ numbered p d
                   else pMember p = (Itoa (pMicro p) +++ "_" +++ pReq p)%go) (lpassed s) /\
  ForallOrdPairs ordered (lpassed s).

Lemma u64_add a b n : u64 a = u64 b -> u64 (a + n) = u64 (b + n).
Proof. unfold u64. intros E. rewrite <- Z.add_mod_idemp_l, E, Z.add_mod_idemp_l by done. done. Qed.

Lemma log_check_counter domain reqID x now t micro u p (r r' : R) (y y' : luaScript * Z * option C) o :
  log_check domain reqID x now t micro u p (r, y) = (o, (r', y')) ->
  y'.1.2 = (memberID micro reqID y.1.2).2 \/ (y'.1.2 = y.1.2 /\ match o with Within _ _ _ => False | _ => True end).
Proof.
  destruct y as [[sc ctr] ca]. unfold log_check. cbn [fst snd].
  destruct (match ca with Some c => cache_get c t _ | None => false end); [intros [= <- <- <-]; by right|].
  destruct (memberID micro reqID ctr) as [mem ctr']. destruct (Eval _ _ _ _ _ _) as [[res sc'] r1].
  intros E. left. repeat case_match; by simplify_eq.
Qed.

Lemma drawn_inv_step skew s s' : log_step fleet skew s s' -> drawn_inv s -> drawn_inv s'.
Proof.
  intros [s0 e p reqID x now t micro u o r' x' _ _ _ Hcheck] Hinv Hlt. cbn [lchecks] in Hlt.
  destruct (Hinv ltac:(lia)) as (draws & Hctr & Hmem & Hord). destruct (Hctr e) as [Hd He].
  apply log_check_counter in Hcheck. set (ctr := (lexecs s0 e).1.2) in *.
  assert (exists took, (0 <= took <= 1)%Z /\ u64 x'.1.2 = u64 (start e + (draws e + took)) /\
    (match o with Within _ _ _ => reqID = "" -> took = 1%Z | _ => True end)) as (took & Htook & Hnew & Htk).
  { destruct Hcheck as [->|[-> Ho]]; [|exists 0%Z; rewrite Z.add_0_r; by destruct o]. unfold memberID.
    destruct (String.eqb_spec reqID ""); cbn [negb snd]; [exists 1%Z|exists 0%Z; rewrite Z.add_0_r; split; [lia|]; split; [done|by destruct o]].
    split; [lia|]. split; [|by destruct o]. rewrite Z.add_assoc, <- (u64_add _ _ 1 He). unfold u64. by rewrite Z.mod_mod. }
  exists (fun n => if Nat.eqb n e then (draws e + took)%Z else draws n). cbn [lchecks lexecs lpassed].
  assert (forall n, draws n <= (if Nat.eqb n e then draws e + took else draws n))%Z as Hle
    by (intros n; destruct (Nat.eqb_spec n e) as [->|]; lia).
  split; [intros n; destruct (Nat.eqb_spec n e) as [->|]; [split; [lia|done]|destruct (Hctr n); split; [lia|done]]|].
  assert (Forall (fun q => if String.eqb (pReq q) "" then exists d, (1 <= d <= if Nat.eqb (pExec q) e then draws e + took else draws (pExec q))%Z /\ numbered q d
    else pMember q = (Itoa (pMicro q) +++ "_" +++ pReq q)%go) (lpassed s0)) as Hmem'.
  { eapply Forall_impl; [exact Hmem|]. intros q Hq. cbn beta in *. destruct (String.eqb (pReq q) ""); [|done].
    destruct Hq as (d & Hd' & Hn). exists d. split; [|done]. specialize (Hle (pExec q)). lia. }
  destruct o; [|by split..].
  assert (reqID = "" -> (memberID micro reqID ctr).1 = (Itoa micro +++ "_" +++ Itoa (u64 (start e + (draws e + 1))))%go) as Hnum.
  { intros ->. cbn. by rewrite (u64_add _ _ 1 He), Z.add_assoc. }
  split.
  - apply Forall_app. split; [done|]. apply Forall_singleton. cbn [pReq pMember pMicro pExec].
    destruct (String.eqb_spec reqID "") as [E|E]; [|by unfold memberID; rewrite (proj2 (String.eqb_neq _ _) E)].
    exists (draws e + 1)%Z. rewrite Nat.eqb_refl, (Htk E). split; [lia|]. unfold numbered. cbn [pMember pMicro pExec]. by apply Hnum.
  - apply ForallOrdPairs_snoc; [done|]. eapply Forall_impl; [exact Hmem|]. intros q Hq. intros Ee Eq Er. cbn [pExec pReq] in Ee, Er.
    cbn beta in Hq. rewrite Eq, String.eqb_refl in Hq. destruct Hq as (d & Hd' & Hn). rewrite Ee in Hd'.
    exists d, (draws e + 1)%Z. split; [lia|]. split; [lia|]. split; [done|]. unfold numbered. cbn [pMember pMicro pExec]. by apply Hnum.
Qed.

(** Requests that can be told apart have different members. *)
Lemma apart_members p q : apart p q -> ordered p q ->
  (pReq p <> "" -> pMember p = (Itoa (pMicro p) +++ "_" +++ pReq p)%go) -> (pReq q <> "" -> pMember q = (Itoa (pMicro q) +++ "_" +++ pReq q)%go) ->
  (exists x, pMember p = (Itoa (pMicro p) +++ "_" +++ x)%go) -> (exists x, pMember q = (Itoa (pMicro q) +++ "_" +++ x)%go) ->
  pMember p <> pMember q.
Proof.
  intros Ha Ho Hp Hq (x & Ex) (y & Ey) E. destruct Ha as [Hm|[(H1' & H2' & Hne)|(He & H1' & H2')]].
  - rewrite Ex, Ey in E. apply sep_app_inj in E as [E _]; [|apply Itoa_no_sep..]. apply Hm. by apply (inj pretty) in E.
  - rewrite (Hp H1'), (Hq H2') in E. apply sep_app_inj in E as [_ E]; [done|apply Itoa_no_sep..].
  - destruct (Ho He H1' H2') as (d & d' & Hd & Hlt & Np & Nq). unfold numbered in *. rewrite Np, Nq in E.
    apply sep_app_inj in E as [_ E]; [|apply Itoa_no_sep..]. apply (inj pretty) in E. rewrite He in E. unfold u64 in E.
    assert ((start (pExec q) + d' - (start (pExec q) + d)) mod two64 = 0)%Z as Hz by (rewrite Zminus_mod, E, Z.sub_diag; done).
    replace (start (pExec q) + d' - (start (pExec q) + d))%Z with (d' - d)%Z in Hz by lia. rewrite Z.mod_small in Hz; lia.
Qed.

Lemma members_NoDup s key window T : drawn_inv s -> (lchecks s < two64)%Z -> ForallOrdPairs apart (window_passes s key window T) ->
  NoDup (pMember <$> window_passes s key window T).
Proof.
  intros Hinv Hlt Hap. destruct (Hinv Hlt) as (draws & _ & Hmem & Hord). unfold window_passes in *.
  apply (ForallOrdPairs_filter _ (fun e => String.eqb (pKey e) key && (T - window <? pTime e)%Z && (pTime e <=? T)%Z)) in Hord.
  assert (forall p, p ∈ List.filter (fun e => String.eqb (pKey e) key && (T - window <? pTime e)%Z && (pTime e <=? T)%Z) (lpassed s) ->
    (pReq p <> "" -> pMember p = (Itoa (pMicro p) +++ "_" +++ pReq p)%go) /\ exists x, pMember p = (Itoa (pMicro p) +++ "_" +++ x)%go) as Hshape.
  { intros p Hp%list_elem_of_In. apply filter_In in Hp as [Hp%list_elem_of_In _].
    pose proof (proj1 (Forall_forall _ _) Hmem p Hp) as Hm. cbn beta in Hm. destruct (String.eqb_spec (pReq p) "") as [E|E].
    - destruct Hm as (d & _ & Hn). split; [done|]. by eexists.
    - split; [done|]. by eexists. }
  induction (List.filter _ (lpassed s)) as [|p l IH]; cbn; [constructor|].
  inversion Hap as [|? ? Hp Hl]; subst. inversion Hord as [|? ? Hop Hol]; subst. constructor.
  - intros (q & E & Hq)%list_elem_of_fmap. destruct (Hshape p ltac:(by left)) as [Sp1 Sp2].
    destruct (Hshape q ltac:(by right)) as [Sq1 Sq2]. revert E. apply apart_members; try done.
    + by apply (proj1 (Forall_forall _ _) Hp).
    + by apply (proj1 (Forall_forall _ _) Hop).
  - apply IH; [done|done|]. intros q Hq. apply Hshape. by right.
Qed.
End Members.

Lemma log_honest {R C : Type} `{RedisScripts R ZSet, LocalCache C} domain reqID x now t micro when :
  honest (fun p => log_check (R := R) (C := C) domain reqID x now t micro (when p) p).
Proof.
  intros p [r [[sc ctr] ca]]. unfold log_check. destruct (match ca with Some c => _ | None => _ end); [done|].
  destruct (memberID _ _ _) as [m ctr']. destruct (Eval _ _ _ _ _ _) as [[[[|a [|v l]]|e] sc'] r1]; cbn;
    try (by destruct (FailOpen p) eqn:E). destruct (a =? 0)%Z; [by destruct (ShadowMode p) eqn:E|done].
Qed.

(** ** Properties *)


(** ** Examples *)

(** Redis as a map from keys to a value and the time it expires. *)
Definition mem_content {V : Type} (r : gmap string (V * Q)) (t : Q) (k : string) : option V :=
  match r !! k with Some (v, x) => if Qle_bool x t then None else Some v | None => None end.
#[export] Instance MemScripts (V : Type) : RedisScripts (gmap string (V * Q)) V := {
  content := mem_content;
  evalsha A r t _ k ks s :=
    let '(a, w) := s (mem_content r t k) (mem_content r t <$> ks) in
    (Ok a, match w with
           | Keep => r
           | Store v => match r !! k with Some (_, x) => <[k := (v, x)]> r | None => r end
           | StoreEx v ttl => <[k := (v, (t + inject_Z ttl)%Q)]> r
           end);
  script_load r body := (Ok body, r) }.
#[export] Instance MemScripts_ok (V : Type) : RedisScriptsOk (gmap string (V * Q)) V.
Proof.
  split; cbn; [|by intros A r t sha k ks s e r'; destruct (s _ _)|done|].
  - intros A r t sha k ks s a r'. unfold ran, wrote. cbn [content MemScripts].
    destruct (s (mem_content r t k) (mem_content r t <$> ks)) as [a' w]. intros [= <- <-]. split; [done|]. unfold mem_content. split.
    + intros t' k' _ Hne. destruct w; [done| |by rewrite lookup_insert_ne]. destruct (r !! k) as [[]|]; [by rewrite lookup_insert_ne|done].
    + destruct w as [|v|v ttl]; intros t' Ht; cbn [snd]; [done| |].
      * destruct (r !! k) as [[v0 x]|] eqn:E; [rewrite lookup_insert_eq|by rewrite E]. by destruct (Qle_bool x t').
      * intros Hlt. rewrite lookup_insert_eq. destruct (Qle_bool _ t') eqn:Eb; [|done]. apply Qle_bool_iff in Eb. lra.
  - unfold mem_content. intros r t t' k Ht. destruct (r !! k) as [[v x]|]; [|by left]. destruct (Qle_bool x t') eqn:E'; [by right|left].
    destruct (Qle_bool x t) eqn:E; [|done]. apply Qle_bool_iff in E. assert (Qle_bool x t' = true) by (apply Qle_bool_iff; lra). congruence.
Qed.

Definition example_log_policy : YamlDescriptor :=
  mkDescriptor [mkEntryDef "ip" ""] 2 "second" false false false "" (SpecFloat.S754_zero false) (SpecFloat.S754_zero false) 0
    (SpecFloat.S754_zero false).
Definition example_log_fleet (_ : nat) : FilterOptions :=
  ApplyDefaults (mkFilterOptions "api" "sliding_window_log" "cache" [] (mkResponseHeaders true "" "" "")
    (mkDynamicCost false "" 0 0) [example_log_policy]).
Definition example_log_key : string := "api_ip_203.0.113.7_sliding_log".
Abbreviation ExampleLog := (LogFleet (gmap string (ZSet * Q)) (gset string)).
Definition example_log_start : ExampleLog := mkLogFleet 0 ∅ (fun _ => (mkLuaScript "log" "log", 0%Z, Some ∅)) [] 0.

(** A check by executor [e] whose clock reads [now], when Redis's reads [u]. *)
Definition example_log_check (s : ExampleLog) (e : nat) (now u : Z) : ExampleLog :=
  let '(o, (r', x')) := log_check "api" "" [("ip", "203.0.113.7")] now (now * Millisecond) (now * 1000) u example_log_policy
                          (lredis s, lexecs s e) in
  mkLogFleet u r' (fun n => if Nat.eqb n e then x' else lexecs s n)
    (match o with
     | Within _ _ _ => lpassed s ++ [mkPass (script_key "api" [("ip", "203.0.113.7")] example_log_policy "sliding_log")
                                      (memberID (now * 1000) "" (lexecs s e).1.2).1 u e (now * 1000) ""]
     | _ => lpassed s
     end) (lchecks s + 1).

Lemma example_log_step s e now u : (lclock s <=? u)%Z && (u - 10 <=? now)%Z && (now <=? u + 10)%Z = true ->
  log_step example_log_fleet 10 s (example_log_check s e now u).
Proof.
  rewrite !andb_true_iff, !Z.leb_le. intros [[H1 H2] H3]. unfold example_log_check. destruct (log_check _ _ _ _ _ _ _ _ _) as [o [r' x']] eqn:E.
  eapply (log_checked example_log_fleet 10 s e example_log_policy "" [("ip", "203.0.113.7")]); [exact H1|done|by left|exact E].
Qed.

(** Four requests within a second on two executors, the clock of the second 10 ms late,
    and one later. *)
Definition example_log_end : ExampleLog :=
  example_log_check (example_log_check (example_log_check (example_log_check example_log_start 0 1000 1000) 1 1390 1400) 0 1900 1900) 1 2000 2010.

Lemma example_log_run : rtc (log_step example_log_fleet 10) example_log_start example_log_end.
Proof.
  eapply rtc_l; [apply (example_log_step _ 0 1000 1000); vm_compute; reflexivity|].
  eapply rtc_l; [apply (example_log_step _ 1 1390 1400); vm_compute; reflexivity|].
  eapply rtc_l; [apply (example_log_step _ 0 1900 1900); vm_compute; reflexivity|].
  eapply rtc_l; [apply (example_log_step _ 1 2000 2010); vm_compute; reflexivity|]. apply rtc_refl.
Qed.


End RateScripts.
