(* ===== verification/RateBuckets.v ===== *)
(** * RateBuckets: the token bucket, the leaky bucket and the sliding window counter
    (internal/filters/rate_limiter: token_bucket.go, leaky_bucket.go,
    sliding_window.go, executor.go)

    Their Lua scripts compute with the interpreter's numbers, an interface here:
    the operations, and as laws what IEEE 754 says of them (correct rounding gives a
    relative error [eps], an absolute one [tiny] where a product underflows, and is
    monotone). Exact rationals are an instance. Go's own floating point is computed
    with [SpecFloat]. *)

From S2P Require Import Prelude GoStrings GoTime Context Executor RateLimit RateScripts.
From Stdlib Require Import Floats.SpecFloat QArith Qabs Qround Qminmax Lqa.

Local Open Scope string_scope.
Local Open Scope list_scope.
Local Close Scope Q_scope.

Module RateBuckets.
Import RateLimit RateScripts.

(** ** Lua numbers *)

Class LuaNum (F : Type) := {
  ladd : F -> F -> F; lsub : F -> F -> F; lmul : F -> F -> F; ldiv : F -> F -> F;
  lle : F -> F -> bool; llt : F -> F -> bool;
  lceil : F -> F;
  lint : Z -> F;              (* tonumber of FormatInt *)
  lfloat : spec_float -> F;   (* tonumber of FormatFloat(f, 'f', -1, 64) *)
  lfixed : nat -> spec_float -> F;  (* tonumber of FormatFloat(f, 'f', n, 64) *)
  ltrunc : F -> Z;            (* a number in a reply *)
  ltext : F -> string         (* tostring *)
}.

(** What IEEE 754 says of them, for the finite numbers [finite] and exact results up to
    [huge]: operations are correctly rounded, so off by [eps] times the result
    ([tiny] where a product underflows) and monotone; integers up to 2^53 are
    exact. *)
Class LuaNumOk (F : Type) `{LuaNum F} (finite : F -> Prop) (val : F -> Q) (eps tiny huge : Q) : Prop := {
  eps_range : (0 <= eps)%Q /\ (eps <= 1 # 8)%Q;
  tiny_nonneg : (0 <= tiny)%Q;
  lle_val x y : finite x -> finite y -> lle x y = Qle_bool (val x) (val y);
  llt_val x y : finite x -> finite y -> llt x y = negb (Qle_bool (val y) (val x));
  lint_val z : (Z.abs z <= 2 ^ 53)%Z -> finite (lint z) /\ (val (lint z) == inject_Z z)%Q;
  ladd_err x y : finite x -> finite y -> (Qabs (val x + val y) <= huge)%Q ->
    finite (ladd x y) /\ (Qabs (val (ladd x y) - (val x + val y)) <= eps * Qabs (val x + val y))%Q;
  lsub_err x y : finite x -> finite y -> (Qabs (val x - val y) <= huge)%Q ->
    finite (lsub x y) /\ (Qabs (val (lsub x y) - (val x - val y)) <= eps * Qabs (val x - val y))%Q;
  lmul_err x y : finite x -> finite y -> (Qabs (val x * val y) <= huge)%Q ->
    finite (lmul x y) /\ (Qabs (val (lmul x y) - val x * val y) <= eps * Qabs (val x * val y) + tiny)%Q;
  lmul_nonneg x y : finite x -> finite y -> (0 <= val x)%Q -> (0 <= val y)%Q -> (val x * val y <= huge)%Q -> (0 <= val (lmul x y))%Q;
  ladd_mono x x' y : finite x -> finite x' -> finite y -> (Qabs (val x + val y) <= huge)%Q -> (Qabs (val x' + val y) <= huge)%Q ->
    (val x <= val x')%Q -> (val (ladd x y) <= val (ladd x' y))%Q;
  ladd_exact a b : (Z.abs a <= 2 ^ 53)%Z -> (Z.abs b <= 2 ^ 53)%Z -> (Z.abs (a + b) <= 2 ^ 53)%Z ->
    (val (ladd (lint a) (lint b)) == inject_Z (a + b))%Q;
  lceil_ge x : finite x -> finite (lceil x) /\ (val x <= val (lceil x))%Q /\ (val (lceil x) <= val x + 1)%Q
}.

Definition lmax {F : Type} `{LuaNum F} (x y : F) : F := if llt x y then y else x.
Definition lmin {F : Type} `{LuaNum F} (x y : F) : F := if llt y x then y else x.

(** A Lua value in a reply. *)
Inductive Reply : Type := RInt (z : Z) | RBulk (s : string).

Definition reply_int (r : Reply) : Z := match r with RInt z => z | RBulk _ => 0%Z end.

(** strconv.ParseFloat of what %.14g prints; 0 for other texts. *)
Fixpoint scan_digits (s : string) (v : Z) (n : nat) : Z * nat * string :=
  match s with
  | String c t =>
      let d := (Z.of_nat (Ascii.nat_of_ascii c) - 48)%Z in
      if ((0 <=? d) && (d <=? 9))%Z then scan_digits t (v * 10 + d) (S n) else (v, n, s)
  | "" => (v, n, s)
  end.

Definition decimal (neg : bool) (v exp : Z) : spec_float :=
  match v with
  | Zpos m =>
      if (0 <=? exp)%Z then binary_normalize 53 1024 ((if neg then Z.opp else id) (v * 10 ^ exp))%Z 0 neg
      else SFdiv 53 1024 (S754_finite neg m 0) (S754_finite false (Z.to_pos (10 ^ (- exp))) 0)
  | _ => S754_zero neg
  end.

Definition ParseFloat (s : string) : spec_float :=
  let '(neg, s) := match s with String "-" t => (true, t) | String "+" t => (false, t) | _ => (false, s) end in
  if String.eqb s "inf" then S754_infinity neg
  else
    let '(v, n, s) := scan_digits s 0 0 in
    let '(v, frac, s) := match s with String "." t => scan_digits t v 0 | _ => (v, 0%nat, s) end in
    if Nat.eqb (n + frac) 0 then S754_zero false
    else
      match s with
      | "" => decimal neg v (- Z.of_nat frac)
      | String "e" t =>
          match ParseInt64 t with Some e => decimal neg v (e - Z.of_nat frac) | None => S754_zero false end
      | _ => S754_zero false
      end.

(** [uint32(math.Max(0, f))] *)
Definition u32_of_float (f : spec_float) : Z :=
  if SFltb (S754_zero false) f then u32 (Z_of_float64 f) else 0%Z.

Definition reply_float (r : Reply) : spec_float := match r with RInt z => float64_of_Z z | RBulk s => ParseFloat s end.

Definition float_lt0 (f : spec_float) : bool := SFltb (S754_zero false) f.

(** ** The scripts *)

Section Scripts.
Context {F : Type} `{LuaNum F}.

(** [getTokenLuaScriptBody]: a bucket holds the tokens left and when they were
    counted. *)
Definition token_script (max_tokens fill_rate cost now : F) (ttl : Z) : Script (F * F) (list Reply) := fun bucket _ =>
  let tokens := match bucket with Some b => b.1 | None => max_tokens end in
  let last_updated := match bucket with Some b => b.2 | None => now end in
  let elapsed := lmax (lint 0) (lsub now last_updated) in
  let replenished := ladd tokens (lmul elapsed fill_rate) in
  let tokens := lmax (lint 0) (lmin max_tokens replenished) in
  let allowed := lle cost tokens in
  let tokens := if allowed then lsub tokens cost else tokens in
  let reset := if llt (lint 0) fill_rate
               then if allowed then ldiv (lsub max_tokens tokens) fill_rate else ldiv (lsub cost tokens) fill_rate
               else lint 0 in
  let reset := lmax (lint 0) reset in
  ([RInt (if allowed then 1 else 0)%Z; RBulk (ltext tokens); RInt (ltrunc (lceil reset))],
   if allowed then StoreEx (tokens, now) ttl else Keep).

(** [getLeakyLuaScriptBody]: the water in the bucket and when it was measured. *)
Definition leaky_script (capacity leak_rate cost now : F) (ttl : Z) : Script (F * F) (list Reply) := fun bucket _ =>
  let water := match bucket with Some b => b.1 | None => lint 0 end in
  let last_updated := match bucket with Some b => b.2 | None => now end in
  let elapsed := lmax (lint 0) (lsub now last_updated) in
  let leaked := lmul elapsed leak_rate in
  let water := lmax (lint 0) (lsub water leaked) in
  let allowed := lle (ladd water cost) capacity in
  let water := if allowed then ladd water cost else water in
  let reset := if llt (lint 0) leak_rate
               then if allowed then ldiv water leak_rate else ldiv (lsub (ladd water cost) capacity) leak_rate
               else lint 0 in
  ([RInt (if allowed then 1 else 0)%Z; RBulk (ltext water); RInt (ltrunc (lceil reset))],
   if allowed then StoreEx (water, now) ttl else Keep).

(** [getSlidingLuaScriptBody]: the counts of the current and of the previous window. *)
Definition sliding_script (limit cost : Z) (weight : F) (ttl : Z) : Script Z (list Reply) := fun current others =>
  let previous_count := lint (default 0%Z (mjoin (head others))) in
  let current_count := lint (default 0%Z current) in
  let estimated := lceil (ladd (lmul previous_count weight) current_count) in
  if lle (ladd estimated (lint cost)) (lint limit)
  then ([RInt 1; RInt (ltrunc (lsub (lint limit) (ladd estimated (lint cost))))], StoreEx (default 0%Z current + cost)%Z ttl)
  else ([RInt 0; RInt (ltrunc (lsub (lint limit) estimated))], Keep).

(** ** The executors *)

Context {C : Type} `{LocalCache C}.

Definition cached (cache : option C) (t : Z) (key : string) : bool :=
  match cache with Some c => cache_get c t key | None => false end.

(** How the bucket executors read the answer of their script: over the limit, the
    key is cached as exhausted when nothing is left or the request cost one. *)
Definition bucket_outcome (p : YamlDescriptor) (limit allowed remaining reset cost t : Z) (key : string) (cache : option C)
  : Outcome * option C :=
  if (allowed =? 0)%Z then
    if ShadowMode p then (Shadowed limit (reset * Second), cache)
    else (Refused (mkDecision true limit remaining (reset * Second)),
          if (0 <? reset)%Z && ((remaining =? 0)%Z || (cost =? 1)%Z) then (fun c => cache_set c t key reset) <$> cache else cache)
  else (Within remaining limit (reset * Second), cache).

Definition failed (p : YamlDescriptor) (e : string) : Outcome := if FailOpen p then FailedOpen else Failed e.

(** The reply of a bucket script: whether it allows the request, the level it leaves
    and the seconds until it is full or can serve the request. *)
Definition read_reply (p : YamlDescriptor) (limit : Z) (remaining : Reply -> Z) (cost t : Z) (key : string)
  (res : result (list Reply)) (cache : option C) : Outcome * option C :=
  match res with
  | Err e => (failed p e, cache)
  | Ok (allowed :: level :: reset :: _) => bucket_outcome p limit (reply_int allowed) (remaining level) (reply_int reset) cost t key cache
  | Ok _ => (failed p "invalid lua script response", cache)
  end.

(** [nowFloat], from the clock in nanoseconds. *)
Definition nowFloat (t : Z) : spec_float := SFdiv 53 1024 (float64_of_Z t) (float64_of_Z Second).
Definition lnow (t : Z) : F := lfixed 6 (nowFloat t).

Definition token_ttl (p : YamlDescriptor) : Z :=
  if float_lt0 (FillRate p) then Z.max 60 (Ceil (SFdiv 53 1024 (MaxTokens p) (FillRate p))) else 3600%Z.

Section Buckets.
Context {R : Type} `{RedisScripts R (F * F)}.

(** One policy, by an engine whose clock reads [t], the script running when Redis's clock
    reads [u]. *)
Definition token_check (domain : string) (extracted : GoMap string) (cost t : Z) (u : Q) (p : YamlDescriptor)
  (w : R * (luaScript * option C)) : Outcome * (R * (luaScript * option C)) :=
  let '(r, (script, cache)) := w in
  let ttl := token_ttl p in
  let key := script_key domain extracted p "token_bucket" in
  let limit := u32 (Z_of_float64 (MaxTokens p)) in
  if cached cache t key then (Refused (mkDecision true limit 0 (ttl * Second)), w)
  else
    let now := lnow t in
    let '(res, script, r) := Eval script r u key [] (token_script (lfloat (MaxTokens p)) (lfloat (FillRate p)) (lint cost) now ttl) in
    let '(o, cache) := read_reply p limit (fun tokens => u32_of_float (reply_float tokens)) cost t key res cache in
    (o, (r, (script, cache))).

Definition leak_per_second (p : YamlDescriptor) : spec_float := SFdiv 53 1024 (LeakRate p) (float64_of_Z (getDivider (Unit p))).

Definition leaky_ttl (p : YamlDescriptor) : Z :=
  let ttl := if float_lt0 (leak_per_second p)
             then Ceil (SFdiv 53 1024 (float64_of_Z (BucketCapacity p)) (leak_per_second p)) else 0%Z in
  if (ttl <=? 0)%Z then 60%Z else ttl.

(** What is left of the capacity, from the water as Go parses it. *)
Definition remaining_capacity (p : YamlDescriptor) (water : spec_float) : Z :=
  let cap := float64_of_Z (BucketCapacity p) in
  if SFltb water cap then u32 (Z_of_float64 (SFsub 53 1024 cap water)) else 0%Z.

Definition leaky_check (domain : string) (extracted : GoMap string) (cost t : Z) (u : Q) (p : YamlDescriptor)
  (w : R * (luaScript * option C)) : Outcome * (R * (luaScript * option C)) :=
  let '(r, (script, cache)) := w in
  let ttl := leaky_ttl p in
  let key := script_key domain extracted p "leaky_queue" in
  let limit := BucketCapacity p in
  if cached cache t key then (Refused (mkDecision true limit 0 (ttl * Second)), w)
  else
    let now := lnow t in
    let '(res, script, r) := Eval script r u key [] (leaky_script (lint (BucketCapacity p)) (lfloat (leak_per_second p)) (lint cost) now ttl) in
    let '(o, cache) := read_reply p limit (fun water => remaining_capacity p (reply_float water)) cost t key res cache in
    (o, (r, (script, cache))).

Inductive BucketKind : Type := TokenBucket | LeakyBucket.

Definition bucket_check (k : BucketKind) := match k with TokenBucket => token_check | LeakyBucket => leaky_check end.

(** The call; [when] is Redis's clock at the script of each policy. *)
Definition token_Evaluate (opts : FilterOptions) (t : Z) (when : YamlDescriptor -> Q) (ds : list DescriptorEntry) (cost : Z)
  (w : R * (luaScript * option C)) : result Decision * (R * (luaScript * option C)) :=
  let extracted := extracted_map ds in
  evaluate_loop (fun p => token_check (Domain opts) extracted cost t (when p) p) extracted (Descriptors opts) [] initialDecision w.
Definition leaky_Evaluate (opts : FilterOptions) (t : Z) (when : YamlDescriptor -> Q) (ds : list DescriptorEntry) (cost : Z)
  (w : R * (luaScript * option C)) : result Decision * (R * (luaScript * option C)) :=
  let extracted := extracted_map ds in
  evaluate_loop (fun p => leaky_check (Domain opts) extracted cost t (when p) p) extracted (Descriptors opts) [] initialDecision w.
Definition bucket_Evaluate (k : BucketKind) := match k with TokenBucket => token_Evaluate | LeakyBucket => leaky_Evaluate end.
End Buckets.

(** Nanoseconds in seconds. *)
Definition nanos (t : Z) : Q := (t # 1000000000)%Q.

Section SlidingWindow.
Context {R : Type} `{RedisScripts R Z}.

Definition hash_tag (domain : string) (extracted : GoMap string) (p : YamlDescriptor) : string :=
  ("{" +++ fold_left (fun s e => s +++ "_" +++ edKey e +++ "_" +++ default "" (map_get extracted (edKey e))) (Entries p) domain +++ "}")%go.

(** The counter of the window that starts at [ts]. *)
Definition window_key (domain : string) (extracted : GoMap string) (p : YamlDescriptor) (ts : Z) : string :=
  (hash_tag domain extracted p +++ "_" +++ Itoa ts)%go.

(** The share of the previous window that still counts at second [now]. *)
Definition window_weight (p : YamlDescriptor) (now : Z) : spec_float :=
  SFdiv 53 1024 (float64_of_Z (getDivider (Unit p) - now mod getDivider (Unit p))) (float64_of_Z (getDivider (Unit p))).

Definition sliding_check (domain : string) (extracted : GoMap string) (cost now t : Z) (p : YamlDescriptor)
  (w : R * (luaScript * option C)) : Outcome * (R * (luaScript * option C)) :=
  let '(r, (script, cache)) := w in
  let windowSize := getDivider (Unit p) in
  let current := (now / windowSize * windowSize)%Z in
  let currentKey := window_key domain extracted p current in
  let previousKey := window_key domain extracted p (current - windowSize) in
  let elapsed := (now mod windowSize)%Z in
  let reset := ((windowSize - elapsed) * Second)%Z in
  if cached cache t currentKey then (Refused (mkDecision true (Limit p) 0 reset), w)
  else
    let '(res, script, r) := Eval script r (nanos t) currentKey [previousKey]
                               (sliding_script (Limit p) cost (lfixed 4 (window_weight p now)) (2 * windowSize)) in
    match res with
    | Err e => (failed p e, (r, (script, cache)))
    | Ok (allowed :: quota :: _) =>
        if (reply_int allowed =? 0)%Z then
          if ShadowMode p then (Shadowed (Limit p) reset, (r, (script, cache)))
          else (Refused (mkDecision true (Limit p) 0 reset),
                (r, (script, if (0 <? windowSize - elapsed)%Z
                             then (fun c => cache_set c t currentKey (windowSize - elapsed)) <$> cache else cache)))
        else (Within (u32_of_float (float64_of_Z (reply_int quota))) (Limit p) reset, (r, (script, cache)))
    | Ok _ => (failed p "invalid lua script response length", (r, (script, cache)))
    end.

Definition sliding_Evaluate (opts : FilterOptions) (t : Z) (ds : list DescriptorEntry) (cost : Z)
  (w : R * (luaScript * option C)) : result Decision * (R * (luaScript * option C)) :=
  let extracted := extracted_map ds in
  evaluate_loop (sliding_check (Domain opts) extracted cost (t / Second) t) extracted (Descriptors opts) [] initialDecision w.
End SlidingWindow.
End Scripts.

(** ** The fleet *)

Section Fleet.
Context {F : Type} `{LuaNum F} {C : Type} `{LocalCache C} {R : Type} `{RedisScripts R (F * F)}.
Variables (finite : F -> Prop) (val : F -> Q) (horizon skew : Q).
Variable k : BucketKind.

(** The capacity, the rate and the time to live of a policy's bucket, and its key. *)
Definition cap_of (p : YamlDescriptor) : F := match k with TokenBucket => lfloat (MaxTokens p) | LeakyBucket => lint (BucketCapacity p) end.
Definition rate_of (p : YamlDescriptor) : F := match k with TokenBucket => lfloat (FillRate p) | LeakyBucket => lfloat (leak_per_second p) end.
Definition ttl_of (p : YamlDescriptor) : Z := match k with TokenBucket => token_ttl p | LeakyBucket => leaky_ttl p end.
Definition bucket_key (domain : string) (extracted : GoMap string) (p : YamlDescriptor) : string :=
  script_key domain extracted p (match k with TokenBucket => "token_bucket" | LeakyBucket => "leaky_queue" end).

(** The executors, by number, with their options. *)
Variable fleet : nat -> FilterOptions.

(** Redis's clock, what is shared and what each executor holds, the checks that ended
    within the limit (key and cost), and the keys of those that ended with an error of
    Redis (the script may have run). *)
Record BucketFleet := mkBucketFleet {
  bclock : Q; bredis : R; bexecs : nat -> luaScript * option C; bpassed : list (string * Z); bfailed : list string }.

(** A check of any policy by any executor. Its timestamp, read before from the engine's
    own clock, is finite, at most [horizon], and within [skew] of Redis's clock when the
    script runs; timestamps may run backwards from one script to the next. *)
Inductive bucket_step : BucketFleet -> BucketFleet -> Prop :=
| bucket_checked s e p extracted cost t u o r' x' :
    finite (lnow t) -> (0 <= val (lnow t))%Q -> (val (lnow t) <= horizon)%Q -> (bclock s <= u)%Q ->
    (u - skew <= val (lnow t))%Q -> (val (lnow t) <= u + skew)%Q ->
    (1 <= cost <= 2 ^ 53)%Z -> p ∈ Descriptors (fleet e) ->
    bucket_check k (Domain (fleet e)) extracted cost t u p (bredis s, bexecs s e) = (o, (r', x')) ->
    bucket_step s (mkBucketFleet u r' (fun n => if Nat.eqb n e then x' else bexecs s n)
      (match o with
       | Within _ _ _ => bpassed s ++ [(bucket_key (Domain (fleet e)) extracted p, cost)]
       | _ => bpassed s
       end)
      (match o with
       | FailedOpen | Failed _ => bfailed s ++ [bucket_key (Domain (fleet e)) extracted p]
       | _ => bfailed s
       end)).

Definition bucket_fresh (key : string) (s : BucketFleet) : Prop :=
  forall t, (bclock s <= t)%Q -> content (bredis s) t key = None.

(** A key is one bucket: its policies share capacity, rate and time to live. *)
Definition bucket_of (key : string) (cap rate : F) (ttl : Z) : Prop :=
  forall e p extracted, p ∈ Descriptors (fleet e) -> bucket_key (Domain (fleet e)) extracted p = key ->
    cap_of p = cap /\ rate_of p = rate /\ ttl_of p = ttl.
End Fleet.
Arguments BucketFleet : clear implicits.

(** The cost of the passed checks on a key, and their number. *)
Definition spent (key : string) (l : list (string * Z)) : Z := zsum (fun e => if String.eqb e.1 key then e.2 else 0%Z) l.
Definition passes (key : string) (l : list (string * Z)) : Z := zsum (fun e => if String.eqb e.1 key then 1%Z else 0%Z) l.
Definition failures (key : string) (l : list string) : Z := zsum (fun k => if String.eqb k key then 1%Z else 0%Z) l.

Section SlidingFleet.
Context {F : Type} `{LuaNum F} {C : Type} `{LocalCache C} {R : Type} `{RedisScripts R Z}.
Variables (finite : F -> Prop) (val : F -> Q).
Variable fleet : nat -> FilterOptions.

Record SlidingFleet := mkSlidingFleet {
  slclock : Z; slredis : R; slexecs : nat -> luaScript * option C; slpassed : list (string * Z) }.

(** A check of any policy by any executor, in the window its clock was read in. *)
Inductive sliding_step : SlidingFleet -> SlidingFleet -> Prop :=
| sliding_checked s e p extracted cost now t o r' x' :
    let weight := lfixed 4 (window_weight p now) in
    finite weight -> (0 <= val weight)%Q -> (val weight <= 1)%Q ->
    (slclock s <= t)%Z -> (now * Second <= t)%Z -> (t / Second / getDivider (Unit p) = now / getDivider (Unit p))%Z ->
    (1 <= cost <= 2 ^ 52)%Z -> p ∈ Descriptors (fleet e) ->
    sliding_check (Domain (fleet e)) extracted cost now t p (slredis s, slexecs s e) = (o, (r', x')) ->
    sliding_step s (mkSlidingFleet t r' (fun n => if Nat.eqb n e then x' else slexecs s n)
      (match o with
       | Within _ _ _ => slpassed s ++ [(window_key (Domain (fleet e)) extracted p (now / getDivider (Unit p) * getDivider (Unit p))%Z, cost)]
       | _ => slpassed s
       end)).

Definition sliding_initial (s : SlidingFleet) : Prop :=
  slpassed s = [] /\ forall t k, (nanos (slclock s) <= t)%Q -> content (slredis s) t k = None.

(** A key counts one limit over one unit, and limits are uint32. *)
Definition sliding_key_counts (key : string) (limit divider : Z) : Prop :=
  forall e p extracted ts, p ∈ Descriptors (fleet e) -> window_key (Domain (fleet e)) extracted p ts = key ->
    Limit p = limit /\ getDivider (Unit p) = divider.
Definition limits_typed : Prop := forall e p, p ∈ Descriptors (fleet e) -> (0 <= Limit p <= maxUint32)%Z.
End SlidingFleet.
Arguments SlidingFleet : clear implicits.

(** [ResolveExecutor]: the algorithm an executor is made for. *)
Inductive ExecutorKind : Type := FixedWindow | SlidingWindowCounter | Bucket (k : BucketKind) | SlidingWindowLog.

Definition ResolveExecutor (algorithm : string) (client : bool) (opts : FilterOptions) : result ExecutorKind :=
  if negb client then Err "rate limiter requires a redis client"
  else
    let algo := ToLower (TrimSpace algorithm) in
    if String.eqb algo "fixed_window" then Ok FixedWindow
    else if String.eqb algo "sliding_window_counter" then Ok SlidingWindowCounter
    else if String.eqb algo "token_bucket" then Ok (Bucket TokenBucket)
    else if String.eqb algo "sliding_window_log" then
      if dcEnabled (DynamicCost opts) then Err "sliding_window_log algorithm does not support dynamic cost" else Ok SlidingWindowLog
    else if String.eqb algo "leaky_bucket" then Ok (Bucket LeakyBucket)
    else Err "unsupported rate limiter algorithm".

(** ** Lemmas *)

Section NumLemmas.
Context {F : Type} {LN : LuaNum F} {finite : F -> Prop} {val : F -> Q} {eps tiny huge : Q} {LNO : LuaNumOk F finite val eps tiny huge}.

(** A result off by a relative error, by the sign of the exact one. *)
Lemma off_by (u e x d : Q) : (Qabs (x - e) <= u * Qabs e + d)%Q ->
  ((0 <= e)%Q -> (e - u * e - d <= x /\ x <= e + u * e + d)%Q) /\ ((e <= 0)%Q -> (e + u * e - d <= x /\ x <= e - u * e + d)%Q).
Proof.
  intros Hx%Qabs_Qle_condition. split; intros He; [rewrite (Qabs_pos e He) in Hx|rewrite (Qabs_neg e He) in Hx]; destruct Hx; split; lra.
Qed.

Lemma ladd_bounds x y : finite x -> finite y -> (0 <= val x + val y)%Q -> (val x + val y <= huge)%Q ->
  finite (ladd x y) /\ (val x + val y - eps * (val x + val y) <= val (ladd x y))%Q /\
  (val (ladd x y) <= val x + val y + eps * (val x + val y))%Q.
Proof.
  intros Hx Hy H1 H2. destruct (ladd_err x y Hx Hy) as [Hn He]; [by rewrite Qabs_pos|]. split; [done|].
  destruct (off_by eps (val x + val y) (val (ladd x y)) 0) as [Hp _]; [lra|]. destruct (Hp H1). split; lra.
Qed.

Lemma lsub_bounds x y : finite x -> finite y -> (Qabs (val x - val y) <= huge)%Q ->
  finite (lsub x y) /\
  ((val y <= val x)%Q -> (val x - val y - eps * (val x - val y) <= val (lsub x y) /\ val (lsub x y) <= val x - val y + eps * (val x - val y))%Q) /\
  ((val x <= val y)%Q -> (val (lsub x y) <= 0)%Q).
Proof.
  intros Hx Hy Hh. destruct (lsub_err x y Hx Hy Hh) as [Hn He]. split; [done|]. destruct eps_range as [U0 U1].
  destruct (off_by eps (val x - val y) (val (lsub x y)) 0) as [Hp Hm]; [lra|]. split; intros Hle.
  - destruct (Hp ltac:(lra)). split; lra.
  - destruct (Hm ltac:(lra)). nra.
Qed.

Lemma lmul_bounds x y : finite x -> finite y -> (0 <= val x)%Q -> (0 <= val y)%Q -> (val x * val y <= huge)%Q ->
  finite (lmul x y) /\ (0 <= val (lmul x y))%Q /\ (val (lmul x y) <= val x * val y + eps * (val x * val y) + tiny)%Q.
Proof.
  intros Hx Hy H1 H2 H3. assert (0 <= val x * val y)%Q as Hp by (apply Qmult_le_0_compat; done).
  destruct (lmul_err x y Hx Hy) as [Hn He]; [by rewrite Qabs_pos|]. split; [done|]. split; [by apply lmul_nonneg|].
  destruct (off_by eps (val x * val y) (val (lmul x y)) tiny) as [Hq _]; [lra|]. by destruct (Hq Hp).
Qed.

Lemma Qle_bool_false x y : Qle_bool x y = false <-> (y < x)%Q.
Proof.
  split; intros Hq.
  - apply Qnot_le_lt. intros Hle. apply Qle_bool_iff in Hle. congruence.
  - destruct (Qle_bool x y) eqn:E; [|done]. apply Qle_bool_iff in E. lra.
Qed.

Lemma lmax_bounds x y : finite x -> finite y -> finite (lmax x y) /\ (val x <= val (lmax x y))%Q /\ (val y <= val (lmax x y))%Q /\
  (val (lmax x y) == val x \/ val (lmax x y) == val y)%Q.
Proof.
  intros Hx Hy. unfold lmax. rewrite llt_val by done. destruct (Qle_bool (val y) (val x)) eqn:E; cbn [negb].
  - apply Qle_bool_iff in E. split; [done|]. split; [lra|]. split; [lra|]. left. lra.
  - apply Qle_bool_false in E. split; [done|]. split; [lra|]. split; [lra|]. right. lra.
Qed.
Lemma lmin_bounds x y : finite x -> finite y -> finite (lmin x y) /\ (val (lmin x y) <= val x)%Q /\ (val (lmin x y) <= val y)%Q /\
  (val (lmin x y) == val x \/ val (lmin x y) == val y)%Q.
Proof.
  intros Hx Hy. unfold lmin. rewrite llt_val by done. destruct (Qle_bool (val x) (val y)) eqn:E; cbn [negb].
  - apply Qle_bool_iff in E. split; [done|]. split; [lra|]. split; [lra|]. left. lra.
  - apply Qle_bool_false in E. split; [done|]. split; [lra|]. split; [lra|]. right. lra.
Qed.
End NumLemmas.

Section BucketScripts.
Context {F : Type} {LN : LuaNum F} {finite : F -> Prop} {val : F -> Q} {eps tiny huge : Q} {LNO : LuaNumOk F finite val eps tiny huge}.
Variables cap rate : F.
Variable horizon : Q.

(** The rate with its rounding, and what one admission can gain by rounding. *)
Definition refill : Q := (val rate * (1 + 3 * eps))%Q.
Definition slack : Q := (tiny + 3 * eps * val cap)%Q.

(** Parameters and times (up to [horizon]) on which nothing overflows, and a
    capacity that rounding changes by less than one. *)
Record in_range : Prop := {
  cap_finite : finite cap; cap_nonneg : (0 <= val cap)%Q;
  rate_finite : finite rate; rate_nonneg : (0 <= val rate)%Q;
  horizon_nonneg : (0 <= horizon)%Q;
  no_overflow : (2 * val cap + horizon + 4 * (horizon * val rate) + tiny + inject_Z (2 ^ 53) <= huge)%Q;
  slack_small : (slack <= 1)%Q
}.

Hypothesis Hrange : in_range.

Lemma zero_val : finite (lint 0) /\ (val (lint 0) == 0)%Q.
Proof. by apply lint_val. Qed.

(** A timestamp within the horizon. *)
Definition in_time (x : F) : Prop := (0 <= val x)%Q /\ (val x <= horizon)%Q.

(** What flows in [elapsed] seconds, as the scripts compute it: nothing when the
    timestamp is older than the last one. *)
Lemma flow_bounds now last : finite now -> finite last -> in_time now -> in_time last ->
  let flow := lmul (lmax (lint 0) (lsub now last)) rate in
  finite flow /\ (0 <= val flow)%Q /\ (val flow <= refill * Qmax 0 (val now - val last) + tiny)%Q /\ (val flow <= 4 * (horizon * val rate) + tiny)%Q.
Proof.
  destruct Hrange as [_ Hc Hrf Hr Hh Ho _]. intros Hn Hl [N0 N1] [L0 L1] flow. destruct eps_range as [E0 E1].
  pose proof tiny_nonneg as T0. destruct zero_val as [Hz Vz]. set (d := Qmax 0 (val now - val last)).
  assert (0 <= d)%Q as D0 by apply Q.le_max_l. assert (d <= horizon)%Q as D1 by (apply Q.max_lub; lra).
  assert (0 <= horizon * val rate)%Q as HR by (apply Qmult_le_0_compat; lra).
  assert (0 <= inject_Z (2 ^ 53))%Q as B by done.
  destruct (lsub_bounds now last Hn Hl) as (Hs & Hsb & Hsn); [apply Qabs_Qle_condition; split; lra|].
  destruct (lmax_bounds (lint 0) (lsub now last) Hz Hs) as (Hm & M0 & M1 & M2).
  set (el := lmax (lint 0) (lsub now last)) in *.
  assert (0 <= eps * d)%Q as ED by (apply Qmult_le_0_compat; lra).
  assert (eps * d <= (1 # 8) * d)%Q as ED1 by (apply Qmult_le_compat_r; lra).
  assert (0 <= val el)%Q as EL0 by lra.
  assert (val el <= d + eps * d)%Q as EL1.
  { destruct (Qlt_le_dec (val now) (val last)) as [Hlt|Hge]; [specialize (Hsn ltac:(lra)); destruct M2; lra|].
    destruct (Hsb Hge) as [_ S1]. assert (val now - val last <= d)%Q as Hd by apply Q.le_max_r.
    assert (eps * (val now - val last) <= eps * d)%Q by (rewrite !(Qmult_comm eps); apply Qmult_le_compat_r; lra).
    destruct M2; lra. }
  assert (val el * val rate <= (d + eps * d) * val rate)%Q as P1 by (apply Qmult_le_compat_r; lra).
  set (a := (d * val rate)%Q). assert (0 <= a)%Q as A0 by (apply Qmult_le_0_compat; lra).
  assert (a <= horizon * val rate)%Q as A1 by (apply Qmult_le_compat_r; lra).
  assert (0 <= eps * a)%Q as EA by (apply Qmult_le_0_compat; lra).
  assert (eps * a <= (1 # 8) * a)%Q as EA1 by (apply Qmult_le_compat_r; lra).
  assert (val el * val rate <= a + eps * a)%Q as P2 by (unfold a; lra).
  destruct (lmul_bounds el rate Hm Hrf EL0 Hr) as (Hf & F0 & F1); [lra|].
  assert (eps * (val el * val rate) <= eps * (a + eps * a))%Q as P3.
  { rewrite (Qmult_comm eps (val el * val rate)), (Qmult_comm eps (a + eps * a)). apply Qmult_le_compat_r; lra. }
  assert (eps * (eps * a) <= (1 # 8) * (eps * a))%Q as P4 by (apply Qmult_le_compat_r; lra).
  assert (refill * d == a + 3 * (eps * a))%Q as P5 by (unfold refill, a; ring).
  assert (eps * (a + eps * a) == eps * a + eps * (eps * a))%Q as P6 by ring.
  fold flow in F0, F1. split; [done|]. split; [done|]. split; lra.
Qed.

(** The token script's bookkeeping, from the tokens and the time it starts with. *)
Lemma token_core tokens last now cost : finite tokens -> finite last -> finite now -> (1 <= cost <= 2 ^ 53)%Z ->
  (0 <= val tokens)%Q -> (val tokens <= val cap)%Q -> in_time last -> in_time now ->
  let c := lmax (lint 0) (lmin cap (ladd tokens (lmul (lmax (lint 0) (lsub now last)) rate))) in
  lle (lint cost) c = true ->
  finite (lsub c (lint cost)) /\ (0 <= val (lsub c (lint cost)))%Q /\ (val (lsub c (lint cost)) <= val cap)%Q /\
  (val (lsub c (lint cost)) + inject_Z cost <= Qmin (val cap) (val tokens + refill * Qmax 0 (val now - val last)) + slack)%Q.
Proof.
  intros Ht Hl Hn Hcost T0 T1 L N. destruct Hrange as [Hcf Hc Hrf Hr Hh Ho Hs]. unfold slack in *.
  destruct (flow_bounds now last Hn Hl N L) as (Hf & F0 & F1 & F2). set (flow := lmul _ rate) in *. cbv zeta.
  destruct eps_range as [E0 E1]. pose proof tiny_nonneg as Y0. destruct zero_val as [Hz Vz].
  destruct (lint_val cost ltac:(lia)) as [Hcf' Vc].
  assert (1 <= inject_Z cost)%Q as C1 by (change 1%Q with (inject_Z 1); rewrite <- Zle_Qle; lia).
  assert (0 <= inject_Z (2 ^ 53))%Q as B by done.
  assert (inject_Z cost <= inject_Z (2 ^ 53))%Q as C2 by (rewrite <- Zle_Qle; lia).
  assert (0 <= horizon * val rate)%Q as HR by (apply Qmult_le_0_compat; lra).
  destruct (ladd_bounds tokens flow Ht Hf) as (Ha & A0 & A1); [lra..|]. set (x := ladd tokens flow) in *.
  destruct (lmin_bounds cap x Hcf Ha) as (Hm & M0 & M1 & M2). set (m := lmin cap x) in *.
  destruct (lmax_bounds (lint 0) m Hz Hm) as (Hx & X0 & X1 & X2). set (c := lmax (lint 0) m) in *.
  rewrite lle_val by done. intros Hle%Qle_bool_iff. rewrite Vc in Hle.
  set (ec := (eps * val cap)%Q). assert (0 <= ec)%Q by (apply Qmult_le_0_compat; lra).
  assert (val c <= val cap)%Q as K1 by (destruct X2; lra).
  assert (val c <= val tokens + val flow + ec)%Q as K2.
  { destruct (Qlt_le_dec (val tokens + val flow) (val cap)); [|lra].
    assert (eps * (val tokens + val flow) <= ec)%Q by (unfold ec; rewrite !(Qmult_comm eps); apply Qmult_le_compat_r; lra). destruct X2; lra. }
  destruct (lsub_bounds c (lint cost) Hx Hcf') as (Hsf & Hsb & _); [rewrite Vc, Qabs_pos; lra|].
  destruct (Hsb ltac:(lra)) as [S0 S1]. rewrite Vc in S0, S1.
  assert (eps * (val c - inject_Z cost) <= ec)%Q as K3 by (unfold ec; rewrite !(Qmult_comm eps); apply Qmult_le_compat_r; lra).
  assert (eps * (val c - inject_Z cost) <= (1 # 8) * (val c - inject_Z cost))%Q as K4 by (apply Qmult_le_compat_r; lra).
  assert (3 * eps * val cap == 3 * ec)%Q as K5 by (unfold ec; lra).
  split; [done|]. split; [lra|]. split; [lra|].
  assert (val (lsub c (lint cost)) + inject_Z cost - (tiny + 3 * eps * val cap) <= Qmin (val cap) (val tokens + refill * Qmax 0 (val now - val last)))%Q
    by (apply Q.min_glb; lra). lra.
Qed.

(** The leaky script's, in terms of the room left. *)
Lemma leaky_core water last now cost : finite water -> finite last -> finite now -> (1 <= cost <= 2 ^ 53)%Z ->
  (0 <= val water)%Q -> (val water <= val cap)%Q -> in_time last -> in_time now ->
  let w := lmax (lint 0) (lsub water (lmul (lmax (lint 0) (lsub now last)) rate)) in
  lle (ladd w (lint cost)) cap = true ->
  finite (ladd w (lint cost)) /\ (0 <= val (ladd w (lint cost)))%Q /\ (val (ladd w (lint cost)) <= val cap)%Q /\
  (val cap - val (ladd w (lint cost)) + inject_Z cost <=
   Qmin (val cap) (val cap - val water + refill * Qmax 0 (val now - val last)) + slack)%Q.
Proof.
  intros Ht Hl Hn Hcost T0 T1 L N. destruct Hrange as [Hcf Hc Hrf Hr Hh Ho Hs]. unfold slack in *.
  destruct (flow_bounds now last Hn Hl N L) as (Hf & F0 & F1 & F2). set (flow := lmul _ rate) in *. cbv zeta.
  destruct eps_range as [E0 E1]. pose proof tiny_nonneg as Y0. destruct zero_val as [Hz Vz].
  destruct (lint_val cost ltac:(lia)) as [Hcf' Vc].
  assert (1 <= inject_Z cost)%Q as C1 by (change 1%Q with (inject_Z 1); rewrite <- Zle_Qle; lia).
  assert (inject_Z cost <= inject_Z (2 ^ 53))%Q as C2 by (rewrite <- Zle_Qle; lia).
  assert (0 <= horizon * val rate)%Q as HR by (apply Qmult_le_0_compat; lra).
  destruct (lsub_bounds water flow Ht Hf) as (Ha & A0 & A1).
  { apply Qabs_Qle_condition. split; lra. }
  set (x := lsub water flow) in *.
  destruct (lmax_bounds (lint 0) x Hz Ha) as (Hm & M0 & M1 & M2). set (w := lmax (lint 0) x) in *.
  set (ec := (eps * val cap)%Q). assert (0 <= ec)%Q by (apply Qmult_le_0_compat; lra).
  assert (ec <= (1 # 8) * val cap)%Q by (apply Qmult_le_compat_r; lra).
  assert (val w <= val cap + ec /\ val water - val flow - ec <= val w)%Q as [W1 W2].
  { destruct (Qlt_le_dec (val water) (val flow)) as [Hlt|Hge].
    - specialize (A1 ltac:(lra)). destruct M2; split; lra.
    - destruct (A0 Hge) as [B0 B1].
      assert (eps * (val water - val flow) <= ec)%Q by (unfold ec; rewrite !(Qmult_comm eps); apply Qmult_le_compat_r; lra).
      destruct M2; split; lra. }
  destruct (ladd_bounds w (lint cost) Hm Hcf') as (Hs' & S0 & S1); [rewrite Vc; lra..|]. rewrite Vc in S0, S1.
  rewrite lle_val by done. intros Hle%Qle_bool_iff. set (w' := ladd w (lint cost)) in *.
  set (sum := (val w + inject_Z cost)%Q) in *.
  assert (eps * sum <= (1 # 8) * sum)%Q by (apply Qmult_le_compat_r; unfold sum; lra).
  assert (sum <= 2 * val cap)%Q by lra.
  assert (eps * sum <= 2 * ec)%Q by (unfold ec; rewrite Qmult_assoc, !(Qmult_comm _ (val cap)), (Qmult_comm 2), (Qmult_comm eps); nra).
  assert (3 * eps * val cap == 3 * ec)%Q as K5 by (unfold ec; lra).
  split; [done|]. split; [unfold sum in *; lra|]. split; [lra|].
  assert (val cap - val w' + inject_Z cost - (tiny + 3 * eps * val cap) <= Qmin (val cap) (val cap - val water + refill * Qmax 0 (val now - val last)))%Q
    by (apply Q.min_glb; unfold sum in *; lra). lra.
Qed.

Variable k : BucketKind.

(** What a bucket has left, and has by time [t]. *)
Definition level (b : F * F) : Q := match k with TokenBucket => val b.1 | LeakyBucket => (val cap - val b.1)%Q end.
Definition available (held : option (F * F)) (t : Q) : Q :=
  match held with None => val cap | Some b => Qmin (val cap) (level b + refill * Qmax 0 (t - val b.2)) end.
Definition good (b : F * F) : Prop :=
  finite b.1 /\ finite b.2 /\ (0 <= val b.1)%Q /\ (val b.1 <= val cap)%Q /\ in_time b.2.

Definition script_of (cost : Z) (now : F) (ttl : Z) : Script (F * F) (list Reply) :=
  match k with TokenBucket => token_script cap rate (lint cost) now ttl | LeakyBucket => leaky_script cap rate (lint cost) now ttl end.

(** Both scripts: refuse and change nothing, or take the cost from what is
    available. *)
Lemma script_contract held now cost ttl : finite now -> in_time now -> (1 <= cost <= 2 ^ 53)%Z ->
  match held with Some b => good b | None => True end ->
  let out := script_of cost now ttl held [] in
  (exists l, out = (RInt 0 :: l, Keep)) \/
  (exists l b, out = (RInt 1 :: l, StoreEx b ttl) /\ b.2 = now /\ good b /\
     (level b + inject_Z cost <= available held (val now) + slack)%Q).
Proof.
  intros Hn N Hcost Hg. destruct zero_val as [Hz Vz]. pose proof Hrange as [Hcf Hc _ _ _ _ _].
  unfold script_of, available, level, good in *. destruct k.
  - unfold token_script. destruct held as [[tok last]|]; cbn [fst snd] in *.
    + destruct Hg as (Hg1 & Hg2 & G1 & G2 & G3). destruct (lle (lint cost) _) eqn:E; [right|left; by eexists].
      destruct (token_core tok last now cost Hg1 Hg2 Hn Hcost G1 G2 G3 N E) as (K1 & K2 & K3 & K4).
      do 2 eexists. split; [done|]. cbn [fst snd]. split; [done|]. split; [done|exact K4].
    + destruct (lle (lint cost) _) eqn:E; [right|left; by eexists].
      destruct (token_core cap now now cost Hcf Hn Hn Hcost Hc ltac:(lra) N N E) as (K1 & K2 & K3 & K4).
      do 2 eexists. split; [done|]. cbn [fst snd]. split; [done|]. split; [done|].
      pose proof (Q.le_min_l (val cap) (val cap + refill * Qmax 0 (val now - val now))). lra.
  - unfold leaky_script. destruct held as [[wat last]|]; cbn [fst snd] in *.
    + destruct Hg as (Hg1 & Hg2 & G1 & G2 & G3). destruct (lle _ cap) eqn:E; [right|left; by eexists].
      destruct (leaky_core wat last now cost Hg1 Hg2 Hn Hcost G1 G2 G3 N E) as (K1 & K2 & K3 & K4).
      do 2 eexists. split; [done|]. cbn [fst snd]. split; [done|]. split; [done|exact K4].
    + destruct (lle _ cap) eqn:E; [right|left; by eexists].
      assert (0 <= val (lint 0))%Q as Z0 by lra. assert (val (lint 0) <= val cap)%Q as Z1 by lra.
      destruct (leaky_core (lint 0) now now cost Hz Hn Hn Hcost Z0 Z1 N N E) as (K1 & K2 & K3 & K4).
      do 2 eexists. split; [done|]. cbn [fst snd]. split; [done|]. split; [done|].
      pose proof (Q.le_min_l (val cap) (val cap - val (lint 0) + refill * Qmax 0 (val now - val now))). lra.
Qed.

Lemma refill_nonneg : (0 <= refill)%Q.
Proof.
  destruct Hrange as [_ _ _ Hr _ _ _]. destruct eps_range as [E0 _]. unfold refill. apply Qmult_le_0_compat; lra.
Qed.

(** What is available grows with time, by the rate at most. *)
Lemma available_grows held t t' : (t <= t')%Q ->
  (available held t <= available held t')%Q /\ (available held t' <= available held t + refill * (t' - t))%Q.
Proof.
  intros Ht. pose proof refill_nonneg as F0. assert (0 <= refill * (t' - t))%Q as P by (apply Qmult_le_0_compat; lra).
  destruct held as [b|]; cbn [available]; [|lra]. set (m := Qmax 0 (t - val b.2)). set (m' := Qmax 0 (t' - val b.2)).
  assert (m <= m' /\ m' <= m + (t' - t))%Q as [M0 M1].
  { pose proof (Q.le_max_l 0 (t - val b.2)). pose proof (Q.le_max_r 0 (t - val b.2)).
    pose proof (Q.le_max_l 0 (t' - val b.2)). pose proof (Q.le_max_r 0 (t' - val b.2)).
    fold m in H, H0. fold m' in H1, H2. split; apply Q.max_lub; lra. }
  assert (refill * m <= refill * m')%Q as K0 by (rewrite !(Qmult_comm refill); apply Qmult_le_compat_r; lra).
  assert (refill * m' <= refill * (m + (t' - t)))%Q as K1 by (rewrite !(Qmult_comm refill); apply Qmult_le_compat_r; lra).
  assert (refill * (m + (t' - t)) == refill * m + refill * (t' - t))%Q as K2 by ring.
  pose proof (Q.le_min_l (val cap) (level b + refill * m)). pose proof (Q.le_min_r (val cap) (level b + refill * m)).
  pose proof (Q.le_min_l (val cap) (level b + refill * m')). pose proof (Q.le_min_r (val cap) (level b + refill * m')).
  split; [apply Q.min_glb; lra|]. assert (Qmin (val cap) (level b + refill * m') - refill * (t' - t) <= Qmin (val cap) (level b + refill * m))%Q; [|lra].
  apply Q.min_glb; lra.
Qed.

End BucketScripts.

Section BucketFleets.
Context {F : Type} {LN : LuaNum F} {finite : F -> Prop} {val : F -> Q} {eps tiny huge : Q} {LNO : LuaNumOk F finite val eps tiny huge}.
Context {C : Type} `{LocalCache C} {R : Type} `{RedisScriptsOk R (F * F)}.
Variables (horizon skew : Q) (k : BucketKind) (fleet : nat -> FilterOptions).

Lemma read_reply_spec p limit remaining cost t key res (cache : option C) o c :
  read_reply p limit remaining cost t key res cache = (o, c) ->
  match o with
  | Within _ _ _ => exists a l, res = Ok (a :: l) /\ reply_int a <> 0%Z
  | Shadowed _ _ => ShadowMode p = true /\ exists a l, res = Ok (a :: l) /\ reply_int a = 0%Z
  | FailedOpen => FailOpen p = true
  | Refused d => dBlocked d = true /\ exists a l, res = Ok (a :: l) /\ reply_int a = 0%Z
  | Failed _ => True
  end.
Proof.
  unfold read_reply, failed, bucket_outcome. destruct res as [[|a [|v [|z l]]]|e]; cbn; try (destruct (FailOpen p) eqn:E; by intros [= <- <-]).
  destruct (Z.eqb_spec (reply_int a) 0); [destruct (ShadowMode p) eqn:E|]; intros [= <- <-]; eauto 10.
Qed.

(** What a check leaves in Redis, and what its end says. *)
Lemma bucket_check_spec domain x cost t u p (r r' : R) (y y' : luaScript * option C) o :
  bucket_check k domain x cost t u p (r, y) = (o, (r', y')) ->
  let out := ran r u (bucket_key k domain x p) [] (script_of (cap_of k p) (rate_of k p) k cost (lnow t) (ttl_of k p)) in
  exists w, wrote r u (bucket_key k domain x p) w r' /\ (w = Keep \/ w = out.2) /\
    match o with
    | Within _ _ _ => w = out.2 /\ (forall l, out.1 = RInt 0 :: l -> False)
    | Shadowed _ _ | Refused _ => w = Keep \/ exists a l, out.1 = a :: l /\ reply_int a = 0%Z
    | FailedOpen | Failed _ => True
    end.
Proof.
  destruct y as [sc ca]. intros E. unfold bucket_check, token_check, leaky_check in E.
  unfold bucket_key, script_of, cap_of, rate_of, ttl_of.
  destruct k; cbv zeta; (destruct (cached ca t _); [injection E as <- <- _; exists Keep; split; [by split|]; by split; left|]);
    match type of E with context [Eval ?a ?b ?c ?d ?e ?f] => destruct (Eval a b c d e f) as [[res sc'] r1] eqn:Ee end;
    destruct (read_reply _ _ _ _ _ _ _ _) as [o1 c1] eqn:Er; injection E as <- <- _; apply read_reply_spec in Er; apply Eval_spec in Ee;
    (destruct res as [a|e];
     [destruct Ee as [-> Hw]; eexists; (split; [exact Hw|]); (split; [by right|]); destruct o1; try done;
      [destruct Er as (a & l & Ea & Hne); split; [done|]; intros l' El; rewrite El in Ea; by injection Ea as <- _
      |destruct Er as (_ & a & l & Ea & Hz); right; exists a, l; split; [congruence|done]..]
     |destruct Ee as [Hw|Hw]; eexists; (split; [exact Hw|]); (split; [first [by left|by right]|]);
      destruct o1; try done; repeat match goal with Hx : exists _, _ |- _ => destruct Hx | Hx : _ /\ _ |- _ => destruct Hx end; done]).
Qed.

Lemma ttl_pos p : (0 < ttl_of k p)%Z.
Proof.
  unfold ttl_of, token_ttl, leaky_ttl. destruct k; [destruct (float_lt0 _); lia|].
  match goal with |- context [(?z <=? 0)%Z] => destruct (Z.leb_spec z 0) end; lia.
Qed.

Variables (key : string) (cap rate : F) (ttl : Z).
Hypothesis Hrange : in_range (finite := finite) (val := val) (eps := eps) (tiny := tiny) (huge := huge) cap rate horizon.
(** An idle bucket is full again before its key expires. *)
Hypothesis Hfull : (val cap <= refill (val := val) (eps := eps) rate * inject_Z ttl)%Q.
Hypothesis Hkey : bucket_of k fleet key cap rate ttl.

Hypothesis Hskew : (0 <= skew)%Q.

Abbreviation avail := (available (val := val) (eps := eps) cap rate k).
Abbreviation gain := (slack (val := val) (eps := eps) (tiny := tiny) cap).
Abbreviation flow := (refill (val := val) (eps := eps) rate).
Abbreviation fine := (good (finite := finite) (val := val) cap horizon).

(** [g] is the last bucket written, gone only after its time to live. *)
Definition tracks (s : BucketFleet C R) (g : option (F * F)) : Prop :=
  match g with
  | None => forall t, (bclock s <= t)%Q -> content (bredis s) t key = None
  | Some b => fine b /\
      forall t, (bclock s <= t)%Q -> content (bredis s) t key = Some b \/
        (content (bredis s) t key = None /\ (val b.2 + inject_Z ttl <= t + skew)%Q)
  end.

(** What any engine could find available: by the clock that is most ahead. *)
Definition potential (s : BucketFleet C R) (g : option (F * F)) : Q := avail g (bclock s + skew).

Lemma level_nonneg b : fine b -> (0 <= level (val := val) cap k b)%Q.
Proof. intros (_ & _ & B1 & B2 & _). unfold level. destruct k; lra. Qed.

(** An expired bucket would have been full. *)
Lemma avail_held s g t : tracks s g -> (bclock s <= t)%Q -> (avail (content (bredis s) t key) (t + skew) <= avail g (t + skew))%Q.
Proof.
  intros Hg Ht. pose proof (refill_nonneg cap rate horizon Hrange) as F0.
  destruct g as [b|]; cbn [available tracks] in *; [|rewrite (Hg t Ht); cbn; lra].
  destruct Hg as [Hb Hc]. pose proof (level_nonneg _ Hb) as L0.
  destruct (Hc t Ht) as [-> | [-> Hexp]]; cbn [available]; [lra|]. apply Q.min_glb; [lra|].
  pose proof (Q.le_max_r 0 (t + skew - val b.2)) as Hm.
  assert (flow * inject_Z ttl <= flow * Qmax 0 (t + skew - val b.2))%Q; [|lra].
  rewrite !(Qmult_comm flow). apply Qmult_le_compat_r; lra.
Qed.

Lemma potential_range s g : tracks s g -> (0 <= potential s g)%Q /\ (potential s g <= val cap)%Q.
Proof.
  intros Hg. pose proof (refill_nonneg cap rate horizon Hrange) as F0. destruct Hrange as [_ Hc _ _ _ _ _]. unfold potential.
  destruct g as [b|]; cbn [available tracks] in *; [|lra].
  destruct Hg as [Hb _]. pose proof (level_nonneg _ Hb) as L0. split; [|apply Q.le_min_l].
  apply Q.min_glb; [done|]. assert (0 <= flow * Qmax 0 (bclock s + skew - val b.2))%Q by (apply Qmult_le_0_compat; [lra|apply Q.le_max_l]). lra.
Qed.

Lemma tracks_kept (s s' : BucketFleet C R) g : tracks s g -> (bclock s <= bclock s')%Q ->
  (forall t, (bclock s' <= t)%Q -> content (bredis s') t key = content (bredis s) t key) -> tracks s' g.
Proof.
  intros Hg Hc Hk. destruct g as [b|]; cbn in *.
  - destruct Hg as [Hb Hg]. split; [done|]. intros t Ht. rewrite Hk by done. apply Hg. lra.
  - intros t Ht. rewrite Hk by done. apply Hg. lra.
Qed.

Lemma tracks_written (s s' : BucketFleet C R) b u : bclock s' = u -> fine b -> (val b.2 <= u + skew)%Q -> (0 < ttl)%Z ->
  wrote (bredis s) u key (StoreEx b ttl) (bredis s') -> tracks s' (Some b).
Proof.
  intros Hc Hb Hs Httl [_ Hw]. cbn. rewrite Hc. split; [done|]. intros t' Ht'.
  assert (0 < inject_Z ttl)%Q as T0 by (change 0%Q with (inject_Z 0); by rewrite <- Zlt_Qlt).
  assert (content (bredis s') u key = Some b) as Hnow by (apply Hw; lra).
  destruct (Qlt_le_dec t' (u + inject_Z ttl)) as [Hlt|Hge]; [left; by apply Hw|].
  destruct (content_later (bredis s') u t' key Ht') as [->| ->]; [by left|right]. split; [done|lra].
Qed.

(** What a bucket just written leaves to the clock that is most ahead. *)
Lemma potential_written s' b u : bclock s' = u -> (u - skew <= val b.2)%Q ->
  (potential s' (Some b) <= level (val := val) cap k b + flow * (2 * skew))%Q.
Proof.
  intros Hc Hb. pose proof (refill_nonneg cap rate horizon Hrange) as F0. unfold potential. rewrite Hc. cbn [available].
  pose proof (Q.le_min_r (val cap) (level (val := val) cap k b + flow * Qmax 0 (u + skew - val b.2))) as Hm.
  assert (Qmax 0 (u + skew - val b.2) <= 2 * skew)%Q as Hx by (apply Q.max_lub; lra).
  assert (flow * Qmax 0 (u + skew - val b.2) <= flow * (2 * skew))%Q by (rewrite !(Qmult_comm flow); apply Qmult_le_compat_r; lra). lra.
Qed.

(** The cost of the checks of a run against what was available and flowed in. *)
Definition amortized (s s' : BucketFleet C R) (g g' : option (F * F)) (l : list (string * Z)) (lf : list string) : Prop :=
  bpassed s' = bpassed s ++ l /\ bfailed s' = bfailed s ++ lf /\ tracks s' g' /\ (bclock s <= bclock s')%Q /\
  (inject_Z (spent key l) + potential s' g' <= potential s g + flow * (bclock s' - bclock s) + inject_Z (passes key l) * gain +
     inject_Z (passes key l + failures key lf) * (flow * (2 * skew)))%Q.

Lemma amortized_trans s s1 s2 g g1 g2 l l' lf lf' : amortized s s1 g g1 l lf -> amortized s1 s2 g1 g2 l' lf' ->
  amortized s s2 g g2 (l ++ l') (lf ++ lf').
Proof.
  intros (E1 & F1 & _ & C1 & S1) (E2 & F2 & T2 & C2 & S2). unfold amortized. rewrite E2, E1, F2, F1, !app_assoc.
  do 3 (split; [done|]). split; [lra|]. unfold spent, passes, failures in *. rewrite !zsum_app, !inject_Z_plus in *.
  assert (flow * (bclock s2 - bclock s) == flow * (bclock s1 - bclock s) + flow * (bclock s2 - bclock s1))%Q by ring. lra.
Qed.

(** A check that leaves the bucket as it is. *)
Lemma amortized_kept s s' g l lf : tracks s g -> (bclock s <= bclock s')%Q ->
  (forall t, (bclock s' <= t)%Q -> content (bredis s') t key = content (bredis s) t key) ->
  bpassed s' = bpassed s ++ l -> bfailed s' = bfailed s ++ lf -> spent key l = 0%Z -> passes key l = 0%Z ->
  amortized s s' g g l lf.
Proof.
  intros Hg Hc Hk El Ef Es Ep. do 2 (split; [done|]). split; [by eapply tracks_kept|]. split; [done|]. rewrite Es, Ep, Z.add_0_l.
  pose proof (refill_nonneg cap rate horizon Hrange) as F0.
  destruct (available_grows cap rate horizon Hrange k g (bclock s + skew) (bclock s' + skew) ltac:(lra)) as [_ Hgrow].
  assert (0 <= inject_Z (failures key lf))%Q as Hf.
  { change 0%Q with (inject_Z 0). rewrite <- Zle_Qle. unfold failures. clear. induction lf; cbn; [lia|]. destruct (String.eqb _ _); lia. }
  assert (0 <= inject_Z (failures key lf) * (flow * (2 * skew)))%Q by (apply Qmult_le_0_compat; [done|]; apply Qmult_le_0_compat; lra).
  assert (flow * (bclock s' + skew - (bclock s + skew)) == flow * (bclock s' - bclock s))%Q by ring.
  unfold potential. change (inject_Z 0) with 0%Q. lra.
Qed.

(** A check whose script took its cost from the bucket: it passed, or ended with an
    error. *)
Lemma amortized_written s s' g b u cost l lf now : tracks s g -> bclock s' = u -> (bclock s <= u)%Q -> (1 <= cost)%Z -> b.2 = now ->
  (u - skew <= val now)%Q -> (val now <= u + skew)%Q -> fine b -> (0 < ttl)%Z ->
  (level (val := val) cap k b + inject_Z cost <= avail (content (bredis s) u key) (val now) + gain)%Q ->
  wrote (bredis s) u key (StoreEx b ttl) (bredis s') -> bpassed s' = bpassed s ++ l -> bfailed s' = bfailed s ++ lf ->
  (l = [(key, cost)] /\ lf = [] \/ l = [] /\ lf = [key]) -> amortized s s' g (Some b) l lf.
Proof.
  intros Hg Hu Hclk Hcost Eb Hlo Hhi Hb Httl Hlev Hw El Ef Hcase. pose proof (avail_held s g u Hg Hclk) as Hheld.
  destruct (available_grows cap rate horizon Hrange k g (bclock s + skew) (u + skew) ltac:(lra)) as [_ Hgrow].
  destruct (available_grows cap rate horizon Hrange k (content (bredis s) u key) (val now) (u + skew) Hhi) as [Hnow _].
  do 2 (split; [done|]). split; [eapply (tracks_written s s' b u); [done|done|by rewrite Eb|done|done]|]. split; [by rewrite Hu|].
  pose proof (potential_written s' b u Hu ltac:(by rewrite Eb)) as Hpot. pose proof Hrange as [_ _ _ _ _ _ Hsmall].
  assert (1 <= inject_Z cost)%Q by (change 1%Q with (inject_Z 1); rewrite <- Zle_Qle; lia).
  assert (flow * (u + skew - (bclock s + skew)) == flow * (u - bclock s))%Q by ring.
  rewrite Hu in *. unfold potential in Hpot |- *. rewrite Hu in Hpot |- *.
  destruct Hcase as [[-> ->]|[-> ->]]; unfold spent, passes, failures; cbn [zsum fst snd]; rewrite String.eqb_refl, ?Z.add_0_r;
    change (inject_Z (0 + 1)) with 1%Q; change (inject_Z 1) with 1%Q; change (inject_Z 0) with 0%Q; lra.
Qed.

(** What one check adds to the two histories. *)
Lemma check_histories (o : Outcome) (bk : string) (cost : Z) : exists (l : list (string * Z)) (lf : list string),
  (forall l0, match o with Within _ _ _ => l0 ++ [(bk, cost)] | _ => l0 end = l0 ++ l) /\
  (forall l0, match o with FailedOpen | Failed _ => l0 ++ [bk] | _ => l0 end = l0 ++ lf) /\
  match o with
  | Within _ _ _ => l = [(bk, cost)] /\ lf = []
  | FailedOpen | Failed _ => l = [] /\ lf = [bk]
  | _ => l = [] /\ lf = []
  end.
Proof.
  destruct o; [exists [(bk, cost)], []|exists [], []|exists [], [bk]|exists [], []|exists [], [bk]];
    (split; [intros; by rewrite ?app_nil_r|]); (split; [intros; by rewrite ?app_nil_r|done]).
Qed.

Lemma bucket_step_amortized (s s' : BucketFleet C R) g : tracks s g -> bucket_step finite val horizon skew k fleet s s' ->
  exists g' l lf, amortized s s' g g' l lf.
Proof.
  intros Hg Hs. revert Hg. destruct Hs as [s0 e p x cost t u o r' x' Hfin N0 N1 Hclk Hlo Hhi Hcost Hp Hcheck]. intros Hg.
  destruct (bucket_check_spec _ _ _ _ _ _ _ _ _ _ _ Hcheck) as (w & Hw & Hcases & Ho). set (now := lnow t) in *.
  set (bk := bucket_key k (Domain (fleet e)) x p) in *. destruct (check_histories o bk cost) as (l & lf & El & Ef & Hlf).
  rewrite El, Ef. set (s' := mkBucketFleet _ _ _ _ _).
  assert (spent key l = 0%Z -> passes key l = 0%Z -> (forall t', (u <= t')%Q -> content r' t' key = content (bredis s0) t' key) ->
    exists g' l lf, amortized s0 s' g g' l lf) as Hkeep by (intros; exists g, l, lf; by apply amortized_kept).
  destruct (decide (bk = key)) as [Ek|Hne].
  2:{ apply Hkeep; [..|intros t' Ht'; destruct Hw as [Hw _]; by apply Hw]; destruct o, Hlf as [-> _]; try done;
      unfold spent, passes; cbn; by destruct (String.eqb_spec bk key). }
  destruct (Hkey e p x Hp Ek) as (Ecap & Erate & Ettl). rewrite Ecap, Erate, Ettl, Ek in *.
  pose proof (ttl_pos p) as Httl. rewrite Ettl in Httl.
  assert (match content (bredis s0) u key with Some b => fine b | None => True end) as Hgood.
  { destruct g as [b|]; [destruct Hg as [Hb Hg]; destruct (Hg _ Hclk) as [-> | [-> _]]|rewrite (Hg _ Hclk)]; done. }
  destruct (script_contract cap rate horizon Hrange k _ now cost ttl Hfin (conj N0 N1) Hcost Hgood) as [(l0 & Eout)|(l0 & b & Eout & Eb & Hb & Hlev)];
    unfold ran in Hcases, Ho; cbn [fmap list_fmap] in Hcases, Ho; rewrite Eout in Hcases, Ho; cbn [fst snd] in Hcases, Ho.
  - assert (w = Keep) as -> by (by destruct Hcases).
    assert (l = []) as -> by (destruct o; try (by destruct Hlf); exfalso; by eapply (proj2 Ho)).
    apply Hkeep; [done..|]. intros t' Ht'. destruct Hw as [_ Hw]. by apply Hw.
  - destruct Hcases as [-> | ->].
    + assert (l = []) as -> by (destruct o; try (by destruct Hlf); by destruct Ho).
      apply Hkeep; [done..|]. intros t' Ht'. destruct Hw as [_ Hw]. by apply Hw.
    + assert (match o with Within _ _ _ | FailedOpen | Failed _ => True | _ => False end) as Ho'.
      { destruct o; try done; (destruct Ho as [?|(a & l1 & Ea & Ez)]; [done|]); by injection Ea as <- _. }
      exists (Some b), l, lf. eapply (amortized_written s0 s' g b u cost); try done; [lia|]. destruct o; try done; auto.
Qed.

Lemma bucket_run_amortized (s s' : BucketFleet C R) g : tracks s g -> rtc (bucket_step finite val horizon skew k fleet) s s' ->
  exists g' l lf, amortized s s' g g' l lf.
Proof.
  intros Hg Hrun. revert g Hg. induction Hrun as [s|s s1 s2 Hstep _ IH]; intros g Hg.
  - exists g, [], []. apply amortized_kept; try done; [lra|by rewrite app_nil_r..].
  - destruct (bucket_step_amortized _ _ _ Hg Hstep) as (g1 & l1 & lf1 & H1'). pose proof H1' as (_ & _ & Hg1 & _).
    destruct (IH _ Hg1) as (g2 & l2 & lf2 & H2'). exists g2, (l1 ++ l2), (lf1 ++ lf2). by eapply amortized_trans.
Qed.

End BucketFleets.

Section SlidingLemmas.
Context {F : Type} {LN : LuaNum F} {finite : F -> Prop} {val : F -> Q} {eps tiny huge : Q} {LNO : LuaNumOk F finite val eps tiny huge}.
Context {C : Type} `{LocalCache C} {R : Type} `{RedisScriptsOk R Z}.
Variable fleet : nat -> FilterOptions.
Hypothesis Hhuge : (inject_Z (2 ^ 55) + 2 * tiny <= huge)%Q.

Lemma nanos_le a b : (nanos a <= nanos b)%Q <-> (a <= b)%Z.
Proof. unfold nanos, Qle. cbn. lia. Qed.
Lemma nanos_lt a d : (nanos a < inject_Z d)%Q <-> (a < d * Second)%Z.
Proof. unfold nanos, Qlt, inject_Z, Second. cbn. lia. Qed.

(** The estimate is never below the current count. *)
Lemma sliding_script_spec limit cost (weight : F) ttl current previous :
  finite weight -> (0 <= val weight)%Q -> (val weight <= 1)%Q -> (1 <= cost <= 2 ^ 52)%Z -> (0 <= limit <= maxUint32)%Z ->
  (0 <= default 0 current <= maxUint32)%Z -> (0 <= default 0 (mjoin (head previous)) <= maxUint32)%Z ->
  let out := sliding_script limit cost weight ttl current previous in
  (exists l, out = (RInt 0 :: l, Keep)) \/
  (exists l, out = (RInt 1 :: l, StoreEx (default 0 current + cost)%Z ttl) /\ (default 0 current + cost <= limit)%Z).
Proof.
  intros Hw W0 W1 Hcost Hlim Hcur Hprev. unfold sliding_script. set (cur := default 0%Z current) in *. set (prev := default 0%Z (mjoin _)) in *.
  cbv zeta. destruct (lle _ _) eqn:E; [right|left; by eexists]. eexists. split; [done|]. unfold maxUint32 in *.
  destruct eps_range as [E0 E1]. pose proof tiny_nonneg as T0.
  destruct (lint_val cur ltac:(lia)) as [Fc Vc]. destruct (lint_val prev ltac:(lia)) as [Fp Vp]. destruct (lint_val cost ltac:(lia)) as [Fk Vk].
  destruct (lint_val limit ltac:(lia)) as [Fl Vl]. destruct (lint_val 0 ltac:(done)) as [Fz Vz]. change (inject_Z 0) with 0%Q in Vz.
  assert (0 <= inject_Z cur /\ inject_Z cur <= inject_Z 4294967295)%Q as [C0 C1] by (change 0%Q with (inject_Z 0); rewrite <- !Zle_Qle; lia).
  assert (0 <= inject_Z prev /\ inject_Z prev <= inject_Z 4294967295)%Q as [P0 P1] by (change 0%Q with (inject_Z 0); rewrite <- !Zle_Qle; lia).
  assert (0 <= inject_Z cost /\ inject_Z cost <= inject_Z (2 ^ 52))%Q as [K0 K1] by (change 0%Q with (inject_Z 0); rewrite <- !Zle_Qle; lia).
  change (inject_Z (2 ^ 52)) with (4503599627370496 # 1)%Q in K1. change (inject_Z 4294967295) with (4294967295 # 1)%Q in C1, P1.
  change (inject_Z (2 ^ 55)) with (36028797018963968 # 1)%Q in Hhuge.
  assert (0 <= val (lint prev) * val weight /\ val (lint prev) * val weight <= 4294967295 # 1)%Q as [M0 M1].
  { rewrite Vp. split; [apply Qmult_le_0_compat; lra|]. assert (inject_Z prev * val weight <= inject_Z prev * 1)%Q; [|lra].
    rewrite !(Qmult_comm (inject_Z prev)). apply Qmult_le_compat_r; lra. }
  destruct (lmul_bounds (lint prev) weight Fp Hw) as (Fm & N0 & N1); [lra..|]. set (m := lmul (lint prev) weight) in *.
  assert (eps * (val (lint prev) * val weight) <= (1 # 8) * (val (lint prev) * val weight))%Q as EM by (apply Qmult_le_compat_r; lra).
  destruct (ladd_bounds m (lint cur) Fm Fc) as (Fa & A0 & A1); [lra..|]. set (a := ladd m (lint cur)) in *.
  assert (eps * (val m + val (lint cur)) <= (1 # 8) * (val m + val (lint cur)))%Q as EA by (apply Qmult_le_compat_r; lra).
  destruct (lceil_ge a Fa) as (Fe & L0 & L1). set (est := lceil a) in *.
  assert (inject_Z cur <= val a)%Q as Hge.
  { rewrite <- (ladd_exact 0 cur) by lia. apply ladd_mono; [done..| | |lra]; rewrite Qabs_pos; lra. }
  destruct (ladd_bounds est (lint cost) Fe Fk) as (Fs & _ & _); [lra..|].
  rewrite lle_val in E by done. apply Qle_bool_iff in E. rewrite Vl in E. rewrite Zle_Qle.
  rewrite <- (ladd_exact cur cost) by lia. eapply Qle_trans; [|exact E]. apply ladd_mono; [done..| | |lra]; rewrite Qabs_pos; lra.
Qed.

(** Redis has counts of at most a uint32 from now on. *)
Definition counts_typed (r : R) (t : Q) : Prop := forall t' k z, (t <= t')%Q -> content r t' k = Some z -> (0 <= z <= maxUint32)%Z.

Lemma counts_typed_default r t t' k : counts_typed r t -> (t <= t')%Q -> (0 <= default 0 (content r t' k) <= maxUint32)%Z.
Proof. intros Hc Ht. destruct (content r t' k) eqn:E; cbn; [by eapply Hc|unfold maxUint32; lia]. Qed.

(** What a check leaves in Redis, and what its passing says. *)
Lemma sliding_check_spec domain x cost now t p (r r' : R) (y y' : luaScript * option C) o :
  let weight := lfixed 4 (window_weight p now) in let key := window_key domain x p (now / getDivider (Unit p) * getDivider (Unit p)) in
  let cur := default 0%Z (content r (nanos t) key) in
  sliding_check (F := F) domain x cost now t p (r, y) = (o, (r', y')) ->
  finite weight -> (0 <= val weight)%Q -> (val weight <= 1)%Q -> (1 <= cost <= 2 ^ 52)%Z -> (0 <= Limit p <= maxUint32)%Z ->
  counts_typed r (nanos t) ->
  exists w, wrote r (nanos t) key w r' /\
    (w = Keep \/ (w = StoreEx (cur + cost)%Z (2 * getDivider (Unit p)) /\ (cur + cost <= Limit p)%Z)) /\
    match o with Within _ _ _ => w <> Keep | _ => True end.
Proof.
  intros weight key cur E Fw W0 W1 Hcost Hlim Hty. destruct y as [sc ca]. unfold sliding_check in E. fold key weight in E.
  destruct (cached ca t key); [injection E as <- <- _; exists Keep; split; [by split|]; by split; [left|]|].
  set (pk := window_key domain x p _) in E.
  destruct (Eval _ _ _ _ _ _) as [[res sc'] r1] eqn:Ee. apply Eval_spec in Ee. unfold ran in Ee. cbn [fmap list_fmap] in Ee.
  destruct (sliding_script_spec (Limit p) cost weight (2 * getDivider (Unit p)) (content r (nanos t) key) [content r (nanos t) pk] Fw W0 W1 Hcost Hlim)
    as [(l & Eout)|(l & Eout & Hle)]; [apply (counts_typed_default r (nanos t)); [done|lra]|apply (counts_typed_default r (nanos t) (nanos t) pk); [done|lra]| |];
    rewrite Eout in Ee; cbn [fst snd] in Ee; fold cur in Ee.
  - assert (match o with Within _ _ _ => False | _ => True end /\ r' = r1) as [Ho ->].
    { destruct res as [a|e]; [destruct Ee as [-> _]|by unfold failed in E; destruct (FailOpen p); injection E as <- <- _].
      unfold failed in E. destruct l as [|v l]; [by destruct (FailOpen p); injection E as <- <- _|]. cbn in E.
      by destruct (ShadowMode p); injection E as <- <- _. }
    exists Keep. split; [destruct res; [by destruct Ee|by destruct Ee]|]. split; [by left|by destruct o].
  - assert (r' = r1 /\ (match o with Within _ _ _ => is_ok res = true | _ => True end)) as [-> Ho].
    { destruct res as [a|e]; [destruct Ee as [-> _]|by unfold failed in E; destruct (FailOpen p); injection E as <- <- _].
      unfold failed in E. destruct l as [|v l]; [by destruct (FailOpen p); injection E as <- <- _|]. cbn in E. by injection E as <- <- _. }
    destruct res as [a|e].
    + destruct Ee as [_ Hw]. eexists. split; [exact Hw|]. split; [by right|by destruct o].
    + destruct Ee as [Hw|Hw]; eexists; (split; [exact Hw|]); [split; [by left|]|split; [by right|]]; by destruct o.
Qed.

Lemma window_key_ts d d' x x' p p' ts ts' : window_key d x p ts = window_key d' x' p' ts' -> ts = ts'.
Proof. unfold window_key. intros Hk. apply app_sep_inj in Hk as [_ Hk]; [|apply Itoa_no_sep..]. by apply (inj pretty) in Hk. Qed.

Variables (key : string) (limit div : Z).
Hypothesis Hkey : sliding_key_counts fleet key limit div.
Hypothesis Htyped : limits_typed fleet.

(** The start of the window a key counts. *)
Definition starts (ts : Z) : Prop := exists e p x, p ∈ Descriptors (fleet e) /\ window_key (Domain (fleet e)) x p ts = key.

Record sliding_inv (s : SlidingFleet C R) : Prop := {
  si_typed : counts_typed (slredis s) (nanos (slclock s));
  si_limit : (spent key (slpassed s) <= Z.max 0 limit)%Z;
  si_counted ts t' : starts ts -> (nanos (slclock s) <= t')%Q -> (t' < inject_Z (ts + div))%Q ->
    (spent key (slpassed s) <= default 0 (content (slredis s) t' key))%Z
}.

Lemma counts_typed_wrote r t0 t k w r' : counts_typed r t0 -> (t0 <= t)%Q -> wrote r t k w r' ->
  (w = Keep \/ exists z ttl, w = StoreEx z ttl /\ (0 <= z <= maxUint32)%Z /\ (0 < ttl)%Z) -> counts_typed r' t.
Proof.
  intros Hc Ht [Ho Hw] Hcases t' k' z Ht' Ez. destruct (decide (k' = k)) as [-> |Hne]; [|eapply Hc; [|by rewrite <- Ho]; lra].
  destruct Hcases as [-> | (v & ttl & -> & Hv & Httl)]; [eapply Hc; [|by rewrite <- Hw]; lra|].
  assert (0 < inject_Z ttl)%Q by (change 0%Q with (inject_Z 0); by rewrite <- Zlt_Qlt).
  assert (content r' t k = Some v) as Hv0 by (apply Hw; lra).
  destruct (content_later r' t t' k Ht') as [E|E]; rewrite E in Ez; [|done]. rewrite Hv0 in Ez. by injection Ez as <-.
Qed.

Lemma sliding_inv_step s s' : sliding_step finite val fleet s s' -> sliding_inv s -> sliding_inv s'.
Proof.
  intros [s0 e p x cost now t o r' x' weight Fw W0 W1 Hclk Hnow Hwin Hcost Hp Hcheck] [Hty Hlim Hcnt].
  pose proof (getDivider_pos (Unit p)) as Hd. set (W := getDivider (Unit p)) in *.
  assert (nanos (slclock s0) <= nanos t)%Q as Hc by (by apply nanos_le).
  assert (counts_typed (slredis s0) (nanos t)) as Hty' by (intros t' k z Ht' Ez; eapply Hty; [|exact Ez]; lra).
  destruct (sliding_check_spec _ _ _ _ _ _ _ _ _ _ _ Hcheck Fw W0 W1 Hcost (Htyped e p Hp) Hty') as (w & Hw & Hcases & Ho). fold W in Hw, Hcases.
  set (k := window_key (Domain (fleet e)) x p (now / W * W)) in *. set (cur := default 0%Z (content (slredis s0) (nanos t) k)) in *.
  pose proof (counts_typed_default _ _ (nanos t) k Hty' ltac:(lra)) as Hcur. fold cur in Hcur. specialize (Htyped e p Hp) as Hu.
  assert (counts_typed r' (nanos t)) as Ht1.
  { eapply (counts_typed_wrote _ (nanos t)); [exact Hty'|lra|exact Hw|]. destruct Hcases as [-> | [-> Hle]]; [by left|right].
    eexists _, _. split; [done|]. split; [unfold maxUint32 in *; lia|lia]. }
  destruct (decide (k = key)) as [Ek|Hne].
  2:{ assert (spent key (match o with Within _ _ _ => slpassed s0 ++ [(k, cost)] | _ => slpassed s0 end) = spent key (slpassed s0)) as Hs.
      { destruct o; try done. unfold spent. rewrite zsum_app. cbn [zsum fst snd]. destruct (String.eqb_spec k key); [done|lia]. }
      split; cbn [slredis slclock slpassed]; [done|by rewrite Hs|]. intros ts t' Hts Ht' Hlt. rewrite Hs.
      destruct Hw as [Hw _]. rewrite Hw by done. eapply Hcnt; [done| |done]. lra. }
  destruct (Hkey e p x (now / W * W)%Z Hp Ek) as [El Ed]. rewrite Ek in *. fold W in Ed.
  assert (starts (now / W * W)%Z) as Hst by (by exists e, p, x).
  assert (now / W * W <= t / Second < now / W * W + div)%Z as Hin.
  { rewrite <- Ed, <- Hwin. pose proof (Z.div_mod (t / Second) W ltac:(lia)). pose proof (Z.mod_pos_bound (t / Second) W ltac:(lia)). lia. }
  pose proof (Z.div_mod t Second ltac:(done)) as Hdm. pose proof (Z.mod_pos_bound t Second ltac:(done)) as Hmb.
  assert (spent key (slpassed s0) <= cur)%Z as Hsc by (unfold cur; rewrite Ek; apply (Hcnt _ (nanos t) Hst Hc), nanos_lt; unfold Second in *; lia).
  destruct Hcases as [-> | [-> Hle]].
  - assert (match o with Within _ _ _ => slpassed s0 ++ [(key, cost)] | _ => slpassed s0 end = slpassed s0) as -> by (by destruct o).
    split; cbn [slredis slclock slpassed]; [done|done|]. intros ts t' Hts Ht' Hlt. destruct Hw as [_ Hw]. rewrite Hw by done. eapply Hcnt; [done| |done]. lra.
  - assert (spent key (match o with Within _ _ _ => slpassed s0 ++ [(key, cost)] | _ => slpassed s0 end) <= cur + cost)%Z as Hs.
    { destruct o; try lia. unfold spent in *. rewrite zsum_app. cbn [zsum fst snd]. rewrite String.eqb_refl. lia. }
    split; cbn [slredis slclock slpassed]; [done|lia|]. intros ts t' (e2 & p2 & x2 & _ & Ek2) Ht' Hlt.
    assert (ts = now / W * W)%Z as -> by (eapply window_key_ts; rewrite Ek2; symmetry; exact Ek).
    destruct Hw as [_ Hw]. rewrite Hw; [exact Hs|exact Ht'|].
    assert (inject_Z (now / W * W + div) <= nanos t + inject_Z (2 * W))%Q; [|lra].
    unfold nanos, inject_Z, Qle, Qplus. cbn. rewrite <- Ed. unfold Second in *. nia.
Qed.

End SlidingLemmas.

Lemma bucket_honest {F : Type} {LN : LuaNum F} {C R : Type} `{LocalCache C, RedisScripts R (F * F)} k domain x cost t when :
  honest (fun p => bucket_check (C := C) (R := R) k domain x cost t (when p) p).
Proof.
  intros p [r [sc ca]]. unfold bucket_check, token_check, leaky_check.
  destruct k; (destruct (cached ca t _); [done|]); destruct (Eval _ _ _ _ _ _) as [[res sc'] r1];
    destruct (read_reply _ _ _ _ _ _ _ _) as [o c] eqn:E; cbn [fst]; apply read_reply_spec in E; destruct o; try done; by destruct E.
Qed.

(** ** Properties *)


(** The sliding window counter holds across the fleet: however checks follow each
    other on one Redis, the requests that passed on the counter of a window never
    cost more than its limit, whatever the weight of the previous window, provided
    the policies that share the counter share limit and unit and each check runs in
    the window its clock was read in. *)
Lemma sliding_window_limit {F : Type} {LN : LuaNum F} {finite : F -> Prop} {val : F -> Q} {eps tiny huge : Q}
  {LNO : LuaNumOk F finite val eps tiny huge} {C R : Type} `{LocalCache C, RedisScriptsOk R Z} (fleet : nat -> FilterOptions)
  (s0 s : SlidingFleet C R) (key : string) (limit div : Z) :
  (inject_Z (2 ^ 55) + 2 * tiny <= huge)%Q -> sliding_initial s0 -> rtc (sliding_step finite val fleet) s0 s ->
  sliding_key_counts fleet key limit div -> limits_typed fleet -> (0 <= limit)%Z ->
  (spent key (slpassed s) <= limit)%Z.
Proof.
  intros Hhuge [Hp Hempty] Hrun Hkey Hty HL.
  assert (sliding_inv fleet key limit div s0) as Hinv.
  { split; rewrite ?Hp; [intros t' k z Ht Ez; by rewrite Hempty in Ez|cbn; lia|]. intros ts t' _ Ht _. by rewrite Hempty. }
  apply (rtc_ind_r (sliding_inv fleet key limit div) s0) in Hrun as [_ Hs _]; [lia|done|].
  intros s1 s2 _ Hstep Hi. by eapply (sliding_inv_step fleet Hhuge).
Qed.

(** ** Examples *)

(** Exact arithmetic. *)
Definition float_value (f : spec_float) : Q :=
  match f with
  | S754_finite s m e =>
      let m := (if s then Zneg m else Zpos m) in
      if (0 <=? e)%Z then inject_Z (m * 2 ^ e) else (m # Z.to_pos (2 ^ (- e)))%Q
  | _ => 0%Q
  end.
#[export] Instance ExactNum : LuaNum Q := {
  ladd x y := Qred (x + y); lsub x y := Qred (x - y); lmul x y := Qred (x * y); ldiv x y := Qred (x / y);
  lle := Qle_bool; llt x y := negb (Qle_bool y x); lceil x := inject_Z (Qceiling x);
  lint := inject_Z; lfloat := float_value;
  lfixed n f := (Qfloor (float_value f * inject_Z (10 ^ Z.of_nat n) + (1 # 2)) # Z.to_pos (10 ^ Z.of_nat n))%Q;
  ltrunc x := Z.quot (Qnum x) (Zpos (Qden x)); ltext x := Itoa (Qfloor x) }.

Definition exact_huge : Q := inject_Z (2 ^ 1000).

#[export] Instance ExactNum_ok : LuaNumOk Q (fun _ => True) (fun x => x) 0%Q 0%Q exact_huge.
Proof.
  assert (forall a b : Q, (Qabs (Qred a - b) <= 0 * Qabs b)%Q <-> (a == b)%Q) as Hexact.
  { intros a b. rewrite Qred_correct. split; intros E.
    - apply Qabs_Qle_condition in E. lra.
    - rewrite E. assert (b - b == 0)%Q as -> by ring. rewrite Qmult_0_l. by apply Qle_refl. }
  split; cbn [ladd lsub lmul lle llt lceil lint ExactNum].
  - split; lra.
  - lra.
  - done.
  - done.
  - by intros z _.
  - intros x y _ _ _. split; [done|]. by apply Hexact.
  - intros x y _ _ _. split; [done|]. by apply Hexact.
  - intros x y _ _ _. split; [done|]. rewrite Qplus_0_r. by apply Hexact.
  - intros x y _ _ Hx Hy _. rewrite Qred_correct. by apply Qmult_le_0_compat.
  - intros x x' y _ _ _ _ _ Hle. rewrite !Qred_correct. lra.
  - intros a b _ _ _. rewrite Qred_correct. by rewrite inject_Z_plus.
  - intros x _. split; [done|]. split; [apply Qle_ceiling|]. pose proof (Qceiling_lt x) as Hc.
    unfold Z.sub in Hc. rewrite inject_Z_plus in Hc. change (inject_Z (- (1))) with (-1)%Q in Hc. lra.
Qed.

Definition example_bucket_policy : YamlDescriptor :=
  mkDescriptor [mkEntryDef "ip" ""] 0 "" false false false "" (float64_of_Z 5) (float64_of_Z 2) 0 (S754_zero false).
Definition example_bucket_fleet (_ : nat) : FilterOptions :=
  ApplyDefaults (mkFilterOptions "api" "token_bucket" "cache" [] (mkResponseHeaders true "" "" "")
    (mkDynamicCost false "" 0 0) [example_bucket_policy]).
Definition example_bucket_key : string := "api_ip_203.0.113.7_token_bucket".
Abbreviation ExampleBuckets := (BucketFleet (gset string) (gmap string (Q * Q * Q))).
Definition example_bucket_start : ExampleBuckets := mkBucketFleet 0 ∅ (fun _ => (mkLuaScript "tb" "tb", Some ∅)) [] [].

(** A check by executor [e] whose clock reads [t], when Redis's reads [u]. *)
Definition example_bucket_check (s : ExampleBuckets) (e : nat) (cost t : Z) (u : Q) : ExampleBuckets :=
  let '(o, (r', x')) := bucket_check TokenBucket "api" [("ip", "203.0.113.7")] cost t u example_bucket_policy (bredis s, bexecs s e) in
  mkBucketFleet u r' (fun n => if Nat.eqb n e then x' else bexecs s n)
    (match o with
     | Within _ _ _ => bpassed s ++ [(bucket_key TokenBucket "api" [("ip", "203.0.113.7")] example_bucket_policy, cost)]
     | _ => bpassed s
     end)
    (match o with
     | FailedOpen | Failed _ => bfailed s ++ [bucket_key TokenBucket "api" [("ip", "203.0.113.7")] example_bucket_policy]
     | _ => bfailed s
     end).

Abbreviation example_bstep := (bucket_step (fun _ => True) (fun x : Q => x) 1000 (1 # 10) TokenBucket example_bucket_fleet).

Lemma example_bucket_step s e cost t u :
  Qle_bool 0 (lnow t) && Qle_bool (lnow t) 1000 && Qle_bool (bclock s) u && Qle_bool (u - (1 # 10)) (lnow t) &&
    Qle_bool (lnow t) (u + (1 # 10)) && (1 <=? cost)%Z && (cost <=? 2 ^ 53)%Z = true ->
  example_bstep s (example_bucket_check s e cost t u).
Proof.
  rewrite !andb_true_iff, !Qle_bool_iff, !Z.leb_le. intros ((((((T0 & T1) & T2) & T3) & T4) & C1) & C2). unfold example_bucket_check.
  destruct (bucket_check _ _ _ _ _ _ _ _) as [o [r' x']] eqn:E.
  eapply (bucket_checked (fun _ => True) (fun x : Q => x) 1000 (1 # 10) TokenBucket example_bucket_fleet s e example_bucket_policy);
    [done|exact T0|exact T1|exact T2|exact T3|exact T4|done|by left|exact E].
Qed.

(** A burst of five from two executors at 10 s, the clock of the second a tenth of a
    second late; a sixth request at once, and one half a second later. *)
Definition example_bucket_burst : ExampleBuckets :=
  example_bucket_check (example_bucket_check example_bucket_start 0 3 (10 * Second) 10) 1 2 (9900 * Millisecond) 10.
Definition example_bucket_end : ExampleBuckets :=
  example_bucket_check (example_bucket_check example_bucket_burst 1 1 (9900 * Millisecond) 10) 0 1 (10500 * Millisecond) (105 # 10).

Lemma example_bucket_burst_run : rtc example_bstep example_bucket_start example_bucket_burst.
Proof.
  eapply rtc_l; [apply (example_bucket_step _ 0 3 (10 * Second) 10); vm_compute; reflexivity|].
  eapply rtc_l; [apply (example_bucket_step _ 1 2 (9900 * Millisecond) 10); vm_compute; reflexivity|]. apply rtc_refl.
Qed.
Lemma example_bucket_end_run : rtc example_bstep example_bucket_burst example_bucket_end.
Proof.
  eapply rtc_l; [apply (example_bucket_step _ 1 1 (9900 * Millisecond) 10); vm_compute; reflexivity|].
  eapply rtc_l; [apply (example_bucket_step _ 0 1 (10500 * Millisecond) (105 # 10)); vm_compute; reflexivity|]. apply rtc_refl.
Qed.

Definition example_cap : Q := lfloat (float64_of_Z 5).
Definition example_rate : Q := lfloat (float64_of_Z 2).

Lemma example_bucket_of : bucket_of TokenBucket example_bucket_fleet example_bucket_key example_cap example_rate 60.
Proof. intros e p x Hp _. apply list_elem_of_singleton in Hp as ->. by vm_compute. Qed.

Lemma example_in_range :
  in_range (finite := fun _ => True) (val := fun x : Q => x) (eps := 0%Q) (tiny := 0%Q) (huge := exact_huge) example_cap example_rate 1000.
Proof. split; try done; vm_compute; discriminate. Qed.


Definition example_sliding_policy : YamlDescriptor :=
  mkDescriptor [mkEntryDef "ip" ""] 3 "minute" false false false "" (S754_zero false) (S754_zero false) 0 (S754_zero false).
Definition example_sliding_fleet (_ : nat) : FilterOptions :=
  ApplyDefaults (mkFilterOptions "api" "sliding_window_counter" "cache" [] (mkResponseHeaders true "" "" "")
    (mkDynamicCost false "" 0 0) [example_sliding_policy]).
Definition example_sliding_key : string := "{api_ip_203.0.113.7}_60".
Abbreviation ExampleSliding := (SlidingFleet (gset string) (gmap string (Z * Q))).
Definition example_sliding_start : ExampleSliding := mkSlidingFleet 0 ∅ (fun _ => (mkLuaScript "sw" "sw", Some ∅)) [].

Definition example_sliding_check (s : ExampleSliding) (e : nat) (cost now : Z) : ExampleSliding :=
  let '(o, (r', x')) := sliding_check (F := Q) "api" [("ip", "203.0.113.7")] cost now (now * Second) example_sliding_policy (slredis s, slexecs s e) in
  mkSlidingFleet (now * Second) r' (fun n => if Nat.eqb n e then x' else slexecs s n)
    (match o with
     | Within _ _ _ => slpassed s ++ [(window_key "api" [("ip", "203.0.113.7")] example_sliding_policy (now / 60 * 60)%Z, cost)]
     | _ => slpassed s
     end).

Lemma example_sliding_step s e cost now :
  let weight := lfixed (F := Q) 4 (window_weight example_sliding_policy now) in
  Qle_bool 0 weight && Qle_bool weight 1 && (slclock s <=? now * Second)%Z && (1 <=? cost)%Z && (cost <=? 2 ^ 52)%Z = true ->
  sliding_step (fun _ => True) (fun x : Q => x) example_sliding_fleet s (example_sliding_check s e cost now).
Proof.
  intros weight. rewrite !andb_true_iff, !Qle_bool_iff, !Z.leb_le. intros ((((W0 & W1) & T0) & C1) & C2). unfold example_sliding_check.
  destruct (sliding_check _ _ _ _ _ _ _) as [o [r' x']] eqn:E.
  apply (sliding_checked (fun _ => True) (fun x : Q => x) example_sliding_fleet s e example_sliding_policy [("ip", "203.0.113.7")] cost now (now * Second) o r' x');
    [done|exact W0|exact W1|done|done|by rewrite Z.div_mul|done|by left|exact E].
Qed.

Definition example_sliding_end : ExampleSliding :=
  example_sliding_check (example_sliding_check (example_sliding_check example_sliding_start 0 2 70) 1 1 80) 0 1 90.

Lemma example_sliding_run : rtc (sliding_step (fun _ => True) (fun x : Q => x) example_sliding_fleet) example_sliding_start example_sliding_end.
Proof.
  eapply rtc_l; [apply (example_sliding_step _ 0 2 70); vm_compute; reflexivity|].
  eapply rtc_l; [apply (example_sliding_step _ 1 1 80); vm_compute; reflexivity|].
  eapply rtc_l; [apply (example_sliding_step _ 0 1 90); vm_compute; reflexivity|]. apply rtc_refl.
Qed.

Lemma sliding_window_limit_witness :
  snd <$> slpassed example_sliding_end = [2; 1]%Z /\ (spent example_sliding_key (slpassed example_sliding_end) <= 3)%Z.
Proof.
  split; [by vm_compute|].
  apply (sliding_window_limit (finite := fun _ => True) (val := fun x : Q => x) (eps := 0%Q) (tiny := 0%Q) (huge := exact_huge) example_sliding_fleet
    example_sliding_start example_sliding_end example_sliding_key 3 60);
    [vm_compute; discriminate|by split|exact example_sliding_run| | |done].
  - intros e p x ts Hp _. apply list_elem_of_singleton in Hp as ->. done.
  - intros e p Hp. apply list_elem_of_singleton in Hp as ->. done.
Defined.

End RateBuckets.
