(* ===== verification/ApiKey.v ===== *)
(** * ApiKey: the API key filter (internal/filters/api_key/api_key.go,
    internal/config/filter_apikey.go)

    [Execute] extracts the credential, consults the local cache, asks Redis
    ([verify]) and injects or strips headers. Redis, freecache, gjson and the
    hash functions are parameters; the order of Go's map iteration is arbitrary. *)

From S2P Require Import Prelude GoStrings GoTime Context Executor HeaderModifier.

Local Open Scope string_scope.
Local Open Scope list_scope.

Module ApiKey.

(** ** Configuration *)

Record APIKeyStatusCheck := mkStatusCheck { scEnabled : bool; FieldName : string; ExpectedValue : string }.

Record APIKeyOutputMapping := mkOutputMapping { TargetHeader : string; RedisField : string; JSONPath : string }.

Record APIKeyFilterConfig := mkConfig {
  KeyNames : list string; KeyInHeader : bool; KeyInQuery : bool; HideCredentials : bool; akRedisService : string;
  RedisKeyPrefix : string; HashAlgorithm : string; ValueFormat : string; Delimiter : string;
  StatusCheck : APIKeyStatusCheck; OutputMappings : list APIKeyOutputMapping }.
#[export] Instance APIKeyFilterConfig_eta : Eta APIKeyFilterConfig := fun x =>
  mkConfig (KeyNames x) (KeyInHeader x) (KeyInQuery x) (HideCredentials x) (akRedisService x) (RedisKeyPrefix x)
    (HashAlgorithm x) (ValueFormat x) (Delimiter x) (StatusCheck x) (OutputMappings x).

Definition ApplyDefaults (cfg : APIKeyFilterConfig) : result APIKeyFilterConfig :=
  let cfg := if String.eqb (HashAlgorithm cfg) "" then cfg <| HashAlgorithm := "sha256" |> else cfg in
  let cfg := if String.eqb (RedisKeyPrefix cfg) "" then cfg <| RedisKeyPrefix := "apikey:" |> else cfg in
  let cfg := if String.eqb (ValueFormat cfg) "" then cfg <| ValueFormat := "hash" |> else cfg in
  let cfg := if String.eqb (Delimiter cfg) "" && String.eqb (ValueFormat cfg) "plain" then cfg <| Delimiter := "|" |> else cfg in
  let cfg := if nonempty (KeyNames cfg) then cfg else cfg <| KeyNames := ["x-api-key"] |> in
  let cfg := if negb (KeyInHeader cfg) && negb (KeyInQuery cfg) then cfg <| KeyInHeader := true |> else cfg in
  if negb (String.eqb (ValueFormat cfg) "plain" || String.eqb (ValueFormat cfg) "hash" || String.eqb (ValueFormat cfg) "json")
  then Err "invalid value_format"
  else if scEnabled (StatusCheck cfg) && String.eqb (ValueFormat cfg) "plain"
  then Err "status_check requires value_format hash or json"
  else if scEnabled (StatusCheck cfg) && String.eqb (FieldName (StatusCheck cfg)) ""
  then Err "status_check.field_name is required when status_check is enabled"
  else if negb (String.eqb (HashAlgorithm cfg) "sha256" || String.eqb (HashAlgorithm cfg) "md5" || String.eqb (HashAlgorithm cfg) "none")
  then Err "invalid hash_algorithm"
  else Ok cfg.

(** ** Query parameters *)

(** The parts the loops visit: the query is used up after a final "&". *)
Fixpoint visited (parts : list string) : list string :=
  match parts with
  | [] => []
  | [p] => if String.eqb p "" then [] else [p]
  | p :: parts => p :: visited parts
  end.
Definition query_parts (query : string) : list string := visited (Split query "&").

(** The first part with that name, the value empty when it has no "=". *)
Fixpoint find_part (name : string) (parts : list string) : string :=
  match parts with
  | [] => ""
  | p :: parts =>
      match Cut p "=" with
      | (k, v, true) => if String.eqb k name then v else find_part name parts
      | (_, _, false) => if String.eqb p name then "" else find_part name parts
      end
  end.

Definition extractQueryParam (path name : string) : string :=
  match Cut path "?" with
  | (_, query, true) => find_part name (query_parts query)
  | (_, _, false) => ""
  end.

Definition part_key (p : string) : string := match Cut p "=" with (k, _, true) => k | (_, _, false) => p end.

Definition stripQueryParam (path name : string) : string :=
  match Cut path "?" with
  | (_, _, false) => path
  | (base, query, true) =>
      match List.filter (fun p => negb (String.eqb (part_key p) name)) (query_parts query) with
      | [] => base
      | parts => (base +++ "?" +++ GoStrings.Join parts "&")%go
      end
  end.

(** ** The filter *)

(** freecache: an entry is readable for less than its time to live (seconds), or
    for ever when that is not positive, and may be forgotten at any moment. Times
    in nanoseconds. *)
Class ValueCache (C : Type) := {
  vcache_empty : C;
  vcache_get : C -> Z -> string -> option string;
  vcache_set : C -> Z -> string -> string -> Z -> C
}.
Class ValueCacheOk (C : Type) `{ValueCache C} : Prop := {
  vcache_get_empty t k : vcache_get vcache_empty t k = None;
  vcache_get_set c t k v ttl t' k' x : vcache_get (vcache_set c t k v ttl) t' k' = Some x ->
    k' = k /\ x = v /\ (ttl <= 0 \/ t' < t + ttl * Second)%Z \/ vcache_get c t' k' = Some x
}.

(** The Redis commands the filter sends; a missing value reads as "". *)
Class KeyStore (R : Type) := {
  store_get : R -> string -> result string;
  store_hmget : R -> string -> list string -> result (list string);
  store_exists : R -> string -> result Z
}.

(** What Redis says of a key. *)
Inductive Verdict : Type :=
| Grant (headerValues : GoMap string)
| Reject (status : Z) (reason : string)
| Broken (e : string).

Section Filter.
Context {R C : Type} `{KeyStore R, ValueCache C}.
(** [hex.EncodeToString] of the two digests; [gjson.Get], [None] when the path
    does not exist. *)
Variable sha256_hex md5_hex : string -> string.
Variable gjson_get : string -> string -> option string.
(** The orders of the two loops over [headerValues] of a call. *)
Variable order1 order2 : Z -> GoMap string -> GoMap string.
Variable cfg : APIKeyFilterConfig.

Fixpoint extract_key (names : list string) (c : RequestContext) : option (string * string) :=
  match names with
  | [] => None
  | n :: names =>
      let h := if KeyInHeader cfg then GetHeader c (ToLower n) else "" in
      let q := if KeyInQuery cfg then extractQueryParam (Path c) n else "" in
      if negb (String.eqb h "") then Some (h, n) else if negb (String.eqb q "") then Some (q, n) else extract_key names c
  end.

Definition hashedKey (apiKey : string) : string :=
  if String.eqb (HashAlgorithm cfg) "sha256" then sha256_hex apiKey
  else if String.eqb (HashAlgorithm cfg) "md5" then md5_hex apiKey
  else if String.eqb (HashAlgorithm cfg) "none" || String.eqb (HashAlgorithm cfg) "" then apiKey
  else "".

Definition redisKey (apiKey : string) : string := (RedisKeyPrefix cfg +++ hashedKey apiKey)%go.

(** The loop that pairs the mappings with the values of a reply. *)
Fixpoint map_values (ms : list APIKeyOutputMapping) (vs : list string) (acc : GoMap string) : GoMap string :=
  match ms, vs with
  | m :: ms, v :: vs => map_values ms vs (map_set acc (TargetHeader m) v)
  | _, _ => acc
  end.

(** Step D: the header values and the status, [Ok None] for an unknown key. *)
Definition lookup_record (r : R) (key : string) : result (option (GoMap string * string)) :=
  if String.eqb (ValueFormat cfg) "plain" then
    let? reply := store_get r key in
    if String.eqb reply "" then Ok None
    else
      let delimiter := if String.eqb (Delimiter cfg) "" then "|" else Delimiter cfg in
      Ok (Some (map_values (OutputMappings cfg) (SplitStr reply delimiter) [], ""))
  else if String.eqb (ValueFormat cfg) "hash" then
    let fields := (RedisField <$> OutputMappings cfg) ++ (if scEnabled (StatusCheck cfg) then [FieldName (StatusCheck cfg)] else []) in
    if negb (nonempty fields) then
      let? n := store_exists r key in
      if (n =? 0)%Z then Ok None else Ok (Some ([], ""))
    else
      let? reply := store_hmget r key fields in
      if forallb (fun v => String.eqb v "") reply then Ok None
      else Ok (Some (map_values (OutputMappings cfg) reply [],
                     if scEnabled (StatusCheck cfg) then default "" (reply !! length (OutputMappings cfg)) else ""))
  else if String.eqb (ValueFormat cfg) "json" then
    let? reply := store_get r key in
    if String.eqb reply "" then Ok None
    else
      Ok (Some (fold_left (fun hv m => match gjson_get reply (JSONPath m) with
                                       | Some v => map_set hv (TargetHeader m) v
                                       | None => hv
                                       end) (OutputMappings cfg) [],
                if scEnabled (StatusCheck cfg) then default "" (gjson_get reply (FieldName (StatusCheck cfg))) else ""))
  else Ok (Some ([], "")).

(** Steps D and E. *)
Definition verify (r : R) (key : string) : Verdict :=
  match lookup_record r key with
  | Err e => Broken e
  | Ok None => Reject 401 "Unauthorized: Invalid API Key"
  | Ok (Some (hv, status)) =>
      if scEnabled (StatusCheck cfg) && negb (String.eqb status (ExpectedValue (StatusCheck cfg)))
      then Reject 403 ("Forbidden: Account is " +++ status)%go
      else Grant hv
  end.

Definition set_headers (hv : GoMap string) (c : RequestContext) : RequestContext :=
  fold_left (fun c e => SetHeaderUpstream c e.1 e.2) hv c.

Definition stripCredentials (keyName : string) (c : RequestContext) : RequestContext :=
  if HideCredentials cfg && negb (String.eqb keyName "") then
    let c := if KeyInHeader cfg then RemoveHeaderUpstream c keyName else c in
    if KeyInQuery cfg then
      let stripped := stripQueryParam (Path c) keyName in
      if String.eqb stripped (Path c) then c else SetPath c stripped
    else c
  else c.

(** The values of the local cache. *)
Definition nl : ascii := "010".
Definition block_value (reason : string) : string := String "000" reason.
Definition grant_value (hv : GoMap string) : string :=
  fold_right (fun e s => (e.1 +++ "=" +++ e.2 +++ String nl s)%go) "" hv.

Definition cached_headers (v : string) : GoMap string :=
  omap (fun line => match Cut line "=" with (k, x, true) => Some (k, x) | (_, _, false) => None end)
    (List.filter (fun line => negb (String.eqb line "")) (Split v nl)).

Definition cacheTTL : Z := 30.

(** The local cache, the time of the call and the database it sees. *)
Record World := mkWorld { wCache : C; wTime : Z; wStore : R }.

Definition Execute : Exec World := fun c w =>
  match extract_key (KeyNames cfg) c with
  | None => (None, Block c 401 "Unauthorized: Missing API Key", w)
  | Some (apiKey, matchedKeyName) =>
      let key := redisKey apiKey in
      match vcache_get (wCache w) (wTime w) key with
      | Some (String "000" reason) =>
          (None, Block c (if Contains reason "Forbidden" then 403 else 401) reason, w)
      | Some v => (None, stripCredentials matchedKeyName (set_headers (cached_headers v) c), w)
      | None =>
          match verify (wStore w) key with
          | Broken e => (Some e, c <| Blocked := true |> <| ResponseStatus := 500%Z |>, w)
          | Reject status reason =>
              (None, Block c status reason, mkWorld (vcache_set (wCache w) (wTime w) key (block_value reason) 10) (wTime w) (wStore w))
          | Grant hv =>
              let c := set_headers (order1 (wTime w) hv) c in
              let cache := vcache_set (wCache w) (wTime w) key (grant_value (order2 (wTime w) hv)) cacheTTL in
              (None, stripCredentials matchedKeyName c, mkWorld cache (wTime w) (wStore w))
          end
      end
  end.

(** The local cache after a sequence of calls: when, against which database, for
    which request. *)
Definition after_calls (calls : list (Z * R * RequestContext)) : C :=
  fold_left (fun cache '(t, r, c) => wCache (Execute c (mkWorld cache t r)).2) calls vcache_empty.

End Filter.
Arguments World : clear implicits.

(** ** What the filter promises *)

(** Header names and values the cached form keeps apart. *)
Definition plain_pair (e : string * string) : Prop :=
  contains_byte e.1 "=" = false /\ contains_byte e.1 nl = false /\ contains_byte e.2 nl = false /\
  contains_byte e.1 "000" = false.

(** The upstream headers after a grant. *)
Definition granted_headers (cfg : APIKeyFilterConfig) (name : string) (path : string) (hv : GoMap string) (m : gmap string string)
  : gmap string string :=
  let m := HeaderModifier.lowered hv ∪ m in
  if HideCredentials cfg && negb (String.eqb name "") then
    let m := if KeyInHeader cfg then delete (ToLower name) m else m in
    if KeyInQuery cfg && negb (String.eqb (stripQueryParam path name) path) then <[":path" := stripQueryParam path name]> m else m
  else m.

(** The values Redis keeps for a key, under the headers they are mapped to, and the
    status of its account ("" where no status is checked), in the configured format. *)
Definition status_fields (cfg : APIKeyFilterConfig) : list string :=
  if scEnabled (StatusCheck cfg) then [FieldName (StatusCheck cfg)] else [].

Inductive record_of {R : Type} `{KeyStore R} (gjson_get : string -> string -> option string) (cfg : APIKeyFilterConfig) (r : R) (key : string)
  : GoMap string -> string -> Prop :=
| record_plain reply delimiter : ValueFormat cfg = "plain" -> store_get r key = Ok reply -> reply <> "" ->
    delimiter = (if String.eqb (Delimiter cfg) "" then "|" else Delimiter cfg) ->
    record_of gjson_get cfg r key (zip (TargetHeader <$> OutputMappings cfg) (SplitStr reply delimiter)) ""
| record_fields reply status : ValueFormat cfg = "hash" ->
    store_hmget r key ((RedisField <$> OutputMappings cfg) ++ status_fields cfg) = Ok reply ->
    (exists v, v ∈ reply /\ v <> "") -> (exists f, f ∈ (RedisField <$> OutputMappings cfg) ++ status_fields cfg) ->
    (if scEnabled (StatusCheck cfg) then reply !! length (OutputMappings cfg) = Some status \/
       reply !! length (OutputMappings cfg) = None /\ status = "" else status = "") ->
    record_of gjson_get cfg r key (zip (TargetHeader <$> OutputMappings cfg) reply) status
| record_bare n : ValueFormat cfg = "hash" -> OutputMappings cfg = [] -> scEnabled (StatusCheck cfg) = false ->
    store_exists r key = Ok n -> n <> 0%Z -> record_of gjson_get cfg r key [] ""
| record_json reply status : ValueFormat cfg = "json" -> store_get r key = Ok reply -> reply <> "" ->
    (if scEnabled (StatusCheck cfg) then gjson_get reply (FieldName (StatusCheck cfg)) = Some status \/
       gjson_get reply (FieldName (StatusCheck cfg)) = None /\ status = "" else status = "") ->
    record_of gjson_get cfg r key
      (omap (fun m => pair (TargetHeader m) <$> gjson_get reply (JSONPath m)) (OutputMappings cfg)) status.

(** The verdict the record deserves: unknown keys are invalid (401), accounts without
    the expected status are forbidden (403), the others have their values granted. *)
Definition deserved {R : Type} `{KeyStore R} (gjson_get : string -> string -> option string) (cfg : APIKeyFilterConfig) (r : R) (key : string)
  (v : Verdict) : Prop :=
  match v with
  | Grant hv => exists status, record_of gjson_get cfg r key hv status /\
      (scEnabled (StatusCheck cfg) = true -> status = ExpectedValue (StatusCheck cfg))
  | Reject st _ => st = 401%Z /\ (forall hv status, ~ record_of gjson_get cfg r key hv status) \/
      st = 403%Z /\ scEnabled (StatusCheck cfg) = true /\
        exists hv status, record_of gjson_get cfg r key hv status /\ status <> ExpectedValue (StatusCheck cfg)
  | Broken e => store_get r key = Err e \/ store_exists r key = Err e \/ exists fields, store_hmget r key fields = Err e
  end.

(** The request has the key under that name, in the header or in the query. *)
Definition presents (cfg : APIKeyFilterConfig) (c : RequestContext) (name apiKey : string) : Prop :=
  apiKey <> "" /\ (KeyInHeader cfg = true /\ (effective c).1 !! ToLower name = Some apiKey \/
                   KeyInQuery cfg = true /\ extractQueryParam (Path c) name = apiKey).

(** ** Lemmas *)

Lemma map_values_zip (ms : list APIKeyOutputMapping) (vs : list string) (acc : GoMap string) : NoDup (acc.*1 ++ (TargetHeader <$> ms)) ->
  map_values ms vs acc = acc ++ zip (TargetHeader <$> ms) vs.
Proof.
  revert vs acc. induction ms as [|m ms IH]; intros [|v vs] acc Hnd; cbn; rewrite ?app_nil_r; [done..|].
  assert (TargetHeader m ∉ acc.*1) as Hf.
  { apply NoDup_app in Hnd as (_ & Hd & _). intros Hin. apply (Hd _ Hin). by left. }
  rewrite map_set_fresh by done. rewrite IH; [by rewrite <- app_assoc|].
  rewrite fmap_app. cbn. by rewrite <- app_assoc.
Qed.

Lemma json_values (gjson_get : string -> string -> option string) reply (ms : list APIKeyOutputMapping) (acc : GoMap string) : NoDup (acc.*1 ++ (TargetHeader <$> ms)) ->
  fold_left (fun hv m => match gjson_get reply (JSONPath m) with Some v => map_set hv (TargetHeader m) v | None => hv end) ms acc =
  acc ++ omap (fun m => pair (TargetHeader m) <$> gjson_get reply (JSONPath m)) ms.
Proof.
  revert acc. induction ms as [|m ms IH]; intros acc Hnd; cbn; rewrite ?app_nil_r; [done|].
  destruct (gjson_get reply (JSONPath m)) as [v|]; cbn.
  - assert (TargetHeader m ∉ acc.*1) as Hf.
    { apply NoDup_app in Hnd as (_ & Hd & _). intros Hin. apply (Hd _ Hin). by left. }
    rewrite map_set_fresh by done. rewrite IH; [by rewrite <- app_assoc|]. rewrite fmap_app. cbn. by rewrite <- app_assoc.
  - apply IH. eapply sublist_NoDup; [exact Hnd|]. apply sublist_app; [done|]. by apply sublist_cons.
Qed.

Lemma nonempty_nil {A : Type} (l : list A) : nonempty l = false -> l = [].
Proof. by destruct l. Qed.

Lemma lookup_record_spec {R : Type} `{KeyStore R} gjson_get cfg (r : R) key :
  ValueFormat cfg ∈ ["plain"; "hash"; "json"] -> NoDup (TargetHeader <$> OutputMappings cfg) ->
  match lookup_record gjson_get cfg r key with
  | Ok (Some (hv, status)) => record_of gjson_get cfg r key hv status
  | Ok None => forall hv status, ~ record_of gjson_get cfg r key hv status
  | Err e => deserved gjson_get cfg r key (Broken e)
  end.
Proof.
  intros Hf Hnd. unfold lookup_record. destruct (String.eqb_spec (ValueFormat cfg) "plain") as [Ep|Ep].
  { destruct (store_get r key) as [reply|e] eqn:Eg; cbn [result_bind]; [|by left].
    destruct (String.eqb_spec reply "") as [->|Hne]; [intros hv st Hr; inversion Hr; congruence|].
    rewrite map_values_zip by done. by eapply record_plain. }
  destruct (String.eqb_spec (ValueFormat cfg) "hash") as [Eh|Eh].
  { fold (status_fields cfg). destruct (nonempty _) eqn:En; cbn [negb].
    - destruct (store_hmget _ _ _) as [reply|e] eqn:Eg; cbn [result_bind]; [|right; right; eauto].
      destruct (forallb _ reply) eqn:Ea.
      + intros hv st Hr. inversion Hr as [| ? ? ? Er (v & Hv & Hne) | ? ? E0 E1 |]; subst; try congruence.
        * rewrite Eg in Er. injection Er as <-. rewrite forallb_forall in Ea. apply list_elem_of_In in Hv. apply Ea in Hv.
          by apply String.eqb_eq in Hv.
        * unfold status_fields in En. by rewrite E0, E1 in En.
      + rewrite map_values_zip by done. cbn [app]. eapply record_fields; [done|exact Eg| | |].
        * apply not_true_iff_false in Ea. destruct (decide (Exists (fun v => v <> "") reply)) as [Hx|Hx]; [by apply Exists_exists|].
          destruct Ea. apply forallb_forall. intros v Hv. apply String.eqb_eq. destruct (decide (v = "")); [done|].
          destruct Hx. apply Exists_exists. exists v. by rewrite list_elem_of_In.
        * destruct (_ ++ _) as [|f l]; [done|]. exists f. by left.
        * destruct (scEnabled _); [|done]. destruct (reply !! _); [by left|by right].
    - apply nonempty_nil, app_eq_nil in En as [E0 E1]. apply fmap_nil_inv in E0. unfold status_fields in E1.
      assert (scEnabled (StatusCheck cfg) = false) as E2 by by destruct (scEnabled _).
      destruct (store_exists r key) as [n|e] eqn:Eg; cbn [result_bind]; [|right; by left].
      destruct (Z.eqb_spec n 0) as [->|Hn]; [|by eapply record_bare].
      intros hv st Hr. inversion Hr as [| ? ? ? Er ? (f & Hfin) | |]; subst; try congruence.
      unfold status_fields in Hfin. rewrite E0, E2 in Hfin. by apply elem_of_nil in Hfin. }
  destruct (String.eqb_spec (ValueFormat cfg) "json") as [Ej|Ej]; [|set_solver].
  destruct (store_get r key) as [reply|e] eqn:Eg; cbn [result_bind]; [|by left].
  destruct (String.eqb_spec reply "") as [->|Hne]; [intros hv st Hr; inversion Hr; congruence|].
  rewrite json_values by done. eapply record_json; [done|exact Eg|done|].
  destruct (scEnabled _); [|done]. destruct (gjson_get _ _); [by left|by right].
Qed.

Lemma verify_deserved {R : Type} `{KeyStore R} gjson_get cfg (r : R) key :
  ValueFormat cfg ∈ ["plain"; "hash"; "json"] -> NoDup (TargetHeader <$> OutputMappings cfg) ->
  deserved gjson_get cfg r key (verify gjson_get cfg r key).
Proof.
  intros Hf Hnd. pose proof (lookup_record_spec gjson_get cfg r key Hf Hnd) as Hl. unfold verify.
  destruct (lookup_record _ _ _ _) as [[[hv status]|]|e]; [|by left|done].
  destruct (scEnabled (StatusCheck cfg)) eqn:Es; cbn [andb]; [|exists status; split; [done|congruence]].
  destruct (String.eqb_spec status (ExpectedValue (StatusCheck cfg))) as [E|E]; cbn [negb]; [exists status; done|].
  right. split; [done|]. split; [done|]. eauto.
Qed.

Lemma extract_key_spec cfg names c :
  match extract_key cfg names c with
  | Some (apiKey, name) => name ∈ names /\ presents cfg c name apiKey
  | None => forall name apiKey, name ∈ names -> ~ presents cfg c name apiKey
  end.
Proof.
  induction names as [|n names IH]; cbn [extract_key]; [intros ? ? ?%elem_of_nil; done|]. cbv zeta. rewrite GetHeader_effective.
  destruct (String.eqb_spec (if KeyInHeader cfg then default "" ((effective c).1 !! ToLower n) else "") "") as [Eh|Eh]; cbn [negb].
  2: { split; [by left|]. split; [done|left]. destruct (KeyInHeader cfg); [|done]. split; [done|]. by destruct ((effective c).1 !! _). }
  destruct (String.eqb_spec (if KeyInQuery cfg then extractQueryParam (Path c) n else "") "") as [Eq|Eq]; cbn [negb].
  2: { split; [by left|]. split; [done|right]. by destruct (KeyInQuery cfg). }
  destruct (extract_key cfg names c) as [[k m]|]; [destruct IH; split; [by right|done]|].
  intros name apiKey [->|Hin]%elem_of_cons; [|by apply IH]. intros (Hne & [[Hk Hp]|[Hk Hp]]); rewrite Hk in *; [|congruence].
  rewrite Hp in Eh. done.
Qed.

(** *** The cached form *)

Lemma Contains_prefix p s : Contains (p +++ s)%go p = true.
Proof. destruct (p +++ s)%go eqn:E; unfold Contains; fold Contains; rewrite <- E, HasPrefix_app; done. Qed.

Lemma grant_value_lines hv : Forall plain_pair hv ->
  Split (grant_value hv) nl = ((fun e => (e.1 +++ "=" +++ e.2)%go) <$> hv) ++ [""].
Proof.
  induction 1 as [|[k v] hv (H1 & H2 & H3 & H4) _ IH]; [done|]. cbn [grant_value fold_right fst snd] in *.
  fold (grant_value hv). rewrite <- !string_app_assoc, Split_app_sep, IH.
  rewrite Split_no_sep; [cbn; by rewrite string_app_assoc|]. rewrite !contains_byte_app. cbn in *. by rewrite H2, H3.
Qed.

Lemma cached_grant hv : Forall plain_pair hv -> cached_headers (grant_value hv) = hv.
Proof.
  intros Hp. unfold cached_headers. rewrite grant_value_lines by done. rewrite List.filter_app, omap_app. cbn. rewrite app_nil_r.
  induction Hp as [|[k v] hv (H1 & H2 & H3 & H4) _ IH]; [done|]. cbn [fmap list_fmap fst snd List.filter] in *.
  assert (Cut (k +++ String "=" v)%go "=" = (k, v, true)) as E by by apply Cut_found.
  destruct (String.eqb_spec (k +++ String "=" v)%go "") as [E0|_]; [by destruct k|]. cbn. rewrite E. f_equal. exact IH.
Qed.

Lemma grant_not_block hv s : Forall plain_pair hv -> grant_value hv <> block_value s.
Proof.
  intros Hp. destruct Hp as [|[k v] hv (_ & _ & _ & H4) _]; [done|]. cbn. destruct k as [|a k]; cbn; [done|].
  intros [= -> _]. done.
Qed.

(** A value with a line break comes back from the cache as two headers. *)
Lemma cached_line_break : cached_headers (grant_value [("x-user", ("ana" +++ String nl "x-role=admin")%go)]) =
  [("x-user", "ana"); ("x-role", "admin")].
Proof. reflexivity. Qed.

(** *** Header effects *)

Lemma lowered_perm hv hv' : Permutation hv hv' -> NoDup (ToLower <$> hv.*1) ->
  HeaderModifier.lowered hv' = HeaderModifier.lowered hv /\ NoDup (ToLower <$> hv'.*1).
Proof.
  intros Hp Hnd. assert (Permutation (ToLower <$> hv.*1) (ToLower <$> hv'.*1)) as Hk by (by rewrite Hp).
  split; [|by rewrite <- Hk]. unfold HeaderModifier.lowered. symmetry. apply list_to_map_proper; [|by rewrite Hp].
  by rewrite <- list_fmap_compose, <- (list_fmap_compose fst ToLower) in *.
Qed.

Lemma set_headers_spec hv c : ctx_wf c -> NoDup (ToLower <$> hv.*1) ->
  ctx_wf (set_headers hv c) /\ effective (set_headers hv c) = (HeaderModifier.lowered hv ∪ (effective c).1, (effective c).2) /\
  Blocked (set_headers hv c) = Blocked c /\ Path (set_headers hv c) = Path c.
Proof.
  intros Hc Hnd. rewrite <- HeaderModifier.fold_set_lowered by done. clear Hnd. unfold set_headers. revert c Hc.
  induction hv as [|[k v] hv IH]; intros c Hc; [split; [done|]; split; [apply surjective_pairing|done]|]. cbn [fold_left fst snd].
  destruct (SetHeaderUpstream_spec c k v Hc) as [Hw He]. destruct (IH _ Hw) as (H1 & H2 & H3 & H4). rewrite He in H2. done.
Qed.

Lemma strip_spec cfg name c : ctx_wf c -> ctx_wf (stripCredentials cfg name c) /\
  (effective (stripCredentials cfg name c)).1 =
    (if HideCredentials cfg && negb (String.eqb name "") then
       let m := if KeyInHeader cfg then delete (ToLower name) (effective c).1 else (effective c).1 in
       if KeyInQuery cfg && negb (String.eqb (stripQueryParam (Path c) name) (Path c))
       then <[":path" := stripQueryParam (Path c) name]> m else m
     else (effective c).1) /\
  Blocked (stripCredentials cfg name c) = Blocked c /\
  Path (stripCredentials cfg name c) =
    (if HideCredentials cfg && negb (String.eqb name "") && KeyInQuery cfg then stripQueryParam (Path c) name else Path c).
Proof.
  intros Hc. unfold stripCredentials. destruct (HideCredentials cfg && negb (String.eqb name "")); [|done]. cbn [andb].
  set (c1 := if KeyInHeader cfg then RemoveHeaderUpstream c name else c).
  assert (ctx_wf c1 /\ (effective c1).1 = (if KeyInHeader cfg then delete (ToLower name) (effective c).1 else (effective c).1) /\
    Blocked c1 = Blocked c /\ Path c1 = Path c) as (Hw & He & Hb & Hp).
  { unfold c1. destruct (KeyInHeader cfg); [|done]. destruct (RemoveHeaderUpstream_spec c name Hc) as [Hw He]. by rewrite He. }
  rewrite Hp. destruct (KeyInQuery cfg); cbn [andb]; [|done].
  destruct (String.eqb_spec (stripQueryParam (Path c) name) (Path c)) as [E|E]; cbn [negb]; [by rewrite Hp|].
  unfold SetPath. destruct (SetHeaderUpstream_spec (c1 <| Path := stripQueryParam (Path c) name |>) ":path" (stripQueryParam (Path c) name))
    as [Hw' He']; [done|]. rewrite He'. split; [done|]. split; [|done]. cbn [fst]. change (ToLower ":path") with ":path".
  f_equal. exact He.
Qed.

(** *** Query parameters *)

Lemma visited_sub ps p : p ∈ visited ps -> p ∈ ps.
Proof.
  induction ps as [|q [|q' ps] IH]; [done| |].
  - cbn. destruct (String.eqb q ""); [by intros ?%elem_of_nil|done].
  - intros [-> | Hin]%elem_of_cons; [by left|right]. by apply IH.
Qed.

Lemma find_part_absent name ps : Forall (fun p => part_key p <> name) ps -> find_part name ps = "".
Proof.
  induction 1 as [|p ps Hp _ IH]; [done|]. cbn. unfold part_key in Hp. destruct (Cut p "=") as [[k v] [|]];
    [destruct (String.eqb_spec k name)|destruct (String.eqb_spec p name)]; done.
Qed.

(** A stripped parameter is gone. *)
Lemma strip_removes path name : extractQueryParam (stripQueryParam path name) name = "".
Proof.
  unfold stripQueryParam. destruct (Cut path "?") as [[base query] [|]] eqn:E; [|unfold extractQueryParam; by rewrite E].
  apply Cut_found in E as [_ Hb]. set (ps := List.filter _ _).
  assert (Forall (fun p => part_key p <> name) ps /\ Forall (fun p => contains_byte p "&" = false) ps) as [Hk Hs].
  { unfold ps. split; apply Forall_forall; intros p [Hin Hp]%list_elem_of_In%filter_In.
    - by apply negb_true_iff, String.eqb_neq in Hp.
    - apply list_elem_of_In, visited_sub in Hin. by eapply (proj1 (Forall_forall _ _) (Split_parts query "&")). }
  clearbody ps. unfold extractQueryParam. destruct ps as [|p ps]; [by rewrite Cut_missing|].
  assert (Cut (base +++ "?" +++ GoStrings.Join (p :: ps) "&")%go "?" = (base, GoStrings.Join (p :: ps) "&", true)) as -> by by apply Cut_found.
  unfold query_parts. rewrite Split_Join by done. apply find_part_absent.
  apply Forall_forall. intros q Hq%visited_sub. by eapply (proj1 (Forall_forall _ _) Hk).
Qed.

(** *** Verdicts *)

Section Verdicts.
Context {R C : Type} `{KeyStore R, ValueCacheOk C}.
Variable sha256_hex md5_hex : string -> string.
Variable gjson_get : string -> string -> option string.
Variable order1 order2 : Z -> GoMap string -> GoMap string.
Variable cfg : APIKeyFilterConfig.

Lemma verify_status (r : R) key st reason : verify gjson_get cfg r key = Reject st reason ->
  (if Contains reason "Forbidden" then 403 else 401)%Z = st.
Proof.
  unfold verify. destruct (lookup_record _ _ _ _) as [[[hv status]|]|]; [|intros [= <- <-]; done|done].
  destruct (_ && _); [|done]. intros [= <- <-].
  pose proof (Contains_prefix "Forbidden" (": Account is " +++ status)%go) as Hc. cbn [String.append] in Hc |- *. by rewrite Hc.
Qed.

(** The headers a grant sets are targets of the mappings, each once. *)
Definition targets_of (hv : GoMap string) : Prop := NoDup hv.*1 /\ forall k, k ∈ hv.*1 -> k ∈ TargetHeader <$> OutputMappings cfg.

Lemma targets_set hv m v : targets_of hv -> m ∈ OutputMappings cfg -> targets_of (map_set hv (TargetHeader m) v).
Proof.
  intros [Hnd Hk] Hm. split; [by apply map_set_NoDup|]. intros k [->|?]%map_set_keys; [|by apply Hk].
  apply list_elem_of_fmap. eauto.
Qed.

Lemma map_values_targets ms vs hv : (forall m, m ∈ ms -> m ∈ OutputMappings cfg) -> targets_of hv -> targets_of (map_values ms vs hv).
Proof.
  revert vs hv. induction ms as [|m ms IH]; intros [|v vs] hv Hms Hhv; cbn; try done. apply IH; [intros; apply Hms; by right|].
  apply targets_set; [done|]. apply Hms. by left.
Qed.

Lemma verify_targets (r : R) key hv : verify gjson_get cfg r key = Grant hv -> targets_of hv.
Proof.
  assert (targets_of []) as Hnil by (split; [constructor|cbn; set_solver]).
  unfold verify. destruct (lookup_record _ _ r key) as [[[hv' status]|]|] eqn:E; [|done|done].
  destruct (_ && _); [done|]. intros [= ->]. unfold lookup_record in E.
  destruct (String.eqb (ValueFormat cfg) "plain"); [|destruct (String.eqb (ValueFormat cfg) "hash"); [|destruct (String.eqb (ValueFormat cfg) "json")]].
  - apply result_bind_Ok in E as (reply & _ & E). destruct (String.eqb reply ""); [done|]. injection E as <- _. by apply map_values_targets.
  - destruct (negb _); apply result_bind_Ok in E as (x & _ & E); [destruct (x =? 0)%Z; [done|]; by injection E as <- _|].
    destruct (forallb _ x); [done|]. injection E as <- _. by apply map_values_targets.
  - apply result_bind_Ok in E as (reply & _ & E). destruct (String.eqb reply ""); [done|]. injection E as <- _.
    assert (forall m, m ∈ OutputMappings cfg -> m ∈ OutputMappings cfg) as Hin by done. revert Hin.
    generalize (OutputMappings cfg) at 1 3 as ms. intros ms. revert Hnil. generalize (@nil (string * string)) as acc.
    induction ms as [|m ms IH]; intros acc Hacc Hms; cbn; [done|]. apply IH; [|intros; apply Hms; by right].
    destruct (gjson_get reply (JSONPath m)); [|done]. apply targets_set; [done|]. apply Hms. by left.
  - by injection E as <- _.
Qed.

(** *** The local cache *)

(** Every readable entry is the verdict of an earlier call, not older than its
    time to live. *)
Definition justified (calls : list (Z * R * RequestContext)) (cache : C) : Prop :=
  forall t key v, vcache_get cache t key = Some v ->
    exists t0 r0 c0, (t0, r0, c0) ∈ calls /\
      match verify gjson_get cfg r0 key with
      | Grant hv => v = grant_value (order2 t0 hv) /\ (t < t0 + cacheTTL * Second)%Z
      | Reject _ reason => v = block_value reason /\ (t < t0 + 10 * Second)%Z
      | Broken _ => False
      end.

Lemma justified_mono calls calls' cache : (forall e, e ∈ calls -> e ∈ calls') -> justified calls cache -> justified calls' cache.
Proof. intros Hsub Hj t key v Hg. destruct (Hj t key v Hg) as (t0 & r0 & c0 & Hin & Hv). exists t0, r0, c0. auto. Qed.

Lemma Execute_justified calls cache t r c : justified calls cache ->
  justified (calls ++ [(t, r, c)]) (wCache (Execute sha256_hex md5_hex gjson_get order1 order2 cfg c (mkWorld cache t r)).2).
Proof.
  intros Hj. apply (justified_mono _ (calls ++ [(t, r, c)])) in Hj; [|intros e He; apply elem_of_app; by left].
  unfold Execute. destruct (extract_key _ _ _) as [[apiKey name]|]; [|done]. cbn [wCache wTime wStore].
  destruct (vcache_get cache t _) as [v|]; [by repeat case_match|].
  destruct (verify _ _ r _) as [hv|st reason|e] eqn:Ev; [..|done]; cbn [snd wCache];
    intros t' key' v' [(-> & -> & [Ht|Ht])|Hg]%vcache_get_set; try (by apply Hj); try (by destruct Ht);
    exists t, r, c; (split; [apply elem_of_app; right; by left|]); by rewrite Ev.
Qed.

Lemma after_calls_justified calls :
  justified calls (after_calls sha256_hex md5_hex gjson_get order1 order2 cfg calls).
Proof.
  unfold after_calls. enough (forall l seen cache, justified seen cache -> justified (seen ++ l)
    (fold_left (fun cache '(t, r, c) => wCache (Execute sha256_hex md5_hex gjson_get order1 order2 cfg c (mkWorld cache t r)).2) l cache)) as Hf.
  { apply (Hf calls [] vcache_empty). intros t key v. by rewrite vcache_get_empty. }
  induction l as [|[[t r] c] l IH]; intros seen cache Hj; cbn [fold_left]; [by rewrite app_nil_r|].
  rewrite (cons_middle _ seen l), app_assoc. apply IH. by apply Execute_justified.
Qed.

(** The effect of a grant, from Redis or from the cache. *)
Lemma grant_effect hv hv' name c : Permutation hv' hv -> NoDup (ToLower <$> hv.*1) -> ctx_wf c ->
  let c' := stripCredentials cfg name (set_headers hv' c) in
  Blocked c' = Blocked c /\ (effective c').1 = granted_headers cfg name (Path c) hv (effective c).1 /\
  (HideCredentials cfg = true -> KeyInQuery cfg = true -> name <> "" -> extractQueryParam (Path c') name = "").
Proof.
  intros Hp Hnd Hc. symmetry in Hp. destruct (lowered_perm _ _ Hp Hnd) as [Hl Hnd'].
  destruct (set_headers_spec hv' c Hc Hnd') as (Hw & He & Hb & Hpath).
  destruct (strip_spec cfg name _ Hw) as (_ & He' & Hb' & Hpath'). cbv zeta. rewrite Hb', Hb, He', He, Hpath', Hpath. cbn [fst].
  split; [done|]. split; [unfold granted_headers; by rewrite Hl|].
  intros -> -> Hn. apply String.eqb_neq in Hn. rewrite Hn. cbn. apply strip_removes.
Qed.

Lemma lower_distinct hv : NoDup (ToLower <$> (TargetHeader <$> OutputMappings cfg)) -> targets_of hv -> NoDup (ToLower <$> hv.*1).
Proof.
  intros Hnd [Hk Hin]. apply NoDup_fmap_2_strong; [|done]. intros x y Hx%Hin Hy%Hin E.
  apply list_elem_of_lookup in Hx as [i Hi], Hy as [j Hj].
  assert (i = j) as ->; [|congruence]. eapply NoDup_lookup; [exact Hnd|..]; rewrite list_lookup_fmap, ?Hi, ?Hj; [done|]. cbn. by rewrite E.
Qed.

End Verdicts.

(** *** The filter's contract *)

Lemma set_headers_keeps hv c : keeps c (set_headers hv c).
Proof.
  unfold set_headers. revert c. induction hv as [|e hv IH]; intros c; [done|]. etrans; [|apply IH].
  exact (keeps_call c (CallSetUp e.1 e.2)).
Qed.

Lemma stripCredentials_keeps cfg name c : keeps c (stripCredentials cfg name c).
Proof.
  unfold stripCredentials. destruct (_ && _); [|done].
  set (c1 := if KeyInHeader cfg then _ else _).
  assert (keeps c c1) as H1 by (unfold c1; destruct (KeyInHeader cfg); [exact (keeps_call c (CallRemoveUp name))|done]).
  destruct (KeyInQuery cfg); [|done]. cbv zeta. destruct (String.eqb _ _); [done|]. etrans; [exact H1|]. unfold SetPath.
  etrans; [|exact (keeps_call _ (CallSetUp ":path" _))]. by apply keeps_other.
Qed.

#[export] Instance Execute_ok {R C : Type} `{KeyStore R, ValueCache C} sha256_hex md5_hex gjson_get order1 order2 cfg :
  FilterOk (W := World R C) (Execute sha256_hex md5_hex gjson_get order1 order2 cfg).
Proof.
  intros c w err c' w'. unfold Execute.
  assert (forall hv name, keeps c (stripCredentials cfg name (set_headers hv c))) as Hk
    by (intros; etrans; [apply set_headers_keeps|apply stripCredentials_keeps]).
  destruct (extract_key _ _ _) as [[k name]|]; [|intros [= _ <- _]; by apply keeps_other].
  destruct (vcache_get _ _ _) as [v|].
  - repeat case_match; intros [= _ <- _]; first [by apply keeps_other|apply Hk|apply stripCredentials_keeps].
  - destruct (verify _ _ _ _); intros [= _ <- _]; first [by apply keeps_other|apply Hk].
Qed.

(** ** Properties *)


(** ** Examples *)

#[export] Instance MemStore : KeyStore (GoMap (GoMap string)) := {
  store_get r k := Ok (default "" (map_get r k ≫= fun h => map_get h ""));
  store_hmget r k fields := Ok ((fun f => default "" (map_get r k ≫= fun h => map_get h f)) <$> fields);
  store_exists r k := Ok (if map_has r k then 1 else 0)%Z }.

(** Entries with the time they expire, if they do. *)
#[export] Instance MemValueCache : ValueCache (gmap string (string * option Z)) := {
  vcache_empty := ∅;
  vcache_get c t k := c !! k ≫= fun e => if match e.2 with Some x => (t <? x)%Z | None => true end then Some e.1 else None;
  vcache_set c t k v ttl := <[k := (v, if (ttl <=? 0)%Z then None else Some (t + ttl * Second)%Z)]> c }.
#[export] Instance MemValueCache_ok : ValueCacheOk (gmap string (string * option Z)).
Proof.
  split; [done|]. intros c t k v ttl t' k' x. cbn. destruct (decide (k' = k)) as [->|Hne].
  - rewrite lookup_insert_eq. cbn. destruct (Z.leb_spec ttl 0); [intros [= <-]; left; auto|].
    destruct (Z.ltb_spec t' (t + ttl * Second)); [|done]. intros [= <-]. left; auto.
  - rewrite lookup_insert_ne by done. by right.
Qed.

Definition example_config : APIKeyFilterConfig :=
  mkConfig ["x-api-key"; "token"] true true true "cache" "apikey:" "none" "hash" ""
    (mkStatusCheck true "status" "active") [mkOutputMapping "X-User" "user" ""].
Definition example_store : GoMap (GoMap string) := [("apikey:k1", [("user", "ana"); ("status", "active")])].
Definition example_request : RequestContext :=
  newContext <| Path := "/v1/items?token=k1&page=2" |> <| Headers := {["host" := "shop"]} |>.

Definition example_orders (_ : Z) (m : GoMap string) : GoMap string := m.
Definition example_execute (cache : gmap string (string * option Z)) (t : Z) (r : GoMap (GoMap string))
  : option string * RequestContext * World (GoMap (GoMap string)) (gmap string (string * option Z)) :=
  Execute id id (fun _ _ => None) example_orders example_orders example_config example_request (mkWorld cache t r).
Definition example_history : list (Z * GoMap (GoMap string) * RequestContext) := [(0%Z, example_store, example_request)].
Definition example_cache : gmap string (string * option Z) :=
  after_calls id id (fun _ _ => None) example_orders example_orders example_config example_history.

Lemma example_plain key hv : verify (fun _ _ => None) example_config example_store key = Grant hv -> Forall plain_pair hv.
Proof.
  destruct (String.eqb_spec "apikey:k1" key) as [<-|Hne]; [vm_compute; intros [= <-]; repeat constructor|].
  assert (map_get example_store key = None) as E by (apply map_get_None; cbn; set_solver).
  unfold verify, lookup_record. cbn -[example_store]. rewrite E. by vm_compute.
Qed.


End ApiKey.
