(* ===== verification/Enricher.v ===== *)
(** * Enricher: the redis_metadata_enricher filter
    (internal/filters/redis_metadata_enricher/enricher.go,
    internal/config/filter_enricher.go)

    The filter computes variables from the request, substitutes them in a key
    pattern, looks the key up in its local cache or in Redis and copies fields of
    the JSON found there to upstream headers. Redis, freecache, regexp and gjson
    are parameters. *)

From S2P Require Import Prelude GoStrings GoTime Context Executor ApiKey.

Local Open Scope string_scope.
Local Open Scope list_scope.

Module Enricher.
Import ApiKey.

(** ** Configuration and construction *)

Record Variable_ := mkVariable { Source : string; Default : string; RegexPattern : string; vJSONPath : string }.

Record OutputMappingSpec := mkOutputMappingSpec { oJSONPath : string; oTargetHeader : string }.

Record RedisMetadataEnricherConfig := mkEnricherConfig {
  eRedisService : string; CacheSizeMB : Z; CacheTimeout : string; Variables : GoMap Variable_; KeyPattern : string;
  eOutputMappings : list OutputMappingSpec }.

Record VariableRule (RE : Type) := mkRule {
  rSource : string; DefaultValue : string; CompiledRegex : option RE; rJSONPath : string }.
Arguments mkRule {RE}.
Arguments rSource {RE}.
Arguments DefaultValue {RE}.
Arguments CompiledRegex {RE}.
Arguments rJSONPath {RE}.

Record RedisMetadataEnricherFilter (RE : Type) := mkEnricher {
  keyPattern : string; cacheSize : Z; eCacheTTL : Z; variables : GoMap (VariableRule RE);
  outputMapping : list OutputMappingSpec }.
Arguments mkEnricher {RE}.
Arguments keyPattern {RE}.
Arguments cacheSize {RE}.
Arguments eCacheTTL {RE}.
Arguments variables {RE}.
Arguments outputMapping {RE}.

Definition is_header_source (source : string) : bool := HasPrefix source "{header:" && HasSuffix source "}".
(** [source[8 : len(source)-1]] *)
Definition header_of (source : string) : string := take_string (String.length source - 9) (drop_string 8 source).

Definition lower_source (source : string) : string :=
  if is_header_source source then ("{header:" +++ ToLower (header_of source) +++ "}")%go else source.

Section Enricher.
Context {RE R C : Type} `{KeyStore R, ValueCache C}.
(** [regexp.Compile] and [FindStringSubmatch], the empty list without a match;
    [gjson.Get], [None] when the path does not exist. *)
Variable regexp_compile : string -> option RE.
Variable find_submatch : RE -> string -> list string.
Variable gjson_get : string -> string -> option string.

Definition compile_variable (e : string * Variable_) : result (string * VariableRule RE) :=
  let v := e.2 in
  let? re := if String.eqb (RegexPattern v) "" then Ok None
             else match regexp_compile (RegexPattern v) with Some re => Ok (Some re) | None => Err "invalid regex_pattern" end in
  Ok (e.1, mkRule (lower_source (Source v)) (Default v) re (vJSONPath v)).

Definition NewRedisMetadataEnricherFilter (cfg : RedisMetadataEnricherConfig) : result (RedisMetadataEnricherFilter RE) :=
  if String.eqb (KeyPattern cfg) "" then Err "redis_metadata_enricher: key_pattern is required"
  else
    let size := (if 0 <? CacheSizeMB cfg then CacheSizeMB cfg * 1024 * 1024 else 10 * 1024 * 1024)%Z in
    let? ttl := if String.eqb (CacheTimeout cfg) "" then Ok (10 * Second)%Z
                else match ParseDuration (CacheTimeout cfg) with Some d => Ok d | None => Err "invalid cache_timeout" end in
    let? vars := map_result compile_variable (Variables cfg) in
    Ok (mkEnricher (KeyPattern cfg) size ttl vars
          ((fun m => mkOutputMappingSpec (oJSONPath m) (ToLower (oTargetHeader m))) <$> eOutputMappings cfg)).

(** ** The key *)

Definition resolveSourceValue (c : RequestContext) (source : string) : string :=
  if String.eqb source "{path}" then Path c
  else if String.eqb source "{method}" then Method c
  else if String.eqb source "{client_ip}" then Context.ClientIP c
  else if is_header_source source then GetHeader c (header_of source)
  else "".

Definition resolve_variable (c : RequestContext) (rule : VariableRule RE) : string :=
  let val := resolveSourceValue c (rSource rule) in
  let val := if negb (String.eqb (rJSONPath rule) "") && negb (String.eqb val "")
             then default "" (gjson_get val (rJSONPath rule)) else val in
  let val := match CompiledRegex rule with
             | Some re => if negb (String.eqb val "") then default "" (find_submatch re val !! 1) else val
             | None => val
             end in
  ToLower (if String.eqb val "" then DefaultValue rule else val).

Definition resolvedVars (f : RedisMetadataEnricherFilter RE) (c : RequestContext) : GoMap string :=
  (fun e => (e.1, resolve_variable c e.2)) <$> variables f.

(** The loop of [compileRedisKey] on the rest of the pattern; [fuel] bounds its
    iterations. *)
Fixpoint key_loop (fuel : nat) (vars : GoMap string) (pattern : string) : string :=
  match fuel with
  | O => ""
  | S fuel =>
      match IndexByte pattern "{" with
      | None => pattern
      | Some start =>
          let rest := drop_string start pattern in
          (take_string start pattern +++
           match IndexByte rest "}" with
           | None => rest
           | Some close =>
               let varName := take_string (close - 1) (drop_string 1 rest) in
               match map_get vars varName with
               | Some resolved => resolved
               | None => take_string (close + 1) rest
               end +++ key_loop fuel vars (drop_string (close + 1) rest)
           end)%go
      end
  end.

Definition compileRedisKey (pattern : string) (vars : GoMap string) : string :=
  key_loop (String.length pattern) vars pattern.

Definition redis_key (f : RedisMetadataEnricherFilter RE) (c : RequestContext) : string :=
  compileRedisKey (keyPattern f) (resolvedVars f c).

(** ** Execute *)

(** [int(f.cacheTTL.Seconds())] *)
Definition ttl_seconds (f : RedisMetadataEnricherFilter RE) : Z := Z_of_float64 (Seconds (eCacheTTL f)).

Definition mapped_value (json : string) (m : OutputMappingSpec) : string :=
  if String.eqb (oJSONPath m) "" then json else default "" (gjson_get json (oJSONPath m)).

Definition inject (f : RedisMetadataEnricherFilter RE) (json : string) (c : RequestContext) : RequestContext :=
  if String.eqb json "" then c
  else fold_left (fun c m => let v := mapped_value json m in
                             if String.eqb v "" then c else SetHeaderUpstream c (oTargetHeader m) v) (outputMapping f) c.

Definition Execute (f : RedisMetadataEnricherFilter RE) : Exec (World R C) := fun c w =>
  let key := redis_key f c in
  match vcache_get (wCache w) (wTime w) key with
  | Some json => (None, inject f json c, w)
  | None =>
      match store_get (wStore w) key with
      | Err _ => (None, c, w)
      | Ok json =>
          let cache := if String.eqb json "" then wCache w
                       else vcache_set (wCache w) (wTime w) key json (ttl_seconds f) in
          (None, inject f json c, mkWorld cache (wTime w) (wStore w))
      end
  end.

(** The local cache after a sequence of calls. *)
Definition after_calls (f : RedisMetadataEnricherFilter RE) (calls : list (Z * R * RequestContext)) : C :=
  fold_left (fun cache '(t, r, c) => wCache (Execute f c (mkWorld cache t r)).2) calls vcache_empty.

End Enricher.

(** ** Reference *)

(** A key pattern as text and placeholders. *)
Inductive Segment : Type :=
| Lit (s : string)
| Var (name : string).

Definition segment_text (s : Segment) : string :=
  match s with Lit s => s | Var name => ("{" +++ name +++ "}")%go end.
Definition segment_value (vars : GoMap string) (s : Segment) : string :=
  match s with Lit s => s | Var name => default (segment_text s) (map_get vars name) end.
Definition concat_map (f : Segment -> string) (l : list Segment) : string := fold_right (fun s acc => (f s +++ acc)%go) "" l.
(** Text has no opening brace, a name no closing one. *)
Definition segment_ok (s : Segment) : bool :=
  match s with Lit s => negb (contains_byte s "{") | Var name => negb (contains_byte name "}") end.

(** The headers the mappings of the configuration set, as a map: for each mapping the
    field of the document, or the whole document without a path, unless it is empty. *)
Definition document_field (gjson_get : string -> string -> option string) (json : string) (o : OutputMappingSpec) : option string :=
  let v := if decide (oJSONPath o = "") then Some json else gjson_get json (oJSONPath o) in
  if decide (v = Some "") then None else v.
Definition enriched (gjson_get : string -> string -> option string) (mappings : list OutputMappingSpec) (json : string)
  (m : gmap string string) : gmap string string :=
  if decide (json = "") then m
  else fold_left (fun m o => match document_field gjson_get json o with
                             | Some v => <[ToLower (oTargetHeader o) := v]> m
                             | None => m
                             end) mappings m.

(** The cache time: the configured [cache_timeout], 10 seconds without one. *)
Definition cache_time (cfg : RedisMetadataEnricherConfig) (d : Z) : Prop :=
  if decide (CacheTimeout cfg = "") then d = (10 * Second)%Z else ParseDuration (CacheTimeout cfg) = Some d.

(** [json] is what Redis returned for the key in one of the calls, and not longer ago
    than the cache time, when that is a positive number of whole seconds. *)
Definition fetched {R : Type} `{KeyStore R} (cfg : RedisMetadataEnricherConfig) (calls : list (Z * R * RequestContext)) (t : Z) (key json : string)
  : Prop :=
  exists t0 r0 c0, (t0, r0, c0) ∈ calls /\ store_get r0 key = Ok json /\
    forall n, cache_time cfg (n * Second) -> (0 < n < 2 ^ 53)%Z -> (t < t0 + n * Second)%Z.

(** ** Lemmas *)

(** *** The key *)

Lemma IndexByte_app a b t : contains_byte a b = false -> IndexByte (a +++ String b t)%go b = Some (String.length a).
Proof.
  induction a as [|c a IH]; cbn; [by rewrite Ascii.eqb_refl|]. rewrite contains_byte_cons.
  intros [Hc Ha]%orb_false_iff. rewrite Hc. by rewrite IH.
Qed.

Lemma IndexByte_none s b : contains_byte s b = false <-> IndexByte s b = None.
Proof. unfold contains_byte. by destruct (IndexByte s b). Qed.

Lemma IndexByte_bound s b i : IndexByte s b = Some i -> i < String.length s.
Proof.
  revert i. induction s as [|c s IH]; cbn; [done|]. intros i. destruct (Ascii.eqb c b); [intros [= <-]; lia|].
  destruct (IndexByte s b) as [j|]; [|done]. intros [= <-]. specialize (IH j eq_refl). lia.
Qed.

Lemma drop_string_minus n s : String.length (drop_string n s) = String.length s - n.
Proof. revert s. induction n as [|n IH]; intros [|c s]; cbn; rewrite ?IH; lia. Qed.

(** The loop stops before the fuel does. *)
Lemma key_loop_fuel n m vars s : String.length s <= n -> n <= m -> key_loop m vars s = key_loop n vars s.
Proof.
  revert m s. induction n as [|n IH]; intros m s Hs Hm.
  - destruct s; [|cbn in Hs; lia]. by destruct m.
  - destruct m as [|m]; [lia|]. cbn [key_loop]. destruct (IndexByte s "{") as [i|]; [|done]. f_equal.
    destruct (IndexByte (drop_string i s) "}") as [j|] eqn:Ej; [|done]. f_equal. apply IH; [|lia].
    apply IndexByte_bound in Ej. rewrite drop_string_minus in Ej. rewrite !drop_string_minus. lia.
Qed.

Lemma key_loop_skip vars a t n : contains_byte a "{" = false -> String.length a + String.length t <= n ->
  key_loop n vars (a +++ t)%go = (a +++ key_loop n vars t)%go.
Proof.
  intros Ha Hn. destruct (IndexByte t "{") as [i|] eqn:Ei.
  - destruct n as [|n]; [apply IndexByte_bound in Ei; lia|]. cbn [key_loop]. rewrite Ei.
    assert (IndexByte (a +++ t)%go "{" = Some (String.length a + i)) as ->.
    { clear Hn. induction a as [|c a IH]; cbn; [done|]. rewrite contains_byte_cons in Ha. apply orb_false_iff in Ha as [-> Ha].
      by rewrite IH. }
    assert (drop_string (String.length a + i) (a +++ t)%go = drop_string i t) as -> by (clear; by induction a).
    assert (take_string (String.length a + i) (a +++ t)%go = (a +++ take_string i t)%go) as ->
      by (clear; induction a as [|c a IH]; cbn; [done|by rewrite IH]).
    by rewrite string_app_assoc.
  - assert (IndexByte (a +++ t)%go "{" = None) as E
      by (apply IndexByte_none; rewrite contains_byte_app, Ha; by apply IndexByte_none).
    destruct n as [|n]; cbn [key_loop]; [|by rewrite E, Ei]. destruct a; [|cbn in Hn; lia]. by destruct t; [|cbn in Hn; lia].
Qed.

Lemma key_loop_segments segs vars n : forallb segment_ok segs = true -> String.length (concat_map segment_text segs) <= n ->
  key_loop n vars (concat_map segment_text segs) = concat_map (segment_value vars) segs.
Proof.
  revert n. induction segs as [|s segs IH]; intros n; [by destruct n|]. cbn [forallb concat_map fold_right].
  fold (concat_map segment_text segs) (concat_map (segment_value vars) segs). intros [Hs Hsegs]%andb_true_iff Hn.
  rewrite string_length_app in Hn. destruct s as [a|name]; cbn [segment_text segment_value segment_ok] in *.
  - apply negb_true_iff in Hs. rewrite key_loop_skip by done. rewrite IH by (done || lia). done.
  - apply negb_true_iff in Hs. cbn [String.append String.length] in Hn |- *. destruct n as [|n]; [lia|].
    rewrite string_length_app in Hn. cbn [String.length] in Hn. cbn [key_loop IndexByte Ascii.eqb Bool.eqb drop_string take_string String.append].
    rewrite string_app_assoc. cbn [String.append]. rewrite IndexByte_app by done. cbn [fmap option_fmap option_map].
    replace (S (String.length name) - 1) with (String.length name) by lia. rewrite take_string_app.
    set (tl := concat_map segment_text segs) in *. set (var := String "{" (name +++ "}")%go).
    replace (String "{" (name +++ String "}" tl)%go) with (var +++ tl)%go by (unfold var; cbn; by rewrite string_app_assoc).
    replace (S (String.length name) + 1) with (String.length var) by (unfold var; cbn; rewrite string_length_app; cbn; lia).
    rewrite take_string_app, drop_string_app, IH by (done || lia). by destruct (map_get vars name).
Qed.

(** *** Sources *)

Lemma header_of_spec name : header_of ("{header:" +++ name +++ "}")%go = name.
Proof.
  unfold header_of. cbn [String.append String.length drop_string].
  rewrite string_length_app. cbn [String.length].
  replace (S (S (S (S (S (S (S (S (String.length name + 1)))))))) - 9) with (String.length name) by lia. apply take_string_app.
Qed.

Lemma is_header_source_spec source : is_header_source source = true -> source = ("{header:" +++ header_of source +++ "}")%go.
Proof.
  unfold is_header_source. intros [Hp Hs]%andb_true_iff. apply HasPrefix_spec in Hp as [t ->].
  apply HasSuffix_spec in Hs as [u Hu]. assert (exists n, t = (n +++ "}")%go) as [n ->]; [|by rewrite header_of_spec].
  do 8 (destruct u as [|? u]; cbn in Hu; [done|injection Hu as <- Hu]). by exists u.
Qed.

(** *** Headers *)

Section Laws.
Context {RE R C : Type} `{KeyStore R, ValueCacheOk C}.
Variable regexp_compile : string -> option RE.
Variable find_submatch : RE -> string -> list string.
Variable gjson_get : string -> string -> option string.
Implicit Type f : RedisMetadataEnricherFilter RE.

(** The calls the mappings make. *)
Definition mapping_calls f (json : string) : list HeaderCall :=
  if String.eqb json "" then []
  else omap (fun o => let v := mapped_value gjson_get json o in
                      if String.eqb v "" then None else Some (CallSetUp (oTargetHeader o) v)) (outputMapping f).

Lemma inject_calls f json c : inject gjson_get f json c = do_calls (mapping_calls f json) c.
Proof.
  unfold inject, mapping_calls, do_calls. destruct (String.eqb json ""); [done|]. revert c.
  induction (outputMapping f) as [|o l IH]; intros c; [done|]. cbn [fold_left omap list_omap].
  destruct (String.eqb (mapped_value gjson_get json o) ""); [apply IH|]. cbn [fold_left do_call]. apply IH.
Qed.

Lemma mapped_field json o : document_field gjson_get json o =
  if String.eqb (mapped_value gjson_get json o) "" then None else Some (mapped_value gjson_get json o).
Proof.
  unfold document_field, mapped_value. destruct (String.eqb_spec (oJSONPath o) ""), (decide (oJSONPath o = "")); try done.
  - by destruct (String.eqb_spec json ""), (decide (Some json = Some "")); simplify_eq.
  - destruct (gjson_get json (oJSONPath o)) as [v|]; cbn; [|by destruct (decide _)].
    by destruct (String.eqb_spec v ""), (decide (Some v = Some "")); simplify_eq.
Qed.

Lemma enriched_calls f cfg json m : NewRedisMetadataEnricherFilter regexp_compile cfg = Ok f ->
  fold_left spec_call (mapping_calls f json) m = (enriched gjson_get (eOutputMappings cfg) json m.1, m.2).
Proof.
  unfold NewRedisMetadataEnricherFilter. destruct (String.eqb _ _); [done|].
  intros (ttl & _ & (vars & _ & E)%result_bind_Ok)%result_bind_Ok. injection E as <-.
  unfold enriched, mapping_calls. cbn [outputMapping].
  destruct (String.eqb_spec json ""), (decide (json = "")); try done; [by destruct m|]. revert m.
  induction (eOutputMappings cfg) as [|o l IH]; intros m; [by destruct m|]. cbn [fold_left fmap list_fmap omap list_omap].
  rewrite (mapped_field json o). change (mapped_value gjson_get json (mkOutputMappingSpec (oJSONPath o) (ToLower (oTargetHeader o))))
    with (mapped_value gjson_get json o).
  destruct (String.eqb (mapped_value gjson_get json o) ""); [apply IH|]. cbn [fold_left spec_call oTargetHeader].
  rewrite (IH _). cbn [fst snd]. by rewrite ToLower_idem.
Qed.

Lemma inject_blocked f json c : Blocked (inject gjson_get f json c) = Blocked c.
Proof.
  unfold inject. destruct (String.eqb json ""); [done|]. apply (fold_left_inv (fun c' => Blocked c' = Blocked c)); [done|].
  intros c' o Hc. cbv zeta. by destruct (String.eqb _ "").
Qed.

Lemma inject_spec f cfg json c : NewRedisMetadataEnricherFilter regexp_compile cfg = Ok f -> ctx_wf c ->
  ctx_wf (inject gjson_get f json c) /\ Blocked (inject gjson_get f json c) = Blocked c /\
  effective (inject gjson_get f json c) = (enriched gjson_get (eOutputMappings cfg) json (effective c).1, (effective c).2).
Proof.
  intros Hnew Hc. rewrite inject_blocked, inject_calls. destruct (do_calls_spec (mapping_calls f json) c Hc) as [Hw He].
  by rewrite He, (enriched_calls f cfg).
Qed.

(** The time to live of the cache is the configured cache time. *)
Lemma New_ttl f cfg n : NewRedisMetadataEnricherFilter regexp_compile cfg = Ok f -> cache_time cfg (n * Second) -> (0 < n < 2 ^ 53)%Z ->
  ttl_seconds f = n.
Proof.
  unfold NewRedisMetadataEnricherFilter, cache_time. destruct (String.eqb _ _); [done|].
  intros (ttl & Ht & (vars & _ & E)%result_bind_Ok)%result_bind_Ok Hd Hn. injection E as <-. unfold ttl_seconds. cbn [eCacheTTL].
  assert (ttl = n * Second)%Z as ->; [|by apply Seconds_whole].
  destruct (String.eqb_spec (CacheTimeout cfg) ""), (decide (CacheTimeout cfg = "")); try done; [by injection Ht as <-|].
  rewrite Hd in Ht. by injection Ht as <-.
Qed.

Lemma enricher_keeps f c (w : World R C) :
  keeps c (Execute find_submatch gjson_get f c w).1.2.
Proof.
  assert (forall json, keeps c (inject gjson_get f json c)) as Hi by (intros json; rewrite inject_calls; apply keeps_calls).
  unfold Execute. destruct (vcache_get _ _ _); [apply Hi|]. destruct (store_get _ _); [apply Hi|done].
Qed.

#[export] Instance Execute_ok f : FilterOk (W := World R C) (Execute find_submatch gjson_get f).
Proof. intros c w err c' w' E. pose proof (enricher_keeps f c w) as Hk. by rewrite E in Hk. Qed.

(** *** The local cache *)

Definition cache_fetched cfg (calls : list (Z * R * RequestContext)) (cache : C) : Prop :=
  forall t key json, vcache_get cache t key = Some json -> fetched cfg calls t key json.

Lemma Execute_fetched f cfg calls cache t r c : NewRedisMetadataEnricherFilter regexp_compile cfg = Ok f -> cache_fetched cfg calls cache ->
  cache_fetched cfg (calls ++ [(t, r, c)]) (wCache (Execute find_submatch gjson_get f c (mkWorld cache t r)).2).
Proof.
  intros Hnew Hc. assert (cache_fetched cfg (calls ++ [(t, r, c)]) cache) as Hc'.
  { intros t' key json (t0 & r0 & c0 & Hin & Hg)%Hc. exists t0, r0, c0. split; [|done]. apply elem_of_app. by left. }
  unfold Execute. cbn [wCache wTime wStore]. destruct (vcache_get cache t _); [done|].
  destruct (store_get r _) as [json|] eqn:Es; [|done]. cbn [snd wCache]. destruct (String.eqb json ""); [done|].
  intros t' key' json' [(-> & -> & Ht)|Hg]%vcache_get_set; [|by apply Hc'].
  exists t, r, c. split; [apply elem_of_app; right; by left|]. split; [done|]. intros n Hn Hpos. rewrite (New_ttl f cfg n) in Ht by done. lia.
Qed.

Lemma after_calls_fetched f cfg calls : NewRedisMetadataEnricherFilter regexp_compile cfg = Ok f ->
  cache_fetched cfg calls (after_calls find_submatch gjson_get f calls).
Proof.
  intros Hnew. induction calls as [|[[t r] c] calls IH] using rev_ind.
  - intros t key json. unfold after_calls. cbn. by rewrite vcache_get_empty.
  - unfold after_calls. rewrite fold_left_app. cbn [fold_left]. by apply Execute_fetched.
Qed.

(** *** Variables *)

(** What a variable of the configuration is before substitution. *)
Definition source_value (c : RequestContext) (source : string) : string :=
  if String.eqb source "{path}" then Path c
  else if String.eqb source "{method}" then Method c
  else if String.eqb source "{client_ip}" then Context.ClientIP c
  else if is_header_source source then default "" ((effective c).1 !! ToLower (header_of source))
  else "".

Lemma resolve_lower_source c source : resolveSourceValue c (lower_source source) = source_value c source.
Proof.
  unfold lower_source. destruct (is_header_source source) eqn:E.
  - apply is_header_source_spec in E as E'. unfold resolveSourceValue, source_value. rewrite E.
    assert (forall s, String.eqb ("{header:" +++ s)%go "{path}" = false /\ String.eqb ("{header:" +++ s)%go "{method}" = false /\
      String.eqb ("{header:" +++ s)%go "{client_ip}" = false) as Hne by (intros s; by repeat split).
    destruct (Hne (header_of source +++ "}")%go) as (N1 & N2 & N3). rewrite <- E' in N1, N2, N3. rewrite N1, N2, N3.
    destruct (Hne (ToLower (header_of source) +++ "}")%go) as (-> & -> & ->).
    assert (is_header_source ("{header:" +++ ToLower (header_of source) +++ "}")%go = true) as ->.
    { unfold is_header_source. rewrite HasPrefix_app. apply HasSuffix_spec. exists ("{header:" +++ ToLower (header_of source))%go.
      by rewrite string_app_assoc. }
    by rewrite header_of_spec, GetHeader_effective.
  - unfold resolveSourceValue, source_value. by rewrite E.
Qed.

End Laws.

(** The value a variable of the configuration has for a request. *)
Definition variable_value {RE : Type} (regexp_compile : string -> option RE) (find_submatch : RE -> string -> list string)
  (gjson_get : string -> string -> option string) (c : RequestContext) (v : Variable_) : string :=
  let raw := source_value c (Source v) in
  let field := if String.eqb (vJSONPath v) "" || String.eqb raw "" then raw else default "" (gjson_get raw (vJSONPath v)) in
  let group := if String.eqb (RegexPattern v) "" || String.eqb field "" then field
               else default "" (regexp_compile (RegexPattern v) ≫= fun re => find_submatch re field !! 1) in
  ToLower (if String.eqb group "" then Default v else group).

Section Construction.
Context {RE : Type}.
Variable regexp_compile : string -> option RE.
Variable find_submatch : RE -> string -> list string.
Variable gjson_get : string -> string -> option string.

Lemma compile_variable_value e e' c : compile_variable regexp_compile e = Ok e' ->
  e'.1 = e.1 /\ resolve_variable find_submatch gjson_get c e'.2 = variable_value regexp_compile find_submatch gjson_get c e.2.
Proof.
  unfold compile_variable. intros (re & Hre & E)%result_bind_Ok. injection E as <-. split; [done|].
  unfold resolve_variable, variable_value. cbn [fst snd rSource rJSONPath CompiledRegex DefaultValue].
  rewrite resolve_lower_source. set (raw := source_value c _). rewrite <- negb_orb.
  set (field := if negb _ then _ else _). set (field' := if String.eqb (vJSONPath e.2) "" || _ then _ else _).
  assert (field = field') as <- by (unfold field, field'; by destruct (_ || _)). clearbody field.
  destruct (String.eqb (RegexPattern e.2) ""); [injection Hre as <-; done|]. cbn [orb].
  destruct (regexp_compile (RegexPattern e.2)) as [r|]; [|done]. injection Hre as <-. cbn [mbind option_bind].
  by destruct (String.eqb field "") eqn:Ef; cbn [negb]; rewrite ?Ef.
Qed.

(** The variables of a filter under construction are those of its configuration. *)
Lemma New_vars cfg f c : NewRedisMetadataEnricherFilter regexp_compile cfg = Ok f ->
  keyPattern f = KeyPattern cfg /\
  resolvedVars find_submatch gjson_get f c =
    (fun e => (e.1, variable_value regexp_compile find_submatch gjson_get c e.2)) <$> Variables cfg.
Proof.
  unfold NewRedisMetadataEnricherFilter. destruct (String.eqb _ _); [done|].
  intros (ttl & _ & (vars & Hv & E)%result_bind_Ok)%result_bind_Ok. injection E as <-. split; [done|].
  unfold resolvedVars. cbn [variables]. apply map_result_Forall2 in Hv.
  induction Hv as [|e e' l l' He _ IH]; [done|]. cbn. f_equal; [|exact IH].
  destruct (compile_variable_value e e' c He) as [E1 E2]. by rewrite E1, E2.
Qed.

End Construction.

(** ** Properties *)


(** A cache time below one second is stored without expiry: what Redis said once
    is injected for ever. *)
Lemma subsecond_timeout_never_expires {RE : Type} (f : RedisMetadataEnricherFilter RE) :
  eCacheTTL f = (500 * Millisecond)%Z -> ttl_seconds f = 0%Z.
Proof. unfold ttl_seconds. intros ->. by vm_compute. Qed.

(** ** Examples *)

Definition example_config : RedisMetadataEnricherConfig :=
  mkEnricherConfig "cache" 0 "5s" [("user", mkVariable "{header:X-User}" "guest" "" ""); ("p", mkVariable "{path}" "" "" "")]
    "meta:{user}:{other}" [mkOutputMappingSpec "" "X-Meta"].
Definition example_segments : list Segment := [Lit "meta:"; Var "user"; Lit ":"; Var "other"].
Definition example_filter : RedisMetadataEnricherFilter () :=
  mkEnricher "meta:{user}:{other}" (10 * 1024 * 1024) (5 * Second)
    [("user", mkRule "{header:x-user}" "guest" None ""); ("p", mkRule "{path}" "" None "")]
    [mkOutputMappingSpec "" "x-meta"].
Definition example_store : GoMap (GoMap string) := [("meta:ana:{other}", [("", "gold")])].
Definition example_request : RequestContext := newContext <| Headers := {["x-user" := "Ana"]} |>.
Definition example_call (t : Z) (r : GoMap (GoMap string)) (history : list (Z * GoMap (GoMap string) * RequestContext))
  : option string * RequestContext * World (GoMap (GoMap string)) (gmap string (string * option Z)) :=
  Execute (fun _ _ => []) (fun _ _ => None) example_filter example_request
    (mkWorld (after_calls (fun _ _ => []) (fun _ _ => None) example_filter history) t r).


End Enricher.
