(* ===== verification/Jwt.v ===== *)
(** * Jwt: the JWT authentication filter (internal/filters/jwt_auth/jwt_auth.go)

    [Execute] with its token extraction, local validation, key set refresh and
    introspection fallback. The JWT and JWK library, the HTTP client, the JSON
    codec, the file system and the clock are parameters; [meanwhile] is what
    other requests do to the key set while one waits for the refresh lock. *)

From S2P Require Import Prelude GoStrings GoTime Context Executor ApiKey.
From Stdlib Require Import Floats.SpecFloat.

Local Open Scope string_scope.
Local Open Scope list_scope.

Module Jwt.

(** ** Configuration *)

Record Config := mkConfig {
  Source : string; HeaderName : string; QueryParam : string; CookieName : string;
  JWKSEndpoint : string; JWKSRefreshInterval : Z; LocalSecret : string; LocalSecretFile : string; Algorithm : string;
  Issuer : string; Audience : string; ClaimMappings : GoMap string; IntrospectionEndpoint : string;
  IntrospectionAuthHeader : string; IntrospectionAuthHeaderFile : string; IntrospectionTimeout : Z;
  FailOpen : bool; StripToken : bool }.
#[export] Instance Config_eta : Eta Config := fun x =>
  mkConfig (Source x) (HeaderName x) (QueryParam x) (CookieName x) (JWKSEndpoint x) (JWKSRefreshInterval x) (LocalSecret x)
    (LocalSecretFile x) (Algorithm x) (Issuer x) (Audience x) (ClaimMappings x) (IntrospectionEndpoint x)
    (IntrospectionAuthHeader x) (IntrospectionAuthHeaderFile x) (IntrospectionTimeout x) (FailOpen x) (StripToken x).

Definition ApplyDefaults (c : Config) : Config :=
  c <| Source := if String.eqb (Source c) "" then "header" else Source c |>
    <| HeaderName := if String.eqb (HeaderName c) "" then "authorization" else ToLower (HeaderName c) |>
    <| JWKSRefreshInterval := if (JWKSRefreshInterval c <=? 0)%Z then (5 * Minute)%Z else JWKSRefreshInterval c |>
    <| IntrospectionTimeout := if (IntrospectionTimeout c <=? 0)%Z then (2 * Second)%Z else IntrospectionTimeout c |>
    <| ClaimMappings := (fun e => (e.1, ToLower e.2)) <$> ClaimMappings c |>.

(** ** Claims *)

(** The dynamic types [claimString] distinguishes; [ClOther] carries what
    [json.Marshal] makes of any other value, [None] for an error. *)
Inductive Claim : Type :=
| ClString (s : string)
| ClBool (b : bool)
| ClFloat (f : spec_float)
| ClNumber (text : string)
| ClTime (unix : Z)
| ClStrings (l : list string)
| ClList (l : list Claim)
| ClOther (json : option string).

Definition control_byte (c : ascii) : bool := let n := nat_of_ascii c in (n <? 32)%nat || (n =? 127)%nat.

Definition visible (s : string) : string := delete_bytes control_byte s.

Section Claims.
(** [strconv.FormatFloat(f, 'f', -1, 64)] *)
Variable format_float : spec_float -> string.

Fixpoint claimString (v : Claim) : string :=
  match v with
  | ClString s => visible s
  | ClBool b => visible (if b then "true" else "false")
  | ClFloat f => visible (format_float f)
  | ClNumber t => visible t
  | ClTime u => visible (Itoa u)
  | ClStrings l => visible (GoStrings.Join l ",")
  | ClList l => visible (GoStrings.Join (List.map claimString l) ",")
  | ClOther None => ""
  | ClOther (Some s) => visible s
  end.
End Claims.

Definition audienceContains (aud : Claim) (want : string) : bool :=
  match aud with
  | ClString v => String.eqb v want
  | ClList l => existsb (fun item => match item with ClString s => String.eqb s want | _ => false end) l
  | _ => false
  end.

(** ** Where the token is *)

Section Token.
(** [url.QueryUnescape], [None] for an error *)
Variable unescape : string -> option string.

Fixpoint find_token (name : string) (parts : list string) : string :=
  match parts with
  | [] => ""
  | p :: parts =>
      match Cut p "=" with
      | (k, v, true) => if String.eqb k name then default v (unescape v) else find_token name parts
      | (_, _, false) => find_token name parts
      end
  end.

Definition extractQueryParam (path name : string) : string :=
  match Cut path "?" with
  | (_, query, true) => find_token name (ApiKey.query_parts query)
  | (_, _, false) => ""
  end.

Definition removeQueryParam (path name : string) : string :=
  match Cut path "?" with
  | (_, _, false) => path
  | (base, query, true) =>
      if String.eqb name "" then path
      else
        match List.filter (fun p => negb (String.eqb (ApiKey.part_key p) name) && negb (String.eqb p "")) (Split query "&") with
        | [] => base
        | kept => (base +++ "?" +++ GoStrings.Join kept "&")%go
        end
  end.

Fixpoint extractCookie_loop (name : string) (parts : list string) : string :=
  match parts with
  | [] => ""
  | p :: parts =>
      match Cut (TrimSpace p) "=" with
      | (k, v, true) => if String.eqb k name then v else extractCookie_loop name parts
      | (_, _, false) => extractCookie_loop name parts
      end
  end.
Definition extractCookie (cookieHeader name : string) : string := extractCookie_loop name (Split cookieHeader ";").

(** Whether a part is the named cookie. *)
Definition is_cookie (name part : string) : bool :=
  match Cut part "=" with (k, _, true) => String.eqb k name | (_, _, false) => false end.

Definition removeCookie (cookieHeader name : string) : string * bool :=
  let parts := List.filter (fun p => negb (String.eqb p "")) (TrimSpace <$> Split cookieHeader ";") in
  (GoStrings.Join (List.filter (fun p => negb (is_cookie name p)) parts) "; ", existsb (is_cookie name) parts).

Definition extractToken (cfg : Config) (c : RequestContext) : string :=
  let source := ToLower (Source cfg) in
  if String.eqb source "query" then extractQueryParam (Path c) (QueryParam cfg)
  else if String.eqb source "cookie" then extractCookie (GetHeader c "cookie") (CookieName cfg)
  else
    let raw := TrimSpace (GetHeader c (HeaderName cfg)) in
    if (7 <? String.length raw)%nat && EqualFold (take_string 7 raw) "bearer " then TrimSpace (drop_string 7 raw) else raw.
End Token.

Definition stripToken (cfg : Config) (c : RequestContext) : RequestContext :=
  if negb (StripToken cfg) then c
  else
    let source := ToLower (Source cfg) in
    if String.eqb source "query" then
      let stripped := removeQueryParam (Path c) (QueryParam cfg) in
      if String.eqb stripped (Path c) then c else SetPath c stripped
    else if String.eqb source "cookie" then
      let '(cookies, removed) := removeCookie (GetHeader c "cookie") (CookieName cfg) in
      if (removed : bool) then
        if String.eqb cookies "" then RemoveHeaderUpstream c "cookie" else SetHeaderUpstream c "cookie" cookies
      else c
    else RemoveHeaderUpstream c (HeaderName cfg).

Definition dquote : string := String "034" "".
Definition challenge (c : RequestContext) (message bearerError : string) : RequestContext :=
  let q := dquote in
  let body := ("{" +++ q +++ "error" +++ q +++ ":" +++ q +++ "unauthorized" +++ q +++ "," +++ q +++ "message" +++ q +++ ":" +++ q
               +++ message +++ q +++ "}")%go in
  let c := Block c 401 body in
  let c := SetHeaderDownstream c "content-type" "application/json" in
  SetHeaderDownstream c "www-authenticate"
    (if String.eqb bearerError "" then "Bearer" else ("Bearer error=" +++ q +++ bearerError +++ q)%go).

(** ** Validation *)

Section Filter.
(** Key sets. *)
Context {K : Type}.

Inductive KeyMaterial : Type :=
| SecretKey (alg secret : string)
| KeySet (k : K).

(** [keySet] and [lastFetch] of the filter. *)
Record KeyState := mkKeyState { keySet : option K; lastFetch : Z }.

(** [jwt.ParseString] and [AsMap]: key material, expected issuer and audience (""
    for none), the time, the token; [jwk.Fetch] at a time. *)
Variable jwt_parse : KeyMaterial -> string -> string -> Z -> string -> result (GoMap Claim).
Variable jwk_fetch : Z -> result K.
Variable meanwhile : KeyState -> KeyState.
(** Introspection: whether a request can be built for the endpoint; the answer of
    the endpoint to a token: no answer, or a status and the decoded body. *)
Variable new_request : string -> bool.
Variable introspection : string -> result (Z * result (GoMap Claim)).
Variable format_float : spec_float -> string.
Variable unescape : string -> option string.
(** The orders of the two loops over [ClaimMappings] of a call. *)
Variable order1 order2 : GoMap string -> GoMap string.

Definition jwksMinRefreshGap : Z := 30 * Second.

Definition fetchAndStoreJWKS (now : Z) (s : KeyState) : result () * KeyState :=
  match jwk_fetch now with
  | Err e => (Err e, mkKeyState (keySet s) now)
  | Ok set => (Ok tt, mkKeyState (Some set) now)
  end.

Definition refreshAfterMiss (cfg : Config) (now : Z) (s : KeyState) : bool * KeyState :=
  if String.eqb (JWKSEndpoint cfg) "" then (false, s)
  else if (now - lastFetch s <? jwksMinRefreshGap)%Z then (false, s)
  else
    let s := meanwhile s in
    if (now - lastFetch s <? jwksMinRefreshGap)%Z then (true, s)
    else match fetchAndStoreJWKS now s with
         | (Err _, s) => (false, s)
         | (Ok _, s) => (true, s)
         end.

Definition validateJWT (cfg : Config) (now : Z) (token : string) (s : KeyState) : result (GoMap Claim) * KeyState :=
  if negb (String.eqb (LocalSecret cfg) "")
  then (jwt_parse (SecretKey (Algorithm cfg) (LocalSecret cfg)) (Issuer cfg) (Audience cfg) now token, s)
  else
    match keySet s with
    | None => (Err "no key material available for JWT validation", s)
    | Some ks =>
        match jwt_parse (KeySet ks) (Issuer cfg) (Audience cfg) now token with
        | Ok claims => (Ok claims, s)
        | Err e =>
            let '(refreshed, s) := refreshAfterMiss cfg now s in
            if (refreshed : bool) then
              match keySet s with
              | Some ks => (jwt_parse (KeySet ks) (Issuer cfg) (Audience cfg) now token, s)
              | None => (Err e, s)
              end
            else (Err e, s)
        end
    end.

(** An error, marked when it is an [introspectionUnavailableError]. *)
Definition introspect (cfg : Config) (token : string) : GoMap Claim + bool :=
  if negb (new_request (IntrospectionEndpoint cfg)) then inr false
  else
    match introspection token with
    | Err _ => inr true
    | Ok (status, decoded) =>
        if (500 <=? status)%Z then inr true
        else if negb (status =? 200)%Z then inr false
        else
          match decoded with
          | Err _ => inr false
          | Ok claims =>
              if negb (match map_get claims "active" with Some (ClBool b) => b | _ => false end) then inr false
              else if negb (String.eqb (Issuer cfg) "") &&
                      match map_get claims "iss" with Some (ClString iss) => negb (String.eqb iss (Issuer cfg)) | _ => false end
                   then inr false
              else if negb (String.eqb (Audience cfg) "") &&
                      match map_get claims "aud" with Some aud => negb (audienceContains aud (Audience cfg)) | None => false end
                   then inr false
              else inl claims
          end
    end.

(** The claims to inject, none with [fail_open], or the challenge. *)
Inductive Decision : Type :=
| Inject (claims : GoMap Claim)
| PassOpen
| Challenge (message bearerError : string).

Definition decide_token (cfg : Config) (now : Z) (token : string) (s : KeyState) : Decision * KeyState :=
  if String.eqb token "" then (Challenge "missing authentication token" "", s)
  else
    match validateJWT cfg now token s with
    | (Ok claims, s) => (Inject claims, s)
    | (Err _, s) =>
        if String.eqb (IntrospectionEndpoint cfg) "" then (Challenge "invalid token" "invalid_token", s)
        else match introspect cfg token with
             | inl claims => (Inject claims, s)
             | inr unavailable => (if FailOpen cfg && unavailable then PassOpen
                                   else Challenge "token validation failed" "invalid_token", s)
             end
    end.

Definition inject_claim (claims : GoMap Claim) (c : RequestContext) (e : string * string) : RequestContext :=
  match map_get claims e.1 with
  | Some v => let s := claimString format_float v in if String.eqb s "" then c else SetHeaderUpstream c e.2 s
  | None => c
  end.

(** The time of the call and the filter's keys. *)
Definition Execute (cfg : Config) : Exec (Z * KeyState) := fun c w =>
  let c := fold_left (fun c e => RemoveHeaderUpstream c e.2) (order1 (ClaimMappings cfg)) c in
  let '(d, s) := decide_token cfg w.1 (extractToken unescape cfg c) w.2 in
  match d with
  | Challenge message bearerError => (None, challenge c message bearerError, (w.1, s))
  | PassOpen => (None, stripToken cfg c, (w.1, s))
  | Inject claims => (None, stripToken cfg (fold_left (inject_claim claims) (order2 (ClaimMappings cfg)) c), (w.1, s))
  end.

Definition SupportedPhases : list Phase := [PhaseRequestHeaders].

(** [os.ReadFile] *)
Variable read_file : string -> result string.

Definition loadSecretFiles (c : Config) : result Config :=
  let? c := (if String.eqb (LocalSecretFile c) "" then Ok c
             else let? b := read_file (LocalSecretFile c) in Ok (c <| LocalSecret := TrimSpace b |>)) in
  if String.eqb (IntrospectionAuthHeaderFile c) "" then Ok c
  else let? b := read_file (IntrospectionAuthHeaderFile c) in Ok (c <| IntrospectionAuthHeader := TrimSpace b |>).

Definition NewFilter (cfg : Config) (now : Z) : result (Config * KeyState) :=
  let? cfg := loadSecretFiles (ApplyDefaults cfg) in
  let cfg := if String.eqb (Algorithm cfg) ""
             then cfg <| Algorithm := if String.eqb (LocalSecret cfg) "" then "RS256" else "HS256" |> else cfg in
  if String.eqb (JWKSEndpoint cfg) "" && String.eqb (LocalSecret cfg) "" && String.eqb (IntrospectionEndpoint cfg) ""
  then Err "jwt_auth: one of jwks_endpoint, local_secret(_file) or introspection_endpoint is required"
  else if String.eqb (JWKSEndpoint cfg) "" then Ok (cfg, mkKeyState None 0)
  else match fetchAndStoreJWKS now (mkKeyState None 0) with
       | (Err e, _) => Err e
       | (Ok _, s) => Ok (cfg, s)
       end.

(** [backgroundRefresh]: what the loop selects, the time of a tick or the closed
    [stopRefresh]. *)
Fixpoint backgroundRefresh (selected : list (option Z)) (s : KeyState) : KeyState :=
  match selected with
  | [] | None :: _ => s
  | Some now :: selected => backgroundRefresh selected (fetchAndStoreJWKS now s).2
  end.

End Filter.

(** ** What the filter promises *)

Section Promise.
Context {K : Type}.
Variable jwt_parse : @KeyMaterial K -> string -> string -> Z -> string -> result (GoMap Claim).
Variable jwk_fetch : Z -> result K.
Variable meanwhile : @KeyState K -> @KeyState K.
Variable new_request : string -> bool.
Variable introspection : string -> result (Z * result (GoMap Claim)).

(** Keys the filter trusts: its own secret, or a set fetched from the endpoint. *)
Definition trusted (cfg : Config) (now : Z) (s : @KeyState K) (key : @KeyMaterial K) : Prop :=
  match key with
  | SecretKey alg secret => alg = Algorithm cfg /\ secret = LocalSecret cfg /\ secret <> ""
  | KeySet k => keySet s = Some k \/ keySet (meanwhile s) = Some k \/ jwk_fetch now = Ok k
  end.

(** The claim is the audience, or a list that has it. *)
Definition names_audience (aud : Claim) (want : string) : Prop :=
  aud = ClString want \/ exists l, aud = ClList l /\ ClString want ∈ l.

(** The endpoint answers 200 with claims in which [active] is true (RFC 7662), and whose
    issuer and audience, where it gives them, are the configured ones. *)
Definition called_active (cfg : Config) (token : string) (claims : GoMap Claim) : Prop :=
  introspection token = Ok (200%Z, Ok claims) /\ map_get claims "active" = Some (ClBool true) /\
  (Issuer cfg = "" \/ forall iss, map_get claims "iss" = Some (ClString iss) -> iss = Issuer cfg) /\
  (Audience cfg = "" \/ forall aud, map_get claims "aud" = Some aud -> names_audience aud (Audience cfg)).

(** Claims of a token that verifies under a trusted key with the configured issuer
    and audience, or that the introspection endpoint calls active. *)
Definition authentic (cfg : Config) (now : Z) (s : @KeyState K) (token : string) (claims : GoMap Claim) : Prop :=
  (exists key, trusted cfg now s key /\ jwt_parse key (Issuer cfg) (Audience cfg) now token = Ok claims) \/
  (IntrospectionEndpoint cfg <> "" /\ called_active cfg token claims).

(** The endpoint does not answer, or with a server error. *)
Definition unavailable (token : string) : Prop :=
  (exists e, introspection token = Err e) \/ exists status body, introspection token = Ok (status, body) /\ (500 <= status)%Z.

(** The key the filter holds when the request comes. *)
Definition held_key (cfg : Config) (s : @KeyState K) (key : @KeyMaterial K) : Prop :=
  if String.eqb (LocalSecret cfg) "" then exists k, keySet s = Some k /\ key = KeySet k
  else key = SecretKey (Algorithm cfg) (LocalSecret cfg).

(** ** Lemmas *)

Lemma audienceContains_spec aud want : audienceContains aud want = true <-> names_audience aud want.
Proof.
  unfold names_audience. destruct aud as [v| | | | | |l|]; cbn; try (split; [done|intros [?|(? & ? & _)]; done]).
  - rewrite String.eqb_eq. split; [intros ->; by left|intros [[= ->]|(? & ? & _)]; done].
  - rewrite existsb_elem. split.
    + intros (x & Hx & E). right. exists l. split; [done|]. destruct x; try done. apply String.eqb_eq in E. by subst.
    + intros [?|(l' & [= <-] & Hl)]; [done|]. exists (ClString want). split; [done|]. by apply String.eqb_refl.
Qed.

Lemma introspect_active cfg token claims : introspect new_request introspection cfg token = inl claims -> called_active cfg token claims.
Proof.
  unfold introspect, called_active. destruct (negb _); [done|]. destruct (introspection token) as [[status decoded]|e]; [|done].
  destruct (Z.leb_spec 500 status); [done|]. destruct (Z.eqb_spec status 200) as [->|]; [|done]. cbn [negb].
  destruct decoded as [cl|e]; [|done]. destruct (map_get cl "active") as [[| [|] | | | | | |]|] eqn:Ea; try done. cbn [negb].
  destruct (negb (String.eqb (Issuer cfg) "") && _) eqn:Ei; [done|]. destruct (negb (String.eqb (Audience cfg) "") && _) eqn:Eu; [done|].
  intros [= <-]. split; [done|]. split; [done|]. split.
  - destruct (String.eqb_spec (Issuer cfg) ""); [by left|right]. intros iss Hiss. rewrite Hiss in Ei. cbn in Ei.
    apply negb_false_iff in Ei. by apply String.eqb_eq.
  - destruct (String.eqb_spec (Audience cfg) ""); [by left|right]. intros aud Haud. rewrite Haud in Eu. cbn in Eu.
    apply negb_false_iff in Eu. by apply audienceContains_spec.
Qed.

Lemma introspect_refused cfg token u claims : introspect new_request introspection cfg token = inr u ->
  new_request (IntrospectionEndpoint cfg) = true -> ~ called_active cfg token claims.
Proof.
  unfold introspect. intros E Hn (Ei & Ea & Hiss & Haud). rewrite Hn, Ei, Ea in E. cbn [negb] in E. cbn in E. revert E.
  destruct (negb (String.eqb (Issuer cfg) "") && _) eqn:E1.
  { bool_hyps. destruct Hiss as [?|Hiss]; [done|]. destruct (map_get claims "iss") as [[iss| | | | | | |]|] eqn:E; try done.
    specialize (Hiss iss eq_refl). bool_hyps. by subst. }
  destruct (negb (String.eqb (Audience cfg) "") && _) eqn:E2; [|done].
  bool_hyps. destruct Haud as [?|Haud]; [done|]. destruct (map_get claims "aud") as [aud|] eqn:E; [|done].
  specialize (Haud aud eq_refl). apply audienceContains_spec in Haud. rewrite Haud in *. done.
Qed.

Lemma introspect_unavailable cfg token : introspect new_request introspection cfg token = inr true -> unavailable token.
Proof.
  unfold introspect, unavailable. destruct (negb _); [done|]. destruct (introspection token) as [[status decoded]|e]; [|eauto].
  destruct (Z.leb_spec 500 status); [eauto 10|]. destruct (negb (status =? 200)%Z); [done|]. destruct decoded as [cl|]; [|done].
  by repeat case_match.
Qed.

(** A token that verifies under the key the filter holds is not refused. *)
Lemma validateJWT_held cfg now token s key claims : held_key cfg s key -> jwt_parse key (Issuer cfg) (Audience cfg) now token = Ok claims ->
  (validateJWT jwt_parse jwk_fetch meanwhile cfg now token s).1 = Ok claims.
Proof.
  unfold held_key, validateJWT. destruct (String.eqb_spec (LocalSecret cfg) ""); cbn [negb].
  - intros (k & -> & ->) ->. done.
  - intros -> ->. done.
Qed.

Lemma validateJWT_authentic cfg now token s claims s' :
  validateJWT jwt_parse jwk_fetch meanwhile cfg now token s = (Ok claims, s') ->
  exists key, trusted cfg now s key /\ jwt_parse key (Issuer cfg) (Audience cfg) now token = Ok claims.
Proof.
  unfold validateJWT. destruct (String.eqb_spec (LocalSecret cfg) "") as [_|Hs]; cbn [negb].
  - destruct (keySet s) as [ks|] eqn:Ek; [|done]. destruct (jwt_parse (KeySet ks) _ _ _ _) as [cl|e] eqn:Ep.
    + intros [= <- <-]. exists (KeySet ks). split; [by left|done].
    + unfold refreshAfterMiss, fetchAndStoreJWKS. destruct (String.eqb _ ""); [done|]. destruct (_ <? _)%Z; [done|].
      destruct (_ <? _)%Z.
      * destruct (keySet (meanwhile s)) as [k|] eqn:Em; [|done]. intros [= H <-]. exists (KeySet k). split; [by right; left|done].
      * destruct (jwk_fetch now) as [k|] eqn:Ef; [|done]. cbn. intros [= H <-]. exists (KeySet k). split; [by right; right|done].
  - intros [= H <-]. by exists (SecretKey (Algorithm cfg) (LocalSecret cfg)).
Qed.

Lemma decide_token_authentic cfg now token s :
  match (decide_token jwt_parse jwk_fetch meanwhile new_request introspection cfg now token s).1 with
  | Inject claims => authentic cfg now s token claims
  | PassOpen => FailOpen cfg = true /\ unavailable token
  | Challenge _ _ => True
  end.
Proof.
  unfold decide_token. destruct (String.eqb token ""); [done|]. destruct (validateJWT _ _ _ _ _ _ _) as [[claims|e] s'] eqn:Ev.
  - left. by eapply validateJWT_authentic.
  - destruct (String.eqb_spec (IntrospectionEndpoint cfg) ""); [done|].
    destruct (introspect _ _ _ _) as [claims|u] eqn:Ei; cbn [fst]; [right; split; [done|by apply introspect_active]|].
    destruct (FailOpen cfg) eqn:Ef; cbn [andb]; [|done]. destruct u; [|done]. split; [done|by eapply introspect_unavailable].
Qed.
(** The refresh never loses the keys: they stay the last set that was fetched. *)
Lemma background_keeps_keys selected s k : keySet s = Some k ->
  exists k', keySet (backgroundRefresh jwk_fetch selected s) = Some k' /\
    (k' = k \/ exists now, Some now ∈ selected /\ jwk_fetch now = Ok k').
Proof.
  revert s k. induction selected as [|[now|] l IH]; intros s k Hs; cbn; [by exists k; split; [|left]| |by exists k; split; [|left]].
  unfold fetchAndStoreJWKS. destruct (jwk_fetch now) as [k1|e] eqn:Ef; cbn [snd].
  - destruct (IH (mkKeyState (Some k1) now) k1 eq_refl) as (k' & -> & Hk'). exists k'. split; [done|right].
    destruct Hk' as [->|(n & Hn & Hf)]; [exists now|exists n]; (split; [set_solver|done]).
  - destruct (IH (mkKeyState (keySet s) now) k Hs) as (k' & -> & Hk'). exists k'. split; [done|].
    destruct Hk' as [->|(n & Hn & Hf)]; [by left|right]. exists n. split; [set_solver|done].
Qed.

(** The ticker of the loop gets a positive interval, which [time.NewTicker] needs. *)
Lemma ticker_interval read_file cfg now cfg' s : NewFilter jwk_fetch read_file cfg now = Ok (cfg', s) -> (0 < JWKSRefreshInterval cfg')%Z.
Proof.
  unfold NewFilter. destruct (loadSecretFiles read_file (ApplyDefaults cfg)) as [c|] eqn:El; [|done]. cbn [result_bind].
  assert (0 < JWKSRefreshInterval c)%Z as Hc.
  { unfold loadSecretFiles in El. assert (0 < JWKSRefreshInterval (ApplyDefaults cfg))%Z as Hd.
    { cbn. destruct (Z.leb_spec (JWKSRefreshInterval cfg) 0); [done|lia]. }
    revert Hd El. generalize (ApplyDefaults cfg). intros d Hd.
    destruct (String.eqb (LocalSecretFile d) ""); [|destruct (read_file (LocalSecretFile d)); [|done]]; cbn [result_bind];
      (destruct (String.eqb _ ""); [|destruct (read_file _); [|done]]; cbn [result_bind]; by intros [= <-]). }
  set (c1 := if String.eqb (Algorithm c) "" then _ else c).
  assert (JWKSRefreshInterval c1 = JWKSRefreshInterval c) as E by (unfold c1; by destruct (String.eqb _ "")). clearbody c1.
  destruct (_ && _ && _); [done|]. destruct (String.eqb _ ""); [intros [= <- _]; lia|].
  destruct (fetchAndStoreJWKS _ _ _) as [[]]; [|done]. intros [= <- _]. lia.
Qed.
End Promise.

Lemma visible_no_control s : string_all (fun c => negb (control_byte c)) (visible s) = true.
Proof.
  unfold visible. induction s as [|c s IH]; [done|]. cbn. destruct (control_byte c) eqn:E; [done|]. cbn. by rewrite E.
Qed.
Lemma claimString_no_control ff v : string_all (fun c => negb (control_byte c)) (claimString ff v) = true.
Proof. destruct v as [| | | | | | |[]]; cbn [claimString]; try apply visible_no_control. done. Qed.

Lemma removed_headers_spec l c : ctx_wf c ->
  let c' := fold_left (fun c (e : string * string) => RemoveHeaderUpstream c e.2) l c in
  ctx_wf c' /\ Blocked c' = Blocked c /\ (forall k, k ∈ ToLower <$> l.*2 -> (effective c').1 !! k = None).
Proof.
  intros Hc. cbv zeta. enough (forall l (ks : list string) c, ctx_wf c -> (forall k, k ∈ ks -> (effective c).1 !! k = None) ->
    let c' := fold_left (fun c (e : string * string) => RemoveHeaderUpstream c e.2) l c in
    ctx_wf c' /\ Blocked c' = Blocked c /\ forall k, k ∈ ks \/ k ∈ ToLower <$> l.*2 -> (effective c').1 !! k = None) as H.
  { destruct (H l [] c Hc) as (H1 & H2 & H3); [set_solver|]. split; [done|]. split; [done|]. intros k Hk. apply H3. by right. }
  clear. induction l as [|[x h] l IH]; intros ks c Hc Hk; cbn [fold_left].
  - split; [done|]. split; [done|]. intros k [?|?%elem_of_nil]; [auto|done].
  - destruct (RemoveHeaderUpstream_spec c h Hc) as [Hw He].
    destruct (IH (ToLower h :: ks) (RemoveHeaderUpstream c h) Hw) as (H1 & H2 & H3).
    { intros k. rewrite He. cbn [fst]. intros [->|Hin]%elem_of_cons; [apply lookup_delete_eq|].
      destruct (decide (k = ToLower h)) as [->|]; [apply lookup_delete_eq|]. rewrite lookup_delete_ne by done. auto. }
    split; [done|]. split; [done|]. intros k Hor. apply H3. cbn in Hor. rewrite !elem_of_cons in *. tauto.
Qed.

(** A header that is absent, or holds a mapped claim. *)
Definition from_claims (ff : spec_float -> string) (mappings : GoMap string) (claims : GoMap Claim) (o : option string) (k : string) : Prop :=
  o = None \/ exists claim h v, (claim, h) ∈ mappings /\ ToLower h = k /\ map_get claims claim = Some v /\ o = Some (claimString ff v).

Lemma inject_all_spec ff claims mappings l c : ctx_wf c -> (forall e, e ∈ l -> e ∈ mappings) ->
  (forall k, k ∈ ToLower <$> mappings.*2 -> from_claims ff mappings claims ((effective c).1 !! k) k) ->
  let c' := fold_left (inject_claim ff claims) l c in
  ctx_wf c' /\ Blocked c' = Blocked c /\
  (forall k, k ∈ ToLower <$> mappings.*2 -> from_claims ff mappings claims ((effective c').1 !! k) k).
Proof.
  revert c. induction l as [|e l IH]; intros c Hc Hl Hk; [done|]. cbn [fold_left].
  assert (ctx_wf (inject_claim ff claims c e) /\ Blocked (inject_claim ff claims c e) = Blocked c /\
    forall k, k ∈ ToLower <$> mappings.*2 -> from_claims ff mappings claims ((effective (inject_claim ff claims c e)).1 !! k) k) as (H1 & H2 & H3).
  { unfold inject_claim. destruct (map_get claims e.1) as [v|] eqn:Ev; [|done]. destruct (String.eqb _ ""); [done|].
    destruct (SetHeaderUpstream_spec c e.2 (claimString ff v) Hc) as [Hw He]. split; [done|]. split; [done|]. intros k Hin. rewrite He. cbn [fst].
    destruct (decide (k = ToLower e.2)) as [->|Hne]; [|rewrite lookup_insert_ne by done; auto].
    right. exists e.1, e.2, v. split; [rewrite <- surjective_pairing; apply Hl; by left|]. rewrite lookup_insert_eq. done. }
  destruct (IH _ H1 ltac:(intros; apply Hl; by right) H3) as (G1 & G2 & G3). by rewrite <- H2.
Qed.

Lemma strip_lookup cfg c k : ctx_wf c -> k <> ":path" -> k <> "cookie" ->
  Blocked (stripToken cfg c) = Blocked c /\
  ((effective (stripToken cfg c)).1 !! k = (effective c).1 !! k \/ (effective (stripToken cfg c)).1 !! k = None).
Proof.
  intros Hc Hp Hk. unfold stripToken. destruct (StripToken cfg); cbn [negb]; [|by auto].
  destruct (String.eqb (ToLower (Source cfg)) "query"); [|destruct (String.eqb (ToLower (Source cfg)) "cookie")].
  - destruct (String.eqb _ _); [by auto|]. unfold SetPath. set (p := removeQueryParam _ _).
    destruct (SetHeaderUpstream_spec (c <| Path := p |>) ":path" p Hc) as [_ He]. split; [done|]. left.
    etrans; [exact (f_equal (fun x => x.1 !! k) He)|]. cbn [fst]. by rewrite lookup_insert_ne.
  - destruct (removeCookie _ _) as [cookies [|]]; [|by auto]. destruct (String.eqb cookies "").
    + destruct (RemoveHeaderUpstream_spec c "cookie" Hc) as [_ He]. split; [done|]. left. rewrite He. cbn [fst]. by rewrite lookup_delete_ne.
    + destruct (SetHeaderUpstream_spec c "cookie" cookies Hc) as [_ He]. split; [done|]. left. rewrite He. cbn [fst]. by rewrite lookup_insert_ne.
  - destruct (RemoveHeaderUpstream_spec c (HeaderName cfg) Hc) as [_ He]. split; [done|]. rewrite He. cbn [fst].
    destruct (decide (k = ToLower (HeaderName cfg))) as [->|]; [right; apply lookup_delete_eq|left; by rewrite lookup_delete_ne].
Qed.

Lemma strip_other cfg c k : ctx_wf c -> k <> ":path" -> k <> "cookie" -> k <> ToLower (HeaderName cfg) ->
  (effective (stripToken cfg c)).1 !! k = (effective c).1 !! k.
Proof.
  intros Hc Hp Hk Hh. unfold stripToken. destruct (StripToken cfg); cbn [negb]; [|done].
  destruct (String.eqb (ToLower (Source cfg)) "query"); [|destruct (String.eqb (ToLower (Source cfg)) "cookie")].
  - destruct (String.eqb _ _); [done|]. unfold SetPath. set (p := removeQueryParam _ _).
    destruct (SetHeaderUpstream_spec (c <| Path := p |>) ":path" p Hc) as [_ He].
    etrans; [exact (f_equal (fun x => x.1 !! k) He)|]. cbn [fst]. by rewrite lookup_insert_ne.
  - destruct (removeCookie _ _) as [cookies [|]]; [|done]. destruct (String.eqb cookies "").
    + destruct (RemoveHeaderUpstream_spec c "cookie" Hc) as [_ He]. rewrite He. cbn [fst]. by rewrite lookup_delete_ne.
    + destruct (SetHeaderUpstream_spec c "cookie" cookies Hc) as [_ He]. rewrite He. cbn [fst]. by rewrite lookup_insert_ne.
  - destruct (RemoveHeaderUpstream_spec c (HeaderName cfg) Hc) as [_ He]. rewrite He. cbn [fst]. by rewrite lookup_delete_ne.
Qed.

(** Injecting leaves the headers that are not mapped. *)
Lemma inject_other ff claims l c k : ctx_wf c -> k ∉ ToLower <$> l.*2 ->
  (effective (fold_left (inject_claim ff claims) l c)).1 !! k = (effective c).1 !! k.
Proof.
  revert c. induction l as [|e l IH]; intros c Hc Hk; [done|]. cbn in Hk. apply not_elem_of_cons in Hk as [Hne Hk]. cbn [fold_left].
  unfold inject_claim at 2. destruct (map_get claims e.1) as [v|]; [|by apply IH]. destruct (String.eqb _ ""); [by apply IH|].
  destruct (SetHeaderUpstream_spec c e.2 (claimString ff v) Hc) as [Hw He].
  rewrite (IH _ Hw Hk), He. cbn [fst]. by rewrite lookup_insert_ne.
Qed.

(** A claim that prints to something is in its header. *)
Lemma inject_delivers ff claims l c name h v : ctx_wf c -> NoDup (ToLower <$> l.*2) -> (name, h) ∈ l -> map_get claims name = Some v ->
  claimString ff v <> "" -> (effective (fold_left (inject_claim ff claims) l c)).1 !! ToLower h = Some (claimString ff v).
Proof.
  revert c. induction l as [|e l IH]; intros c Hc Hnd Hin Hv Hne; [by apply elem_of_nil in Hin|]. cbn in Hnd.
  apply NoDup_cons in Hnd as [Hni Hnd]. cbn [fold_left]. apply elem_of_cons in Hin as [<-|Hin].
  - assert (inject_claim ff claims c (name, h) = SetHeaderUpstream c h (claimString ff v)) as ->.
    { unfold inject_claim. cbn [fst snd]. rewrite Hv. by destruct (String.eqb_spec (claimString ff v) ""). }
    destruct (SetHeaderUpstream_spec c h (claimString ff v) Hc) as [Hw He]. rewrite inject_other by done. rewrite He. apply lookup_insert_eq.
  - apply IH; [|done..]. unfold inject_claim. destruct (map_get claims e.1) as [u|]; [|done]. destruct (String.eqb _ ""); [done|].
    by apply SetHeaderUpstream_spec.
Qed.

Lemma removed_other l c k : ctx_wf c -> k ∉ ToLower <$> l.*2 ->
  (effective (fold_left (fun c (e : string * string) => RemoveHeaderUpstream c e.2) l c)).1 !! k = (effective c).1 !! k.
Proof.
  revert c. induction l as [|e l IH]; intros c Hc Hk; [done|]. cbn in Hk. apply not_elem_of_cons in Hk as [Hne Hk]. cbn [fold_left].
  destruct (RemoveHeaderUpstream_spec c e.2 Hc) as [Hw He]. rewrite (IH _ Hw Hk), He. cbn [fst]. by rewrite lookup_delete_ne.
Qed.

(** The request carries the token as a bearer credential in the configured header. *)
Definition bears (cfg : Config) (c : RequestContext) (t : string) : Prop :=
  ToLower (Source cfg) <> "query" /\ ToLower (Source cfg) <> "cookie" /\ ~ (HeaderName cfg ∈ (ToLower <$> (ClaimMappings cfg).*2)) /\
  t <> "" /\ TrimSpace t = t /\ (TrimSpace ("Bearer " +++ t) = "Bearer " +++ t)%go /\
  (effective c).1 !! HeaderName cfg = Some ("Bearer " +++ t)%go.

Lemma extractToken_bears unescape cfg l c t : ctx_wf c -> (forall k, k ∈ l.*2 -> k ∈ (ClaimMappings cfg).*2) -> bears cfg c t ->
  extractToken unescape cfg (fold_left (fun c (e : string * string) => RemoveHeaderUpstream c e.2) l c) = t.
Proof.
  intros Hc Hl (Hq & Hk & Hm & Hne & Ht & Hb & Hh). unfold extractToken. apply String.eqb_neq in Hq as ->. apply String.eqb_neq in Hk as ->.
  rewrite GetHeader_effective, removed_other, Hh; [|done|].
  - change (default "" (Some ("Bearer " +++ t)%go)) with ("Bearer " +++ t)%go. rewrite Hb. destruct t as [|a t]; [done|]. exact Ht.
  - intros (k & Ek & Hin)%list_elem_of_fmap. apply Hm. rewrite Ek. apply list_elem_of_fmap. eauto.
Qed.

Lemma challenge_spec c m b : Blocked (challenge c m b) = true /\ ResponseStatus (challenge c m b) = 401%Z.
Proof. done. Qed.

Lemma keeps_up c k v : keeps c (SetHeaderUpstream c k v).
Proof. exact (keeps_call c (CallSetUp k v)). Qed.
Lemma keeps_remove c k : keeps c (RemoveHeaderUpstream c k).
Proof. exact (keeps_call c (CallRemoveUp k)). Qed.
Lemma keeps_set_down c k v : keeps c (SetHeaderDownstream c k v).
Proof. exact (keeps_call c (CallSetDown k v)). Qed.

Lemma strip_keeps cfg c : keeps c (stripToken cfg c).
Proof.
  unfold stripToken. destruct (negb _); [done|]. destruct (String.eqb _ "query"); [|destruct (String.eqb _ "cookie")].
  - destruct (String.eqb _ _); [done|]. unfold SetPath. etrans; [|apply keeps_up]. by apply keeps_other.
  - destruct (removeCookie _ _) as [cookies [|]]; [|done]. destruct (String.eqb cookies ""); [apply keeps_remove|apply keeps_up].
  - apply keeps_remove.
Qed.

#[export] Instance Execute_ok {K : Type} jwt_parse jwk_fetch (meanwhile : @KeyState K -> @KeyState K) new_request introspection ff un o1 o2 cfg :
  FilterOk (Execute jwt_parse jwk_fetch meanwhile new_request introspection ff un o1 o2 cfg).
Proof.
  intros c w err c' w'. unfold Execute. set (c0 := fold_left _ (o1 _) c).
  assert (keeps c c0) as H0.
  { unfold c0. apply (fold_left_inv (keeps c)); [done|]. intros b e Hb. etrans; [exact Hb|apply keeps_remove]. }
  destruct (decide_token _ _ _ _ _ _ _ _ _) as [[claims| |m b] s]; intros [= <- <- <-]; (etrans; [exact H0|]).
  - etrans; [|apply strip_keeps]. apply (fold_left_inv (keeps c0)); [done|]. intros b e Hb. etrans; [exact Hb|].
    unfold inject_claim. destruct (map_get _ _) as [v|]; [|done]. destruct (String.eqb _ ""); [done|]. apply keeps_up.
  - apply strip_keeps.
  - unfold challenge. etrans; [|apply keeps_set_down]. etrans; [|apply keeps_set_down]. by apply keeps_other.
Qed.

(** ** Properties *)

(** C34: identity headers come from authenticated tokens only. Whatever headers the
    client sends, the filter either answers 401, and then the request had no token
    or one that neither verifies under the key the filter holds nor is called active by
    introspection; or lets the request go on, and then every mapped header the upstream
    sees is absent or the printed claim of a token that verified under a trusted key
    (with the configured issuer and audience) or that introspection called active: the
    endpoint answered 200 with claims whose active is true and whose issuer and audience,
    where given, are the configured ones. With [fail_open] and an introspection endpoint
    that does not answer or fails (500 and above) no claim header is passed at all. No
    claim carries control characters into a header. Where no two claims are mapped to one
    header, every mapped claim the token has is in its header. A bearer credential in the
    configured header, when no claim is mapped onto it, is the token that is judged.
    Headers mapped to :path, cookie or, for the last clause, the token's own header, which
    the removal of the token rewrites, are left out. *)
Theorem jwt_headers_authentic {K : Type} (jwt_parse : @KeyMaterial K -> string -> string -> Z -> string -> result (GoMap Claim))
  (jwk_fetch : Z -> result K) (meanwhile : @KeyState K -> @KeyState K) (new_request : string -> bool)
  (introspection : string -> result (Z * result (GoMap Claim))) (ff : spec_float -> string) (unescape : string -> option string)
  (order1 order2 : GoMap string -> GoMap string) (cfg : Config) (c c' : RequestContext) (now : Z) (s : @KeyState K)
  (err : option string) (w' : Z * @KeyState K) :
  (forall m, Permutation (order1 m) m) -> (forall m, Permutation (order2 m) m) -> ctx_wf c -> Blocked c = false ->
  Execute jwt_parse jwk_fetch meanwhile new_request introspection ff unescape order1 order2 cfg c (now, s) = (err, c', w') ->
  let token := extractToken unescape cfg (fold_left (fun c e => RemoveHeaderUpstream c e.2) (order1 (ClaimMappings cfg)) c) in
  err = None /\ (forall t, bears cfg c t -> token = t) /\
  ((Blocked c' = true /\ ResponseStatus c' = 401%Z /\
    (token = "" \/
     (forall key claims, held_key cfg s key -> jwt_parse key (Issuer cfg) (Audience cfg) now token <> Ok claims) /\
     (IntrospectionEndpoint cfg = "" \/ new_request (IntrospectionEndpoint cfg) = false \/
      forall claims, ~ called_active introspection cfg token claims))) \/
   (Blocked c' = false /\ token <> "" /\ exists claims,
      (authentic jwt_parse jwk_fetch meanwhile introspection cfg now s token claims \/
       claims = [] /\ FailOpen cfg = true /\ unavailable introspection token) /\
      (forall k, k ∈ ToLower <$> (ClaimMappings cfg).*2 -> k <> ":path" -> k <> "cookie" ->
        from_claims ff (ClaimMappings cfg) claims ((effective c').1 !! k) k /\
        forall v, (effective c').1 !! k = Some v -> string_all (fun x => negb (control_byte x)) v = true) /\
      (NoDup (ToLower <$> (ClaimMappings cfg).*2) -> forall name h v, (name, h) ∈ ClaimMappings cfg -> map_get claims name = Some v ->
        claimString ff v <> "" -> ToLower h ∉ [":path"; "cookie"; ToLower (HeaderName cfg)] ->
        (effective c').1 !! ToLower h = Some (claimString ff v)))).
Proof.
  intros Ho1 Ho2 Hc Hb He. cbv zeta. unfold Execute in He. cbn [fst snd] in He.
  destruct (removed_headers_spec (order1 (ClaimMappings cfg)) c Hc) as (Hw0 & Hb0 & Hgone). cbv zeta in *.
  set (c0 := fold_left _ _ c) in *. set (token := extractToken unescape cfg c0) in *.
  pose proof (decide_token_authentic jwt_parse jwk_fetch meanwhile new_request introspection cfg now token s) as Hd.
  destruct (decide_token _ _ _ _ _ _ _ _ _) as [d s'] eqn:Ed. cbn [fst] in Hd.
  assert (forall c1 claims, ctx_wf c1 -> (forall k, k ∈ ToLower <$> (ClaimMappings cfg).*2 ->
      from_claims ff (ClaimMappings cfg) claims ((effective c1).1 !! k) k) ->
    forall k, k ∈ ToLower <$> (ClaimMappings cfg).*2 -> k <> ":path" -> k <> "cookie" ->
      from_claims ff (ClaimMappings cfg) claims ((effective (stripToken cfg c1)).1 !! k) k /\
      forall v, (effective (stripToken cfg c1)).1 !! k = Some v -> string_all (fun x => negb (control_byte x)) v = true) as Hstrip.
  { intros c1 claims Hw1 Hall k Hk Hp Hck. assert (from_claims ff (ClaimMappings cfg) claims ((effective (stripToken cfg c1)).1 !! k) k) as Hf.
    { destruct (strip_lookup cfg c1 k Hw1 Hp Hck) as [_ [->| ->]]; [by apply Hall|by left]. }
    split; [done|]. intros v Hv. rewrite Hv in Hf. destruct Hf as [?|(? & ? & ? & _ & _ & _ & [= ->])]; [done|]. apply claimString_no_control. }
  assert (forall k, k ∈ ToLower <$> (ClaimMappings cfg).*2 -> (effective c0).1 !! k = None) as Hnone by (intros k Hk; apply Hgone; by rewrite Ho1).
  assert (forall c1, ctx_wf c1 -> Blocked (stripToken cfg c1) = Blocked c1) as Hsb
    by (intros c1 Hw1; by apply (strip_lookup cfg c1 "x" Hw1)).
  assert (token = "" -> exists m b, d = Challenge m b) as Hempty.
  { intros Ht. unfold decide_token in Ed. rewrite Ht in Ed. cbn in Ed. injection Ed as <- _. eauto. }
  assert (forall t, bears cfg c t -> token = t) as Hbears.
  { intros t. apply extractToken_bears; [done|]. intros k. by rewrite Ho1. }
  destruct d as [claims| |m b]; injection He as <- <- _; (split; [done|]); (split; [done|]).
  - right. destruct (inject_all_spec ff claims (ClaimMappings cfg) (order2 (ClaimMappings cfg)) c0 Hw0) as (Hw1 & Hb1 & Hf1).
    { intros e. by rewrite Ho2. } { intros k Hk. left. by apply Hnone. }
    rewrite (Hsb _ Hw1), Hb1, Hb0. split; [done|]. split; [intros Ht; by destruct (Hempty Ht) as (? & ? & ?)|].
    exists claims. split; [by left|]. split; [by apply Hstrip|]. intros Hnd name h v Hin Hv Hne Hout.
    apply not_elem_of_cons in Hout as [Hp [Hck Hh%not_elem_of_cons]%not_elem_of_cons]. rewrite strip_other by (done || apply Hh).
    eapply inject_delivers; [done| |by rewrite Ho2|done|done]. by rewrite Ho2.
  - right. rewrite (Hsb _ Hw0), Hb0. split; [done|]. split; [intros Ht; by destruct (Hempty Ht) as (? & ? & ?)|].
    exists []. split; [by right|]. split; [|done]. apply Hstrip; [done|]. intros k Hk. left. by apply Hnone.
  - left. split; [done|]. split; [done|]. unfold decide_token in Ed. destruct (String.eqb_spec token ""); [by left|right].
    pose proof (validateJWT_held jwt_parse jwk_fetch meanwhile cfg now token s) as Hheld.
    destruct (validateJWT _ _ _ _ _ _ _) as [[|e] ?]; [done|].
    split; [intros key claims Hk Hp'; by specialize (Hheld key claims Hk Hp')|].
    destruct (String.eqb_spec (IntrospectionEndpoint cfg) ""); [by left|right].
    destruct (new_request (IntrospectionEndpoint cfg)) eqn:En; [right|by left]. intros claims.
    destruct (introspect _ _ _ _) eqn:Ei; [done|]. by eapply introspect_refused.
Qed.

(** ** Examples *)

Definition example_cfg : Config :=
  mkConfig "header" "authorization" "" "" "" 0 "s3cret" "" "HS256" "idp" "" [("sub", "x-user"); ("role", "x-role")] "" "" "" 0 false true.
Definition example_parse (key : @KeyMaterial ()) (iss aud : string) (now : Z) (token : string) : result (GoMap Claim) :=
  match key with
  | SecretKey _ secret => if String.eqb secret "s3cret" && String.eqb iss "idp" && String.eqb token "good" then Ok [("sub", ClString "ana")] else Err "invalid"
  | KeySet _ => Err "no keys"
  end.
Definition example_ctx : RequestContext :=
  newContext <| Headers := {["authorization" := "Bearer good"; "x-user" := "root"; "x-role" := "admin"]} |>.
Definition example_run : option string * RequestContext * (Z * @KeyState ()) :=
  Execute example_parse (fun _ => Err "none") id (fun _ => false) (fun _ => Err "none") (fun _ => "0") Some id id example_cfg example_ctx
    (0%Z, mkKeyState None 0).

Definition example_token : string :=
  extractToken Some example_cfg (fold_left (fun c e => RemoveHeaderUpstream c e.2) (id (ClaimMappings example_cfg)) example_ctx).

Lemma example_wf : ctx_wf example_ctx.
Proof. apply newContext_wf. Qed.

Lemma example_run_eq :
  Execute example_parse (fun _ => Err "none") id (fun _ => false) (fun _ => Err "none") (fun _ => "0") Some id id example_cfg example_ctx
    (0%Z, mkKeyState None 0) = (example_run.1.1, example_run.1.2, example_run.2).
Proof. unfold example_run. by destruct (Execute _ _ _ _ _ _ _ _ _ _ _ _) as [[err c'] w']. Qed.

Lemma example_run_out : Blocked example_run.1.2 = false /\ (effective example_run.1.2).1 !! "x-user" = Some "ana" /\
  (effective example_run.1.2).1 !! "x-role" = None.
Proof. vm_compute. repeat split. Qed.

(** Forged identity headers next to a good token. *)
Lemma jwt_headers_authentic_witness :
  Blocked example_run.1.2 = false /\ (effective example_run.1.2).1 !! "x-user" = Some "ana" /\
  (effective example_run.1.2).1 !! "x-role" = None /\ exists claims,
    authentic example_parse (fun _ => Err "none") id (fun _ => Err "none") example_cfg 0 (mkKeyState None 0) example_token claims.
Proof.
  destruct example_run_out as (Hb & Hu & Hr). split; [exact Hb|]. split; [exact Hu|]. split; [exact Hr|].
  destruct (jwt_headers_authentic example_parse (fun _ => Err "none") id (fun _ => false) (fun _ => Err "none") (fun _ => "0") Some id id
    example_cfg example_ctx example_run.1.2 0 (mkKeyState None 0) example_run.1.1 example_run.2 (fun m => Permutation_refl m)
    (fun m => Permutation_refl m) example_wf eq_refl example_run_eq) as (_ & _ & [(Hb' & _)|(_ & _ & claims & Ha & _)]); [congruence|].
  exists claims. destruct Ha as [Ha|(_ & Hf & _)]; [exact Ha|discriminate Hf].
Defined.

End Jwt.
