(* ===== verification/Sidecar.v ===== *)
(** * Sidecar: the filters that ask a sidecar (internal/filters/sidecar/sidecar.go,
    internal/filters/external_auth/external_auth.go,
    internal/filters/firewall/firewall.go, internal/config/filter_extauth.go and
    filter_firewall.go)

    The sidecar's answers are an oracle over its state; the world logs every
    exchange. HTTP header names are kept in lower case (net/http's canonical form
    is a function of it). *)

From S2P Require Import Prelude GoStrings GoTime Context Executor HeaderModifier.

Local Open Scope string_scope.
Local Open Scope list_scope.

Module Sidecar.

(** ** Configuration *)

Record AuthSuccessRules := mkSuccess { UpstreamHeadersToAdd : list string; UpstreamHeadersToRemove : list string }.
Record AuthFailureRules := mkFailure { DownstreamPassThroughHeaders : list string }.

Record ExternalAuthConfig := mkExternalAuth {
  eaProtocol : string; eaSocketPath : string; eaTimeout : string; eaTimeoutDuration : Z; eaPath : string;
  eaForwardHeaders : list string; eaOnSuccess : AuthSuccessRules; eaOnFailure : AuthFailureRules }.

Record FirewallFilterConfig := mkFirewall {
  fwProtocol : string; fwSocketPath : string; fwTimeout : string; fwTimeoutDuration : Z; InspectBody : bool; MaxBodySizeKB : Z;
  fwForwardHeaders : list string; fwOnSuccess : AuthSuccessRules; fwOnFailure : AuthFailureRules }.

Definition lower_success (r : AuthSuccessRules) : AuthSuccessRules :=
  mkSuccess (ToLower <$> UpstreamHeadersToAdd r) (ToLower <$> UpstreamHeadersToRemove r).
Definition lower_failure (r : AuthFailureRules) : AuthFailureRules := mkFailure (ToLower <$> DownstreamPassThroughHeaders r).

(** The protocol after normalisation, [d] when none is given. *)
Definition protocol_or (p d : string) : result string :=
  let p := ToLower p in
  if String.eqb p "" then Ok d
  else if negb (String.eqb p "http") && negb (String.eqb p "grpc") then Err "unsupported protocol" else Ok p.

Definition timeout_or_2s (timeout : string) : Z :=
  match ParseDuration timeout with Some d => d | None => (2 * Second)%Z end.

(** [ParseExternalAuthConfig], from the value the YAML decoder yields. *)
Definition ParseExternalAuthConfig (cfg : ExternalAuthConfig) : result ExternalAuthConfig :=
  let? protocol := protocol_or (eaProtocol cfg) "http" in
  let timeout := if String.eqb (eaTimeout cfg) "" then "2s" else eaTimeout cfg in
  let path := if String.eqb (eaPath cfg) "" then "/"
              else if HasPrefix (eaPath cfg) "/" then eaPath cfg else ("/" +++ eaPath cfg)%go in
  Ok (mkExternalAuth protocol (eaSocketPath cfg) timeout (timeout_or_2s timeout) path (ToLower <$> eaForwardHeaders cfg)
        (lower_success (eaOnSuccess cfg)) (lower_failure (eaOnFailure cfg))).

Definition ParseFirewallFilterConfig (cfg : FirewallFilterConfig) : result FirewallFilterConfig :=
  let? protocol := protocol_or (fwProtocol cfg) "grpc" in
  let timeout := if String.eqb (fwTimeout cfg) "" then "2s" else fwTimeout cfg in
  Ok (mkFirewall protocol (fwSocketPath cfg) timeout (timeout_or_2s timeout) (InspectBody cfg)
        (if (MaxBodySizeKB cfg <=? 0)%Z then 1024%Z else MaxBodySizeKB cfg) (ToLower <$> fwForwardHeaders cfg)
        (lower_success (fwOnSuccess cfg)) (lower_failure (fwOnFailure cfg))).

(** ** sidecar.go *)

Definition hopByHop (k : string) : bool :=
  bool_decide (k ∈ ["connection"; "keep-alive"; "proxy-connection"; "transfer-encoding"; "te"; "trailer"; "upgrade";
                    "content-length"; "proxy-authorization"]).

Definition ForwardAll (l : list string) : bool :=
  match l with [] => true | _ => existsb (fun h => String.eqb h "*" || EqualFold h "all") l end.

Definition add_header (c : RequestContext) (out : gmap string string) (k : string) : gmap string string :=
  let k := ToLower k in
  if HasPrefix k ":" || hopByHop k then out
  else let v := GetHeader c k in if String.eqb v "" then out else <[k := v]> out.

Definition SelectHeaders (c : RequestContext) (l : list string) : gmap string string :=
  fold_left (add_header c)
    (if ForwardAll l then (map_to_list (Headers c)).*1 ++ (map_to_list (UpstreamShadow c)).*1 else l) ∅.

(** An outgoing HTTP request. *)
Record HttpRequest := mkHttpRequest {
  hrMethod : string; hrUrl : string; hrHeader : gmap string string; hrHost : string; hrBody : option string }.
#[export] Instance HttpRequest_eta : Eta HttpRequest := fun x =>
  mkHttpRequest (hrMethod x) (hrUrl x) (hrHeader x) (hrHost x) (hrBody x).

Definition set_header (k v : string) (req : HttpRequest) : HttpRequest := req <| hrHeader := <[ToLower k := v]> (hrHeader req) |>.

Definition SetHTTPHeaders (headers : gmap string string) (req : HttpRequest) : HttpRequest :=
  fold_left (fun req e => if hopByHop e.1 || String.eqb e.1 "host" then req else set_header e.1 e.2 req) (map_to_list headers) req.

Definition header_or (c : RequestContext) (k d : string) : string :=
  let v := default "" (Headers c !! k) in if String.eqb v "" then d else v.

Definition SetForwardedRequest (c : RequestContext) (req : HttpRequest) : HttpRequest :=
  let host := header_or c ":authority" (default "" (Headers c !! "host")) in
  let scheme := header_or c ":scheme" "http" in
  let req := set_header "X-Forwarded-Method" (Method c) req in
  let req := set_header "X-Forwarded-Uri" (Path c) req in
  let req := set_header "X-Forwarded-Proto" scheme req in
  let req := set_header "X-Original-Method" (Method c) req in
  let req := set_header "X-Original-Uri" (Path c) req in
  let req := if String.eqb host "" then req
             else set_header "X-Original-Url" (scheme +++ "://" +++ host +++ Path c)%go (set_header "X-Forwarded-Host" host req) in
  if String.eqb (ClientIP c) "" then req
  else set_header "X-Real-Ip" (ClientIP c) (set_header "X-Forwarded-For" (ClientIP c) req).

(** ** What the sidecar answers *)

(** An HTTP response: the values of each header, and the body as far as it can
    be read. *)
Record HttpResponse := mkHttpResponse { StatusCode : Z; rHeader : GoMap (list string); rBody : string }.

(** ext_authz: a header with its raw value and its value. *)
Record GrpcHeader := mkGrpcHeader { gKey : string; gRawValue : string; gValue : string }.
Record CheckRequest := mkCheckRequest {
  crId : string; crMethod : string; crPath : string; crHost : string; crScheme : string; crHeaders : gmap string string;
  crSource : option string }.
Record DeniedResponse := mkDenied { dnCode : Z; dnBody : string; dnHeaders : list GrpcHeader }.
Record CheckResponse := mkCheckResponse { ckCode : Z; ckOk : option (list GrpcHeader); ckDenied : option DeniedResponse }.

(** ext_proc messages. *)
Inductive ProcMsg : Type :=
| ProcHeaders (headers : list (string * string))
| ProcBody (body : string).
Record HeaderMutation := mkMutation { SetHeaders : list (string * string); RemoveHeaders : list string }.
Inductive ProcReply : Type :=
| Immediate (code : option Z) (body : string) (headers : option HeaderMutation)
| ForHeaders (m : option HeaderMutation)
| ForBody (m : option HeaderMutation)
| OtherReply.

(** One exchange with a sidecar, and how it went: a failure of an ext_proc stream
    to open, to send or to receive is an [Err] in its place. *)
Inductive Exchange : Type :=
| ExHttp (req : HttpRequest) (resp : result HttpResponse)
| ExCheck (req : CheckRequest) (resp : result CheckResponse)
| ExProc (opened : bool) (steps : list (ProcMsg * result ProcReply)).

Definition success (status : Z) : bool := (200 <=? status)%Z && (status <? 300)%Z.

Section Filters.
Context {S : Type}.
(** The sidecar: HTTP, ext_authz Check, and ext_proc (open a stream; send a message
    on it and receive the reply). [new_request] is whether net/http accepts the
    method and URL. *)
Variable http_do : HttpRequest -> S -> result HttpResponse * S.
Variable check : CheckRequest -> S -> result CheckResponse * S.
Variable proc_open : S -> bool * S.
Variable proc_send : ProcMsg -> S -> result ProcReply * S.
Variable new_request : string -> string -> bool.

Record World := mkWorld { sidecar : S; asked : list Exchange }.

Definition log (w : World) (s : S) (e : Exchange) : World := mkWorld s (asked w ++ [e]).

Definition InternalError (c : RequestContext) : RequestContext := Block c 500 "Internal Server Error".

Definition first_value (resp : HttpResponse) (k : string) : option string :=
  match map_get (rHeader resp) (ToLower k) with Some (v :: _) => Some v | _ => None end.

(** [io.LimitReader(resp.Body, 16*1024)] *)
Definition relayed_body (resp : HttpResponse) : string := take_string (Z.to_nat (16 * 1024)) (rBody resp).

Definition applySuccess (rules : AuthSuccessRules) (lookup : string -> option string) (c : RequestContext) : RequestContext :=
  let c := fold_left (fun c k => match lookup k with Some v => SetHeaderUpstream c k v | None => c end) (UpstreamHeadersToAdd rules) c in
  fold_left RemoveHeaderUpstream (UpstreamHeadersToRemove rules) c.

Definition applyFailure (rules : AuthFailureRules) (lookup : string -> option string) (c : RequestContext) : RequestContext :=
  fold_left (fun c k => match lookup k with Some v => SetHeaderDownstream c k v | None => c end) (DownstreamPassThroughHeaders rules) c.

(** ** external_auth *)

Definition headerValue (h : GrpcHeader) : string := if String.eqb (gRawValue h) "" then gValue h else gRawValue h.

Definition grpc_headers (l : list GrpcHeader) : GoMap string :=
  fold_left (fun m h => map_set m (ToLower (gKey h)) (headerValue h)) l [].

Definition auth_request (cfg : ExternalAuthConfig) (c : RequestContext) : HttpRequest :=
  SetForwardedRequest c (SetHTTPHeaders (SelectHeaders c (eaForwardHeaders cfg))
    (mkHttpRequest "GET" ("http://localhost" +++ eaPath cfg)%go ∅ "" None)).

Definition auth_executeHTTP (cfg : ExternalAuthConfig) : Exec World := fun c w =>
  if negb (new_request "GET" ("http://localhost" +++ eaPath cfg)%go) then (None, InternalError c, w)
  else
    let req := auth_request cfg c in
    let '(resp, s) := http_do req (sidecar w) in
    let w := log w s (ExHttp req resp) in
    match resp with
    | Err _ => (None, InternalError c, w)
    | Ok resp =>
        if success (StatusCode resp) then (None, applySuccess (eaOnSuccess cfg) (first_value resp) c, w)
        else (None, applyFailure (eaOnFailure cfg) (first_value resp)
                      (Block c (StatusCode resp) (relayed_body resp)), w)
    end.

Definition check_request (cfg : ExternalAuthConfig) (c : RequestContext) : CheckRequest :=
  mkCheckRequest (GetHeader c "x-request-id") (Method c) (Path c) (header_or c ":authority" (default "" (Headers c !! "host")))
    (default "" (Headers c !! ":scheme")) (SelectHeaders c (eaForwardHeaders cfg))
    (if String.eqb (ClientIP c) "" then None else Some (ClientIP c)).

Definition auth_executeGRPC (cfg : ExternalAuthConfig) : Exec World := fun c w =>
  let req := check_request cfg c in
  let '(resp, s) := check req (sidecar w) in
  let w := log w s (ExCheck req resp) in
  match resp with
  | Err _ => (None, InternalError c, w)
  | Ok resp =>
      if (ckCode resp =? 0)%Z
      then (None, applySuccess (eaOnSuccess cfg) (map_get (grpc_headers (default [] (ckOk resp)))) c, w)
      else
        let '(status, body, hs) := match ckDenied resp with
                                   | Some d => (if (dnCode d =? 0)%Z then 403%Z else dnCode d, dnBody d, dnHeaders d)
                                   | None => (403%Z, "", [])
                                   end in
        (None, applyFailure (eaOnFailure cfg) (map_get (grpc_headers hs)) (Block c status body), w)
  end.

Definition auth_Execute (cfg : ExternalAuthConfig) : Exec World :=
  if EqualFold (eaProtocol cfg) "grpc" then auth_executeGRPC cfg else auth_executeHTTP cfg.

(** ** firewall *)

(** The part of the body that is inspected, [None] when there is nothing to send. *)
Definition inspected_body (cfg : FirewallFilterConfig) (c : RequestContext) : option string :=
  if InspectBody cfg && negb (String.eqb (RequestBody c) "")
  then Some (take_string (Z.to_nat (MaxBodySizeKB cfg * 1024)) (RequestBody c)) else None.

Definition proc_headers (cfg : FirewallFilterConfig) (c : RequestContext) : list (string * string) :=
  [(":path", Path c); (":method", Method c)] ++
  omap (fun p => let v := default "" (Headers c !! p) in if String.eqb v "" then None else Some (p, v)) [":authority"; ":scheme"] ++
  map_to_list (SelectHeaders c (fwForwardHeaders cfg)).

Definition set_down (c : RequestContext) (l : list (string * string)) : RequestContext :=
  fold_left (fun c e => SetHeaderDownstream c e.1 e.2) l c.

Definition apply_immediate (code : option Z) (body : string) (headers : option HeaderMutation) (c : RequestContext) : RequestContext :=
  let status := match code with Some s => if (s =? 0)%Z then 403%Z else s | None => 403%Z end in
  let c := Block c status body in
  match headers with Some m => set_down c (SetHeaders m) | None => c end.

Definition apply_mutation (m : option HeaderMutation) (c : RequestContext) : RequestContext :=
  match m with
  | Some m => fold_left RemoveHeaderUpstream (RemoveHeaders m) (fold_left (fun c e => SetHeaderUpstream c e.1 e.2) (SetHeaders m) c)
  | None => c
  end.

(** The reply to the last message, when no immediate response came. *)
Definition apply_reply (r : ProcReply) (c : RequestContext) : RequestContext :=
  match r with ForHeaders m | ForBody m => apply_mutation m c | _ => c end.

Definition fw_executeGRPC (cfg : FirewallFilterConfig) : Exec World := fun c w =>
  let '(opened, s) := proc_open (sidecar w) in
  if negb opened then (None, InternalError c, log w s (ExProc false []))
  else
    let hmsg := ProcHeaders (proc_headers cfg c) in
    let '(r1, s) := proc_send hmsg s in
    match r1 with
    | Err _ => (None, InternalError c, log w s (ExProc true [(hmsg, r1)]))
    | Ok (Immediate code body headers) => (None, apply_immediate code body headers c, log w s (ExProc true [(hmsg, r1)]))
    | Ok reply =>
        match inspected_body cfg c with
        | None =>
            (None, fold_left RemoveHeaderUpstream (UpstreamHeadersToRemove (fwOnSuccess cfg)) (apply_reply reply c),
             log w s (ExProc true [(hmsg, r1)]))
        | Some b =>
            let bmsg := ProcBody b in
            let '(r2, s) := proc_send bmsg s in
            let w := log w s (ExProc true [(hmsg, r1); (bmsg, r2)]) in
            match r2 with
            | Err _ => (None, InternalError c, w)
            | Ok (Immediate code body headers) => (None, apply_immediate code body headers c, w)
            | Ok reply => (None, fold_left RemoveHeaderUpstream (UpstreamHeadersToRemove (fwOnSuccess cfg)) (apply_reply reply c), w)
            end
        end
    end.

Definition fw_method (c : RequestContext) : string := if String.eqb (Method c) "" then "GET" else Method c.
Definition fw_url (c : RequestContext) : string :=
  ("http://localhost" +++ (if HasPrefix (Path c) "/" then Path c else "/" +++ Path c))%go.

Definition fw_request (cfg : FirewallFilterConfig) (c : RequestContext) : HttpRequest :=
  let req := SetForwardedRequest c (SetHTTPHeaders (SelectHeaders c (fwForwardHeaders cfg))
               (mkHttpRequest (fw_method c) (fw_url c) ∅ "" (inspected_body cfg c))) in
  let host := default "" (Headers c !! ":authority") in
  if String.eqb host "" then req else req <| hrHost := host |>.

Definition fw_executeHTTP (cfg : FirewallFilterConfig) : Exec World := fun c w =>
  if negb (new_request (fw_method c) (fw_url c)) then (None, InternalError c, w)
  else
    let req := fw_request cfg c in
    let '(resp, s) := http_do req (sidecar w) in
    let w := log w s (ExHttp req resp) in
    match resp with
    | Err _ => (None, InternalError c, w)
    | Ok resp =>
        if success (StatusCode resp) then (None, applySuccess (fwOnSuccess cfg) (first_value resp) c, w)
        else (None, applyFailure (fwOnFailure cfg) (first_value resp)
                      (Block c (StatusCode resp) (relayed_body resp)), w)
    end.

Definition inspect (cfg : FirewallFilterConfig) : Exec World :=
  if EqualFold (fwProtocol cfg) "grpc" then fw_executeGRPC cfg else fw_executeHTTP cfg.

Definition fw_SupportedPhases (cfg : FirewallFilterConfig) : list Phase :=
  if InspectBody cfg then [PhaseRequestHeaders; PhaseRequestBody] else [PhaseRequestHeaders].

Definition fw_Execute (cfg : FirewallFilterConfig) : Exec World := fun c w =>
  if InspectBody cfg && negb (RequestEndOfStream c) && bool_decide (CPhase c = PhaseRequestHeaders)
  then (None, c <| RequestBodyRequired := true |>, w)
  else if bool_decide (CPhase c = PhaseRequestBody) && (negb (InspectBody cfg) || RequestEndOfStream c) then (None, c, w)
  else inspect cfg c w.

End Filters.
Arguments World : clear implicits.
Arguments sidecar {S}.
Arguments asked {S}.
Arguments mkWorld {S}.

(** ** What an exchange shows *)

(** The sidecar lets the request pass: a status of 2xx, a Check with code OK, or a
    stream on which every message was answered, none with an immediate response. *)
Definition passes (e : Exchange) : bool :=
  match e with
  | ExHttp _ (Ok r) => bool_decide (200 <= StatusCode r < 300)%Z
  | ExCheck _ (Ok r) => bool_decide (ckCode r = 0%Z)
  | ExProc true steps => nonempty steps && forallb (fun s => match s.2 with Ok (Immediate _ _ _) => false | Ok _ => true | Err _ => false end) steps
  | _ => false
  end.

(** Headers that belong to one connection. *)
Definition connection_headers : list string :=
  ["connection"; "keep-alive"; "proxy-connection"; "te"; "trailer"; "transfer-encoding"; "upgrade"; "content-length"; "proxy-authorization"].

(** An empty list, or one with "*" or "all", names every header. *)
Definition names_all (l : list string) : Prop := l = [] \/ "*" ∈ l \/ exists h, h ∈ l /\ EqualFold h "all" = true.

(** The headers a sidecar is shown: those in effect that may be forwarded. *)
Definition forwardable (c : RequestContext) (l : list string) (k v : string) : Prop :=
  (effective c).1 !! k = Some v /\ v <> "" /\ HasPrefix k ":" = false /\ ~ (k ∈ connection_headers) /\
  (names_all l \/ k ∈ ToLower <$> l).

(** Headers of an HTTP exchange the filter writes itself. *)
Definition own_headers : list string :=
  ["x-forwarded-method"; "x-forwarded-uri"; "x-forwarded-proto"; "x-original-method"; "x-original-uri"; "x-forwarded-host";
   "x-original-url"; "x-forwarded-for"; "x-real-ip"; "host"].

Definition shows (c : RequestContext) (l : list string) (e : Exchange) : Prop :=
  match e with
  | ExHttp req _ =>
      hrHeader req !! "x-original-method" = Some (Method c) /\ hrHeader req !! "x-original-uri" = Some (Path c) /\
      forall k v, is_lower k -> k ∉ own_headers -> hrHeader req !! k = Some v <-> forwardable c l k v
  | ExCheck req _ => crMethod req = Method c /\ crPath req = Path c /\
      forall k v, is_lower k -> crHeaders req !! k = Some v <-> forwardable c l k v
  | ExProc opened steps => opened = true -> exists hs r rest, steps = (ProcHeaders hs, r) :: rest /\
      (":method", Method c) ∈ hs /\ (":path", Path c) ∈ hs /\
      forall k v, is_lower k -> HasPrefix k ":" = false -> (k, v) ∈ hs <-> forwardable c l k v
  end.

(** The part of the body a firewall has to look at: all of it up to the configured size. *)
Definition to_inspect (cfg : FirewallFilterConfig) (c : RequestContext) (shown : option string) : Prop :=
  match shown with
  | Some b => InspectBody cfg = true /\ RequestBody c <> "" /\ exists rest, RequestBody c = (b +++ rest)%go /\
      Z.of_nat (String.length b) = Z.min (Z.of_nat (String.length (RequestBody c))) (MaxBodySizeKB cfg * 1024)
  | None => InspectBody cfg = false \/ RequestBody c = ""
  end.

(** The body an exchange shows. An ext_proc stream that the sidecar or a failure ends at
    the headers shows none. *)
Definition shows_body (wanted : option string -> Prop) (e : Exchange) : Prop :=
  match e with
  | ExHttp req _ => wanted (hrBody req)
  | ExProc _ steps => passes e = true -> exists hs r,
      (steps = [(ProcHeaders hs, r)] /\ wanted None) \/ (exists b r', steps = [(ProcHeaders hs, r); (ProcBody b, r')] /\ wanted (Some b))
  | ExCheck _ _ => True
  end.

(** The status of the answer to a request that does not pass: the sidecar's, 403 when it
    gives none, 500 when the exchange failed. *)
Definition refusal_status (e : Exchange) : Z :=
  match e with
  | ExHttp _ (Ok r) => StatusCode r
  | ExCheck _ (Ok r) => match ckDenied r with Some d => if decide (dnCode d = 0%Z) then 403%Z else dnCode d | None => 403%Z end
  | ExProc true steps =>
      match last steps with
      | Some (_, Ok (Immediate (Some code) _ _)) => if decide (code = 0%Z) then 403%Z else code
      | Some (_, Ok (Immediate None _ _)) => 403%Z
      | _ => 500%Z
      end
  | _ => 500%Z
  end.

(** ** Lemmas *)

Definition selectable (c : RequestContext) (k : string) : bool :=
  negb (HasPrefix k ":" || hopByHop k || String.eqb (GetHeader c k) "").

Lemma add_header_lookup c out k k' :
  add_header c out k !! k' = if bool_decide (k' = ToLower k) && selectable c k' then Some (GetHeader c k') else out !! k'.
Proof.
  unfold add_header, selectable. case_bool_decide as E; cbn [andb].
  - subst. destruct (_ || _); [done|]. destruct (String.eqb _ ""); [done|]. apply lookup_insert_eq.
  - destruct (_ || _); [done|]. destruct (String.eqb _ ""); [done|]. by rewrite lookup_insert_ne.
Qed.

Lemma select_keys c (l : list string) out k :
  fold_left (add_header c) l out !! k =
  if bool_decide (k ∈ ToLower <$> l) && selectable c k then Some (GetHeader c k) else out !! k.
Proof.
  revert out. induction l as [|x l IH]; intros out; [done|]. cbn [fold_left]. rewrite IH, add_header_lookup.
  destruct (selectable c k); rewrite ?andb_false_r, ?andb_true_r; [|done].
  assert (bool_decide (k ∈ ToLower <$> x :: l) = bool_decide (k = ToLower x) || bool_decide (k ∈ ToLower <$> l)) as ->.
  { rewrite <- bool_decide_or. apply bool_decide_ext. cbn. by rewrite elem_of_cons. }
  by destruct (bool_decide (k = ToLower x)), (bool_decide (k ∈ ToLower <$> l)).
Qed.

(** A header in effect is one Envoy sent or one a filter set. *)
Lemma effective_key c k v : (effective c).1 !! k = Some v -> k ∈ (map_to_list (Headers c)).*1 ++ (map_to_list (UpstreamShadow c)).*1.
Proof.
  unfold effective. cbn [fst]. rewrite lookup_in_effect. cbn. intros H. apply elem_of_app. rewrite !list_elem_of_fmap.
  destruct (UpstreamShadow c !! k) as [x|] eqn:E; [right; exists (k, x)|left; exists (k, v)]; (split; [done|]); apply elem_of_map_to_list; [done|].
  by destruct (decide _).
Qed.

Lemma hopByHop_spec k : hopByHop k = true <-> k ∈ connection_headers.
Proof. unfold hopByHop, connection_headers. rewrite bool_decide_eq_true, !elem_of_cons. naive_solver. Qed.
Lemma hopByHop_false k : hopByHop k = false <-> k ∉ connection_headers.
Proof. rewrite <- hopByHop_spec. by destruct (hopByHop k). Qed.

Lemma ForwardAll_spec l : ForwardAll l = true <-> names_all l.
Proof.
  unfold names_all. destruct l as [|x l]; [naive_solver|]. unfold ForwardAll. rewrite existsb_elem. split.
  - intros (h & Hh & E). apply orb_true_iff in E as [E|E]; [apply String.eqb_eq in E; subst; auto|eauto 6].
  - intros [?|[H|(h & Hh & E)]]; [done|exists "*"; by rewrite String.eqb_refl|exists h]. rewrite E. split; [done|]. apply orb_true_r.
Qed.

Lemma SelectHeaders_spec c l k v : is_lower k -> SelectHeaders c l !! k = Some v <-> forwardable c l k v.
Proof.
  intros Hl. unfold SelectHeaders, forwardable. rewrite <- hopByHop_false, <- ForwardAll_spec, select_keys, lookup_empty. unfold selectable. rewrite GetHeader_effective.
  assert (forall v, (effective c).1 !! k = Some v -> k ∈ ToLower <$> (map_to_list (Headers c)).*1 ++ (map_to_list (UpstreamShadow c)).*1) as Hin.
  { intros x Hx. apply list_elem_of_fmap. exists k. split; [by rewrite Hl|]. by eapply effective_key. }
  assert (bool_decide (k ∈ ToLower <$> (if ForwardAll l then (map_to_list (Headers c)).*1 ++ (map_to_list (UpstreamShadow c)).*1 else l)) = true <->
    (if ForwardAll l then k ∈ ToLower <$> (map_to_list (Headers c)).*1 ++ (map_to_list (UpstreamShadow c)).*1 else k ∈ ToLower <$> l)) as Hb
    by (rewrite bool_decide_eq_true; by destruct (ForwardAll l)).
  destruct (bool_decide _); cbn [andb].
  - destruct (HasPrefix k ":"), (hopByHop k); cbn [orb negb]; try (split; [done|by intros (_ & _ & ? & ? & _)]).
    destruct ((effective c).1 !! k) as [x|]; cbn; [|split; [done|by intros [? _]]].
    destruct (String.eqb_spec x ""); cbn [negb]; [split; [done|by intros ([= ->] & ? & _)]|].
    split; [intros [= ->]|by intros ([= ->] & _)]. split; [done|]. split; [done|]. split; [done|]. split; [done|].
    destruct (ForwardAll l); [by left|right; by apply Hb].
  - split; [done|]. intros (H1 & _ & _ & _ & H2). exfalso. assert (false = true) as [=]. apply Hb.
    destruct (ForwardAll l); [by eapply Hin|]. by destruct H2.
Qed.

Lemma SelectHeaders_keys c l k v : SelectHeaders c l !! k = Some v -> is_lower k /\ hopByHop k = false /\ HasPrefix k ":" = false.
Proof.
  unfold SelectHeaders. rewrite select_keys, lookup_empty. case_bool_decide as E; cbn [andb]; [|done].
  unfold selectable. destruct (HasPrefix k ":"), (hopByHop k); cbn; try done. intros _. split; [|done].
  apply list_elem_of_fmap in E as (x & -> & _). apply is_lower_ToLower.
Qed.

Lemma SetHTTPHeaders_lookup hs req k : (forall k v, hs !! k = Some v -> is_lower k /\ hopByHop k = false) -> k <> "host" ->
  hrHeader (SetHTTPHeaders hs req) !! k = match hs !! k with Some v => Some v | None => hrHeader req !! k end.
Proof.
  intros Hk Hh. unfold SetHTTPHeaders. rewrite <- (list_to_map_to_list hs) at 2. pose proof (NoDup_fst_map_to_list hs) as Hnd.
  assert (Forall (fun e => is_lower e.1 /\ hopByHop e.1 = false) (map_to_list hs)) as Hf.
  { apply Forall_forall. intros [x v] Hin%elem_of_map_to_list. by apply (Hk x v). }
  revert req Hnd Hf. generalize (map_to_list hs) as l. clear hs Hk.
  induction l as [|[x v] l IH]; intros req Hnd Hf; [cbn; by rewrite lookup_empty|]. cbn [fold_left fst snd list_to_map foldr].
  apply NoDup_cons in Hnd as [Hx Hnd]. apply Forall_cons in Hf as [[Hlow Hhop] Hf]. cbn in Hx, Hlow, Hhop. rewrite Hhop. cbn [orb].
  rewrite IH by done. destruct (decide (k = x)) as [->|Hne].
  - rewrite lookup_insert_eq, (not_elem_of_list_to_map_1 l x) by done. apply String.eqb_neq in Hh. rewrite Hh. cbn. rewrite Hlow. apply lookup_insert_eq.
  - rewrite lookup_insert_ne by done. destruct (list_to_map l !! k); [done|]. destruct (String.eqb x "host"); [done|]. cbn. rewrite Hlow.
    by rewrite lookup_insert_ne.
Qed.

Lemma set_header_ne n v req k : ToLower n ∈ own_headers -> k ∉ own_headers -> hrHeader (set_header n v req) !! k = hrHeader req !! k.
Proof. intros Hn Hk. cbn. rewrite lookup_insert_ne; [done|]. intros E. apply Hk. by rewrite <- E. Qed.

Lemma SetForwardedRequest_lookup c req k : k ∉ own_headers -> hrHeader (SetForwardedRequest c req) !! k = hrHeader req !! k.
Proof.
  intros Hk. unfold SetForwardedRequest. set (host := header_or _ _ _). set (scheme := header_or _ _ _).
  destruct (String.eqb (ClientIP c) ""), (String.eqb host "");
    repeat (rewrite set_header_ne; [|by (vm_compute; repeat constructor)|done]); done.
Qed.

(** The request line, for a sidecar behind HTTP. *)
Lemma SetForwardedRequest_line c req :
  hrHeader (SetForwardedRequest c req) !! "x-original-method" = Some (Method c) /\
  hrHeader (SetForwardedRequest c req) !! "x-original-uri" = Some (Path c).
Proof.
  unfold SetForwardedRequest. set (host := header_or _ _ _). set (scheme := header_or _ _ _).
  destruct (String.eqb (ClientIP c) ""), (String.eqb host ""); split; unfold set_header; cbn -[lookup insert];
    repeat (rewrite lookup_insert_ne by done); by rewrite lookup_insert_eq.
Qed.

(** What the requests show. *)
Lemma http_shows c l m u body req resp :
  hrHeader req = hrHeader (SetForwardedRequest c (SetHTTPHeaders (SelectHeaders c l) (mkHttpRequest m u ∅ "" body))) ->
  shows c l (ExHttp req resp).
Proof.
  intros E. unfold shows. rewrite E. split; [apply SetForwardedRequest_line|]. split; [apply SetForwardedRequest_line|].
  intros k v Hl Hk. rewrite SetForwardedRequest_lookup, SetHTTPHeaders_lookup; [..|done].
  - cbn [hrHeader]. rewrite lookup_empty, <- SelectHeaders_spec by done. by destruct (SelectHeaders c l !! k).
  - intros x y (H1 & H2 & _)%SelectHeaders_keys. done.
  - intros ->. apply Hk. vm_compute. repeat constructor.
Qed.

Lemma proc_shows cfg c r rest : shows c (fwForwardHeaders cfg) (ExProc true ((ProcHeaders (proc_headers cfg c), r) :: rest)).
Proof.
  intros _. exists (proc_headers cfg c), r, rest. split; [done|].
  split; [unfold proc_headers; set_solver|]. split; [unfold proc_headers; set_solver|]. intros k v Hl Hp. rewrite <- SelectHeaders_spec by done.
  unfold proc_headers. rewrite !elem_of_app, elem_of_map_to_list. split; [|auto].
  assert (forall p x, (k, v) = (p, x) -> HasPrefix p ":" = true -> False) as Hno by (intros p x [= -> ->]; congruence).
  intros [Hin|[Hin|?]]; [| |done]; exfalso.
  - rewrite !elem_of_cons, elem_of_nil in Hin. destruct Hin as [E|[E|[]]]; by eapply Hno.
  - apply list_elem_of_omap in Hin as (p & Hin & E). destruct (String.eqb _ ""); [done|]. injection E as <- _.
    rewrite !elem_of_cons, elem_of_nil in Hin. by destruct Hin as [->|[->|[]]].
Qed.

Lemma http_body c hs req : hrBody (SetForwardedRequest c (SetHTTPHeaders hs req)) = hrBody req.
Proof.
  unfold SetForwardedRequest, SetHTTPHeaders. set (r := fold_left _ _ req).
  assert (hrBody r = hrBody req) as Hr.
  { unfold r. apply (fold_left_inv (fun x => hrBody x = hrBody req)); [done|]. intros x e Hx. by destruct (_ || _). }
  by destruct (String.eqb (ClientIP c) ""), (String.eqb (header_or c ":authority" _) "").
Qed.

Lemma take_string_prefix n s : exists rest, s = (take_string n s +++ rest)%go /\
  String.length (take_string n s) = Nat.min n (String.length s).
Proof.
  revert s. induction n as [|n IH]; intros s; [by exists s|]. destruct s as [|a s]; [by exists ""|].
  destruct (IH s) as (rest & E & El). exists rest. cbn. by rewrite El, <- E.
Qed.

Lemma inspected_body_spec cfg c : (0 <= MaxBodySizeKB cfg)%Z -> to_inspect cfg c (inspected_body cfg c).
Proof.
  intros Hm. unfold inspected_body. destruct (InspectBody cfg) eqn:Ei; cbn [andb]; [|by left].
  destruct (String.eqb_spec (RequestBody c) ""); cbn [negb]; [by right|]. split; [done|]. split; [done|].
  destruct (take_string_prefix (Z.to_nat (MaxBodySizeKB cfg * 1024)) (RequestBody c)) as (rest & E & El).
  exists rest. split; [done|]. rewrite El. lia.
Qed.

(** *** Verdicts *)

(** Whether the request is blocked, and the status of the answer. *)
Definition verdict (c : RequestContext) : bool * Z := (Blocked c, ResponseStatus c).

Lemma fold_verdict {A : Type} (f : RequestContext -> A -> RequestContext) l c :
  (forall c a, verdict (f c a) = verdict c) -> verdict (fold_left f l c) = verdict c.
Proof. intros Hf. revert c. induction l as [|a l IH]; intros c; cbn [fold_left]; [done|]. by rewrite IH, Hf. Qed.

Lemma applySuccess_verdict rules lookup c : verdict (applySuccess rules lookup c) = verdict c.
Proof. unfold applySuccess. rewrite !fold_verdict; [done| |done]. intros c0 k. by destruct (lookup k). Qed.
Lemma applyFailure_verdict rules lookup c st b : verdict (applyFailure rules lookup (Block c st b)) = (true, st).
Proof. unfold applyFailure. rewrite fold_verdict; [done|]. intros c0 k. by destruct (lookup k). Qed.
Lemma apply_immediate_verdict code body hs c :
  verdict (apply_immediate code body hs c) = (true, match code with Some s => if (s =? 0)%Z then 403%Z else s | None => 403%Z end).
Proof. unfold apply_immediate. destruct hs as [m|]; [|done]. unfold set_down. by rewrite fold_verdict. Qed.
Lemma apply_reply_verdict rules r c : verdict (fold_left RemoveHeaderUpstream rules (apply_reply r c)) = verdict c.
Proof. rewrite fold_verdict by done. destruct r as [| [m|] | [m|] |]; cbn [apply_reply apply_mutation]; rewrite ?fold_verdict; done. Qed.

Section Verdicts.
Context {S : Type}.
Variable http_do : HttpRequest -> S -> result HttpResponse * S.
Variable check : CheckRequest -> S -> result CheckResponse * S.
Variable proc_open : S -> bool * S.
Variable proc_send : ProcMsg -> S -> result ProcReply * S.
Variable new_request : string -> string -> bool.

(** The replies of a stream are those the sidecar gave to its messages, in turn. *)
Fixpoint streamed (steps : list (ProcMsg * result ProcReply)) (s s' : S) : Prop :=
  match steps with
  | [] => s' = s
  | (m, r) :: steps => exists s1, proc_send m s = (r, s1) /\ streamed steps s1 s'
  end.

(** The exchange took place: its replies are the sidecar's own. *)
Definition genuine (e : Exchange) (s s' : S) : Prop :=
  match e with
  | ExHttp req resp => http_do req s = (resp, s')
  | ExCheck req resp => check req s = (resp, s')
  | ExProc opened steps => exists s1, proc_open s = (opened, s1) /\ streamed steps s1 s'
  end.

(** A call that could be made is answered by one genuine exchange, which shows the
    request; it blocks exactly when the exchange does not pass, and then with the status
    of the refusal. When net/http accepts no such request, it answers 500. *)
Definition binding (possible : bool) (c : RequestContext) (l : list string) (body : option string -> Prop) (w : World S)
  (out : option string * RequestContext * World S) : Prop :=
  let '(err, c', w') := out in
  err = None /\
  if possible
  then exists e, asked w' = asked w ++ [e] /\ genuine e (sidecar w) (sidecar w') /\ shows c l e /\ shows_body body e /\
         Blocked c' = negb (passes e) /\ (passes e = false -> ResponseStatus c' = refusal_status e)
  else w' = w /\ c' = InternalError c.

(** Whether a request can be made: always over gRPC, else when net/http accepts it. *)
Definition auth_possible (cfg : ExternalAuthConfig) : bool :=
  EqualFold (eaProtocol cfg) "grpc" || new_request "GET" ("http://localhost" +++ eaPath cfg)%go.
Definition fw_possible (cfg : FirewallFilterConfig) (c : RequestContext) : bool :=
  EqualFold (fwProtocol cfg) "grpc" || new_request (fw_method c) (fw_url c).

Lemma verdict_binding (c' : RequestContext) (b : bool) st e : verdict c' = (negb b, st) -> passes e = b ->
  (b = false -> st = refusal_status e) -> Blocked c' = negb (passes e) /\ (passes e = false -> ResponseStatus c' = refusal_status e).
Proof. intros [= -> ->] -> H. done. Qed.

Lemma success_decide st : success st = bool_decide (200 <= st < 300)%Z.
Proof. unfold success. case_bool_decide; lia. Qed.

Lemma auth_binding cfg c w : Blocked c = false ->
  binding (auth_possible cfg) c (eaForwardHeaders cfg) (eq None) w (auth_Execute http_do check new_request cfg c w).
Proof.
  intros Hb. unfold auth_Execute, auth_possible. destruct (EqualFold _ _); cbn [orb].
  - unfold auth_executeGRPC. destruct (check _ _) as [resp s] eqn:Ec.
    assert (shows c (eaForwardHeaders cfg) (ExCheck (check_request cfg c) resp)) as Hs
      by (split; [done|]; split; [done|]; intros k v Hl; by apply SelectHeaders_spec).
    destruct resp as [resp|e]; [|split; [done|]; eexists; split; [done|]; split; [exact Ec|]; done].
    destruct (Z.eqb_spec (ckCode resp) 0) as [E|E].
    + split; [done|]. eexists. split; [done|]. split; [exact Ec|]. split; [done|]. split; [done|].
      apply (verdict_binding _ true (ResponseStatus c)); [by rewrite applySuccess_verdict; unfold verdict; rewrite Hb|by apply bool_decide_eq_true|done].
    + destruct (match ckDenied resp with Some d => _ | None => _ end) as [[st body] hs] eqn:Ed.
      split; [done|]. eexists. split; [done|]. split; [exact Ec|]. split; [done|]. split; [done|].
      apply (verdict_binding _ false st); [apply applyFailure_verdict|by apply bool_decide_eq_false|intros _].
      cbn. destruct (ckDenied resp) as [d|]; injection Ed as <- _ _; [|done]. destruct (Z.eqb_spec (dnCode d) 0), (decide (dnCode d = 0%Z)); done.
  - unfold auth_executeHTTP. destruct (new_request _ _); cbn [negb]; [|by split]. destruct (http_do _ _) as [resp s] eqn:Ec.
    assert (shows c (eaForwardHeaders cfg) (ExHttp (auth_request cfg c) resp)) as Hs by by eapply http_shows.
    assert (shows_body (eq None) (ExHttp (auth_request cfg c) resp)) as Hbody by (symmetry; apply http_body).
    destruct resp as [resp|e]; [|split; [done|]; eexists; split; [done|]; split; [exact Ec|]; done].
    rewrite success_decide. case_bool_decide as E; (split; [done|]; eexists; split; [done|]; split; [exact Ec|]; split; [done|]; split; [done|]).
    + apply (verdict_binding _ true (ResponseStatus c)); [by rewrite applySuccess_verdict; unfold verdict; rewrite Hb|by apply bool_decide_eq_true|done].
    + apply (verdict_binding _ false (StatusCode resp)); [apply applyFailure_verdict|by apply bool_decide_eq_false|done].
Qed.

Lemma fw_request_shows cfg c resp : shows c (fwForwardHeaders cfg) (ExHttp (fw_request cfg c) resp) /\
  hrBody (fw_request cfg c) = inspected_body cfg c.
Proof.
  unfold fw_request. destruct (String.eqb _ ""); (split; [by eapply http_shows|]).
  - apply http_body.
  - exact (http_body c _ (mkHttpRequest (fw_method c) (fw_url c) ∅ "" (inspected_body cfg c))).
Qed.

Lemma fw_http_binding cfg c w : Blocked c = false ->
  binding (new_request (fw_method c) (fw_url c)) c (fwForwardHeaders cfg) (eq (inspected_body cfg c)) w (fw_executeHTTP http_do new_request cfg c w).
Proof.
  intros Hb. unfold fw_executeHTTP. destruct (new_request _ _); cbn [negb]; [|by split]. destruct (http_do _ _) as [resp s] eqn:Ec.
  destruct (fw_request_shows cfg c resp) as [Hs Hbd]. symmetry in Hbd.
  destruct resp as [resp|e]; [|split; [done|]; eexists; split; [done|]; split; [exact Ec|]; done].
  rewrite success_decide. case_bool_decide as E; (split; [done|]; eexists; split; [done|]; split; [exact Ec|]; split; [done|]; split; [done|]).
  - apply (verdict_binding _ true (ResponseStatus c)); [by rewrite applySuccess_verdict; unfold verdict; rewrite Hb|by apply bool_decide_eq_true|done].
  - apply (verdict_binding _ false (StatusCode resp)); [apply applyFailure_verdict|by apply bool_decide_eq_false|done].
Qed.

(** An immediate response gives the status of the refusal. *)
Lemma immediate_status steps m code body hs :
  match code with Some s => if (s =? 0)%Z then 403%Z else s | None => 403%Z end =
  refusal_status (ExProc true (steps ++ [(m, Ok (Immediate code body hs))])).
Proof. cbn. rewrite last_snoc. destruct code as [s|]; [|done]. destruct (Z.eqb_spec s 0), (decide (s = 0%Z)); done. Qed.

(** The body message of a stream whose first reply was no verdict. *)
Lemma fw_body_binding cfg c w s s1 reply b : Blocked c = false -> proc_open (sidecar w) = (true, s) ->
  proc_send (ProcHeaders (proc_headers cfg c)) s = (Ok reply, s1) -> match reply with Immediate _ _ _ => False | _ => True end ->
  inspected_body cfg c = Some b ->
  binding true c (fwForwardHeaders cfg) (eq (inspected_body cfg c)) w
    (let '(r2, s2) := proc_send (ProcBody b) s1 in
     let w' := log w s2 (ExProc true [(ProcHeaders (proc_headers cfg c), Ok reply); (ProcBody b, r2)]) in
     match r2 with
     | Err _ => (None, InternalError c, w')
     | Ok (Immediate code body headers) => (None, apply_immediate code body headers c, w')
     | Ok reply => (None, fold_left RemoveHeaderUpstream (UpstreamHeadersToRemove (fwOnSuccess cfg)) (apply_reply reply c), w')
     end).
Proof.
  intros Hb Eo E1 Hr Hi. destruct (proc_send (ProcBody b) s1) as [r2 s2] eqn:E2. set (hmsg := ProcHeaders (proc_headers cfg c)) in *.
  set (e := ExProc true [(hmsg, Ok reply); (ProcBody b, r2)]).
  assert (genuine e (sidecar w) s2) as Hg by (exists s; split; [done|]; exists s1; split; [done|]; by exists s2).
  assert (shows c (fwForwardHeaders cfg) e) as Hs by apply proc_shows.
  assert (shows_body (eq (inspected_body cfg c)) e) as Hsb by (intros _; eexists _, _; right; eexists _, _; done).
  assert (forall c', verdict c' = (negb (passes e), ResponseStatus c') -> (passes e = false -> ResponseStatus c' = refusal_status e) ->
    binding true c (fwForwardHeaders cfg) (eq (inspected_body cfg c)) w (None, c', log w s2 e)) as Hfin
    by (intros c' [= Hv] Hst; split; [done|]; exists e; done).
  assert (forall reply', r2 = Ok reply' -> match reply' with Immediate _ _ _ => False | _ => True end -> passes e = true) as Hpass
    by (intros reply' -> ?; unfold e; cbn; by destruct reply, reply').
  cbv zeta. destruct r2 as [[code body hs|m|m|]|e'].
  - pose proof (apply_immediate_verdict code body hs c) as Hv. assert (passes e = false) as Hp by (unfold e; cbn; by destruct reply).
    unfold verdict in Hv. injection Hv as Hv1 Hv2. apply Hfin; [unfold verdict; by rewrite Hv1, Hp|]. intros _. rewrite Hv2. exact (immediate_status [_] _ _ _ _).
  - apply Hfin; rewrite (Hpass _ eq_refl I); [|done]. rewrite apply_reply_verdict. unfold verdict. rewrite Hb. f_equal.
    by injection (apply_reply_verdict (UpstreamHeadersToRemove (fwOnSuccess cfg)) (ForHeaders m) c).
  - apply Hfin; rewrite (Hpass _ eq_refl I); [|done]. rewrite apply_reply_verdict. unfold verdict. rewrite Hb. f_equal.
    by injection (apply_reply_verdict (UpstreamHeadersToRemove (fwOnSuccess cfg)) (ForBody m) c).
  - apply Hfin; rewrite (Hpass _ eq_refl I); [|done]. rewrite apply_reply_verdict. unfold verdict. rewrite Hb. f_equal.
    by injection (apply_reply_verdict (UpstreamHeadersToRemove (fwOnSuccess cfg)) OtherReply c).
  - assert (passes e = false) as Hp by (unfold e; cbn; by destruct reply). apply Hfin; [by rewrite Hp|done].
Qed.

Lemma fw_grpc_binding cfg c w : Blocked c = false ->
  binding true c (fwForwardHeaders cfg) (eq (inspected_body cfg c)) w (fw_executeGRPC proc_open proc_send cfg c w).
Proof.
  intros Hb. assert (forall rules r, verdict (fold_left RemoveHeaderUpstream rules (apply_reply r c)) = (negb true, ResponseStatus c)) as Hpass
    by (intros; rewrite apply_reply_verdict; unfold verdict; by rewrite Hb).
  unfold fw_executeGRPC. destruct (proc_open _) as [opened s] eqn:Eo.
  destruct opened; cbn [negb]; [|split; [done|]; eexists; split; [done|]; split; [by exists s|]; done].
  set (hmsg := ProcHeaders (proc_headers cfg c)). destruct (proc_send hmsg s) as [r1 s1] eqn:E1.
  assert (genuine (ExProc true [(hmsg, r1)]) (sidecar w) s1) as Hg1 by (exists s; split; [done|]; by exists s1).
  assert (forall rest, shows c (fwForwardHeaders cfg) (ExProc true ((hmsg, r1) :: rest))) as Hs by (intros; apply proc_shows).
  destruct r1 as [reply|e]; [|split; [done|]; eexists; split; [done|]; split; [exact Hg1|]; split; [apply Hs|done]].
  destruct reply as [code body hs|m|m|];
    [split; [done|]; eexists; split; [done|]; split; [exact Hg1|]; split; [apply Hs|]; split; [done|];
     eapply (verdict_binding _ false); [apply apply_immediate_verdict|done|intros _; exact (immediate_status [] hmsg code body hs)]|..];
    (destruct (inspected_body cfg c) as [b|] eqn:Ei;
     [|split; [done|]; eexists; split; [done|]; split; [exact Hg1|]; split; [apply Hs|]; split; [intros _; eexists _, _; by left|];
       apply (verdict_binding _ true (ResponseStatus c)); [apply Hpass|done|done]]);
    rewrite <- Ei; by eapply fw_body_binding.
Qed.

Lemma inspect_binding cfg c w : Blocked c = false -> (0 <= MaxBodySizeKB cfg)%Z ->
  binding (fw_possible cfg c) c (fwForwardHeaders cfg) (to_inspect cfg c) w (inspect http_do proc_open proc_send new_request cfg c w).
Proof.
  intros Hb Hm. assert (forall p out, binding p c (fwForwardHeaders cfg) (eq (inspected_body cfg c)) w out ->
    binding p c (fwForwardHeaders cfg) (to_inspect cfg c) w out) as Hweak.
  { intros p [[err c'] w']. unfold binding. intros [-> H]. split; [done|]. destruct p; [|done].
    destruct H as (e & Ha & Hg & Hs & Hsb & Hv). exists e. do 3 (split; [done|]). split; [|done].
    pose proof (inspected_body_spec cfg c Hm) as Hi. destruct e as [req resp|req resp|opened steps]; cbn in *; [by rewrite <- Hsb|done|].
    intros Hp. destruct (Hsb Hp) as (hs & r & [[-> E]|(b & r' & -> & E)]); exists hs, r; rewrite E in Hi; eauto 6. }
  apply Hweak. unfold inspect, fw_possible. destruct (EqualFold _ _); cbn [orb]; [by apply fw_grpc_binding|by apply fw_http_binding].
Qed.

Lemma keeps_fold {A : Type} (f : RequestContext -> A -> RequestContext) l c :
  (forall c a, keeps c (f c a)) -> keeps c (fold_left f l c).
Proof. intros Hf. apply (fold_left_inv (keeps c)); [done|]. intros b a Hb. etrans; [exact Hb|apply Hf]. Qed.

Lemma keeps_set_upstream c k v : keeps c (SetHeaderUpstream c k v).
Proof. exact (keeps_call c (CallSetUp k v)). Qed.
Lemma keeps_remove_upstream c k : keeps c (RemoveHeaderUpstream c k).
Proof. exact (keeps_call c (CallRemoveUp k)). Qed.
Lemma keeps_set_downstream c k v : keeps c (SetHeaderDownstream c k v).
Proof. exact (keeps_call c (CallSetDown k v)). Qed.
Lemma keeps_block c st b : keeps c (Block c st b).
Proof. by apply keeps_other. Qed.

Lemma applySuccess_keeps rules lookup c : keeps c (applySuccess rules lookup c).
Proof.
  unfold applySuccess. etrans; [|apply keeps_fold, keeps_remove_upstream]. apply keeps_fold. intros c0 k.
  destruct (lookup k); [apply keeps_set_upstream|done].
Qed.
Lemma applyFailure_keeps rules lookup c st b : keeps c (applyFailure rules lookup (Block c st b)).
Proof.
  unfold applyFailure. etrans; [apply (keeps_block c st b)|]. apply keeps_fold. intros c0 k.
  destruct (lookup k); [apply keeps_set_downstream|done].
Qed.
Lemma apply_immediate_keeps code body hs c : keeps c (apply_immediate code body hs c).
Proof.
  unfold apply_immediate. etrans; [apply keeps_block|]. destruct hs as [m|]; [|done]. apply keeps_fold. intros c0 e. apply keeps_set_downstream.
Qed.
Lemma apply_mutation_keeps m c : keeps c (apply_mutation m c).
Proof.
  destruct m as [m|]; [|done]. etrans; [|apply keeps_fold, keeps_remove_upstream]. apply keeps_fold. intros c0 e. apply keeps_set_upstream.
Qed.
Lemma keeps_stripped c c' rules : keeps c c' -> keeps c (fold_left RemoveHeaderUpstream rules c').
Proof. intros H. etrans; [exact H|apply keeps_fold, keeps_remove_upstream]. Qed.

#[export] Instance auth_Execute_ok cfg : FilterOk (auth_Execute http_do check new_request cfg).
Proof.
  intros c w err c' w'. unfold auth_Execute. destruct (EqualFold _ _).
  - unfold auth_executeGRPC. destruct (check _ _) as [[resp|e] s]; [|intros [= _ <- _]; apply keeps_block].
    destruct (_ =? 0)%Z; [intros [= _ <- _]; apply applySuccess_keeps|].
    destruct (match ckDenied resp with Some d => _ | None => _ end) as [[st b] hs]. intros [= _ <- _]. apply applyFailure_keeps.
  - unfold auth_executeHTTP. destruct (negb _); [intros [= _ <- _]; apply keeps_block|].
    destruct (http_do _ _) as [[resp|e] s]; [|intros [= _ <- _]; apply keeps_block].
    destruct (success _); intros [= _ <- _]; [apply applySuccess_keeps|apply applyFailure_keeps].
Qed.

#[export] Instance fw_Execute_ok cfg : FilterOk (fw_Execute http_do proc_open proc_send new_request cfg).
Proof.
  intros c w err c' w'. unfold fw_Execute. destruct (_ && _); [intros [= _ <- _]; by apply keeps_other|].
  destruct (_ && _); [by intros [= _ <- _]|]. unfold inspect. destruct (EqualFold _ _).
  - unfold fw_executeGRPC. destruct (proc_open _) as [opened s]. destruct (negb _); [intros [= _ <- _]; apply keeps_block|].
    destruct (proc_send _ s) as [[r1|e] s1]; [|intros [= _ <- _]; apply keeps_block].
    destruct r1; try (intros [= _ <- _]; apply apply_immediate_keeps);
      (destruct (inspected_body cfg c) as [b|]; [|intros [= _ <- _]; apply keeps_stripped; first [apply apply_mutation_keeps|done]]);
      (destruct (proc_send (ProcBody b) s1) as [[[]|e] s2]; intros [= _ <- _];
       first [apply keeps_block|apply apply_immediate_keeps|apply keeps_stripped, apply_mutation_keeps|by apply keeps_stripped]).
  - unfold fw_executeHTTP. destruct (negb _); [intros [= _ <- _]; apply keeps_block|].
    destruct (http_do _ _) as [[resp|e] s]; [|intros [= _ <- _]; apply keeps_block].
    destruct (success _); intros [= _ <- _]; [apply applySuccess_keeps|apply applyFailure_keeps].
Qed.

End Verdicts.

(** ** Properties *)

(** C36: a request passes a sidecar filter only on the sidecar's word. external_auth
    asks exactly once, with the method, the path and exactly the forwardable headers in
    effect (never a pseudo or connection header), and blocks unless the sidecar allows
    the request: a denial blocks with the sidecar's status (403 when it gives none), a
    failed exchange with 500. The firewall asks exactly once per request: in the header
    phase when it does not inspect bodies or there is none; otherwise it asks Envoy for
    the body there, and asks the sidecar in the body phase, showing it the headers and
    the body, as long as the body is or up to the configured size. Only over HTTP, and
    only when net/http accepts no request with that method and URL, nobody is asked and
    the answer is 500. The size is not negative, as [ParseFirewallFilterConfig] makes it. *)
Theorem sidecar_verdict_binding {S : Type} (http_do : HttpRequest -> S -> result HttpResponse * S)
  (check : CheckRequest -> S -> result CheckResponse * S) (proc_open : S -> bool * S)
  (proc_send : ProcMsg -> S -> result ProcReply * S) (new_request : string -> string -> bool) :
  (forall cfg c w, Blocked c = false ->
     binding http_do check proc_open proc_send (auth_possible new_request cfg) c (eaForwardHeaders cfg) (eq None) w
       (auth_Execute http_do check new_request cfg c w)) /\
  (forall cfg c cb w e1 c1 w1 e2 c2 w2,
     (0 <= MaxBodySizeKB cfg)%Z ->
     CPhase c = PhaseRequestHeaders -> CPhase cb = PhaseRequestBody -> RequestEndOfStream cb = RequestEndOfStream c ->
     Blocked c = false -> Blocked cb = false ->
     fw_Execute http_do proc_open proc_send new_request cfg c w = (e1, c1, w1) ->
     fw_Execute http_do proc_open proc_send new_request cfg cb w1 = (e2, c2, w2) ->
     if InspectBody cfg && negb (RequestEndOfStream c)
     then e1 = None /\ c1 = c <| RequestBodyRequired := true |> /\ w1 = w /\
          binding http_do check proc_open proc_send (fw_possible new_request cfg cb) cb (fwForwardHeaders cfg) (to_inspect cfg cb) w (e2, c2, w2)
     else binding http_do check proc_open proc_send (fw_possible new_request cfg c) c (fwForwardHeaders cfg) (to_inspect cfg c) w (e1, c1, w1) /\
          (e2, c2, w2) = (None, cb, w1)).
Proof.
  split; [intros; by apply auth_binding|]. intros cfg c cb w e1 c1 w1 e2 c2 w2 Hm Hp Hpb He Hb Hbb.
  unfold fw_Execute. rewrite Hp, Hpb, He. rewrite !bool_decide_eq_true_2, !bool_decide_eq_false_2 by done.
  rewrite (bool_decide_eq_true_2 (PhaseRequestBody = _)) by done. cbn [andb].
  pose proof (inspect_binding http_do check proc_open proc_send new_request cfg c w Hb Hm) as Hc.
  destruct (InspectBody cfg) eqn:Ei, (RequestEndOfStream c) eqn:Ee; cbn [andb negb orb]; intros H1 H2; rewrite ?andb_true_r, ?andb_false_r in H1, H2; cbn [andb] in H1, H2.
  - rewrite H1 in Hc. done.
  - injection H1 as <- <- <-. pose proof (inspect_binding http_do check proc_open proc_send new_request cfg cb w Hbb Hm) as Hcb.
    rewrite H2 in Hcb. done.
  - rewrite H1 in Hc. done.
  - rewrite H1 in Hc. done.
Qed.

(** A body-inspecting firewall over ext_proc whose sidecar refuses the body "evil",
    and a request that carries it. *)
Definition example_send (m : ProcMsg) (s : unit) : result ProcReply * unit :=
  (Ok (match m with ProcHeaders _ => ForHeaders None | ProcBody b => if String.eqb b "evil" then Immediate None "no" None else ForBody None end), s).
Definition example_fw : FirewallFilterConfig :=
  mkFirewall "grpc" "/run/waf.sock" "2s" (2 * Second) true 64 ["*"] (mkSuccess [] []) (mkFailure []).
Definition example_headers : RequestContext :=
  newContext <| Headers := {["x-a" := "1"; "connection" := "close"]} |> <| CPhase := PhaseRequestHeaders |>.
Definition example_body : RequestContext := example_headers <| CPhase := PhaseRequestBody |> <| RequestBody := "evil" |>.
Definition example_exec (c : RequestContext) (w : World unit) : option string * RequestContext * World unit :=
  fw_Execute (fun _ s => (Err "no HTTP", s)) (fun s => (true, s)) example_send (fun _ _ => true) example_fw c w.
Definition example_first : option string * RequestContext * World unit := example_exec example_headers (mkWorld () []).
Definition example_second : option string * RequestContext * World unit := example_exec example_body example_first.2.

Lemma example_exec_eq c w : example_exec c w = ((example_exec c w).1.1, (example_exec c w).1.2, (example_exec c w).2).
Proof. by destruct (example_exec c w) as [[e c'] w']. Qed.

Lemma example_blocked : Blocked example_second.1.2 = true /\ ResponseStatus example_second.1.2 = 403%Z.
Proof. vm_compute. by split. Qed.

Lemma sidecar_verdict_binding_witness :
  Blocked example_second.1.2 = true /\ ResponseStatus example_second.1.2 = 403%Z /\
  exists e, asked example_second.2 = [e] /\ shows example_body ["*"] e /\ passes e = false.
Proof.
  destruct example_blocked as [Hb Hs]. split; [exact Hb|]. split; [exact Hs|].
  destruct (sidecar_verdict_binding (fun _ s => (Err "no HTTP", s)) (fun _ s => (Err "no check", s)) (fun s => (true, s)) example_send (fun _ _ => true))
    as [_ H].
  destruct (H example_fw example_headers example_body (mkWorld () []) example_first.1.1 example_first.1.2 example_first.2
    example_second.1.1 example_second.1.2 example_second.2 ltac:(done) eq_refl eq_refl eq_refl eq_refl eq_refl
    (example_exec_eq example_headers (mkWorld () [])) (example_exec_eq example_body example_first.2))
    as (_ & _ & _ & _ & (e & Ha & _ & Hsh & _ & Hp & _)).
  exists e. split; [exact Ha|]. split; [exact Hsh|]. rewrite Hb in Hp. by destruct (passes e).
Defined.

End Sidecar.
