(* ===== verification/Factory.v ===== *)
(** * Factory: building filters from configuration (internal/filters/factory.go)

    [CreateFilter] decodes the options of a filter type, resolves its Redis service
    and calls the type's constructor. The filters of the other files run on worlds
    of their own; here they run on one engine world that holds the clock, the Redis
    databases and what each filter instance owns, each seen through a lens. The
    last part composes the factory with the policy manager and the server. *)

From S2P Require Import Prelude GoStrings GoTime Netip Identity Selector Context Executor Config Registry Policy GrpcServer Deny HeaderModifier Cors Correlation RateLimit RateScripts RateBuckets ApiKey Enricher Jwt Sidecar.
From Stdlib Require Import QArith.

Local Open Scope string_scope.
Local Open Scope list_scope.
Local Close Scope Q_scope.

Module Factory.
#[local] Existing Instance RateLimit.FilterOptions_eta.

(** ** Lenses *)

Section Lens.
Context {W V : Type}.

Record Lens := mkLens { view : W -> V; update : V -> W -> W }.

(** A filter of a part of the world, on the whole. *)
Definition on (l : Lens) (e : Exec V) : Exec W := fun c w =>
  let '(err, c, v) := e c (view l w) in (err, c, update l v w).

End Lens.
Arguments Lens : clear implicits.

Definition at_instance {A : Type} (f : nat -> A) (i : nat) (a : A) : nat -> A := fun n => if Nat.eqb n i then a else f n.

(** ** The engine's world *)

Section EngineWorld.
Context {R C L S K : Type}.

(** [ewRedis] by client; the rest by filter instance: the local caches of values and
    of exhausted limits, the executors' scripts, the JWT keys, the sidecars.
    [ewLogCounter] is the process's counter of log members, [ewSeed] feeds the
    identifier generators. *)
Record EngineWorld := mkEngineWorld {
  ewNow : Z; ewSeed : Z; ewNext : nat; ewRedis : nat -> R; ewValues : nat -> C; ewLimits : nat -> L;
  ewScripts : nat -> RateScripts.luaScript; ewLogCounter : Z; ewKeys : nat -> @Jwt.KeyState K;
  ewSidecars : nat -> Sidecar.World S }.
#[export] Instance EngineWorld_eta : Eta EngineWorld := fun x =>
  mkEngineWorld (ewNow x) (ewSeed x) (ewNext x) (ewRedis x) (ewValues x) (ewLimits x) (ewScripts x) (ewLogCounter x) (ewKeys x)
    (ewSidecars x).
End EngineWorld.
Arguments EngineWorld : clear implicits.

(** [yaml.Marshal] of the options, and [yaml.Unmarshal] into each options type; the
    sidecar filters decode the raw options themselves. *)
Record Codec := mkCodec {
  marshal : GoMap Value -> option string;
  apikey_of : string -> result ApiKey.APIKeyFilterConfig;
  enricher_of : string -> result Enricher.RedisMetadataEnricherConfig;
  limiter_of : string -> result RateLimit.FilterOptions;
  modifier_of : string -> result HeaderModifier.HeaderModifierConfig;
  deny_of : string -> result Deny.DenyFilterConfig;
  correlation_of : Correlation.CorrelationConfig -> string -> result Correlation.CorrelationConfig;
  extauth_of : GoMap Value -> result Sidecar.ExternalAuthConfig;
  firewall_of : GoMap Value -> result Sidecar.FirewallFilterConfig;
  cors_of : string -> result Cors.CorsConfig;
  jwt_of : string -> result Jwt.Config
}.

(** The libraries the filters call; the order of map iterations, the draws of
    [jitterRand] and what happens between two steps of a call are arbitrary. *)
Class Libs (S K F RE : Type) := mkLibs {
  regexp : string -> option Regex; regexp_submatch : string -> option RE; find_submatch : RE -> string -> list string;
  sha256_hex : string -> string; md5_hex : string -> string; gjson_get : string -> string -> option string;
  order : Z -> GoMap string -> GoMap string; generate : string -> Z -> string * Z; jitter : Z -> Z;
  sort_policies : list RateLimit.YamlDescriptor -> list RateLimit.YamlDescriptor; sha1_hex : string -> string;
  script_body : RateBuckets.ExecutorKind -> string;
  jwt_parse : @Jwt.KeyMaterial K -> string -> string -> Z -> string -> result (GoMap Jwt.Claim);
  jwk_fetch : Jwt.Config -> Z -> result K; meanwhile : @Jwt.KeyState K -> @Jwt.KeyState K; http_url : string -> bool;
  introspection : Jwt.Config -> string -> result (Z * result (GoMap Jwt.Claim)); format_float : SpecFloat.spec_float -> string;
  unescape : string -> option string; read_file : string -> result string;
  grpc_client : string -> bool; open_sidecar : string -> S;
  http_do : Sidecar.HttpRequest -> S -> result Sidecar.HttpResponse * S;
  check : Sidecar.CheckRequest -> S -> result Sidecar.CheckResponse * S;
  proc_open : S -> bool * S; proc_send : Sidecar.ProcMsg -> S -> result Sidecar.ProcReply * S;
  http_request : string -> string -> bool
}.

(** ** The factory *)

Section Factory.
Context {R C L S K F RE : Type} {ks : ApiKey.KeyStore R} {vc : ApiKey.ValueCache C} {rc : RateLimit.RedisCounters R} {lc : RateLimit.LocalCache L}
  {ln : RateBuckets.LuaNum F} {rlog : RateScripts.RedisScripts R (list (string * Z))} {rbucket : RateScripts.RedisScripts R (F * F)}
  {rwindow : RateScripts.RedisScripts R Z} {libs : Libs S K F RE}.
Variable codec : Codec.

Abbreviation EW := (EngineWorld R C L S K).

(** What the instances see of the world, and what they change of it. *)
Definition values_lens (i client : nat) : Lens EW (ApiKey.World R C) :=
  mkLens (fun w => ApiKey.mkWorld (ewValues w i) (ewNow w) (ewRedis w client))
    (fun v w => w <| ewValues := at_instance (ewValues w) i (ApiKey.wCache v) |>).
Definition keys_lens (i : nat) : Lens EW (Z * @Jwt.KeyState K) :=
  mkLens (fun w => (ewNow w, ewKeys w i)) (fun v w => w <| ewKeys := at_instance (ewKeys w) i v.2 |>).
Definition sidecar_lens (i : nat) : Lens EW (Sidecar.World S) :=
  mkLens (fun w => ewSidecars w i) (fun v w => w <| ewSidecars := at_instance (ewSidecars w) i v |>).
Definition seed_lens : Lens EW Z := mkLens ewSeed (fun v w => w <| ewSeed := v |>).

(** The executor of an instance on a client. *)
Definition executor (kind : RateBuckets.ExecutorKind) (opts : RateLimit.FilterOptions) (i client : nat) : RateLimit.Executor EW :=
  fun reqID ds cost w =>
    let t := ewNow w in
    let '(r, script, cache) := (ewRedis w client, ewScripts w i, ewLimits w i) in
    let keep := fun (r : R) (script : RateScripts.luaScript) (n : Z) (cache : option L) =>
      w <| ewRedis := at_instance (ewRedis w) client r |> <| ewScripts := at_instance (ewScripts w) i script |> <| ewLogCounter := n |>
        <| ewLimits := at_instance (ewLimits w) i (default (ewLimits w i) cache) |> in
    match kind with
    | RateBuckets.FixedWindow =>
        let '(d, (r, cache)) := RateLimit.fw_Evaluate opts t (jitter (ewSeed w)) ds cost (r, Some cache) in
        (d, keep r script (ewLogCounter w) cache)
    | RateBuckets.SlidingWindowCounter =>
        let '(d, (r, (script, cache))) := RateBuckets.sliding_Evaluate (F := F) opts t ds cost (r, (script, Some cache)) in
        (d, keep r script (ewLogCounter w) cache)
    | RateBuckets.Bucket k =>
        let '(d, (r, (script, cache))) := RateBuckets.bucket_Evaluate k opts t (fun _ => RateBuckets.nanos t) ds cost (r, (script, Some cache)) in
        (d, keep r script (ewLogCounter w) cache)
    | RateBuckets.SlidingWindowLog =>
        let '(d, (r, (script, n, cache))) :=
          RateScripts.log_Evaluate opts reqID t (t / Microsecond)%Z (fun _ => (t / Millisecond)%Z) ds (r, (script, ewLogCounter w, Some cache)) in
        (d, keep r script n cache)
    end.

(** A new instance, with a cache of its own. *)
Definition new_instance (w : EW) : nat * EW :=
  let i := ewNext w in
  (i, w <| ewNext := Datatypes.S i |> <| ewValues := at_instance (ewValues w) i ApiKey.vcache_empty |>
        <| ewLimits := at_instance (ewLimits w) i RateLimit.cache_empty |>).

Definition resolveRedis (lookup : option (string -> option nat)) (filterType service : string) : result nat :=
  match lookup with
  | None => Err (filterType +++ ": no redis services configured")%go
  | Some lookup =>
      match lookup service with
      | Some client => Ok client
      | None => Err (filterType +++ ": configured redis service not found")%go
      end
  end.

Abbreviation Created := (result (option (list Phase) * Exec EW) * EW)%type.
Definition refuse (w : EW) (e : string) : Created := (Err e, w).
(** Go on with a value, or refuse with the error. *)
Definition and_then {A : Type} (w : EW) (r : result A) (k : A -> Created) : Created :=
  match r with Ok a => k a | Err e => refuse w e end.

Definition create_apikey (opts : string) (lookup : option (string -> option nat)) (w : EW) : Created :=
  and_then w (let? cfg := apikey_of codec opts in ApiKey.ApplyDefaults cfg) (fun cfg =>
  and_then w (resolveRedis lookup "api_key" (ApiKey.akRedisService cfg)) (fun client =>
  let '(i, w) := new_instance w in
  (Ok (None, on (values_lens i client) (ApiKey.Execute sha256_hex md5_hex gjson_get order order cfg)), w))).

Definition create_enricher (opts : string) (lookup : option (string -> option nat)) (w : EW) : Created :=
  and_then w (enricher_of codec opts) (fun cfg =>
  and_then w (resolveRedis lookup "redis_metadata_enricher" (Enricher.eRedisService cfg)) (fun client =>
  and_then w (Enricher.NewRedisMetadataEnricherFilter regexp_submatch cfg) (fun f =>
  let '(i, w) := new_instance w in
  (Ok (None, on (values_lens i client) (Enricher.Execute find_submatch gjson_get f)), w)))).

(** The constructors sort the descriptors in place, so the filter sees them in that
    order too. *)
Definition create_limiter (opts : string) (lookup : option (string -> option nat)) (w : EW) : Created :=
  and_then w (limiter_of codec opts) (fun cfg =>
  let cfg := RateLimit.ApplyDefaults cfg in
  and_then w (resolveRedis lookup "embedded_rate_limiter" (RateLimit.RedisService cfg)) (fun client =>
  and_then w (RateBuckets.ResolveExecutor (RateLimit.Algorithm cfg) true cfg) (fun kind =>
  let cfg := cfg <| RateLimit.Descriptors := sort_policies (RateLimit.Descriptors cfg) |> in
  let '(i, w) := new_instance w in
  let body := script_body kind in
  let w := w <| ewScripts := at_instance (ewScripts w) i (RateScripts.mkLuaScript body (sha1_hex body)) |> in
  (Ok (None, RateLimit.Execute (RateLimit.NewRateLimiterFilter "embedded_rate_limiter" cfg (executor kind cfg i client))), w)))).

Definition create_correlation (opts : string) (w : EW) : Created :=
  let preset := Correlation.mkCorrelationConfig "" "" "" "" true true "" "" "" None in
  and_then w (let? cfg := correlation_of codec preset opts in Correlation.NewCorrelationFilter regexp cfg) (fun f =>
  (Ok (None, on seed_lens (Correlation.Execute (generate "uuidv4") (generate "uuidv7") (generate "xid") (generate "ulid") f)), w)).

(** [NewExternalAuthFilter] and [NewFirewallFilter]: only a gRPC client can fail. *)
Definition sidecar_client (protocol socket : string) : result () :=
  if EqualFold protocol "grpc" && negb (grpc_client socket) then Err "failed to dial gRPC UDS socket" else Ok tt.

Definition open_instance (socket : string) (w : EW) : nat * EW :=
  let '(i, w) := new_instance w in
  (i, w <| ewSidecars := at_instance (ewSidecars w) i (Sidecar.mkWorld (open_sidecar socket) []) |>).

Definition create_extauth (raw : GoMap Value) (w : EW) : Created :=
  and_then w (let? cfg := extauth_of codec raw in Sidecar.ParseExternalAuthConfig cfg) (fun cfg =>
  and_then w (sidecar_client (Sidecar.eaProtocol cfg) (Sidecar.eaSocketPath cfg)) (fun _ =>
  let '(i, w) := open_instance (Sidecar.eaSocketPath cfg) w in
  (Ok (None, on (sidecar_lens i) (Sidecar.auth_Execute http_do check http_request cfg)), w))).

Definition create_firewall (raw : GoMap Value) (w : EW) : Created :=
  and_then w (let? cfg := firewall_of codec raw in Sidecar.ParseFirewallFilterConfig cfg) (fun cfg =>
  and_then w (sidecar_client (Sidecar.fwProtocol cfg) (Sidecar.fwSocketPath cfg)) (fun _ =>
  let '(i, w) := open_instance (Sidecar.fwSocketPath cfg) w in
  (Ok (Some (Sidecar.fw_SupportedPhases cfg), on (sidecar_lens i) (Sidecar.fw_Execute http_do proc_open proc_send http_request cfg)), w))).

Definition create_jwt (opts : string) (w : EW) : Created :=
  and_then w (jwt_of codec opts) (fun cfg =>
  and_then w (Jwt.NewFilter (jwk_fetch cfg) read_file cfg (ewNow w)) (fun '(cfg, keys) =>
  let '(i, w) := new_instance w in
  let w := w <| ewKeys := at_instance (ewKeys w) i keys |> in
  (Ok (Some Jwt.SupportedPhases,
       on (keys_lens i) (Jwt.Execute jwt_parse (jwk_fetch cfg) meanwhile http_url (introspection cfg) format_float unescape
                           (order 0) (order 0) cfg)), w))).

Definition CreateFilter (filterType : string) (rawOptions : GoMap Value) (lookup : option (string -> option nat)) (w : EW) : Created :=
  match marshal codec rawOptions with
  | None => refuse w "failed to marshal raw options"
  | Some opts =>
      if String.eqb filterType "api_key" then create_apikey opts lookup w
      else if String.eqb filterType "redis_metadata_enricher" then create_enricher opts lookup w
      else if String.eqb filterType "embedded_rate_limiter" then create_limiter opts lookup w
      else if String.eqb filterType "header_modifier" then
        and_then w (modifier_of codec opts) (fun cfg =>
          (Ok (None, HeaderModifier.Execute (HeaderModifier.NewHeaderModifierFilter cfg)), w))
      else if String.eqb filterType "deny" then
        and_then w (let? cfg := deny_of codec opts in Deny.NewDenyFilter regexp cfg) (fun f =>
          (Ok (Some (Deny.SupportedPhases f), Deny.Execute f), w))
      else if String.eqb filterType "correlation_id" then create_correlation opts w
      else if String.eqb filterType "external_auth" then create_extauth rawOptions w
      else if String.eqb filterType "firewall" then create_firewall rawOptions w
      else if String.eqb filterType "cors" then
        and_then w (let? cfg := cors_of codec opts in Cors.NewFilter regexp cfg) (fun f =>
          (Ok (Some Cors.SupportedPhases, Cors.Execute f), w))
      else if String.eqb filterType "jwt_auth" then create_jwt opts w
      else refuse w ("unknown filter type: " +++ filterType)%go
  end.

(** The factory as the policy manager holds it. *)
Definition newFilter (filterType : string) (rawOptions : GoMap Value) (lookup : string -> option nat) (w : EW) : Created :=
  CreateFilter filterType rawOptions (Some lookup) w.

End Factory.

(** ** Lemmas *)

Lemma on_ok {W V : Type} (l : Lens W V) (e : Exec V) : FilterOk e -> FilterOk (on l e).
Proof.
  intros He c w err c' w'. unfold on. destruct (e c (view l w)) as [[err1 c1] v] eqn:E. intros [= <- <- <-]. by apply He in E.
Qed.
#[local] Existing Instances on_ok ApiKey.Execute_ok Enricher.Execute_ok RateLimit.Execute_ok HeaderModifier.Execute_ok Deny.Execute_ok
  Correlation.Execute_ok Sidecar.auth_Execute_ok Sidecar.fw_Execute_ok Cors.Execute_ok Jwt.Execute_ok.

Section Laws.
Context {R C L S K F RE : Type} {ks : ApiKey.KeyStore R} {vc : ApiKey.ValueCache C} {rc : RateLimit.RedisCounters R} {lc : RateLimit.LocalCache L}
  {ln : RateBuckets.LuaNum F} {rlog : RateScripts.RedisScripts R (list (string * Z))} {rbucket : RateScripts.RedisScripts R (F * F)}
  {rwindow : RateScripts.RedisScripts R Z} {libs : Libs S K F RE}.
Variable codec : Codec.
Variable newRedis : option Z -> string -> RedisServiceConfig -> EngineWorld R C L S K -> result () * EngineWorld R C L S K.

Abbreviation EW := (EngineWorld R C L S K).

Definition created_ok (r : result (option (list Phase) * Exec EW) * EW) : Prop :=
  match r.1 with Ok f => FilterOk f.2 | Err _ => True end.

Lemma and_then_ok {A : Type} (w : EW) (r : result A) k : (forall a, r = Ok a -> created_ok (k a)) -> created_ok (and_then w r k).
Proof. destruct r; cbn; [auto|done]. Qed.

(** Every filter the factory returns keeps the contract of the server. *)
Lemma CreateFilter_ok ty raw lookup (w : EW) : created_ok (CreateFilter codec ty raw lookup w).
Proof.
  unfold CreateFilter. destruct (marshal codec raw) as [opts|]; [|done].
  unfold create_apikey, create_enricher, create_limiter, create_correlation, create_extauth, create_firewall, create_jwt.
  repeat match goal with
  | |- created_ok (if ?b then _ else _) => destruct b
  | |- created_ok (and_then _ _ _) => apply and_then_ok; intros ? _
  | |- created_ok (let '(_, _) := ?p in _) => destruct p
  end; unfold created_ok; cbn [fst snd]; try done; apply _.
Qed.

(** *** Policies of such filters *)

Definition fine (fs : GoMap (Filter EW)) : Prop := Forall (fun f => FilterOk (FilterExecute f)) fs.*2.
Definition build_fine (b : Build EW) : Prop := fine (nextFilters b) /\ Forall filters_ok (chains b).*2.

Lemma Forall_map_set {A : Type} (P : A -> Prop) (m : GoMap A) k v : Forall P m.*2 -> P v -> Forall P (map_set m k v).*2.
Proof.
  intros Hm Hv. apply Forall_forall. intros a (k' & H)%elem_of_values. apply map_set_elem in H as [[= _ ->]|H]; [done|].
  eapply (proj1 (Forall_forall _ _) Hm), elem_of_values; eauto.
Qed.

Lemma map_get_Forall {A : Type} (P : A -> Prop) (m : GoMap A) k v : Forall P m.*2 -> map_get m k = Some v -> P v.
Proof. intros Hm H%map_get_elem. eapply (proj1 (Forall_forall _ _) Hm), elem_of_values; eauto. Qed.

Lemma build_loop_fine {A : Type} (f : Build EW -> A -> Built) l b :
  (forall b a, build_fine b -> build_fine (f b a).1) -> build_fine b -> build_fine (build_loop f b l).1.
Proof.
  intros Hf. revert b. induction l as [|a l IH]; intros b Hb; cbn [build_loop]; [done|].
  apply (Hf b a) in Hb. destruct (f b a) as [b1 [e|]]; cbn [then_build fst] in *; auto.
Qed.

Lemma apply_redis_fine m b e : build_fine b -> build_fine (apply_redis newRedis m b e).1.
Proof. unfold apply_redis. destruct e. by repeat case_match. Qed.

Lemma apply_filter_fine m n b fc : fine (mFilters m) -> build_fine b ->
  build_fine (apply_filter (newFilter codec) (marshal codec) m n b fc).1.
Proof.
  intros Hm [Hf Hc]. unfold apply_filter. destruct (filterKey _ _ _) as [key|]; [|done].
  assert (forall b' f, nextFilters b' = nextFilters b -> chains b' = chains b -> FilterOk (FilterExecute f) ->
    build_fine (b' <| nextFilters := map_set (nextFilters b') key f |>
      <| chains := map_set (chains b') n (default [] (map_get (chains b') n) ++ [if fcAudit fc then Audit f else f]) |>)) as Hadd.
  { intros b' f E1 E2 Hok. split; cbn [nextFilters chains set_field]; [by apply Forall_map_set; rewrite ?E1|].
    rewrite E2. apply Forall_map_set; [done|]. apply Forall_app. split.
    - destruct (map_get (chains b) n) eqn:E; [by eapply map_get_Forall|constructor].
    - apply Forall_singleton. by destruct (fcAudit fc). }
  destruct (match map_get (nextFilters b) key with Some f => Some f | None => _ end) as [f|] eqn:E.
  - apply (Hadd b f); [done|done|]. destruct (map_get (nextFilters b) key) eqn:E'; [injection E as ->|].
    + exact (map_get_Forall (fun f => FilterOk (FilterExecute f)) _ _ _ Hf E').
    + exact (map_get_Forall (fun f => FilterOk (FilterExecute f)) _ _ _ Hm E).
  - unfold newFilter. pose proof (CreateFilter_ok (fcType fc) (fcOptions fc) (Some (redis_lookup b)) (bWorld b)) as Hok.
    destruct (CreateFilter codec _ _ _ _) as [[[phases exec]|err] w]; [|done].
    by apply (Hadd (b <| bWorld := w |> <| bAlloc := Datatypes.S (bAlloc b) |>
      <| createdFilters := createdFilters b ++ [Base (bAlloc b) phases exec] |>) (Base (bAlloc b) phases exec)).
Qed.

Lemma build_all_fine m w cfg : fine (mFilters m) -> build_fine (build newRedis (newFilter codec) (marshal codec) m w cfg).1.
Proof.
  intros Hm. unfold build.
  assert (build_fine (build_loop (apply_redis newRedis m) (mkBuild (nextAlloc m) w [] [] [] [] []) (Redis cfg)).1) as Hr
    by (apply build_loop_fine; [intros; by apply apply_redis_fine|split; constructor]).
  destruct (build_loop (apply_redis newRedis m) _ _) as [b [e|]]; cbn [then_build fst] in *; [done|].
  apply build_loop_fine; [|done]. intros b' [n fcs] [Hf Hc]. unfold apply_chain. apply build_loop_fine.
  - intros. by apply apply_filter_fine.
  - split; cbn [nextFilters chains set_field]; [done|]. apply Forall_map_set; [done|constructor].
Qed.

(** The managers of an engine's life: configurations applied or refused in any
    state of the world. *)
Inductive managed : Manager EW -> Prop :=
| managed_new : managed NewManager
| managed_applied m w cfg m' w' sn cl : managed m ->
    Apply newRedis (newFilter codec) (marshal codec) m w cfg = Applied m' w' sn cl -> managed m'
| managed_aborted m w cfg e m' w' cl : managed m ->
    Apply newRedis (newFilter codec) (marshal codec) m w cfg = Aborted e m' w' cl -> managed m'.

Lemma managed_fine m : managed m -> fine (mFilters m).
Proof.
  induction 1 as [|m w cfg m' w' sn cl _ IH E|m w cfg e m' w' cl _ IH E]; [apply Forall_nil_2|..];
    unfold Apply in E; pose proof (build_all_fine m w cfg IH) as [Hf _];
    destruct (build _ _ _ m w cfg) as [b [e'|]]; try done; injection E; intros; subst; [exact Hf|exact IH].
Qed.

Lemma managed_snapshot m w cfg m' w' sn cl : managed m ->
  Apply newRedis (newFilter codec) (marshal codec) m w cfg = Applied m' w' sn cl -> snapshot_ok sn.
Proof.
  intros Hm%managed_fine E. unfold Apply in E. pose proof (build_all_fine m w cfg Hm) as [_ Hc].
  destruct (build _ _ _ m w cfg) as [b [e'|]]; [done|]. injection E; intros; subst. exact Hc.
Qed.

End Laws.

(** ** Properties *)

(** C29: what the filters decide is what Envoy applies. Take any policy the engine
    publishes in its life, with filters of all types built by the factory, in any
    state of Redis, caches, keys and sidecars: on every stream opened on it, after
    any messages, the header mutation of a header or request body response turns the
    headers Envoy sent into exactly the headers in effect for the filters (what their
    own set and remove calls mean), for every header Envoy's default rules let an
    external processor change. The mutation of a trailer response, and the headers of an
    immediate response, are exactly the additions and removals the filters asked for; a
    response body answer carries none. *)
Theorem mutations_deliver {R C L S K F RE : Type} {ks : ApiKey.KeyStore R} {vc : ApiKey.ValueCache C} {rc : RateLimit.RedisCounters R}
  {lc : RateLimit.LocalCache L} {ln : RateBuckets.LuaNum F} {rlog : RateScripts.RedisScripts R (list (string * Z))}
  {rbucket : RateScripts.RedisScripts R (F * F)} {rwindow : RateScripts.RedisScripts R Z} {libs : Libs S K F RE}
  {world : World (EngineWorld R C L S K)} (codec : Codec) newRedis (m m' : Manager (EngineWorld R C L S K))
  (w w' : EngineWorld R C L S K) (cfg : Config) (sn : Snapshot (EngineWorld R C L S K)) cl
  (identity : option Index) (gctx : GoContext) (t : Traffic) (w0 : EngineWorld R C L S K) (ms : list Message) (msg : Message) :
  managed codec newRedis m -> Apply newRedis (newFilter codec) (marshal codec) m w cfg = Applied m' w' sn cl ->
  let h := after identity
    (mkHState (mkStreamState sn false [] "") (newContext <| Ctx := Some gctx |> <| CTraffic := t |>) w0 []) ms in
  delivers (handle identity h msg).1 (ctx (handle identity h msg).2).
Proof. intros Hm E. apply snapshot_delivers. by eapply managed_snapshot. Qed.

(** ** Examples *)

#[local] Existing Instance RateBuckets.ExactNum.

(** No Redis, and libraries that find nothing. *)
#[local] Instance NoStore : ApiKey.KeyStore () := {
  store_get _ _ := Err "no redis"; store_hmget _ _ _ := Err "no redis"; store_exists _ _ := Err "no redis" }.
#[local] Instance NoCounters : RateLimit.RedisCounters () := { pipe_incr r _ _ _ _ := (Err "no redis", r); counter _ _ _ := 0%Z }.
#[local] Instance NoScripts V : RateScripts.RedisScripts () V := {
  content _ _ _ := None; evalsha _ r _ _ _ _ _ := (Err "no redis", r); script_load r _ := (Err "no redis", r) }.
#[local] Instance NoCache : RateLimit.LocalCache () := { cache_empty := tt; cache_get _ _ _ := false; cache_set c _ _ _ := c }.
#[local] Instance NoValues : ApiKey.ValueCache () := { vcache_empty := tt; vcache_get _ _ _ := None; vcache_set c _ _ _ _ := c }.
#[local] Instance NoLibs : Libs () () Q () := {
  regexp _ := None; regexp_submatch _ := None; find_submatch _ _ := []; sha256_hex s := s; md5_hex s := s; gjson_get _ _ := None;
  order _ m := m; generate _ n := ("id", (n + 1)%Z); jitter _ := 0%Z; sort_policies l := l; sha1_hex s := s;
  script_body _ := ""; jwt_parse _ _ _ _ _ := Err "no keys"; jwk_fetch _ _ := Err "no network"; meanwhile s := s; http_url _ := true;
  introspection _ _ := Err "no network"; format_float _ := ""; unescape s := Some s; read_file _ := Err "no file"; grpc_client _ := true;
  open_sidecar _ := tt; http_do _ s := (Err "no sidecar", s); check _ s := (Err "no sidecar", s); proc_open s := (false, s);
  proc_send _ s := (Err "no sidecar", s); http_request _ _ := true }.

Definition example_codec : Codec := mkCodec (fun _ => Some "") (fun _ => Err "yaml") (fun _ => Err "yaml") (fun _ => Err "yaml")
  (fun _ => Ok (HeaderModifier.mkHeaderModifierConfig (HeaderModifier.mkHeaderOptions [("X-Gate", "on")] [] ["Cookie"])
                 (HeaderModifier.mkHeaderOptions [] [] []) (HeaderModifier.mkHeaderOptions [] [] [])))
  (fun _ => Err "yaml") (fun _ _ => Err "yaml") (fun _ => Err "yaml") (fun _ => Err "yaml") (fun _ => Err "yaml") (fun _ => Err "yaml").
Definition example_world : EngineWorld () () () () () :=
  mkEngineWorld 0 0 0 (fun _ => tt) (fun _ => tt) (fun _ => tt) (fun _ => RateScripts.mkLuaScript "" "") 0
    (fun _ => Jwt.mkKeyState None 0) (fun _ => Sidecar.mkWorld tt []).
#[local] Instance example_clock : World (EngineWorld () () () () ()) := {
  clock := ewNow; canceledAt _ := None; inFlight _ _ := 0%Z }.

Definition example_policy : Config :=
  example_config <| Chains := [("public", [mkFilterConfig "" false "header_modifier" []])] |>.
Definition example_applied : ApplyResult (W := EngineWorld () () () () ()) :=
  Apply (fun _ _ _ w => (Ok tt, w)) (newFilter example_codec) (marshal example_codec) NewManager example_world example_policy.
Definition example_snapshot : Snapshot (EngineWorld () () () () ()) :=
  match example_applied with Applied _ _ sn _ => sn | Aborted _ _ _ _ => NewSnapshot None [] end.

Lemma mutations_deliver_witness :
  let h := mkHState (mkStreamState example_snapshot false [] "")
             (newContext <| Ctx := Some (mkGoContext None) |> <| CTraffic := TrafficAny |>) example_world [] in
  delivers (handle None h (MRequestHeaders [] [] true)).1 (ctx (handle None h (MRequestHeaders [] [] true)).2).
Proof.
  intros h.
  assert (match example_applied with Applied _ _ _ _ => True | Aborted _ _ _ _ => False end) as Happ by (vm_compute; exact I).
  destruct example_applied as [e m w cl|m w sn cl] eqn:E; [destruct Happ|].
  assert (example_snapshot = sn) as Esn by (unfold example_snapshot; rewrite E; reflexivity).
  unfold h. rewrite Esn.
  apply (mutations_deliver example_codec (fun _ _ _ w => (Ok tt, w)) NewManager m example_world w example_policy sn cl None
    (mkGoContext None) TrafficAny example_world [] (MRequestHeaders [] [] true)); [apply managed_new|exact E].
Defined.

End Factory.
