(* ===== verification/Shutdown.v ===== *)
(** * Shutdown: the stop sequence of the engine
    (internal/grpc/shutdown.go, the end of cmd/engine/main.go)

    On a signal the engine reports not ready, keeps serving until no stream has
    started for a while, drains the open streams for a bounded time and releases
    its policy. Time is what the clocks read: [elapsed] is the monotonic clock
    since the call, [wall] the wall clock, which the start of a stream is
    compared with. *)

From S2P Require Import Prelude GoStrings GoTime Config.

Local Open Scope string_scope.
Local Open Scope list_scope.

Module Shutdown.

Local Open Scope Z_scope.

(** ** Activity *)

(** Unix nanoseconds of the last stream start, 0 for none; open streams. *)
Record Activity := mkActivity { lastStart : Z; active : Z }.

Definition streamStarted (now : Z) (a : Activity) : Activity := mkActivity now (active a + 1).
Definition streamEnded (a : Activity) : Activity := mkActivity (lastStart a) (active a - 1).
Definition LastStart (a : Activity) : option Z := if lastStart a =? 0 then None else Some (lastStart a).

(** [time.Since]: subtraction saturates, and the zero time is over 292 years ago. *)
Definition MaxDuration : Z := two63 - 1.
Definition Since (now : Z) (t : option Z) : Z :=
  match t with None => MaxDuration | Some t => Z.max (- two63) (Z.min MaxDuration (now - t)) end.

(** ** WaitForQuiet *)

Inductive Reason : Type := MaxReached | Quiet | Cancelled.

Section Wait.
(** Iteration [n] of the loop: the time since the call, the wall clock and the
    activity when they are read, whether the select takes the context, and the
    time since the call when it does. *)
Variable elapsed wall : nat -> Z.
Variable activity : nat -> Activity.
Variable cancelled : nat -> bool.
Variable elapsed_cancelled : nat -> Z.

(** Returns the time waited, with the branch taken; [None] only when [fuel] runs
    out. *)
Fixpoint WaitForQuiet (fuel : nat) (quiet minDelay maxDelay : Z) (n : nat) : option (Z * (nat * Reason)) :=
  match fuel with
  | O => None
  | S fuel =>
      if maxDelay <=? elapsed n then Some (elapsed n, (n, MaxReached))
      else if (minDelay <=? elapsed n) && (quiet <=? Since (wall n) (LastStart (activity n)))
      then Some (elapsed n, (n, Quiet))
      else if cancelled n then Some (elapsed_cancelled n, (n, Cancelled))
      else WaitForQuiet fuel quiet minDelay maxDelay (S n)
  end.
End Wait.

Definition tick : Z := 100 * Millisecond.

(** Iterations after which a maximal wait is over. *)
Definition enough (maxDelay : Z) : nat := S (Z.to_nat (maxDelay / tick + 1)).

(** ** StopWithin and the sequence *)

(** [GracefulStop] returns when the last stream ends, after [Some d], or not by
    itself; [Stop] makes it return within [stop]. When both channels are ready the
    select takes either: [pick]. *)
Definition StopWithin (graceful : option Z) (stop timeout : Z) (pick : bool) : bool * Z :=
  match graceful with
  | Some d => if (d <? timeout) || ((d =? timeout) && pick) then (false, d) else (true, timeout + stop)
  | None => (true, timeout + stop)
  end.

Inductive Event : Type :=
| NotReady                       (* serving.Store(false) *)
| Waited (d : Z)
| ServerStopped (forced : bool)
| ContextCancelled
| PolicyClosed
| HealthStopped
| PprofStopped.

(** What follows the signal, with the events in order and the time until the HTTP
    servers are shut down. *)
Definition stop_sequence (sh : ShutdownConfig) (pprof : bool) (wait : Z * (nat * Reason)) (hurry : bool)
  (graceful : option Z) (stop : Z) (pick : bool) : list Event * Z :=
  let drain := if hurry then 0 else DrainTimeoutDuration sh in
  let r := StopWithin graceful stop drain pick in
  ([NotReady; Waited wait.1; ServerStopped r.1; ContextCancelled; PolicyClosed; HealthStopped] ++
     (if pprof then [PprofStopped] else []), wait.1 + r.2).

(** ** Lemmas *)

(** Starts and ends of streams, in the order in which they take effect. *)
Definition activity_event (a : Activity) (e : option Z) : Activity :=
  match e with Some now => streamStarted now a | None => streamEnded a end.

Lemma active_counts (l : list (option Z)) (a : Activity) :
  active (fold_left activity_event l a) =
    active a + Z.of_nat (length (List.filter (fun e => negb (is_none e)) l)) - Z.of_nat (length (List.filter is_none l)).
Proof.
  revert a. induction l as [|e l IH]; intros a; cbn [fold_left List.filter length]; [lia|].
  rewrite IH. destruct e; cbn [activity_event is_none negb streamStarted streamEnded active length]; lia.
Qed.

(** The activity shows a stream that started less than [quiet] ago. *)
Lemma Since_recent quiet now start : quiet <= MaxDuration ->
  ((Since now (Some start) <? quiet) = false <-> quiet <= - two63 \/ start <= now - quiet).
Proof. intros Hq. cbn [Since]. rewrite Z.ltb_ge. unfold MaxDuration in *. lia. Qed.

Section WaitLemmas.
Variable elapsed wall : nat -> Z.
Variable activity : nat -> Activity.
Variable cancelled : nat -> bool.
Variable elapsed_cancelled : nat -> Z.
Let wait := WaitForQuiet elapsed wall activity cancelled elapsed_cancelled.

(** The wait ends at the latest in the first iteration that reads [maxDelay]. *)
Lemma wait_ends quiet minDelay maxDelay k n : maxDelay <= elapsed (n + k)%nat ->
  exists d m why, wait (S k) quiet minDelay maxDelay n = Some (d, (m, why)) /\ (n <= m <= n + k)%nat.
Proof.
  revert n. induction k as [|k IH]; intros n Hk; unfold wait in *; cbn [WaitForQuiet].
  - rewrite Nat.add_0_r in Hk. destruct (Z.leb_spec maxDelay (elapsed n)); [|lia]. eexists _, n, _. split; [done|lia].
  - destruct (maxDelay <=? elapsed n); [eexists _, n, _; split; [done|lia]|].
    destruct (_ && _); [eexists _, n, _; split; [done|lia]|].
    destruct (cancelled n); [eexists _, n, _; split; [done|lia]|].
    destruct (IH (S n)) as (d & m & why & E & Hm); [by replace (S n + k)%nat with (n + S k)%nat by lia|].
    exists d, m, why. split; [exact E|lia].
Qed.

(** Why it ended, and what every earlier iteration read. *)
Lemma wait_reason fuel quiet minDelay maxDelay n d m why :
  wait fuel quiet minDelay maxDelay n = Some (d, (m, why)) ->
  (forall j, (n <= j < m)%nat -> elapsed j < maxDelay) /\ (n <= m)%nat /\
  match why with
  | MaxReached => d = elapsed m /\ maxDelay <= d
  | Quiet => d = elapsed m /\ minDelay <= d < maxDelay /\ quiet <= Since (wall m) (LastStart (activity m))
  | Cancelled => d = elapsed_cancelled m /\ cancelled m = true
  end.
Proof.
  revert n. induction fuel as [|fuel IH]; intros n H; [done|]. unfold wait in *; cbn [WaitForQuiet] in H.
  destruct (Z.leb_spec maxDelay (elapsed n)); [injection H as <- <- <-; split; [lia|]; split; [lia|done]|].
  destruct (_ && _) eqn:E; [injection H as <- <- <-; bool_hyps; split; [lia|]; split; [lia|]; split; [done|]; lia|].
  destruct (cancelled n) eqn:Ec; [injection H as <- <- <-; split; [lia|]; split; [lia|done]|].
  destruct (IH _ H) as (Hb & Hm & Hw). split; [|split; [lia|done]].
  intros j Hj. destruct (decide (j = n)) as [->|]; [done|]. apply Hb. lia.
Qed.
End WaitLemmas.

Lemma enough_ticks maxDelay (elapsed : nat -> Z) : (forall n, Z.of_nat n * tick <= elapsed n) ->
  maxDelay <= elapsed (0 + Z.to_nat (maxDelay / tick + 1))%nat.
Proof.
  intros H. etrans; [|apply H]. cbn [Nat.add].
  pose proof (Z.mul_succ_div_gt maxDelay tick ltac:(unfold tick, Millisecond; lia)).
  assert (0 < tick) by (unfold tick, Millisecond; lia). nia.
Qed.

Lemma StopWithin_bound graceful stop timeout pick : 0 <= stop ->
  (StopWithin graceful stop timeout pick).2 <= timeout + stop /\
  ((StopWithin graceful stop timeout pick).1 = false -> graceful = Some (StopWithin graceful stop timeout pick).2).
Proof.
  intros Hs. unfold StopWithin. destruct graceful as [d|]; [|split; [cbn; lia|done]].
  destruct (_ || _) eqn:E; cbn [fst snd]; [|split; [lia|done]]. split; [|done].
  apply orb_true_iff in E as [E|E]; bool_hyps; lia.
Qed.

(** ** Properties *)

(** C23: the engine stops in bounded time. With a parsed configuration and a ticker
    whose n-th tick does not come before n times its period: the wait for quiet
    ends, after at most one iteration per tick up to the maximal delay; without a
    second signal it lasts at least the minimal delay, and it ends before the
    maximal delay only when no stream has started for the quiet period; with
    readings at most [gap] apart it lasts at most [gap] longer than the maximal
    delay. The server is then stopped within the drain timeout (at once after a
    second signal) and whatever [Stop] takes; a stop that is not forced is one in
    which the streams ended by themselves. *)
Theorem shutdown_terminates (unmarshal : string -> result Config) (regexp : string -> option Regex) (getenv : string -> string)
  (data : string) (cfg : Config) (elapsed wall elapsed_cancelled : nat -> Z) (activity : nat -> Activity) (cancelled : nat -> bool)
  (gap stop : Z) (pprof hurry pick : bool) (graceful : option Z) :
  let sh := Shutdown (Server cfg) in
  ParseBytes unmarshal regexp getenv data = Ok cfg ->
  (forall n, Z.of_nat n * tick <= elapsed n) ->
  elapsed 0%nat <= gap -> (forall n, elapsed (S n) <= elapsed n + gap) -> 0 <= stop ->
  exists d n why, WaitForQuiet elapsed wall activity cancelled elapsed_cancelled (enough (MaxDelayDuration sh))
      (QuietPeriodDuration sh) (MinDelayDuration sh) (MaxDelayDuration sh) 0 = Some (d, (n, why)) /\
    (why = Cancelled \/
     MinDelayDuration sh <= d <= MaxDelayDuration sh + gap /\
     (d < MaxDelayDuration sh -> QuietPeriodDuration sh <= Since (wall n) (LastStart (activity n)))) /\
    (why = Cancelled -> cancelled n = true) /\
    exists forced rest, stop_sequence sh pprof (d, (n, why)) hurry graceful stop pick =
      (NotReady :: Waited d :: ServerStopped forced :: ContextCancelled :: PolicyClosed :: rest,
       d + (StopWithin graceful stop (if hurry then 0 else DrainTimeoutDuration sh) pick).2) /\
      (StopWithin graceful stop (if hurry then 0 else DrainTimeoutDuration sh) pick).2
        <= (if hurry then 0 else DrainTimeoutDuration sh) + stop /\
      (forced = false -> graceful = Some (StopWithin graceful stop (if hurry then 0 else DrainTimeoutDuration sh) pick).2).
Proof.
  intros sh Hp Htick H0 Hgap Hstop. pose proof (ok_shutdown _ _ (ParseBytes_ok _ _ _ _ _ Hp)) as Hmin. fold sh in Hmin.
  destruct (wait_ends elapsed wall activity cancelled elapsed_cancelled (QuietPeriodDuration sh) (MinDelayDuration sh)
    _ _ _ (enough_ticks (MaxDelayDuration sh) elapsed Htick)) as (d & n & why & E & _).
  exists d, n, why. split; [exact E|]. apply wait_reason in E as (Hb & _ & Hw).
  assert (elapsed n <= MaxDelayDuration sh + gap) as Hup.
  { destruct n as [|n]; [lia|]. specialize (Hb n ltac:(lia)). specialize (Hgap n). lia. }
  split; [|split].
  - destruct why; [right; split; lia|right; destruct Hw as (-> & ? & ?); split; [lia|done]|by left].
  - intros ->. apply Hw.
  - destruct (StopWithin_bound graceful stop (if hurry then 0 else DrainTimeoutDuration sh) pick Hstop) as [Hs1 Hs2].
    eexists _, _. split; [reflexivity|]. split; [exact Hs1|exact Hs2].
Qed.

(** A stream that started one second into the wait delays it by the quiet period. *)
Definition example_parsed : Config :=
  match ParseBytes example_unmarshal (fun _ => None) (fun _ => "") "doc" with Ok cfg => cfg | Err _ => example_config end.

Lemma shutdown_terminates_witness :
  ParseBytes example_unmarshal (fun _ => None) (fun _ => "") "doc" = Ok example_parsed /\
  exists d n why, WaitForQuiet (fun n => Z.of_nat n * tick) (fun n => Z.of_nat n * tick) (fun _ => mkActivity Second 1) (fun _ => false)
      (fun _ => 0) (enough (15 * Second)) (2 * Second) Second (15 * Second) 0 = Some (d, (n, why)) /\ d = 3 * Second.
Proof.
  split; [vm_compute; reflexivity|].
  destruct (shutdown_terminates example_unmarshal (fun _ => None) (fun _ => "") "doc" example_parsed (fun n => Z.of_nat n * tick)
    (fun n => Z.of_nat n * tick) (fun _ => 0) (fun _ => mkActivity Second 1) (fun _ => false) tick 0 false false false (Some 0))
    as (d & n & why & E & _).
  - vm_compute. reflexivity.
  - intros n. reflexivity.
  - vm_compute. discriminate.
  - intros n. rewrite Nat2Z.inj_succ. unfold tick. lia.
  - reflexivity.
  - exists d, n, why. split; [exact E|]. vm_compute in E. injection E as E _ _. by rewrite <- E.
Defined.

End Shutdown.
