(* ===== verification/Reload.v ===== *)
(** * Reload: the engine's configuration at boot and while it runs
    (cmd/engine/main.go, internal/config/watcher.go, the provider part of
    internal/config/parser.go)

    The engine loads its configuration from a ConfigMap, a URL or a file, applies
    it, and applies every later version the provider reports; a version it rejects
    leaves the previous policy in place. For the ConfigMap the whole loop is a state
    machine together with the API server: reads, watches, their failures and
    the changes of the ConfigMap interleave in any order. *)

From S2P Require Import Prelude GoStrings GoPath GoTime Netip Identity Selector Context Executor Config Registry Policy.

Local Open Scope string_scope.
Local Open Scope list_scope.

Module Reload.

(** ** Where the configuration comes from (LoadConfig) *)

Definition DefaultConfigPath : string := "/etc/hyper-engine/config.yaml".

(** Resource versions are compared only; the API server hands them out in order. *)
Record ConfigMap := mkConfigMap { ResourceVersion : nat; Data : GoMap string }.

(** An HTTP answer: its status, and its body unless reading it failed. *)
Record Response := mkResponse { StatusCode : Z; Body : result string }.

Section Engine.
Context {W : Type}.
(** Decoder, regular expressions and environment of [ParseBytes]; the factories
    and the encoder of [Apply]. *)
Variable unmarshal : string -> result Config.
Variable regexp : string -> option Regex.
Variable getenv : string -> string.
Variable newRedis : option Z -> string -> RedisServiceConfig -> W -> result () * W.
Variable newFilter : string -> GoMap Value -> (string -> option nat) -> W
                     -> result (option (list Phase) * Exec W) * W.
Variable marshal : GoMap Value -> option string.

(** The providers: the ConfigMap of a namespace and name, a URL, a file. *)
Variable get_configmap : string -> string -> result ConfigMap.
Variable fetch : string -> result Response.
Variable read_file : string -> result string.

Definition parse : string -> result Config := ParseBytes unmarshal regexp getenv.

Definition provider : string := or_default (getenv "CONFIG_PROVIDER") "FILE".
Definition cmName : string := or_default (getenv "CONFIG_K8S_NAME") "hyper-engine-config".
Definition cmNamespace : string := or_default (getenv "CONFIG_K8S_NAMESPACE") "hyper-system".

(** The file: the flags -config and -c, then the environment, then the default. *)
Definition file_path (cliConfig cliConfigShort : string) : string :=
  if negb (String.eqb cliConfig "") then cliConfig
  else if negb (String.eqb cliConfigShort "") then cliConfigShort
  else or_default (getenv "CONFIG_FILE_PATH") DefaultConfigPath.

(** The configuration, the path for the watcher and the version of the ConfigMap. *)
Definition LoadConfig (cliConfig cliConfigShort : string) : result (Config * string * option nat) :=
  let? src :=
    (if String.eqb provider "K8S" then
       let? cm := get_configmap cmNamespace cmName in
       match map_get (Data cm) "config.yaml" with
       | None => Err "config.yaml not found in configmap"
       | Some data => Ok (data, cmName, Some (ResourceVersion cm))
       end
     else if String.eqb provider "URL" then
       let url := getenv "CONFIG_URL" in
       if String.eqb url "" then Err "config provider set to URL but CONFIG_URL is empty"
       else
         let? resp := fetch url in
         if negb (StatusCode resp =? 200)%Z then Err "remote config server returned non-200 status"
         else let? data := Body resp in Ok (data, url, None)
     else
       let path := file_path cliConfig cliConfigShort in
       let? data := read_file path in Ok (data, path, None)) in
  let? cfg := parse src.1.1 in
  Ok (cfg, src.1.2, src.2).

(** ** The running engine (main) *)

Record EngineState := mkEngineState {
  mgr : Manager W;
  world : W;
  published : Snapshot W;        (* the snapshot in the registry *)
  identityOn : bool;             (* identityIndex != nil *)
  synced : bool;                 (* the first identity map has arrived *)
  serving : bool;
  reloads : Z * Z                (* accepted and rejected, as counted by Reload *)
}.
#[export] Instance EngineState_eta : Eta EngineState := fun x =>
  mkEngineState (mgr x) (world x) (published x) (identityOn x) (synced x) (serving x) (reloads x).

Definition count_reload (ok : bool) (st : EngineState) : EngineState :=
  st <| reloads := if ok then ((reloads st).1 + 1, (reloads st).2)%Z else ((reloads st).1, (reloads st).2 + 1)%Z |>.

(** [policyMgr.Apply] on the engine's manager. *)
Definition apply_policy (cfg : Config) (st : EngineState) : result () * EngineState :=
  match Apply newRedis newFilter marshal (mgr st) (world st) cfg with
  | Aborted err m w _ => (Err err, st <| mgr := m |> <| world := w |>)
  | Applied m w snap _ => (Ok tt, st <| mgr := m |> <| world := w |> <| published := snap |>)
  end.

(** The callback given to [WatchConfig]. *)
Definition onReload (cfg : Config) (st : EngineState) : result () * EngineState :=
  if negb (Bool.eqb (Enabled (cfgIdentity cfg)) (identityOn st)) then (Err "identity.enabled changed; restart the engine to apply it", st)
  else match apply_policy cfg st with
       | (Err e, st) => (Err e, st)
       | (Ok _, st) => (Ok tt, count_reload true st)
       end.

Definition onError (st : EngineState) : EngineState := count_reload false st.

(** From the start of the process to its accepting streams: an error exits it. *)
Definition boot (w : W) (cfg : Config) : result EngineState :=
  let st := mkEngineState NewManager w (NewSnapshot None []) (Enabled (cfgIdentity cfg)) false false (0, 0)%Z in
  match apply_policy cfg st with
  | (Err e, _) => Err e
  | (Ok _, st) => Ok (count_reload true st <| serving := true |>)
  end.

(** /readyz *)
Definition readyz (st : EngineState) : Z :=
  if serving st && ready (mgr st) && (negb (identityOn st) || synced st) then 200%Z else 503%Z.

(** ** The watchers *)

Definition applyBytes (data : string) (st : EngineState) : result () * EngineState :=
  match parse data with
  | Err e => (Err e, st)
  | Ok cfg => onReload cfg st
  end.

(** A call to /v1/reload, in the order of its checks, with the status it answers. *)
Definition reload_limit : nat := Z.to_nat (16 * 1024 * 1024).

#[local] Arguments reload_limit : simpl never.

Definition reload_handler (token method authorization : string) (st : EngineState) : Z * EngineState :=
  if negb (String.eqb method "POST") then (405%Z, st)
  else if negb (String.eqb token "") && negb (String.eqb authorization ("Bearer " +++ token)%go) then (401%Z, st)
  else match fetch (getenv "CONFIG_URL") with
       | Err _ => (502%Z, st)
       | Ok resp =>
           if negb (StatusCode resp =? 200)%Z then (502%Z, st)
           else match Body resp with
                | Err _ => (502%Z, st)
                | Ok body =>
                    match applyBytes (take_string reload_limit body) st with
                    | (Err _, st) => (422%Z, onError st)
                    | (Ok _, st) => (200%Z, st)
                    end
                end
       end.

(** The address of the reload endpoint; [None] when it is not served. *)
Definition reload_address (token : string) : option string :=
  if String.eqb (getenv "CONFIG_URL") "" then None
  else Some (or_default (getenv "CONFIG_RELOAD_ADDRESS") (if String.eqb token "" then "127.0.0.1:9002" else ":9002")).

(** A file event: its operations and the name it is about. *)
Inductive Op : Type := OpCreate | OpWrite | OpRemove | OpRename | OpChmod.
Definition concerns (configPath : string) (op : Op) (name : string) : bool :=
  match op with OpChmod => false | _ => String.eqb (GoPath.Base name) (GoPath.Base configPath) || String.eqb (GoPath.Base name) "..data" end.

Definition file_event (configPath : string) (op : Op) (name : string) (st : EngineState) : EngineState :=
  if concerns configPath op name then
    match read_file configPath with
    | Err _ => st
    | Ok data => match applyBytes data st with (Err _, st) => onError st | (Ok _, st) => st end
    end
  else st.

(** [apply] of the ConfigMap watcher. *)
Record K8sState := mkK8sState { lastApplied : nat; engine : EngineState }.

Definition k8s_apply (cm : ConfigMap) (st : K8sState) : K8sState :=
  if (ResourceVersion cm =? lastApplied st)%nat then st
  else match map_get (Data cm) "config.yaml" with
       | None => mkK8sState (lastApplied st) (onError (engine st))
       | Some data =>
           mkK8sState (ResourceVersion cm)
             (match applyBytes data (engine st) with (Err _, e) => onError e | (Ok _, e) => e end)
       end.

(** ** The watch loop and the API server *)

Inductive WatchEvent : Type := Put (cm : ConfigMap) | Deleted (rv : nat).
Definition event_version (e : WatchEvent) : nat := match e with Put cm => ResourceVersion cm | Deleted rv => rv end.

(** Where the loop is: before its Get, between Get and Watch, or receiving, with the
    events not received yet. *)
Inductive Pc : Type := Connecting | Opening (rv : nat) | Watching (queue : list WatchEvent).

Record Sys := mkSys {
  configmap : option ConfigMap;
  history : list WatchEvent;     (* every change, oldest first *)
  pc : Pc;
  watcher : K8sState;
  attempts : list (ConfigMap * bool)   (* versions tried, newest first, and whether they were accepted *)
}.

Definition events_after (rv : nat) (l : list WatchEvent) : list WatchEvent :=
  List.filter (fun e => (rv <? event_version e)%nat) l.

Definition push (p : Pc) (e : WatchEvent) : Pc := match p with Watching q => Watching (q ++ [e]) | p => p end.

(** Applying a version: the state and what is recorded. *)
Definition tried (cm : ConfigMap) (st : K8sState) (l : list (ConfigMap * bool)) : list (ConfigMap * bool) :=
  if (ResourceVersion cm =? lastApplied st)%nat then l
  else match map_get (Data cm) "config.yaml" with
       | None => l
       | Some data => (cm, is_ok (applyBytes data (engine st)).1) :: l
       end.

Definition on_engine (f : EngineState -> EngineState) (s : K8sState) : K8sState := mkK8sState (lastApplied s) (f (engine s)).

Inductive sys_step : Sys -> Sys -> Prop :=
(** the ConfigMap is created or changed, or deleted *)
| sys_put c h p w l cm : (forall e, e ∈ h -> event_version e < ResourceVersion cm)%nat ->
    sys_step (mkSys c h p w l) (mkSys (Some cm) (h ++ [Put cm]) (push p (Put cm)) w l)
| sys_delete c h p w l rv : (forall e, e ∈ h -> event_version e < rv)%nat ->
    sys_step (mkSys c h p w l) (mkSys None (h ++ [Deleted rv]) (push p (Deleted rv)) w l)
(** the loop *)
| sys_get cm h w l :
    sys_step (mkSys (Some cm) h Connecting w l) (mkSys (Some cm) h (Opening (ResourceVersion cm)) (k8s_apply cm w) (tried cm w l))
| sys_get_fails c h w l : sys_step (mkSys c h Connecting w l) (mkSys c h Connecting (on_engine onError w) l)
| sys_watch c h w l rv : sys_step (mkSys c h (Opening rv) w l) (mkSys c h (Watching (events_after rv h)) w l)
| sys_watch_fails c h w l rv : sys_step (mkSys c h (Opening rv) w l) (mkSys c h Connecting (on_engine onError w) l)
| sys_put_event c h cm q w l :
    sys_step (mkSys c h (Watching (Put cm :: q)) w l) (mkSys c h (Watching q) (k8s_apply cm w) (tried cm w l))
| sys_other_event c h rv q w l : sys_step (mkSys c h (Watching (Deleted rv :: q)) w l) (mkSys c h (Watching q) w l)
| sys_closed c h q w l : sys_step (mkSys c h (Watching q) w l) (mkSys c h Connecting w l)
(** requests, and identity updates, between reloads *)
| sys_serve c h p w l w' : sys_step (mkSys c h p w l) (mkSys c h p (on_engine (fun e => e <| world := w' |>) w) l)
| sys_synced c h p w l : sys_step (mkSys c h p w l) (mkSys c h p (on_engine (fun e => e <| synced := true |>) w) l).

(** After a boot from a ConfigMap; the history starts with the version read. *)
Inductive booted : Sys -> Prop :=
| booted_k8s cm data cfg w st : map_get (Data cm) "config.yaml" = Some data -> parse data = Ok cfg -> boot w cfg = Ok st ->
    booted (mkSys (Some cm) [Put cm] Connecting (mkK8sState (ResourceVersion cm) st) [(cm, true)]).

Definition sys_reachable (s : Sys) : Prop := exists s0, booted s0 /\ rtc sys_step s0 s.

(** The configuration of the newest accepted version. *)
Fixpoint accepted (l : list (ConfigMap * bool)) : option ConfigMap :=
  match l with
  | [] => None
  | (cm, true) :: _ => Some cm
  | (_, false) :: l => accepted l
  end.

(** A version is dealt with: it was tried, or it has no configuration. *)
Definition handled (cm : ConfigMap) (rv : nat) : Prop := map_get (Data cm) "config.yaml" = None \/ rv = ResourceVersion cm.

Definition queue_of (s : Sys) : option (list WatchEvent) :=
  match pc s with Connecting => None | Opening rv => Some (events_after rv (history s)) | Watching q => Some q end.

(** The snapshot serves the configuration of the newest accepted version. *)
Definition serves (s : Sys) : Prop :=
  exists cm data cfg, accepted (attempts s) = Some cm /\ map_get (Data cm) "config.yaml" = Some data /\
    parse data = Ok cfg /\ snapConfig (published (engine (watcher s))) = Some cfg /\
    Enabled (cfgIdentity cfg) = identityOn (engine (watcher s)).

(** Every change the loop has not seen is waiting for it, and the newest last. *)
Definition follows (s : Sys) : Prop :=
  match queue_of s, configmap s with
  | Some [], Some cm => handled cm (lastApplied (watcher s))
  | Some q, Some cm => last q = Some (Put cm)
  | _, _ => True
  end.

Record sys_inv (s : Sys) : Prop := {
  inv_serves : serves s;
  inv_follows : follows s;
  inv_last : exists cm b l, attempts s = (cm, b) :: l /\ ResourceVersion cm = lastApplied (watcher s);
  inv_tried : forall cm b, (cm, b) ∈ attempts s -> Put cm ∈ history s;
  inv_current : forall cm, configmap s = Some cm -> last (history s) = Some (Put cm);
  inv_sorted : forall e e', e ∈ history s -> e' ∈ history s -> event_version e = event_version e' -> e = e';
  inv_newest : forall e e', last (history s) = Some e -> e' ∈ history s -> (event_version e' <= event_version e)%nat;
  inv_queue : match pc s with
              | Connecting => True
              | Opening rv => exists e, e ∈ history s /\ event_version e = rv
              | Watching q => forall e, e ∈ q -> e ∈ history s
              end
}.

(** ** Lemmas *)

(** A version that is refused keeps the policy; one that is accepted is the policy. *)
Lemma applyBytes_spec data st :
  identityOn (applyBytes data st).2 = identityOn st /\
  match (applyBytes data st).1 with
  | Err _ => published (applyBytes data st).2 = published st
  | Ok _ => exists cfg, parse data = Ok cfg /\ snapConfig (published (applyBytes data st).2) = Some cfg /\
      Enabled (cfgIdentity cfg) = identityOn st
  end.
Proof.
  unfold applyBytes, onReload, apply_policy, Apply. destruct (parse data) as [cfg|e]; [|done].
  destruct (Bool.eqb _ _) eqn:E; [apply eqb_prop in E|done]. cbn [negb].
  destruct (build _ _ _ _ _ _) as [b [err|]]; cbn; split; try done. by exists cfg.
Qed.

Lemma reload_keeps_policy data st e : (applyBytes data st).1 = Err e -> published (applyBytes data st).2 = published st.
Proof. intros H. destruct (applyBytes_spec data st) as [_ Hs]. by rewrite H in Hs. Qed.

(** The reload endpoint: only an authorised POST reaches the policy, 200 means the
    fetched configuration is in force and every other answer that it is not. *)
Lemma reload_handler_spec token method auth st :
  let r := reload_handler token method auth st in
  (r.1 = 200%Z -> method = "POST" /\ (token = "" \/ auth = ("Bearer " +++ token)%go) /\
     exists resp body cfg, fetch (getenv "CONFIG_URL") = Ok resp /\ StatusCode resp = 200%Z /\ Body resp = Ok body /\
       parse (take_string reload_limit body) = Ok cfg /\ snapConfig (published r.2) = Some cfg) /\
  (r.1 <> 200%Z -> published r.2 = published st) /\
  (r.1 = 401%Z \/ r.1 = 405%Z \/ r.1 = 502%Z -> r.2 = st).
Proof.
  unfold reload_handler. generalize reload_limit as limit. intros limit.
  destruct (String.eqb_spec method "POST") as [->|]; cbn [negb]; [|cbn [fst snd]; naive_solver].
  destruct (negb (String.eqb token "") && _) eqn:Ea; [cbn [fst snd]; naive_solver|].
  assert (token = "" \/ auth = ("Bearer " +++ token)%go) as Hauth.
  { apply andb_false_iff in Ea as [H|H]; apply negb_false_iff, String.eqb_eq in H; auto. }
  destruct (fetch _) as [resp|]; [|cbn [fst snd]; naive_solver].
  destruct (Z.eqb_spec (StatusCode resp) 200); cbn [negb]; [|cbn [fst snd]; naive_solver].
  destruct (Body resp) as [body|] eqn:Eb; [|cbn [fst snd]; naive_solver].
  destruct (applyBytes_spec (take_string limit body) st) as [_ Hs].
  destruct (applyBytes _ st) as [[u|err] st']; cbn [fst snd] in *.
  - destruct Hs as (cfg & Hp & Hsn & _). cbn [fst snd]. naive_solver.
  - cbn [fst snd]. naive_solver.
Qed.

Lemma k8s_handled cm w : handled cm (lastApplied (k8s_apply cm w)).
Proof.
  unfold k8s_apply, handled. destruct (Nat.eqb_spec (ResourceVersion cm) (lastApplied w)); [by right|].
  destruct (map_get _ _); [by right|by left].
Qed.

(** [k8s_apply] with what it records. *)
Lemma serves_apply c h p w l c' h' p' cm :
  serves (mkSys c h p w l) -> serves (mkSys c' h' p' (k8s_apply cm w) (tried cm w l)).
Proof.
  unfold serves, k8s_apply, tried. cbn [attempts watcher]. intros Hs.
  destruct (_ =? _)%nat; [done|]. destruct (map_get (Data cm) _) as [data|] eqn:Ed; [|done]. cbn [engine].
  destruct (applyBytes_spec data (engine w)) as [Hi Hp].
  destruct (applyBytes data (engine w)) as [[u|e] e']; cbn [fst snd is_ok accepted] in *.
  - destruct Hp as (cfg & Hparse & Hsnap & Hid). exists cm, data, cfg. by rewrite Hi.
  - cbn. by rewrite Hp, Hi.
Qed.

Lemma last_apply cm w l :
  (exists cm' b l', l = (cm', b) :: l' /\ ResourceVersion cm' = lastApplied w) ->
  exists cm' b l', tried cm w l = (cm', b) :: l' /\ ResourceVersion cm' = lastApplied (k8s_apply cm w).
Proof.
  unfold tried, k8s_apply. destruct (_ =? _)%nat; [done|]. destruct (map_get _ _) as [data|]; [|done].
  intros _. by eexists _, _, _.
Qed.

Lemma tried_elem cm w l x b : (x, b) ∈ tried cm w l -> x = cm \/ (x, b) ∈ l.
Proof.
  unfold tried. destruct (_ =? _)%nat; [by right|]. destruct (map_get _ _); [|by right].
  intros [[=]|?]%elem_of_cons; auto.
Qed.

Lemma events_after_new rv h e : (rv < event_version e)%nat -> events_after rv (h ++ [e]) = events_after rv h ++ [e].
Proof. intros H. unfold events_after. rewrite List.filter_app. cbn [List.filter]. apply Nat.ltb_lt in H. by rewrite H. Qed.

Lemma events_after_none rv h : (forall e, e ∈ h -> event_version e <= rv)%nat -> events_after rv h = [].
Proof.
  unfold events_after. induction h as [|e h IH]; intros H; [done|]. cbn [List.filter].
  destruct (Nat.ltb_spec rv (event_version e)) as [Hlt|]; [|apply IH; intros e' He; apply H; by right].
  specialize (H e ltac:(by left)). lia.
Qed.

(** The history with a new, newest event. *)
Lemma history_sorted h e : (forall e', e' ∈ h -> event_version e' < event_version e)%nat ->
  (forall x y, x ∈ h -> y ∈ h -> event_version x = event_version y -> x = y) ->
  forall x y, x ∈ h ++ [e] -> y ∈ h ++ [e] -> event_version x = event_version y -> x = y.
Proof.
  intros Hn Hs x y [Hx|Hx%list_elem_of_singleton]%elem_of_app [Hy|Hy%list_elem_of_singleton]%elem_of_app E; subst; auto.
  - apply Hn in Hx. lia.
  - apply Hn in Hy. lia.
Qed.

Lemma history_newest h e : (forall e', e' ∈ h -> event_version e' < event_version e)%nat ->
  forall x y, last (h ++ [e]) = Some x -> y ∈ h ++ [e] -> (event_version y <= event_version x)%nat.
Proof.
  intros Hn x y. rewrite last_snoc. intros [= <-] [Hy%Hn|Hy%list_elem_of_singleton]%elem_of_app; [lia|by subst].
Qed.

(** The parts of the invariant a change of the ConfigMap affects. *)
Lemma queue_push h p e : (forall e', e' ∈ h -> event_version e' < event_version e)%nat ->
  match p with
  | Connecting => True
  | Opening rv => exists e, e ∈ h /\ event_version e = rv
  | Watching q => forall e, e ∈ q -> e ∈ h
  end ->
  match push p e with
  | Connecting => True
  | Opening rv => events_after rv (h ++ [e]) = events_after rv h ++ [e] /\ exists x, x ∈ h ++ [e] /\ event_version x = rv
  | Watching q => last q = Some e /\ forall x, x ∈ q -> x ∈ h ++ [e]
  end.
Proof.
  intros Hn. destruct p as [|rv|q]; cbn [push]; [done| |].
  - intros (x & Hx & <-). split; [apply events_after_new; auto|]. exists x. split; [apply elem_of_app; by left|done].
  - intros Hq. split; [apply last_snoc|]. intros x [Hx%Hq|Hx]%elem_of_app; apply elem_of_app; auto.
Qed.

Lemma sys_inv_change c h p w l e c' : (forall e', e' ∈ h -> event_version e' < event_version e)%nat ->
  (forall cm, c' = Some cm -> e = Put cm) ->
  sys_inv (mkSys c h p w l) -> sys_inv (mkSys c' (h ++ [e]) (push p e) w l).
Proof.
  intros Hn Hc [Hs Hf Hl Ht Hcur Hso Hne Hq]. cbn [configmap history pc watcher attempts] in *.
  pose proof (queue_push _ _ _ Hn Hq) as Hpush. split; cbn [configmap history pc watcher attempts].
  - exact Hs.
  - unfold follows, queue_of. cbn [pc history configmap watcher].
    destruct c' as [cm|]; [specialize (Hc _ eq_refl)|by destruct (push p e) as [|rv|[|]]; [| destruct (events_after _ _)|..]].
    destruct (push p e) as [|rv|q]; [done| |].
    + destruct Hpush as [-> _]. destruct (events_after rv h ++ [e]) as [|x q] eqn:E; [by destruct (events_after rv h)|].
      rewrite <- E, last_snoc. by subst.
    + destruct Hpush as [Hlast _]. destruct q; [done|]. by rewrite Hlast, Hc.
  - exact Hl.
  - intros cm b Hin. apply elem_of_app. left. by eapply Ht.
  - intros cm E. rewrite last_snoc. by rewrite (Hc _ E).
  - by apply history_sorted.
  - by apply history_newest.
  - destruct (push p e); naive_solver.
Qed.

(** Trying a version that is in the history. *)
Lemma sys_inv_try c h p w l cm p' : sys_inv (mkSys c h p w l) -> Put cm ∈ h ->
  follows (mkSys c h p' (k8s_apply cm w) (tried cm w l)) ->
  match p' with
  | Connecting => True
  | Opening rv => exists e, e ∈ h /\ event_version e = rv
  | Watching q => forall e, e ∈ q -> e ∈ h
  end -> sys_inv (mkSys c h p' (k8s_apply cm w) (tried cm w l)).
Proof.
  intros [Hs Hf Hl Ht Hcur Hso Hne Hq] Hin Hf' Hq'. split; try done; cbn [configmap history pc watcher attempts] in *.
  - by eapply serves_apply.
  - by apply last_apply.
  - intros x b [->|Hx]%tried_elem; [done|by eapply Ht].
Qed.

(** A step of the loop that tries nothing. *)
Lemma sys_inv_move c h p w l p' w' : sys_inv (mkSys c h p w l) ->
  lastApplied w' = lastApplied w -> published (engine w') = published (engine w) -> identityOn (engine w') = identityOn (engine w) ->
  follows (mkSys c h p' w' l) ->
  match p' with
  | Connecting => True
  | Opening rv => exists e, e ∈ h /\ event_version e = rv
  | Watching q => forall e, e ∈ q -> e ∈ h
  end -> sys_inv (mkSys c h p' w' l).
Proof.
  intros [Hs Hf Hl Ht Hcur Hso Hne Hq] E1 E2 E3 Hf' Hq'. split; try done; cbn [configmap history pc watcher attempts] in *.
  - unfold serves in *. cbn [attempts watcher] in *. by rewrite E2, E3.
  - by rewrite E1.
Qed.

Lemma sys_inv_step s s' : sys_inv s -> sys_step s s' -> sys_inv s'.
Proof.
  intros Hi Hs. destruct Hs as [c h p w l cm Hn|c h p w l rv Hn|cm h w l|c h w l|c h w l rv|c h w l rv|c h cm q w l|c h rv q w l|c h q w l|c h p w l w'|c h p w l].
  - eapply sys_inv_change; [exact Hn|by intros ? [= <-]|exact Hi].
  - eapply sys_inv_change; [exact Hn|done|exact Hi].
  - pose proof (inv_current _ Hi cm eq_refl) as Hlast. cbn [history] in Hlast.
    assert (Put cm ∈ h) as Hin by (by apply last_Some_elem_of).
    apply (sys_inv_try _ _ _ _ _ _ _ Hi Hin); [|by exists (Put cm)].
    unfold follows, queue_of. cbn [pc history configmap watcher].
    rewrite events_after_none; [apply k8s_handled|]. intros e He. by apply (inv_newest _ Hi (Put cm) e Hlast).
  - by apply (sys_inv_move _ _ _ _ _ _ _ Hi).
  - apply (sys_inv_move _ _ _ _ _ _ _ Hi); try done; [by apply (inv_follows _ Hi)|].
    intros e [He _]%list_elem_of_In%filter_In. by apply list_elem_of_In.
  - by apply (sys_inv_move _ _ _ _ _ _ _ Hi).
  - assert (Put cm ∈ h) as Hin by (apply (inv_queue _ Hi); by left).
    apply (sys_inv_try _ _ _ _ _ _ _ Hi Hin); [|intros e He; apply (inv_queue _ Hi); by right].
    pose proof (inv_follows _ Hi) as Hf. unfold follows, queue_of in *. cbn [pc history configmap watcher] in *.
    destruct q as [|e q]; [|by destruct c]. destruct c as [c|]; [|done]. injection Hf as ->. apply k8s_handled.
  - apply (sys_inv_move _ _ _ _ _ _ _ Hi); try done; [|intros e He; apply (inv_queue _ Hi); by right].
    pose proof (inv_follows _ Hi) as Hf. unfold follows, queue_of in *. cbn [pc history configmap watcher] in *.
    destruct q as [|e q]; [|by destruct c]. by destruct c.
  - by apply (sys_inv_move _ _ _ _ _ _ _ Hi).
  - apply (sys_inv_move _ _ _ _ _ _ _ Hi); try done; [by apply (inv_follows _ Hi)|by apply (inv_queue _ Hi)].
  - apply (sys_inv_move _ _ _ _ _ _ _ Hi); try done; [by apply (inv_follows _ Hi)|by apply (inv_queue _ Hi)].
Qed.

Lemma boot_published w cfg st : boot w cfg = Ok st ->
  snapConfig (published st) = Some cfg /\ identityOn st = Enabled (cfgIdentity cfg) /\ serving st = true /\ ready (mgr st) = true.
Proof.
  unfold boot, apply_policy, Apply. destruct (build _ _ _ _ _ _) as [b [err|]]; [done|]. by intros [= <-].
Qed.

Lemma booted_inv s : booted s -> sys_inv s.
Proof.
  intros [cm data cfg w st Hd Hp (Hpub & Hid & _)%boot_published].
  split; cbn [configmap history pc watcher attempts lastApplied].
  - exists cm, data, cfg. cbn [attempts accepted watcher engine]. by rewrite Hid.
  - done.
  - by exists cm, true, [].
  - intros cm' b [= -> _]%list_elem_of_singleton. by left.
  - by intros cm' [= <-].
  - by intros x y ->%list_elem_of_singleton ->%list_elem_of_singleton.
  - by intros x y [= <-] ->%list_elem_of_singleton.
  - done.
Qed.

Lemma configmap_inv s : sys_reachable s -> sys_inv s.
Proof.
  intros (s0 & H0%booted_inv & Hr). induction Hr as [|x y z Hxy _ IH]; [done|]. apply IH. by eapply sys_inv_step.
Qed.

(** A reconnection that works brings the loop up to date. *)
Lemma reconnect s cm : sys_inv s -> configmap s = Some cm ->
  exists s', rtc sys_step s s' /\ configmap s' = Some cm /\ pc s' = Watching [].
Proof.
  intros Hi Hc. assert (exists w l, rtc sys_step s (mkSys (Some cm) (history s) Connecting w l)) as (w & l & Hr).
  { destruct s as [c h p w l]. cbn in Hc. subst c. destruct p as [|rv|q].
    - exists w, l. apply rtc_refl.
    - eexists _, l. apply rtc_once, sys_watch_fails.
    - exists w, l. apply rtc_once, sys_closed. }
  eexists. split; [|split].
  - etrans; [exact Hr|]. eapply rtc_l; [apply sys_get|]. apply rtc_once, sys_watch.
  - done.
  - cbn [pc]. f_equal. apply events_after_none. intros e He. exact (inv_newest _ Hi (Put cm) e (inv_current _ Hi cm Hc) He).
Qed.

End Engine.

(** ** Properties *)

(** C12: the engine follows its ConfigMap. In every state of the engine, its watch
    loop and the API server, after any interleaving of changes of the ConfigMap,
    reads, watches, their failures and served requests: the published policy is the
    configuration of the newest version the engine accepted, and identity is
    switched as at boot; when the loop is watching and has received every event,
    the version it tried last is the current one, unless that has no
    configuration, so the policy is the current version's or that version was
    rejected; and from every state a reconnection that works leads there. *)
Theorem engine_follows_configmap {W : Type} (unmarshal : string -> result Config) (regexp : string -> option Regex)
  (getenv : string -> string) newRedis newFilter marshal (s : Sys (W := W)) :
  sys_reachable unmarshal regexp getenv newRedis newFilter marshal s ->
  (exists cm data cfg, accepted (attempts s) = Some cm /\ map_get (Data cm) "config.yaml" = Some data /\
     parse unmarshal regexp getenv data = Ok cfg /\ snapConfig (published (engine (watcher s))) = Some cfg /\
     Enabled (cfgIdentity cfg) = identityOn (engine (watcher s))) /\
  (forall cm, pc s = Watching [] -> configmap s = Some cm ->
     map_get (Data cm) "config.yaml" = None \/ exists b l, attempts s = (cm, b) :: l) /\
  (forall cm, configmap s = Some cm ->
     exists s', rtc (sys_step unmarshal regexp getenv newRedis newFilter marshal) s s' /\ configmap s' = Some cm /\ pc s' = Watching []).
Proof.
  intros Hr%configmap_inv. split; [exact (inv_serves _ _ _ _ Hr)|]. split.
  - intros cm Hpc Hcm. pose proof (inv_follows _ _ _ _ Hr) as Hf. unfold follows, queue_of in Hf. rewrite Hpc, Hcm in Hf.
    destruct Hf as [Hf|Hf]; [by left|right]. destruct (inv_last _ _ _ _ Hr) as (cm' & b & l & E & Ev).
    assert (Put cm' = Put cm) as [= ->]; [|by exists b, l].
    apply (inv_sorted _ _ _ _ Hr); [apply (inv_tried _ _ _ _ Hr _ b); rewrite E; by left|
      apply last_Some_elem_of, (inv_current _ _ _ _ Hr), Hcm|cbn; congruence].
  - intros cm Hcm. by apply reconnect.
Qed.

(** ** Examples *)

(** A boot from version 1 and a broken version 2. *)
Definition boot_map : ConfigMap := mkConfigMap 1 [("config.yaml", "doc")].
Definition broken_map : ConfigMap := mkConfigMap 2 [("config.yaml", "broken")].
Definition boot_config : Config :=
  match parse example_unmarshal (fun _ => None) (fun _ => "") "doc" with Ok cfg => cfg | Err _ => example_config end.
Definition booted_engine : EngineState (W := ()) :=
  match boot exampleRedis exampleFilter exampleMarshal () boot_config with
  | Ok st => st
  | Err _ => mkEngineState NewManager () (NewSnapshot None []) false false false (0, 0)%Z
  end.

Definition booted_sys : Sys (W := ()) := mkSys (Some boot_map) [Put boot_map] Connecting (mkK8sState 1 booted_engine) [(boot_map, true)].
Definition broken_sys : Sys (W := ()) :=
  mkSys (Some broken_map) [Put boot_map; Put broken_map] (Watching []) (mkK8sState 2 (onError booted_engine))
    [(broken_map, false); (boot_map, true)].

Lemma boot_config_parsed : parse example_unmarshal (fun _ => None) (fun _ => "") "doc" = Ok boot_config.
Proof. vm_compute. reflexivity. Qed.

Lemma boot_config_boots : boot exampleRedis exampleFilter exampleMarshal () boot_config = Ok booted_engine.
Proof. vm_compute. reflexivity. Qed.

Lemma broken_rejected (st : EngineState) :
  k8s_apply example_unmarshal (fun _ => None) (fun _ => "") exampleRedis exampleFilter exampleMarshal broken_map (mkK8sState 1 st) =
    mkK8sState 2 (onError st) /\
  tried example_unmarshal (fun _ => None) (fun _ => "") exampleRedis exampleFilter exampleMarshal broken_map (mkK8sState 1 st)
    [(boot_map, true)] = [(broken_map, false); (boot_map, true)].
Proof. split; reflexivity. Qed.

Lemma broken_reachable : sys_reachable example_unmarshal (fun _ => None) (fun _ => "") exampleRedis exampleFilter exampleMarshal broken_sys.
Proof.
  exists booted_sys. split.
  - exact (booted_k8s _ _ _ _ _ _ boot_map "doc" boot_config () booted_engine eq_refl boot_config_parsed boot_config_boots).
  - unfold broken_sys, booted_sys. destruct (broken_rejected booted_engine) as [Ea Et]. rewrite <- Ea, <- Et.
    generalize booted_engine as st. intros st.
    eapply rtc_l; [apply (sys_put _ _ _ _ _ _ _ _ _ _ _ broken_map); intros e ->%list_elem_of_singleton; cbn; lia|].
    eapply rtc_l; [apply sys_get|]. apply rtc_once.
    exact (sys_watch _ _ _ _ _ _ (Some broken_map) [Put boot_map; Put broken_map] _ _ 2).
Qed.

(** The broken version is rejected and the policy of the first stays. *)
Lemma engine_follows_configmap_witness :
  (exists cm data cfg, accepted (attempts broken_sys) = Some cm /\ cm = boot_map /\ map_get (Data cm) "config.yaml" = Some data /\
     snapConfig (published (engine (watcher broken_sys))) = Some cfg) /\
  exists b l, attempts broken_sys = (broken_map, b) :: l.
Proof.
  destruct (engine_follows_configmap example_unmarshal (fun _ => None) (fun _ => "") exampleRedis exampleFilter exampleMarshal
    broken_sys broken_reachable) as ((cm & data & cfg & H1 & H2 & _ & H4 & _) & Hcur & _). split.
  - exists cm, data, cfg. split; [exact H1|]. split; [injection H1 as <-; reflexivity|]. split; [exact H2|exact H4].
  - destruct (Hcur broken_map eq_refl eq_refl) as [H|H]; [discriminate H|exact H].
Defined.

End Reload.
