(* ===== verification/RedisConn.v ===== *)
(** * RedisConn: the Redis clients (internal/redis: pool.go, pipeline.go, health.go)

    Connecting with back-off, choosing the topology, pipelines grouped by key for a
    cluster, and the health checker. The driver (radix) is a parameter: whether a
    dial or a ping works, and what a command does to the key it is about. The
    concurrent flush of a pipeline is a step relation, one step per command. *)

From S2P Require Import Prelude GoStrings GoTime Config.
From Stdlib Require Import Floats.SpecFloat.

Local Open Scope string_scope.
Local Open Scope list_scope.

Module RedisConn.

(** ** Dialling (pool.go) *)

Definition splitAndTrim (s : string) : list string :=
  List.filter (fun t => negb (String.eqb t "")) (TrimSpace <$> SplitStr s ",").

(** The TLS configuration: the client certificate, the authorities, and whether the
    host name is checked; the chain is checked in both cases. *)
Record TLSSettings := mkTLSSettings {
  tlsCert : option (string * string); tlsRoots : option string; InsecureSkipVerify : bool; VerifyPeerCertificate : bool }.

Record Dialer := mkDialer {
  dialTimeout : Z; AuthUser : string; AuthPass : string; dialTLS : option TLSSettings; WriteFlushInterval : option Z }.
#[export] Instance Dialer_eta : Eta Dialer := fun x =>
  mkDialer (dialTimeout x) (AuthUser x) (AuthPass x) (dialTLS x) (WriteFlushInterval x).

Section Dial.
(** [tls.LoadX509KeyPair], [os.ReadFile] and [AppendCertsFromPEM]. *)
Variable load_pair : string -> string -> bool.
Variable read_pem : string -> option string.
Variable has_certs : string -> bool.

Definition buildTLSConfig (cfg : RedisServiceConfig) : result TLSSettings :=
  let? cert :=
    (if negb (String.eqb (TLSClientCert cfg) "") && negb (String.eqb (TLSClientKey cfg) "") then
       if load_pair (TLSClientCert cfg) (TLSClientKey cfg) then Ok (Some (TLSClientCert cfg, TLSClientKey cfg))
       else Err "load client cert/key"
     else Ok None) in
  let? roots :=
    (if negb (String.eqb (TLSCACert cfg) "") then
       match read_pem (TLSCACert cfg) with
       | None => Err "read CA cert"
       | Some pem => if has_certs pem then Ok (Some pem) else Err "CA cert: no valid PEM blocks found"
       end
     else Ok None) in
  Ok (mkTLSSettings cert roots (TLSSkipHostnameVerification cfg) (TLSSkipHostnameVerification cfg)).

(** "password" or "username:password". *)
Definition split_auth (auth : string) : string * string :=
  match IndexByte auth ":" with
  | Some idx => (take_string idx auth, drop_string (S idx) auth)
  | None => ("", auth)
  end.

Definition buildDialer (cfg : RedisServiceConfig) : result Dialer :=
  let auth := if String.eqb (Auth cfg) "" then ("", "") else split_auth (Auth cfg) in
  let d := mkDialer (RTimeoutDuration cfg) auth.1 auth.2 None None in
  if RTLS cfg then let? t := buildTLSConfig cfg in Ok (d <| dialTLS := Some t |>) else Ok d.

(** What radix is asked to connect. *)
Inductive Target : Type :=
| SinglePool (network addr : string)
| ClusterOf (addrs : list string)
| SentinelOf (master : string) (sentinels : list string) (sentinelDialer : Dialer).
Record Plan := mkPlan { target : Target; dataDialer : Dialer; planPoolSize : Z; minReconnect : Z; maxReconnect : Z }.

Definition plan_for (cfg : RedisServiceConfig) (t : Target) (d : Dialer) : Plan :=
  mkPlan t d (PoolSize cfg) (StartupInitialIntervalDuration cfg) (StartupMaxIntervalDuration cfg).
Definition with_window (cfg : RedisServiceConfig) (d : Dialer) : Dialer :=
  if (0 <? PipelineWindowDuration cfg)%Z then d <| WriteFlushInterval := Some (PipelineWindowDuration cfg) |> else d.

Definition dialSingle (cfg : RedisServiceConfig) (d : Dialer) : result Plan :=
  Ok (plan_for cfg (SinglePool (SocketType cfg) (URL cfg)) (with_window cfg d)).
Definition dialCluster (cfg : RedisServiceConfig) (d : Dialer) : result Plan :=
  match splitAndTrim (URL cfg) with
  | [] => Err "CLUSTER: url produced no addresses"
  | addrs => Ok (plan_for cfg (ClusterOf addrs) (with_window cfg d))
  end.
Definition dialSentinel (cfg : RedisServiceConfig) (d : Dialer) : result Plan :=
  match splitAndTrim (URL cfg) with
  | master :: a :: rest =>
      let d := with_window cfg d in
      Ok (plan_for cfg (SentinelOf master (a :: rest) (d <| AuthUser := "" |> <| AuthPass := SentinelAuth cfg |>)) d)
  | _ => Err "SENTINEL url must be <master_name>,<sentinel_host>:<port>[,...]"
  end.

Definition dialTopology (cfg : RedisServiceConfig) (d : Dialer) : result Plan :=
  let t := ToUpper (RType cfg) in
  if String.eqb t "SINGLE" then dialSingle cfg d
  else if String.eqb t "CLUSTER" then dialCluster cfg d
  else if String.eqb t "SENTINEL" then dialSentinel cfg d
  else Err "unknown topology type".
End Dial.

(** [tlsNetDialer.DialContext]: the inner dial, and the handshake for a server name ([None]:
    not checked), which ends or is overtaken by the context; the result with the number
    of raw connections left open. *)
Inductive Handshake : Type := HandshakeOk | HandshakeFailed (e : string) | HandshakeCancelled (e : string).

Definition tls_DialContext (dial : string -> string -> result ()) (handshake : TLSSettings -> option string -> Handshake)
  (t : TLSSettings) (network addr : string) : result (option string) * Z :=
  match dial network addr with
  | Err e => (Err ("tls dial: " +++ e)%go, 0%Z)
  | Ok _ =>
      match SplitHostPort addr with
      | None => (Err "tls: parse host from addr", 0%Z)
      | Some (host, _) =>
          let serverName := if InsecureSkipVerify t then None else Some host in
          match handshake t serverName with
          | HandshakeCancelled e | HandshakeFailed e => (Err ("tls handshake: " +++ e)%go, 0%Z)
          | HandshakeOk => (Ok serverName, 1%Z)
          end
      end
  end.

(** ** Connecting with back-off (NewClientConn) *)

(** Doubling in float64, as the code does. *)
Definition next_backoff (backoff maxBackoff : Z) : Z :=
  let a := float64_of_Z (wrap64 (backoff * 2)) in
  let b := float64_of_Z maxBackoff in
  Z_of_float64 (if SFltb b a then b else a).

(** float64(backoff) * (0.5 + r) *)
Definition half : spec_float := SFdiv 53 1024 (float64_of_Z 1) (float64_of_Z 2).
Definition jittered (backoff : Z) (r : spec_float) : Z :=
  Z_of_float64 (SFmul 53 1024 (float64_of_Z backoff) (SFadd 53 1024 half r)).

(** Attempt [n]: whether the context is done before it, the answer to PING unless
    dialling or the ping failed, the clock after it and when the rest is computed,
    the random number, and whether the context ends the wait. *)
Record Attempt := mkAttempt {
  doneBefore : bool; pong : option string; nowAfter : Z; nowUntil : Z; random : spec_float; doneWaiting : bool }.

Inductive Connect : Type := Connected (attempt : nat) | ContextDone (attempt : nat) | Exceeded (attempt : nat).

(** The waits, in order, and how the loop ends; [None] when [fuel] runs out. *)
Fixpoint connect_loop (fuel : nat) (env : nat -> Attempt) (deadline : option Z) (maxBackoff : Z) (n : nat) (backoff : Z)
  : option (list Z * Connect) :=
  match fuel with
  | O => None
  | S fuel =>
      let a := env n in
      if doneBefore a then Some ([], ContextDone n)
      else if bool_decide (pong a = Some "PONG") then Some ([], Connected n)
      else if (match deadline with Some d => (d <? nowAfter a)%Z | None => false end) then Some ([], Exceeded n)
      else
        let sleep := jittered backoff (random a) in
        let sleep := match deadline with
                     | Some d => if (d - nowUntil a <? sleep)%Z then (d - nowUntil a)%Z else sleep
                     | None => sleep
                     end in
        if doneWaiting a then Some ([sleep], ContextDone n)
        else match connect_loop fuel env deadline maxBackoff (S n) (next_backoff backoff maxBackoff) with
             | Some (ws, r) => Some (sleep :: ws, r)
             | None => None
             end
  end.

Definition NewClientConn (fuel : nat) (env : nat -> Attempt) (start : Z) (cfg : RedisServiceConfig) : option (list Z * Connect) :=
  let deadline := if (0 <? StartupMaxElapsedTimeDuration cfg)%Z then Some (start + StartupMaxElapsedTimeDuration cfg)%Z else None in
  connect_loop fuel env deadline (StartupMaxIntervalDuration cfg) 0 (StartupInitialIntervalDuration cfg).

(** ** Health (health.go) *)

(** [probeOnce]: the error of the PING, whether the probe's context is done, and the
    reply; the new state, true for healthy. *)
Definition probeOnce (err ctxDone : bool) (reply : string) : bool := negb (err || ctxDone) && String.eqb reply "PONG".
Definition health_interval (interval : Z) : Z := if (interval <=? 0)%Z then (5 * Second)%Z else interval.

(** The checker: its state and the lines it logged, which only tell transitions. *)
Record HealthChecker := mkHealthChecker { healthy : bool; logged : list bool }.
Definition NewHealthChecker : HealthChecker := mkHealthChecker true [].
Definition IsHealthy (h : HealthChecker) : bool := healthy h.
Definition mark_failed (h : HealthChecker) : HealthChecker := mkHealthChecker false (if healthy h then logged h ++ [false] else logged h).
Definition mark_ok (h : HealthChecker) : HealthChecker := mkHealthChecker true (if healthy h then logged h else logged h ++ [true]).

(** What the monitor's [select] receives: the context's end, or a tick with what its
    probe met. *)
Inductive HealthEvent : Type := CtxDone | Tick (err ctxDone : bool) (reply : string).

Fixpoint runHealthCheckLoop (evs : list HealthEvent) (h : HealthChecker) : HealthChecker :=
  match evs with
  | [] | CtxDone :: _ => h
  | Tick err ctxDone reply :: evs => runHealthCheckLoop evs (if probeOnce err ctxDone reply then mark_ok h else mark_failed h)
  end.

(** [PingClient]; [None]: the command failed. *)
Definition PingClient (reply : option string) : result () :=
  match reply with
  | None => Err "PING"
  | Some r => if String.eqb r "PONG" then Ok tt else Err "PING: unexpected reply"
  end.

(** ** Pipelines (pipeline.go) *)

(** A command with the receiver of its reply. *)
Record Action := mkAction { aRcv : nat; aCmd : string; aArgs : list string }.
Record PipelineAction := mkPipelineAction { paAction : Action; paKey : string }.

Definition PipeAppend (pipeline : list PipelineAction) (rcv : nat) (cmd key : string) (args : list string) : list PipelineAction :=
  pipeline ++ [mkPipelineAction (mkAction rcv cmd ((if String.eqb key "" then [] else [key]) ++ args)) key].

(** The groups, in the order in which their keys first appear. *)
Definition add_action (groups : GoMap (list Action)) (pa : PipelineAction) : GoMap (list Action) :=
  map_set groups (paKey pa) (default [] (map_get groups (paKey pa)) ++ [paAction pa]).
Definition ordered (pipeline : list PipelineAction) : GoMap (list Action) := fold_left add_action pipeline [].

Section Pipelines.
(** What a command does to the state of the key it is routed by: its value, and the
    replies received for it. *)
Context {S : Type}.
Variable act : Action -> S -> S.

Definition Store : Type := string -> S.
Definition update (st : Store) (key : string) (a : Action) : Store :=
  fun k => if String.eqb k key then act a (st k) else st k.

(** A flush on one connection: every command, or the first [n] when the connection
    fails after them. *)
Definition sent {A : Type} (outcome : option nat) (l : list A) : list A := match outcome with None => l | Some n => take n l end.
Definition flushed (outcome : option nat) : result () := match outcome with None => Ok tt | Some _ => Err "pipeline flush failed" end.

Definition pipeDoFlat (outcome : option nat) (pipeline : list PipelineAction) (st : Store) : result () * Store :=
  (flushed outcome, fold_left (fun st pa => update st (paKey pa) (paAction pa)) (sent outcome pipeline) st).

Definition flushGroup (outcome : option nat) (g : string * list Action) (st : Store) : result () * Store :=
  (flushed outcome, fold_left (fun st a => update st g.1 a) (sent outcome g.2) st).

Fixpoint execGroupsSerial (outcome : string -> option nat) (groups : GoMap (list Action)) (st : Store) : result () * Store :=
  match groups with
  | [] => (Ok tt, st)
  | g :: gs => match flushGroup (outcome g.1) g st with
               | (Err e, st) => (Err e, st)
               | (Ok _, st) => execGroupsSerial outcome gs st
               end
  end.

(** The goroutines of [execGroupsConcurrent]. *)
Inductive Status : Type := Waiting | Flushing | Finished | Failed.
#[export] Instance Status_eq_dec : EqDecision Status.
Proof. solve_decision. Defined.

Record Goroutine := mkGoroutine { gKey : string; gDone : list Action; gTodo : list Action; gStatus : Status }.

Definition spawn (groups : GoMap (list Action)) : list Goroutine := (fun g => mkGoroutine g.1 [] g.2 Waiting) <$> groups.

(** A concurrent flush: the goroutines, the store, the slots taken in the semaphore
    channel, and whether [egCtx] is done. *)
Record Conc := mkConc { cGs : list Goroutine; cStore : Store; cSlots : nat; cDone : bool }.

(** [sem] is nil without a limit. *)
Definition bounded (maxParallel : Z) : bool := (0 <? maxParallel)%Z.
Definition free (maxParallel : Z) (slots : nat) : bool := negb (bounded maxParallel) || (Z.of_nat slots <? maxParallel)%Z.
Definition acquire (maxParallel : Z) (slots : nat) : nat := if bounded maxParallel then Datatypes.S slots else slots.
Definition release (maxParallel : Z) (slots : nat) : nat := if bounded maxParallel then pred slots else slots.

(** A goroutine sends on the semaphore and flushes its group, command by command; it
    returns with or without an error, its deferred function taking the slot back, and
    the first error cancels [egCtx]. While it waits for a slot it returns when [egCtx] is
    done. The caller's context may be done at any time. *)
Inductive conc_step (maxParallel : Z) : Conc -> Conc -> Prop :=
| conc_acquire gs st n b i k l : gs !! i = Some (mkGoroutine k [] l Waiting) -> free maxParallel n = true ->
    conc_step maxParallel (mkConc gs st n b) (mkConc (<[i := mkGoroutine k [] l Flushing]> gs) st (acquire maxParallel n) b)
| conc_command gs st n b i k d a l : gs !! i = Some (mkGoroutine k d (a :: l) Flushing) ->
    conc_step maxParallel (mkConc gs st n b) (mkConc (<[i := mkGoroutine k (d ++ [a]) l Flushing]> gs) (update st k a) n b)
| conc_finish gs st n b i k d : gs !! i = Some (mkGoroutine k d [] Flushing) ->
    conc_step maxParallel (mkConc gs st n b) (mkConc (<[i := mkGoroutine k d [] Finished]> gs) st (release maxParallel n) b)
| conc_fail gs st n b i k d l : gs !! i = Some (mkGoroutine k d l Flushing) ->
    conc_step maxParallel (mkConc gs st n b) (mkConc (<[i := mkGoroutine k d l Failed]> gs) st (release maxParallel n) true)
| conc_cancelled gs st n i k l : gs !! i = Some (mkGoroutine k [] l Waiting) -> bounded maxParallel = true ->
    conc_step maxParallel (mkConc gs st n true) (mkConc (<[i := mkGoroutine k [] l Failed]> gs) st n true)
| conc_cancel gs st n : conc_step maxParallel (mkConc gs st n false) (mkConc gs st n true).

(** Every goroutine has returned; [eg.Wait] returns the first error, if there was one. *)
Definition ended (gs : list Goroutine) : Prop := forall g, g ∈ gs -> gStatus g = Finished \/ gStatus g = Failed.
Definition wait_result (gs : list Goroutine) : result () :=
  if forallb (fun g => bool_decide (gStatus g = Finished)) gs then Ok tt else Err "pipeline flush failed".

(** [PipeDo]: the paths of a client, by its topology and parallelism. *)
Inductive PipeDo (isCluster : bool) (parallelism : Z) (pipeline : list PipelineAction) (st : Store) : result () * Store -> Prop :=
| pipe_empty : pipeline = [] -> PipeDo isCluster parallelism pipeline st (Ok tt, st)
| pipe_flat outcome : pipeline <> [] -> isCluster = false -> PipeDo isCluster parallelism pipeline st (pipeDoFlat outcome pipeline st)
| pipe_serial outcome : pipeline <> [] -> isCluster = true -> parallelism = 1%Z ->
    PipeDo isCluster parallelism pipeline st (execGroupsSerial outcome (ordered pipeline) st)
| pipe_concurrent s : pipeline <> [] -> isCluster = true -> parallelism <> 1%Z ->
    rtc (conc_step parallelism) (mkConc (spawn (ordered pipeline)) st 0 false) s -> ended (cGs s) ->
    PipeDo isCluster parallelism pipeline st (wait_result (cGs s), cStore s).

(** Groups that are being flushed. *)
Definition in_flight (gs : list Goroutine) : nat := length (List.filter (fun g => bool_decide (gStatus g = Flushing)) gs).

(** A step in which nothing fails and nobody cancels. *)
Definition advance (maxParallel : Z) (s s' : Conc) : Prop :=
  conc_step maxParallel s s' /\ cDone s' = cDone s /\
  forall i g', cGs s' !! i = Some g' -> gStatus g' = Failed -> exists g, cGs s !! i = Some g /\ gStatus g = Failed.

(** ** Lemmas *)

(** The commands of a key, in the order of the pipeline. *)
Definition commands (pipeline : list PipelineAction) (key : string) : list Action :=
  paAction <$> List.filter (fun pa => String.eqb (paKey pa) key) pipeline.

Lemma flat_store l st key :
  fold_left (fun st pa => update st (paKey pa) (paAction pa)) l st key = fold_left (fun s a => act a s) (commands l key) (st key).
Proof.
  unfold commands. revert st. induction l as [|pa l IH]; intros st; [done|]. cbn [fold_left List.filter]. rewrite IH. unfold update.
  rewrite (String.eqb_sym key). destruct (String.eqb (paKey pa) key); done.
Qed.

Lemma group_store k l st key :
  fold_left (fun st a => update st k a) l st key = if String.eqb key k then fold_left (fun s a => act a s) l (st key) else st key.
Proof.
  revert st. induction l as [|a l IH]; intros st; cbn [fold_left]; [by destruct (String.eqb key k)|]. rewrite IH. unfold update.
  by destruct (String.eqb key k).
Qed.
End Pipelines.

Lemma commands_app l pa key :
  commands (l ++ [pa]) key = commands l key ++ (if String.eqb (paKey pa) key then [paAction pa] else []).
Proof. unfold commands. rewrite List.filter_app, fmap_app. cbn [List.filter]. by destruct (String.eqb (paKey pa) key). Qed.

(** Grouping keeps the commands of each key, in order. *)
Lemma ordered_commands l key : default [] (map_get (ordered l) key) = commands l key.
Proof.
  unfold ordered. induction l as [|pa l IH] using rev_ind; [done|]. rewrite fold_left_app, commands_app. cbn [fold_left].
  unfold add_action at 1. destruct (String.eqb_spec (paKey pa) key) as [->|Hne].
  - by rewrite map_get_set_eq, IH.
  - by rewrite map_get_set_ne, IH, app_nil_r.
Qed.

Lemma ordered_nodup l : NoDup (ordered l).*1.
Proof.
  unfold ordered. induction l as [|pa l IH] using rev_ind; [constructor|]. rewrite fold_left_app. by apply map_set_NoDup.
Qed.

(** The concurrent flush. *)
Section ConcLemmas.
Context {S : Type}.
Variable act : Action -> S -> S.
Variable maxParallel : Z.
Variable pipeline : list PipelineAction.
Variable st0 : Store (S := S).

Definition after (key : string) (l : list Action) : S := fold_left (fun s a => act a s) l (st0 key).

Definition g_ok (st : Store (S := S)) (g : Goroutine) : Prop :=
  gDone g ++ gTodo g = commands pipeline (gKey g) /\ st (gKey g) = after (gKey g) (gDone g) /\
  (gStatus g = Finished -> gTodo g = []) /\ (gStatus g = Waiting -> gDone g = []).

Record conc_inv (s : Conc (S := S)) : Prop := {
  ci_keys : gKey <$> cGs s = (ordered pipeline).*1;
  ci_each : forall i g, cGs s !! i = Some g -> g_ok (cStore s) g;
  ci_other : forall k, k ∉ (ordered pipeline).*1 -> cStore s k = st0 k;
  ci_slots : bounded maxParallel = true -> cSlots s = in_flight (cGs s) /\ (Z.of_nat (cSlots s) <= maxParallel)%Z
}.

Lemma keys_insert (gs : list Goroutine) (i : nat) g g' : gs !! i = Some g -> gKey g' = gKey g -> gKey <$> <[i := g']> gs = gKey <$> gs.
Proof. intros Hi E. rewrite list_fmap_insert, E. apply list_insert_id. by rewrite list_lookup_fmap, Hi. Qed.

Lemma in_flight_insert (gs : list Goroutine) (i : nat) g g' : gs !! i = Some g ->
  (in_flight (<[i := g']> gs) + (if bool_decide (gStatus g = Flushing) then 1 else 0) =
   in_flight gs + (if bool_decide (gStatus g' = Flushing) then 1 else 0))%nat.
Proof.
  unfold in_flight. revert i. induction gs as [|x gs IH]; intros [|i] Hi; try done.
  - injection Hi as ->. cbn. repeat case_bool_decide; cbn; lia.
  - specialize (IH i Hi). change (<[Datatypes.S i := g']> (x :: gs)) with (x :: <[i := g']> gs). cbn [List.filter].
    destruct (bool_decide (gStatus x = Flushing)); cbn [length]; lia.
Qed.

(** Replacing a goroutine by one with the same key, with a store that agrees on the
    other keys. *)
Lemma conc_inv_insert (gs : list Goroutine) st n n' b b' (i : nat) g g' st' : conc_inv (mkConc gs st n b) -> gs !! i = Some g -> gKey g' = gKey g ->
  g_ok st' g' -> (forall k, k <> gKey g -> st' k = st k) ->
  (bounded maxParallel = true -> n' = in_flight (<[i := g']> gs) /\ (Z.of_nat n' <= maxParallel)%Z) ->
  conc_inv (mkConc (<[i := g']> gs) st' n' b').
Proof.
  intros [Hk He Ho Hl] Hi Ek Hg Hst Hlim. cbn [cGs cStore cSlots] in *. split; cbn [cGs cStore cSlots]; [by erewrite keys_insert| | |done].
  - intros j x Hj. destruct (decide (i = j)) as [<-|Hne].
    + rewrite list_lookup_insert_eq in Hj by (by eapply lookup_lt_Some). by injection Hj as <-.
    + rewrite list_lookup_insert_ne in Hj by done. pose proof (He j x Hj) as Hx. unfold g_ok in *.
      rewrite Hst; [exact Hx|]. intros E. apply Hne. eapply (NoDup_lookup (gKey <$> gs)); [rewrite Hk; apply ordered_nodup| |].
      * by rewrite list_lookup_fmap, Hi.
      * by rewrite list_lookup_fmap, Hj, <- E.
  - intros k Hn. rewrite Hst; [by apply Ho|]. intros ->. apply Hn. rewrite <- Hk. apply list_elem_of_fmap. exists g.
    split; [done|by eapply list_elem_of_lookup_2].
Qed.

(** The slots that stay taken, by what becomes of the goroutine. *)
Lemma slots_insert gs (i : nat) g g' n : gs !! i = Some g -> (bounded maxParallel = true -> n = in_flight gs /\ (Z.of_nat n <= maxParallel)%Z) ->
  bounded maxParallel = true ->
  let n' := if bool_decide (gStatus g = Flushing) then if bool_decide (gStatus g' = Flushing) then n else release maxParallel n
            else if bool_decide (gStatus g' = Flushing) then acquire maxParallel n else n in
  (gStatus g <> Flushing -> gStatus g' = Flushing -> free maxParallel n = true) ->
  n' = in_flight (<[i := g']> gs) /\ (Z.of_nat n' <= maxParallel)%Z.
Proof.
  intros Hi Hn Hb n' Hf. destruct (Hn Hb) as [Hs Hl]. pose proof (in_flight_insert gs i g g' Hi) as Hif.
  unfold n', release, acquire, free in *. rewrite Hb in *. cbn [negb orb] in Hf.
  repeat case_bool_decide; try (split; lia). specialize (Hf ltac:(done) ltac:(done)). split; lia.
Qed.

Lemma conc_inv_step s s' : conc_inv s -> conc_step act maxParallel s s' -> conc_inv s'.
Proof.
  intros Hi Hs. pose proof (ci_slots _ Hi) as Hlim.
  destruct Hs as [gs st n b i k l Hg Hf|gs st n b i k d a l Hg|gs st n b i k d Hg|gs st n b i k d l Hg|gs st n i k l Hg Hb|gs st n];
    [..|by destruct Hi; split];
    destruct (ci_each _ Hi _ _ Hg) as (H1 & H2 & H3 & H4); cbn [cGs cStore cSlots gKey gDone gTodo gStatus] in *;
    (eapply conc_inv_insert; [exact Hi|exact Hg|done| |try done|]);
    try by split.
  all: try match goal with
           | Hg : ?gs !! ?i = _, Hlim : _ -> ?n = _ /\ _ |- context [<[?i := ?g']> ?gs] =>
               intros Hm; exact (slots_insert gs i _ g' n Hg Hlim Hm ltac:(done))
           end.
  - split; [cbn; by rewrite <- app_assoc|]. split; [|done]. cbn [gKey gDone]. unfold update, after. rewrite String.eqb_refl, fold_left_app, H2. done.
  - intros k' Hne. unfold update. by destruct (String.eqb_spec k' k).
Qed.

Lemma spawn_inv b : conc_inv (mkConc (spawn (ordered pipeline)) st0 0 b).
Proof.
  split; cbn [cGs cStore cSlots].
  - unfold spawn. rewrite <- list_fmap_compose. by apply list_fmap_ext.
  - intros i g Hi. apply list_lookup_fmap_Some in Hi as ([k l] & -> & E).
    split; [|done]. cbn [gDone gTodo gKey app fst snd]. rewrite <- ordered_commands.
    apply list_elem_of_lookup_2 in E. by rewrite (elem_map_get _ _ _ (ordered_nodup pipeline) E).
  - done.
  - intros Hm%Z.ltb_lt. split; [|lia]. unfold in_flight, spawn. induction (ordered pipeline) as [|x l IH]; [done|]. cbn. exact IH.
Qed.

Lemma conc_inv_rtc s s' : conc_inv s -> rtc (conc_step act maxParallel) s s' -> conc_inv s'.
Proof. intros Hi Hr. induction Hr as [|x y z Hxy _ IH]; [done|]. apply IH. by eapply conc_inv_step. Qed.
Lemma conc_reachable s : rtc (conc_step act maxParallel) (mkConc (spawn (ordered pipeline)) st0 0 false) s -> conc_inv s.
Proof. apply conc_inv_rtc, spawn_inv. Qed.

(** A state where every goroutine has finished is the sequential one. *)
Lemma conc_waited s key : conc_inv s -> wait_result (cGs s) = Ok tt -> cStore s key = after key (commands pipeline key).
Proof.
  intros [Hk He Ho _] Hw. unfold wait_result in Hw. destruct (forallb _ _) eqn:Ef; [|done]. rewrite forallb_forall in Ef.
  destruct (decide (key ∈ (ordered pipeline).*1)) as [Hin|Hn].
  - rewrite <- Hk in Hin. apply list_elem_of_fmap in Hin as (g & -> & Hg). pose proof (Ef g (proj1 (list_elem_of_In _ _) Hg)) as Hs%bool_decide_eq_true.
    apply list_elem_of_lookup in Hg as [i Hg]. destruct (He _ _ Hg) as (H1 & H2 & H3 & _). rewrite H2, <- H1, H3, app_nil_r; done.
  - rewrite Ho by done. rewrite <- ordered_commands. by rewrite (proj2 (map_get_None _ _) Hn).
Qed.

(** What is left to do: the steps of the goroutines, and a cancellation. *)
Definition g_left (g : Goroutine) : nat :=
  match gStatus g with Waiting => 2 + length (gTodo g) | Flushing => 1 + length (gTodo g) | _ => 0 end.
Definition steps_left (s : Conc (S := S)) : nat := list_sum (g_left <$> cGs s) + (if cDone s then 0 else 1).

Lemma left_insert (gs : list Goroutine) (i : nat) g g' : gs !! i = Some g ->
  (list_sum (g_left <$> <[i := g']> gs) + g_left g = list_sum (g_left <$> gs) + g_left g')%nat.
Proof.
  revert i. induction gs as [|x gs IH]; intros [|i] Hi; try done; [injection Hi as ->; cbn; lia|].
  specialize (IH i Hi). change (<[Datatypes.S i := g']> (x :: gs)) with (x :: <[i := g']> gs). rewrite !fmap_cons. unfold list_sum in *.
  cbn [fold_right] in *. lia.
Qed.

Lemma step_decreases s s' : conc_step act maxParallel s s' -> steps_left s' < steps_left s.
Proof.
  unfold steps_left. destruct 1 as [gs st n b i k l Hg|gs st n b i k d a l Hg|gs st n b i k d Hg|gs st n b i k d l Hg|gs st n i k l Hg|gs st n];
    cbn [cGs cDone]; [..|lia];
    match goal with |- context [<[i := ?g']> gs] => pose proof (left_insert gs i _ g' Hg) as Hl end; cbn -[list_sum fmap insert] in Hl; try lia; try (destruct b; lia).
Qed.

Lemma nsteps_left n s s' : nsteps (conc_step act maxParallel) n s s' -> n <= steps_left s.
Proof. induction 1 as [|n x y z Hxy _ IH]; [lia|]. apply step_decreases in Hxy. lia. Qed.

Lemma ordered_total l : list_sum (length <$> (ordered l).*2) = length l.
Proof.
  assert (forall (m : GoMap (list Action)) k a, NoDup m.*1 ->
    list_sum (length <$> (map_set m k (default [] (map_get m k) ++ [a])).*2) = Datatypes.S (list_sum (length <$> m.*2))) as Hset.
  { intros m k a. induction m as [|[k1 v] m IH]; intros Hnd; [done|]. apply NoDup_cons in Hnd as [_ Hnd]. cbn [map_set map_get fst].
    destruct (String.eqb k1 k); [cbn; rewrite length_app; cbn; lia|]. specialize (IH Hnd). rewrite !fmap_cons. unfold list_sum in *.
    cbn [fold_right snd] in *. lia. }
  induction l as [|pa l IH] using rev_ind; [done|]. pose proof (ordered_nodup l) as Hnd. unfold ordered in *. rewrite fold_left_app.
  cbn [fold_left]. unfold add_action at 1. rewrite Hset by done. rewrite IH, length_app. cbn. lia.
Qed.

Lemma spawn_left st b : steps_left (mkConc (spawn (ordered pipeline)) st 0 b) <= 2 * length (ordered pipeline) + length pipeline + 1.
Proof.
  unfold steps_left. cbn [cGs cDone]. enough (list_sum (g_left <$> spawn (ordered pipeline)) = 2 * length (ordered pipeline) + length pipeline)
    as -> by (destruct b; lia).
  rewrite <- (ordered_total pipeline). induction (ordered pipeline) as [|[k l] m IH]; [done|]. unfold spawn in *. rewrite !fmap_cons.
  unfold list_sum in *. cbn [fold_right length snd] in *. unfold g_left at 1. cbn [gStatus gTodo snd]. lia.
Qed.

(** The flush does not get stuck. *)
Lemma conc_progress s : conc_inv s -> ended (cGs s) \/ exists s', advance act maxParallel s s'.
Proof.
  intros Hi. destruct s as [gs st n b]. cbn [cGs].
  assert (forall i g g' st' n', gs !! i = Some g -> gStatus g' <> Failed -> conc_step act maxParallel (mkConc gs st n b) (mkConc (<[i := g']> gs) st' n' b) ->
    exists s', advance act maxParallel (mkConc gs st n b) s') as Hadv.
  { intros i g g' st' n' Hg Hne Hs. eexists. split; [exact Hs|]. split; [done|]. intros j x Hj Hx. cbn [cGs] in *.
    destruct (decide (i = j)) as [<-|Hij]; [|rewrite list_lookup_insert_ne in Hj by done; eauto].
    rewrite list_lookup_insert_eq in Hj by (by eapply lookup_lt_Some). by injection Hj as <-. }
  destruct (decide (Exists (fun g => gStatus g = Flushing) gs)) as [Hf|Hf].
  - right. apply Exists_exists in Hf as ([k d l x] & Hg & Hx). cbn in Hx. subst x. apply list_elem_of_lookup in Hg as [i Hg].
    destruct l as [|a l]; [eapply Hadv; [exact Hg| |by eapply conc_finish]; done|eapply Hadv; [exact Hg| |by eapply conc_command]; done].
  - destruct (decide (Exists (fun g => gStatus g = Waiting) gs)) as [Hw|Hw].
    + right. apply Exists_exists in Hw as ([k d l x] & Hg & Hx). cbn in Hx. subst x. apply list_elem_of_lookup in Hg as [i Hg].
      destruct (ci_each _ Hi _ _ Hg) as (_ & _ & _ & H4). cbn in H4. rewrite H4 in Hg by done.
      eapply Hadv; [exact Hg| |eapply conc_acquire; [exact Hg|]]; [done|]. unfold free. destruct (bounded maxParallel) eqn:Eb; [|done].
      destruct (ci_slots _ Hi Eb) as [Hs _]. cbn [cSlots cGs] in Hs. rewrite Hs. replace (in_flight gs) with 0%nat; [exact Eb|].
      unfold in_flight. clear -Hf. induction gs as [|g gs IH]; [done|]. cbn [List.filter].
      rewrite bool_decide_eq_false_2; [apply IH; intros E; apply Hf; by right|]. intros E. apply Hf. by left.
    + left. intros g Hg. destruct (gStatus g) eqn:E; auto; exfalso; [apply Hw|apply Hf]; apply Exists_exists; by exists g.
Qed.

(** It can always be completed without a further failure. *)
Lemma conc_completes s : conc_inv s -> exists s', rtc (advance act maxParallel) s s' /\ ended (cGs s').
Proof.
  remember (steps_left s) as m eqn:Em. revert s Em. induction (lt_wf m) as [m _ IH]. intros s -> Hi.
  destruct (conc_progress s Hi) as [He|(s1 & H1)]; [by exists s|].
  destruct (IH _ (step_decreases _ _ (proj1 H1)) s1 eq_refl) as (s' & Hr & He); [by eapply conc_inv_step; [|apply H1]|].
  exists s'. split; [by eapply rtc_l|done].
Qed.
End ConcLemmas.

(** A TLS connection is handed out after a handshake for the dialled host, unless host
    names are not to be checked; no failure leaves a connection open. *)
Lemma tls_dial_checked dial handshake t network addr :
  match tls_DialContext dial handshake t network addr with
  | (Ok name, n) => n = 1%Z /\ handshake t name = HandshakeOk /\
      (InsecureSkipVerify t = false -> exists host port, SplitHostPort addr = Some (host, port) /\ name = Some host)
  | (Err _, n) => n = 0%Z
  end.
Proof.
  unfold tls_DialContext. destruct (dial network addr); [|done]. destruct (SplitHostPort addr) as [[host port]|]; [|done].
  destruct (handshake t _) eqn:Eh; [|done|done]. split; [done|]. split; [done|]. intros ->. by exists host, port.
Qed.

(** A Redis on a UNIX socket cannot be reached over TLS: the path has no port. *)
Lemma tls_over_unix_fails dial handshake t :
  is_ok (tls_DialContext dial handshake t "unix" "/var/run/redis.sock").1 = false.
Proof. unfold tls_DialContext. destruct (dial _ _); [|done]. by vm_compute. Qed.

(** The serial flush. *)
Lemma serial_store {S : Type} (act : Action -> S -> S) outcome gs st key : NoDup gs.*1 ->
  (execGroupsSerial act outcome gs st).1 = Ok tt ->
  (execGroupsSerial act outcome gs st).2 key = fold_left (fun s a => act a s) (default [] (map_get gs key)) (st key).
Proof.
  revert st. induction gs as [|[k l] gs IH]; intros st Hn H; [done|]. cbn [fmap list_fmap fst] in Hn. apply NoDup_cons in Hn as [Hk Hn].
  cbn [execGroupsSerial fst] in *. unfold flushGroup, flushed in *. destruct (outcome k); [done|].
  rewrite IH by done. cbn [sent fst snd]. rewrite group_store. cbn [map_get]. rewrite (String.eqb_sym k key).
  destruct (String.eqb_spec key k) as [->|Hne]; [|done]. by rewrite (proj2 (map_get_None gs k) Hk).
Qed.

(** The probes up to the end of the context. *)
Fixpoint probes (evs : list HealthEvent) : list bool :=
  match evs with
  | [] | CtxDone :: _ => []
  | Tick err ctxDone reply :: evs => probeOnce err ctxDone reply :: probes evs
  end.

(** The log alternates, from healthy. *)
Fixpoint alternates (state : bool) (l : list bool) : Prop := match l with [] => True | b :: l => b = negb state /\ alternates b l end.

Lemma last_cons {A : Type} (x d : A) l : List.last (x :: l) d = List.last l x.
Proof. revert x. induction l as [|y l IH]; intros x; [done|]. cbn [List.last] in *. destruct l; [done|]. apply (IH x). Qed.

Lemma alternates_app state l b : alternates state l -> b = negb (List.last l state) -> alternates state (l ++ [b]).
Proof.
  revert state. induction l as [|x l IH]; intros state; cbn [app alternates]; [done|]. intros [Hx Hl]. rewrite last_cons. intros Hb.
  split; [done|]. by apply IH.
Qed.

Lemma mark_step (b : bool) h : alternates true (logged h) -> List.last (logged h) true = healthy h ->
  let h' := if b then mark_ok h else mark_failed h in
  healthy h' = b /\ alternates true (logged h') /\ List.last (logged h') true = healthy h'.
Proof.
  destruct h as [st l]. cbn. intros Ha Hl. destruct b, st; cbn; [done| | |done]; rewrite last_last; (split; [done|]); (split; [|done]);
    apply alternates_app; [done|by rewrite Hl|done|by rewrite Hl].
Qed.

(** The state is the last probe's outcome, and the log has one line per change. *)
Lemma health_follows_probes evs : let h := runHealthCheckLoop evs NewHealthChecker in
  IsHealthy h = List.last (probes evs) true /\ alternates true (logged h) /\ List.last (logged h) true = IsHealthy h.
Proof.
  cut (forall h, alternates true (logged h) -> List.last (logged h) true = healthy h ->
    let h' := runHealthCheckLoop evs h in
    healthy h' = List.last (probes evs) (healthy h) /\ alternates true (logged h') /\ List.last (logged h') true = healthy h');
    [intros H; by apply (H NewHealthChecker)|].
  induction evs as [|[|err ctxDone reply] evs IH]; intros h Ha Hl; [done|done|]. cbn [runHealthCheckLoop probes].
  destruct (mark_step (probeOnce err ctxDone reply) h Ha Hl) as (Hs & Ha' & Hl'). destruct (IH _ Ha' Hl') as (H1 & H2 & H3).
  split; [|done]. by rewrite H1, Hs, last_cons.
Qed.

(** The attempts to connect end when the clock passes the deadline. *)
Lemma connect_loop_ends env d maxBackoff k n backoff : (d < nowAfter (env (n + k)%nat))%Z ->
  exists ws r, connect_loop (S k) env (Some d) maxBackoff n backoff = Some (ws, r) /\
    match r with Connected m | ContextDone m | Exceeded m => (n <= m <= n + k)%nat end.
Proof.
  revert n backoff. induction k as [|k IH]; intros n backoff Hk; cbn [connect_loop];
    (destruct (doneBefore (env n)); [by eexists _, (ContextDone n); split; [|lia]|]);
    (case_bool_decide; [by eexists _, (Connected n); split; [|lia]|]).
  - rewrite Nat.add_0_r in Hk. destruct (Z.ltb_spec d (nowAfter (env n))); [|lia]. by eexists _, (Exceeded n); split; [|lia].
  - destruct (d <? nowAfter (env n))%Z; [by eexists _, (Exceeded n); split; [|lia]|].
    destruct (doneWaiting (env n)); [by eexists _, (ContextDone n); split; [|lia]|].
    destruct (IH (S n) (next_backoff backoff maxBackoff)) as (ws & r & E & Hr); [by replace (S n + k)%nat with (n + S k)%nat by lia|].
    cbn [connect_loop] in E |- *. rewrite E. eexists _, r. split; [done|]. destruct r; lia.
Qed.

(** Connecting ends: when every attempt takes at least [step], it is over after the
    attempts that fit in the elapsed time; without a limit it may go on for ever. *)
Lemma startup_ends env start step cfg : (0 < StartupMaxElapsedTimeDuration cfg)%Z -> (0 < step)%Z ->
  (forall n, start + (Z.of_nat n + 1) * step <= nowAfter (env n))%Z ->
  exists ws r, NewClientConn (S (Z.to_nat (StartupMaxElapsedTimeDuration cfg / step))) env start cfg = Some (ws, r).
Proof.
  intros H0 Hs Hn. unfold NewClientConn. destruct (Z.ltb_spec 0 (StartupMaxElapsedTimeDuration cfg)); [|lia].
  edestruct (connect_loop_ends env (start + StartupMaxElapsedTimeDuration cfg) (StartupMaxIntervalDuration cfg)
    (Z.to_nat (StartupMaxElapsedTimeDuration cfg / step)) 0) as (ws & r & E & _); [|by exists ws, r].
  specialize (Hn (0 + Z.to_nat (StartupMaxElapsedTimeDuration cfg / step))%nat). cbn [Nat.add] in *.
  pose proof (Z.mul_succ_div_gt (StartupMaxElapsedTimeDuration cfg) step Hs).
  rewrite Z2Nat.id in Hn by (apply Z.div_pos; lia). lia.
Qed.

(** Every wait ends by the deadline. *)
Lemma connect_waits env d maxBackoff fuel n backoff ws r :
  connect_loop fuel env (Some d) maxBackoff n backoff = Some (ws, r) ->
  forall i w, ws !! i = Some w -> (w <= d - nowUntil (env (n + i)%nat))%Z.
Proof.
  revert n backoff ws r. induction fuel as [|fuel IH]; intros n backoff ws r H; [done|]. cbn [connect_loop] in H.
  destruct (doneBefore (env n)); [by injection H as <- _|]. case_bool_decide; [by injection H as <- _|].
  destruct (d <? nowAfter (env n))%Z; [by injection H as <- _|].
  assert (forall s, (if (d - nowUntil (env n) <? s)%Z then (d - nowUntil (env n))%Z else s) <= d - nowUntil (env n))%Z as Hcap
    by (intros s; destruct (Z.ltb_spec (d - nowUntil (env n)) s); lia).
  destruct (doneWaiting (env n)).
  - injection H as <- _. intros [|i] w Hi; [|done]. injection Hi as <-. rewrite Nat.add_0_r. apply Hcap.
  - destruct (connect_loop fuel env _ _ _ _) as [[ws' r']|] eqn:E; [|done]. injection H as <- <-.
    intros [|i] w Hi; [injection Hi as <-; rewrite Nat.add_0_r; apply Hcap|].
    specialize (IH _ _ _ _ E i w Hi). by replace (n + S i)%nat with (S n + i)%nat by lia.
Qed.

(** ** Properties *)

(** C37: a grouped pipeline does what the pipeline does. For commands that act on the key
    they are routed by, a pipeline that returns no error leaves every key, and the
    replies received for it, as if its commands had run one after the other, on every
    topology, parallelism and interleaving of the concurrent flushes. At every moment of
    a concurrent flush, even a failed or cancelled one, each key has seen a prefix of its
    commands in order, at most the configured number of groups is being flushed, and the
    groups that have not failed can still be flushed to the end with no further failure:
    every slot of the semaphore comes back. No flush takes more than two steps a group,
    one a command and one for a cancellation. *)
Theorem pipelines_equivalent {S : Type} (act : Action -> S -> S) (isCluster : bool) (parallelism : Z)
  (pipeline : list PipelineAction) (st : Store (S := S)) :
  (forall st', PipeDo act isCluster parallelism pipeline st (Ok tt, st') -> forall key, st' key = (pipeDoFlat act None pipeline st).2 key) /\
  (forall n s, nsteps (conc_step act parallelism) n (mkConc (spawn (ordered pipeline)) st 0 false) s ->
     n <= 2 * length (ordered pipeline) + length pipeline + 1 /\
     (forall key, exists n, cStore s key = fold_left (fun s a => act a s) (take n (commands pipeline key)) (st key)) /\
     ((0 < parallelism)%Z -> (Z.of_nat (in_flight (cGs s)) <= parallelism)%Z) /\
     exists s', rtc (advance act parallelism) s s' /\ ended (cGs s')).
Proof.
  split.
  - intros st' Hp key. cbn [pipeDoFlat snd sent]. rewrite flat_store. remember (Ok tt, st') as out eqn:E.
    destruct Hp as [->|outcome _ _|outcome _ _ _|s _ _ _ Hr _].
    + by injection E as <-.
    + destruct outcome; [done|]. injection E as <-. by rewrite flat_store.
    + rewrite <- ordered_commands, <- (serial_store act outcome); [by rewrite E|apply ordered_nodup|by rewrite E].
    + injection E as E <-. eapply conc_waited; [by eapply conc_reachable|exact E].
  - intros n s Hn. split; [etrans; [by eapply nsteps_left|apply spawn_left]|].
    assert (conc_inv act parallelism pipeline st s) as Hi by (apply conc_reachable, rtc_nsteps; eauto).
    split; [|split; [|by eapply conc_completes]].
    + intros key. destruct (decide (key ∈ gKey <$> cGs s)) as [Hin|Hk].
      * apply list_elem_of_fmap in Hin as (g & -> & [i Hg]%list_elem_of_lookup).
        destruct (ci_each _ _ _ _ _ Hi _ _ Hg) as (H1 & H2 & _). exists (length (gDone g)). by rewrite <- H1, take_app_length, H2.
      * exists 0%nat. rewrite (ci_keys _ _ _ _ _ Hi) in Hk. exact (ci_other _ _ _ _ _ Hi key Hk).
    + intros Hm. destruct (ci_slots _ _ _ _ _ Hi) as [<- Hl]; [by apply Z.ltb_lt|done].
Qed.

(** ** Examples *)

(** Two keys, three commands; a key's state lists the commands it has seen. *)
Definition example_pipeline : list PipelineAction :=
  PipeAppend (PipeAppend (PipeAppend [] 0 "INCRBY" "a" ["1"]) 1 "INCRBY" "b" ["1"]) 2 "EXPIRE" "a" ["60"].

Lemma pipelines_equivalent_witness :
  ordered example_pipeline = [("a", [mkAction 0 "INCRBY" ["a"; "1"]; mkAction 2 "EXPIRE" ["a"; "60"]]); ("b", [mkAction 1 "INCRBY" ["b"; "1"]])] /\
  (execGroupsSerial (fun a l => l ++ [a]) (fun _ => None) (ordered example_pipeline) (fun _ => [])).2 "a" =
    (pipeDoFlat (fun a l => l ++ [a]) None example_pipeline (fun _ => [])).2 "a".
Proof.
  split; [by vm_compute|].
  apply (proj1 (pipelines_equivalent (fun a l => l ++ [a]) true 1 example_pipeline (fun _ => []))).
  apply (pipe_serial _ true 1 example_pipeline _ (fun _ => None)); [discriminate|reflexivity|reflexivity].
Defined.

Example split_example : splitAndTrim " mymaster , s1:26379,, s2:26379 " = ["mymaster"; "s1:26379"; "s2:26379"] /\ split_auth "app:se:cret" = ("app", "se:cret").
Proof. by vm_compute. Qed.

End RedisConn.
