(* ===== verification/OpIndex.v ===== *)
(** * OpIndex: the operator's identity index and the informer handlers that feed it
    (hyper-operator/internal/identity/index.go and cache.go)

    Every operation runs under the index's lock, so an operation is one function
    on the state; the notification channel of capacity one is a boolean. A write
    to a nil map panics in Go: operations that could reach one return [None].
    Kubernetes objects are records of the fields the handlers read. *)

From S2P Require Import Prelude GoStrings Netip.
From stdpp Require Import sorting.

Local Open Scope string_scope.
Local Open Scope list_scope.

Module OpIndex.

(** ** Data *)

Inductive WorkloadKind : Type := KindPod | KindNode.

Record ServiceRef := mkServiceRef { refNamespace : string; refName : string }.
#[export] Instance ServiceRef_eq_dec : EqDecision ServiceRef.
Proof. solve_decision. Defined.
#[export] Instance ServiceRef_countable : Countable ServiceRef :=
  inj_countable' (fun r => (refNamespace r, refName r)) (fun p => mkServiceRef p.1 p.2)
    (fun r => match r with mkServiceRef _ _ => eq_refl end).

Definition compareServiceRef (a b : ServiceRef) : comparison :=
  match String.compare (refNamespace a) (refNamespace b) with
  | Eq => String.compare (refName a) (refName b)
  | c => c
  end.

Record Workload := mkWorkload {
  Kind : WorkloadKind;
  IP : Addr;
  Node : string;
  PodUID : string;
  Namespace : string;
  Pod : string;
  ServiceAccount : string;
  SPIFFEID : string;
  Labels : gmap string string;
  Services : list ServiceRef;
  SecurityIdentity : Z;
  CiliumLabels : list string
}.

Record Service := mkService {
  SvcNamespace : string; SvcName : string; ClusterIPs : list Addr; Ports : list Z }.

Record PodRecord := mkPodRecord {
  UID : string;
  pNamespace : string;
  pName : string;
  pServiceAccount : string;
  pNode : string;
  pLabels : gmap string string;
  pIPs : list Addr;
  HostNetwork : bool;
  Finished : bool;
  Created : Z
}.
#[export] Instance PodRecord_eta : Eta PodRecord := fun x =>
  mkPodRecord (UID x) (pNamespace x) (pName x) (pServiceAccount x) (pNode x) (pLabels x) (pIPs x)
    (HostNetwork x) (Finished x) (Created x).

Record SliceRecord := mkSliceRecord {
  sNamespace : string; sName : string; sService : string; PodUIDs : list string; sIPs : list Addr }.

Record CiliumEndpointRecord := mkCiliumEndpointRecord {
  cNamespace : string; cName : string; cIdentity : Z; cLabels : list string }.

Record NodeRecord := mkNodeRecord { nName : string; nIPs : list Addr }.

Record Options := mkOptions { TrustDomain : string; LabelKeys : list string }.

Definition DefaultLabelKeys : list string :=
  ["app"; "version"; "app.kubernetes.io/name"; "app.kubernetes.io/instance";
   "app.kubernetes.io/component"; "app.kubernetes.io/version"].

(** Reference-counted Service membership. *)
Abbreviation Refs K := (gmap K (gmap ServiceRef Z)).

Record Index := mkIndex {
  trustDomain : string;
  labelKeys : gset string;
  pods : gmap string PodRecord;
  claims : gmap Addr (list string);
  slices : gmap (string * string) SliceRecord;
  podServices : Refs string;
  ipServices : Refs Addr;
  services : gmap ServiceRef Service;
  byClusterIP : gmap Addr ServiceRef;
  cilium : gmap (string * string) CiliumEndpointRecord;
  nodes : gmap string NodeRecord;
  nodeIP : gmap Addr string;
  generation : Z;
  changed : bool
}.
#[export] Instance Index_eta : Eta Index := fun x =>
  mkIndex (trustDomain x) (labelKeys x) (pods x) (claims x) (slices x) (podServices x) (ipServices x)
    (services x) (byClusterIP x) (cilium x) (nodes x) (nodeIP x) (generation x) (changed x).

Definition NewIndex (opts : Options) : Index :=
  let td := if String.eqb (TrustDomain opts) "" then "cluster.local" else TrustDomain opts in
  let keys := if nonempty (LabelKeys opts) then LabelKeys opts else DefaultLabelKeys in
  mkIndex td (list_to_set keys) ∅ ∅ ∅ ∅ ∅ ∅ ∅ ∅ ∅ ∅ 0 false.

(** The generation is a uint64; the send never blocks. *)
Definition bump (x : Index) : Index :=
  x <| generation := ((generation x + 1) mod 2 ^ 64)%Z |> <| changed := true |>.

(** [<-x.Changed()] by the single consumer *)
Definition Changed (x : Index) : Index := x <| changed := false |>.

Definition LabelAllowed (x : Index) (key : string) : bool := bool_decide (key ∈ labelKeys x).

(** ** Helpers *)

Definition addRef {K : Type} `{Countable K} (m : Refs K) (key : K) (ref : ServiceRef) : Refs K :=
  let refs := default ∅ (m !! key) in
  <[key := <[ref := (default 0%Z (refs !! ref) + 1)%Z]> refs]> m.

(** [None]: the decrement writes to a nil map. *)
Definition dropRef {K : Type} `{Countable K} (m : Refs K) (key : K) (ref : ServiceRef) : option (Refs K) :=
  match m !! key with
  | None => None
  | Some refs =>
      let n := (default 0%Z (refs !! ref) - 1)%Z in
      let refs := if (n <=? 0)%Z then delete ref refs else <[ref := n]> refs in
      Some (if bool_decide (refs = ∅) then delete key m else <[key := refs]> m)
  end.

Definition uniqueAddrs (l : list Addr) : list Addr :=
  fold_left (fun out a => if negb (IsValid a) then out
                          else let a := Unmap a in
                               if bool_decide (a ∈ out) then out else out ++ [a]) l [].

Definition uniqueStrings (l : list string) : list string :=
  fold_left (fun out s => if negb (String.eqb s "") && negb (bool_decide (s ∈ out)) then out ++ [s] else out) l [].

Definition filterLabels (x : Index) (labels : gmap string string) : gmap string string :=
  filter (fun e => e.1 ∈ labelKeys x) labels.

(** ** Pods *)

Definition drop_claim (uid : string) (m : gmap Addr (list string)) (ip : Addr) : gmap Addr (list string) :=
  let l := filter (fun u => u <> uid) (default [] (m !! ip)) in
  match l with [] => delete ip m | _ => <[ip := l]> m end.

Definition removePodLocked (x : Index) (uid : string) : Index :=
  match pods x !! uid with
  | None => x
  | Some old => x <| claims := fold_left (drop_claim uid) (pIPs old) (claims x) |>
                  <| pods := delete uid (pods x) |>
  end.

Definition add_claim (uid : string) (m : gmap Addr (list string)) (ip : Addr) : gmap Addr (list string) :=
  <[ip := default [] (m !! ip) ++ [uid]]> m.

Definition UpsertPod (x : Index) (p : PodRecord) : Index :=
  let x := removePodLocked x (UID p) in
  if HostNetwork p || Finished p || String.eqb (UID p) "" then bump x
  else
    let rec := p <| pIPs := uniqueAddrs (pIPs p) |> <| pLabels := filterLabels x (pLabels p) |> in
    let x := x <| pods := <[UID p := rec]> (pods x) |> in
    bump (x <| claims := fold_left (add_claim (UID p)) (pIPs rec) (claims x) |>).

Definition DeletePod (x : Index) (uid : string) : Index := bump (removePodLocked x uid).

(** [p.Created.After(best.Created) || equal && p.UID > best.UID] *)
Definition newer (p best : PodRecord) : bool :=
  (Created best <? Created p)%Z || ((Created p =? Created best)%Z && String.ltb (UID best) (UID p)).

Definition better (x : Index) (best : option PodRecord) (uid : string) : option PodRecord :=
  match pods x !! uid with
  | None => best
  | Some p => match best with
              | None => Some p
              | Some b => if newer p b then Some p else best
              end
  end.

Definition owner (x : Index) (ip : Addr) : option PodRecord :=
  fold_left (better x) (default [] (claims x !! ip)) None.

(** ** EndpointSlices *)

Definition drop_all {K : Type} `{Countable K} (ref : ServiceRef) (m : option (Refs K)) (keys : list K)
  : option (Refs K) :=
  fold_left (fun m key => match m with Some m => dropRef m key ref | None => None end) keys m.

Definition removeSliceLocked (x : Index) (key : string * string) : option Index :=
  match slices x !! key with
  | None => Some x
  | Some old =>
      let svc := mkServiceRef (sNamespace old) (sService old) in
      match drop_all svc (Some (podServices x)) (PodUIDs old), drop_all svc (Some (ipServices x)) (sIPs old) with
      | Some ps, Some ips => Some (x <| podServices := ps |> <| ipServices := ips |> <| slices := delete key (slices x) |>)
      | _, _ => None
      end
  end.

Definition UpsertSlice (x : Index) (s : SliceRecord) : option Index :=
  let key := (sNamespace s, sName s) in
  match removeSliceLocked x key with
  | None => None
  | Some x =>
      if String.eqb (sService s) "" then Some (bump x)
      else
        let svc := mkServiceRef (sNamespace s) (sService s) in
        let rec := mkSliceRecord (sNamespace s) (sName s) (sService s) (uniqueStrings (PodUIDs s)) (uniqueAddrs (sIPs s)) in
        let ps := fold_left (fun m uid => addRef m uid svc) (PodUIDs rec) (podServices x) in
        let ips := fold_left (fun m ip => addRef m ip svc) (sIPs rec) (ipServices x) in
        Some (bump (x <| podServices := ps |> <| ipServices := ips |> <| slices := <[key := rec]> (slices x) |>))
  end.

Definition DeleteSlice (x : Index) (namespace name : string) : option Index :=
  bump <$> removeSliceLocked x (namespace, name).

(** ** Services, Cilium endpoints, nodes *)

Definition removeServiceLocked (x : Index) (ref : ServiceRef) : Index :=
  match services x !! ref with
  | None => x
  | Some old =>
      x <| byClusterIP := fold_left (fun m ip => if bool_decide (m !! ip = Some ref) then delete ip m else m)
                            (ClusterIPs old) (byClusterIP x) |>
        <| services := delete ref (services x) |>
  end.

Definition UpsertService (x : Index) (s : Service) : Index :=
  let ref := mkServiceRef (SvcNamespace s) (SvcName s) in
  let x := removeServiceLocked x ref in
  let s := mkService (SvcNamespace s) (SvcName s) (uniqueAddrs (ClusterIPs s)) (Ports s) in
  let x := x <| services := <[ref := s]> (services x) |> in
  bump (x <| byClusterIP := fold_left (fun m ip => <[ip := ref]> m) (ClusterIPs s) (byClusterIP x) |>).

Definition DeleteService (x : Index) (namespace name : string) : Index :=
  bump (removeServiceLocked x (mkServiceRef namespace name)).

Definition string_le (a b : string) : Prop := String.leb a b = true.
#[export] Instance string_le_dec : RelDecision string_le.
Proof. intros a b. unfold string_le. apply _. Defined.

Definition UpsertCiliumEndpoint (x : Index) (c : CiliumEndpointRecord) : Index :=
  let c := mkCiliumEndpointRecord (cNamespace c) (cName c) (cIdentity c) (merge_sort string_le (cLabels c)) in
  bump (x <| cilium := <[(cNamespace c, cName c) := c]> (cilium x) |>).

Definition DeleteCiliumEndpoint (x : Index) (namespace name : string) : Index :=
  bump (x <| cilium := delete (namespace, name) (cilium x) |>).

Definition removeNodeLocked (x : Index) (name : string) : Index :=
  match nodes x !! name with
  | None => x
  | Some old =>
      x <| nodeIP := fold_left (fun m ip => if bool_decide (m !! ip = Some name) then delete ip m else m)
                       (nIPs old) (nodeIP x) |>
        <| nodes := delete name (nodes x) |>
  end.

Definition UpsertNode (x : Index) (n : NodeRecord) : Index :=
  let x := removeNodeLocked x (nName n) in
  let n := mkNodeRecord (nName n) (uniqueAddrs (nIPs n)) in
  let x := x <| nodes := <[nName n := n]> (nodes x) |> in
  bump (x <| nodeIP := fold_left (fun m ip => <[ip := nName n]> m) (nIPs n) (nodeIP x) |>).

Definition DeleteNode (x : Index) (name : string) : Index := bump (removeNodeLocked x name).

(** ** Reads *)

Definition ref_le (a b : ServiceRef) : Prop := compareServiceRef a b <> Gt.
#[export] Instance ref_le_dec : RelDecision ref_le.
Proof. intros a b. unfold ref_le. apply _. Defined.

Definition sa_of (p : PodRecord) : string := if String.eqb (pServiceAccount p) "" then "default" else pServiceAccount p.

Definition spiffe_id (trustDomain ns sa : string) : string :=
  ("spiffe://" +++ trustDomain +++ "/ns/" +++ ns +++ "/sa/" +++ sa)%go.

Definition podWorkloadLocked (x : Index) (p : PodRecord) (ip : Addr) : Workload :=
  let sa := sa_of p in
  let refs : gset ServiceRef :=
    dom (default ∅ (podServices x !! UID p)) ∪ dom (default ∅ (ipServices x !! ip)) in
  let '(id, cl) := match cilium x !! (pNamespace p, pName p) with
                   | Some c => (cIdentity c, cLabels c)
                   | None => (0%Z, [])
                   end in
  mkWorkload KindPod ip (pNode p) (UID p) (pNamespace p) (pName p) sa
    (spiffe_id (trustDomain x) (pNamespace p) sa) (pLabels p) (merge_sort ref_le (elements refs)) id cl.

Definition nodeWorkload (ip : Addr) (node : string) : Workload :=
  mkWorkload KindNode ip node "" "" "" "" "" ∅ [] 0 [].

Definition Lookup (x : Index) (ip : Addr) : option Workload :=
  let ip := Unmap ip in
  match owner x ip with
  | Some p => Some (podWorkloadLocked x p ip)
  | None => nodeWorkload ip <$> nodeIP x !! ip
  end.

Definition ServiceByClusterIP (x : Index) (ip : Addr) : option Service :=
  match byClusterIP x !! Unmap ip with
  | None => None
  | Some ref => Some (default (mkService "" "" [] []) (services x !! ref))
  end.

Definition GetService (x : Index) (namespace name : string) : option Service :=
  services x !! mkServiceRef namespace name.

(** netip.Addr.Compare: by length, then value, then zone. *)
Definition addr_le (a b : Addr) : Prop :=
  match (BitLen a ?= BitLen b)%Z with
  | Lt => True
  | Gt => False
  | Eq => match (addr_value a ?= addr_value b)%Z with
          | Lt => True
          | Gt => False
          | Eq => String.leb (Zone a) (Zone b) = true
          end
  end.
#[export] Instance addr_le_dec : RelDecision addr_le.
Proof. intros a b. unfold addr_le. repeat case_match; apply _. Defined.

Definition workload_le (a b : Workload) : Prop := addr_le (IP a) (IP b).
#[export] Instance workload_le_dec : RelDecision workload_le.
Proof. intros a b. unfold workload_le. apply _. Defined.

Definition Workloads (x : Index) : list Workload :=
  let of_pods := omap (fun e : Addr * list string =>
                         (fun p => podWorkloadLocked x p e.1) <$> owner x e.1) (map_to_list (claims x)) in
  let of_nodes := omap (fun e : Addr * string =>
                          match claims x !! e.1 with
                          | Some _ => None
                          | None => Some (nodeWorkload e.1 e.2)
                          end) (map_to_list (nodeIP x)) in
  merge_sort workload_le (of_pods ++ of_nodes).

Definition service_le (a b : Service) : Prop :=
  ref_le (mkServiceRef (SvcNamespace a) (SvcName a)) (mkServiceRef (SvcNamespace b) (SvcName b)).
#[export] Instance service_le_dec : RelDecision service_le.
Proof. intros a b. unfold service_le. apply _. Defined.

Definition AllServices (x : Index) : list Service := merge_sort service_le (map_to_list (services x)).*2.

Definition Counts (x : Index) : nat * nat * nat := (size (claims x), size (nodeIP x), size (services x)).

(** ** Kubernetes objects and the informer handlers (cache.go) *)

Record K8sPod := mkK8sPod {
  kpNamespace : string; kpName : string; kpUID : string; kpLabels : gmap string string;
  kpCreated : Z; kpServiceAccountName : string; kpNodeName : string; kpHostNetwork : bool;
  kpPhase : string; kpPodIP : string; kpPodIPs : list string }.

Record K8sService := mkK8sService {
  ksNamespace : string; ksName : string; ksClusterIP : string; ksClusterIPs : list string;
  ksPorts : list Z }.

(** An endpoint's targetRef is its kind and UID. *)
Record K8sEndpoint := mkK8sEndpoint { keAddresses : list string; keTargetRef : option (string * string) }.

Record K8sSlice := mkK8sSlice {
  klNamespace : string; klName : string; klLabels : gmap string string; klEndpoints : list K8sEndpoint }.

(** A node's addresses with their types. *)
Record K8sNode := mkK8sNode { knName : string; knAddresses : list (string * string) }.

(** status.identity.id and status.identity.labels, when present and well typed. *)
Record K8sCilium := mkK8sCilium {
  kcNamespace : string; kcName : string; kcIdentity : option Z; kcLabels : option (list string) }.

Definition LabelServiceName : string := "kubernetes.io/service-name".

Definition appendAddr (addrs : list Addr) (s : string) : list Addr :=
  match NetipParseAddr s with Some a => addrs ++ [Unmap a] | None => addrs end.

Definition trimPod (x : Index) (p : K8sPod) : K8sPod :=
  mkK8sPod (kpNamespace p) (kpName p) (kpUID p) (filter (fun e => LabelAllowed x e.1 = true) (kpLabels p))
    (kpCreated p) (kpServiceAccountName p) (kpNodeName p) (kpHostNetwork p) (kpPhase p) (kpPodIP p) (kpPodIPs p).

Definition pod_record (p : K8sPod) : PodRecord :=
  let addrs := fold_left appendAddr (kpPodIPs p) [] in
  let addrs := if nonempty addrs then addrs else appendAddr addrs (kpPodIP p) in
  mkPodRecord (kpUID p) (kpNamespace p) (kpName p) (kpServiceAccountName p) (kpNodeName p) (kpLabels p) addrs
    (kpHostNetwork p) (String.eqb (kpPhase p) "Succeeded" || String.eqb (kpPhase p) "Failed") (kpCreated p).

Definition onPod (x : Index) (p : K8sPod) : Index := UpsertPod x (pod_record p).
Definition onPodDelete (x : Index) (p : K8sPod) : Index := DeletePod x (kpUID p).

(** [trimService] drops fields the model's record does not have; the protocol
    it keeps is not read. *)
Definition service_record (s : K8sService) : Service :=
  let addrs := fold_left appendAddr (ksClusterIPs s) [] in
  let addrs := if nonempty addrs then addrs else appendAddr addrs (ksClusterIP s) in
  mkService (ksNamespace s) (ksName s) addrs ((fun p => (p mod 2 ^ 32)%Z) <$> ksPorts s).

Definition onService (x : Index) (s : K8sService) : Index := UpsertService x (service_record s).
Definition onServiceDelete (x : Index) (s : K8sService) : Index := DeleteService x (ksNamespace s) (ksName s).

Definition trimEndpoint (e : K8sEndpoint) : K8sEndpoint :=
  mkK8sEndpoint (keAddresses e)
    (match keTargetRef e with
     | Some (kind, uid) => if String.eqb kind "Pod" then Some ("Pod", uid) else None
     | None => None
     end).

Definition trimSlice (s : K8sSlice) : K8sSlice :=
  mkK8sSlice (klNamespace s) (klName s)
    {[LabelServiceName := default "" (klLabels s !! LabelServiceName)]} (trimEndpoint <$> klEndpoints s).

Definition add_endpoint (acc : list string * list Addr) (e : K8sEndpoint) : list string * list Addr :=
  let by_address := (acc.1, fold_left appendAddr (keAddresses e) acc.2) in
  match keTargetRef e with
  | Some (kind, uid) =>
      if String.eqb kind "Pod" && negb (String.eqb uid "") then (acc.1 ++ [uid], acc.2) else by_address
  | None => by_address
  end.

Definition slice_record (s : K8sSlice) : SliceRecord :=
  let '(uids, ips) := fold_left add_endpoint (klEndpoints s) ([], []) in
  mkSliceRecord (klNamespace s) (klName s) (default "" (klLabels s !! LabelServiceName)) uids ips.

Definition onSlice (x : Index) (s : K8sSlice) : option Index := UpsertSlice x (slice_record s).
Definition onSliceDelete (x : Index) (s : K8sSlice) : option Index := DeleteSlice x (klNamespace s) (klName s).

Definition node_record (n : K8sNode) : NodeRecord :=
  mkNodeRecord (knName n)
    (fold_left (fun addrs a => if String.eqb a.1 "InternalIP" || String.eqb a.1 "ExternalIP"
                               then appendAddr addrs a.2 else addrs) (knAddresses n) []).

Definition onNode (x : Index) (n : K8sNode) : Index := UpsertNode x (node_record n).
Definition onNodeDelete (x : Index) (n : K8sNode) : Index := DeleteNode x (knName n).

(** NestedInt64 yields zero and NestedStringSlice nil for an absent field. *)
Definition cilium_record (c : K8sCilium) : CiliumEndpointRecord :=
  let id := default 0%Z (kcIdentity c) in
  let id := if (id <? 0)%Z || (2 ^ 32 - 1 <? id)%Z then 0%Z else id in
  mkCiliumEndpointRecord (kcNamespace c) (kcName c) id (default [] (kcLabels c)).

Definition onCiliumEndpoint (x : Index) (c : K8sCilium) : Index := UpsertCiliumEndpoint x (cilium_record c).
Definition onCiliumEndpointDelete (x : Index) (c : K8sCilium) : Index :=
  DeleteCiliumEndpoint x (kcNamespace c) (kcName c).

(** What the informers deliver: an object added, updated (the previous and the
    new version) or deleted (the last known version, also from a tombstone). *)
Inductive Object : Type :=
| OPod (p : K8sPod) | OService (s : K8sService) | OSlice (s : K8sSlice) | ONode (n : K8sNode)
| OCilium (c : K8sCilium).

Inductive Event : Type :=
| Added (o : Object) | Updated (old new : Object) | Deleted (o : Object).

Definition upsert (x : Index) (o : Object) : option Index :=
  match o with
  | OPod p => Some (onPod x (trimPod x p))
  | OService s => Some (onService x s)
  | OSlice s => onSlice x (trimSlice s)
  | ONode n => Some (onNode x n)
  | OCilium c => Some (onCiliumEndpoint x c)
  end.

Definition del (x : Index) (o : Object) : option Index :=
  match o with
  | OPod p => Some (onPodDelete x (trimPod x p))
  | OService s => Some (onServiceDelete x s)
  | OSlice s => onSliceDelete x (trimSlice s)
  | ONode n => Some (onNodeDelete x n)
  | OCilium c => Some (onCiliumEndpointDelete x c)
  end.

Definition handler (x : Index) (e : Event) : option Index :=
  match e with
  | Added o => upsert x o
  | Updated _ o => upsert x o
  | Deleted o => del x o
  end.

Definition handle_all (x : option Index) (es : list Event) : option Index :=
  fold_left (fun x e => match x with Some x => handler x e | None => None end) es x.

(** ** Specification: the objects the cluster has

    The current objects by the key the informers use, what a history of events
    leaves of them, and the contract of a history ([delivers]): an update or a delete
    names the object that is stored, an update of a pod that has a record keeps its UID,
    pod UIDs are unique, and no two nodes (Services) claim one address at a time. The
    informers promise the first; a deletion and a recreation that they report as one
    update break the second (Lemma [recreated_pod_leaks]). *)

Record Cluster := mkCluster {
  kPods : gmap (string * string) K8sPod;
  kServices : gmap ServiceRef K8sService;
  kSlices : gmap (string * string) K8sSlice;
  kNodes : gmap string K8sNode;
  kCilium : gmap (string * string) K8sCilium }.
#[export] Instance Cluster_eta : Eta Cluster := fun x =>
  mkCluster (kPods x) (kServices x) (kSlices x) (kNodes x) (kCilium x).

Definition no_objects : Cluster := mkCluster ∅ ∅ ∅ ∅ ∅.

Definition pod_key (p : K8sPod) : string * string := (kpNamespace p, kpName p).
Definition service_key (s : K8sService) : ServiceRef := mkServiceRef (ksNamespace s) (ksName s).
Definition slice_key (s : K8sSlice) : string * string := (klNamespace s, klName s).
Definition cilium_key (c : K8sCilium) : string * string := (kcNamespace c, kcName c).

Definition store (c : Cluster) (o : Object) : Cluster :=
  match o with
  | OPod p => c <| kPods := <[pod_key p := p]> (kPods c) |>
  | OService s => c <| kServices := <[service_key s := s]> (kServices c) |>
  | OSlice s => c <| kSlices := <[slice_key s := s]> (kSlices c) |>
  | ONode n => c <| kNodes := <[knName n := n]> (kNodes c) |>
  | OCilium e => c <| kCilium := <[cilium_key e := e]> (kCilium c) |>
  end.

Definition forget (c : Cluster) (o : Object) : Cluster :=
  match o with
  | OPod p => c <| kPods := delete (pod_key p) (kPods c) |>
  | OService s => c <| kServices := delete (service_key s) (kServices c) |>
  | OSlice s => c <| kSlices := delete (slice_key s) (kSlices c) |>
  | ONode n => c <| kNodes := delete (knName n) (kNodes c) |>
  | OCilium e => c <| kCilium := delete (cilium_key e) (kCilium c) |>
  end.

Definition advance (c : Cluster) (e : Event) : Cluster :=
  match e with Added o | Updated _ o => store c o | Deleted o => forget c o end.

Definition node_addrs (n : K8sNode) : list Addr := uniqueAddrs (nIPs (node_record n)).
Definition service_addrs (s : K8sService) : list Addr := uniqueAddrs (ClusterIPs (service_record s)).
Definition pod_addrs (p : K8sPod) : list Addr := uniqueAddrs (pIPs (pod_record p)).

(** The pods whose addresses are their own: running, not on the host's network. *)
Definition indexed (p : K8sPod) : bool :=
  negb (HostNetwork (pod_record p) || Finished (pod_record p) || String.eqb (kpUID p) "").

(** An object may be stored next to the others. *)
Definition admissible (c : Cluster) (o : Object) : Prop :=
  match o with
  | OPod p => forall k q, kPods c !! k = Some q -> kpUID q = kpUID p -> kpUID p <> "" -> k = pod_key p
  | OService s => forall k t ip, kServices c !! k = Some t -> k <> service_key s ->
                    ip ∈ service_addrs s -> ip ∈ service_addrs t -> False
  | ONode n => forall k m ip, kNodes c !! k = Some m -> k <> knName n ->
                 ip ∈ node_addrs n -> ip ∈ node_addrs m -> False
  | _ => True
  end.

Definition stored (c : Cluster) (o : Object) : Prop :=
  match o with
  | OPod p => kPods c !! pod_key p = Some p
  | OService s => kServices c !! service_key s = Some s
  | OSlice s => kSlices c !! slice_key s = Some s
  | ONode n => kNodes c !! knName n = Some n
  | OCilium e => kCilium c !! cilium_key e = Some e
  end.

Definition absent (c : Cluster) (o : Object) : Prop :=
  match o with
  | OPod p => kPods c !! pod_key p = None
  | OService s => kServices c !! service_key s = None
  | OSlice s => kSlices c !! slice_key s = None
  | ONode n => kNodes c !! knName n = None
  | OCilium e => kCilium c !! cilium_key e = None
  end.

Definition same_object (old new : Object) : Prop :=
  match old, new with
  | OPod p, OPod q => pod_key p = pod_key q /\ (indexed p = true -> kpUID p = kpUID q)
  | OService s, OService t => service_key s = service_key t
  | OSlice s, OSlice t => slice_key s = slice_key t
  | ONode n, ONode m => knName n = knName m
  | OCilium e, OCilium f => cilium_key e = cilium_key f
  | _, _ => False
  end.

Definition delivers (c : Cluster) (e : Event) : Prop :=
  match e with
  | Added o => absent c o /\ admissible c o
  | Updated old new => stored c old /\ same_object old new /\ admissible c new
  | Deleted o => stored c o
  end.

(** A history that leads from [c] to [c']. *)
Inductive history : Cluster -> list Event -> Cluster -> Prop :=
| history_nil c : history c [] c
| history_cons c e es c' : delivers c e -> history (advance c e) es c' -> history c (e :: es) c'.

(** The pod claims the address, and is the most recent of those that do. *)
Definition claims_addr (c : Cluster) (ip : Addr) (p : K8sPod) : Prop :=
  exists k, kPods c !! k = Some p /\ indexed p = true /\ ip ∈ pod_addrs p.

Definition holder (c : Cluster) (ip : Addr) (p : K8sPod) : Prop :=
  claims_addr c ip p /\
  forall q, claims_addr c ip q ->
    (kpCreated q < kpCreated p)%Z \/ kpCreated q = kpCreated p /\ String.leb (kpUID q) (kpUID p) = true.

Definition slice_uids (s : K8sSlice) : list string := uniqueStrings (PodUIDs (slice_record s)).
Definition slice_addrs (s : K8sSlice) : list Addr := uniqueAddrs (sIPs (slice_record s)).
Definition slice_service (s : K8sSlice) : ServiceRef := mkServiceRef (klNamespace s) (sService (slice_record s)).

(** The Services one of whose EndpointSlices lists the pod or the address. *)
Definition member_of (c : Cluster) (uid : string) (ip : Addr) : gset ServiceRef :=
  list_to_set (slice_service <$>
    List.filter (fun s => negb (String.eqb (sService (slice_record s)) "") &&
                          (bool_decide (uid ∈ slice_uids s) || bool_decide (ip ∈ slice_addrs s)))
      (map_to_list (kSlices c)).*2).

(** The identity of a pod, read off the objects. *)
Definition pod_identity (td : string) (keys : gset string) (c : Cluster) (p : K8sPod) (ip : Addr) : Workload :=
  let sa := if String.eqb (kpServiceAccountName p) "" then "default" else kpServiceAccountName p in
  let cil := cilium_record <$> kCilium c !! pod_key p in
  mkWorkload KindPod ip (kpNodeName p) (kpUID p) (kpNamespace p) (kpName p) sa
    (spiffe_id td (kpNamespace p) sa) (filter (fun e => e.1 ∈ keys) (kpLabels p))
    (merge_sort ref_le (elements (member_of c (kpUID p) ip)))
    (from_option cIdentity 0%Z cil) (from_option (fun r => merge_sort string_le (cLabels r)) [] cil).

(** What the address [ip] denotes in the cluster. *)
Inductive denotes (td : string) (keys : gset string) (c : Cluster) (ip : Addr) : option Workload -> Prop :=
| denotes_pod p : holder c ip p -> denotes td keys c ip (Some (pod_identity td keys c p ip))
| denotes_node k n : (forall p, ~ claims_addr c ip p) -> kNodes c !! k = Some n -> ip ∈ node_addrs n ->
    denotes td keys c ip (Some (nodeWorkload ip (knName n)))
| denotes_nothing : (forall p, ~ claims_addr c ip p) ->
    (forall k n, kNodes c !! k = Some n -> ip ∉ node_addrs n) -> denotes td keys c ip None.

(** ** Lemmas *)

(** *** The order of claims *)

Lemma ascii_compare_N a b : Ascii.compare a b = N.compare (N_of_ascii a) (N_of_ascii b).
Proof. done. Qed.

Lemma string_compare_trans s1 s2 s3 :
  String.compare s1 s2 = Lt -> String.compare s2 s3 = Lt -> String.compare s1 s3 = Lt.
Proof.
  revert s2 s3. induction s1 as [|a s1 IH]; intros [|b s2] [|c s3]; cbn [String.compare]; try done.
  rewrite !ascii_compare_N. intros H1 H2.
  destruct (N.compare_spec (N_of_ascii a) (N_of_ascii b)) as [E1|L1|G1]; try done;
  destruct (N.compare_spec (N_of_ascii b) (N_of_ascii c)) as [E2|L2|G2]; try done;
  destruct (N.compare_spec (N_of_ascii a) (N_of_ascii c)) as [E3|L3|G3]; try done; try lia.
  by eapply IH.
Qed.

Lemma string_compare_refl s : String.compare s s = Eq.
Proof. induction s as [|a s IH]; [done|]. cbn. rewrite ascii_compare_N, N.compare_refl. done. Qed.

(** [r] does not come after [p] in the order that picks an owner. *)
Definition not_newer (r p : PodRecord) : Prop :=
  (Created r < Created p)%Z \/ Created r = Created p /\ String.leb (UID r) (UID p) = true.

Lemma not_newer_refl r : not_newer r r.
Proof. right. split; [done|]. unfold String.leb. by rewrite string_compare_refl. Qed.

Lemma string_leb_trans a b c : String.leb a b = true -> String.leb b c = true -> String.leb a c = true.
Proof.
  unfold String.leb. intros H1 H2.
  destruct (String.compare a b) eqn:E1; try done.
  - apply String.compare_eq_iff in E1. by subst.
  - destruct (String.compare b c) eqn:E2; try done.
    + apply String.compare_eq_iff in E2. subst. by rewrite E1.
    + by rewrite (string_compare_trans _ _ _ E1 E2).
Qed.

Lemma not_newer_trans a b c : not_newer a b -> not_newer b c -> not_newer a c.
Proof.
  unfold not_newer. intros [H1|[H1 H1']] [H2|[H2 H2']]; [left; lia|left; lia|left; lia|].
  right. split; [lia|]. by eapply string_leb_trans.
Qed.

Lemma newer_false p b : newer p b = false -> not_newer p b.
Proof.
  unfold newer, not_newer. intros [H1 H2]%orb_false_iff. apply Z.ltb_ge in H1.
  destruct (decide (Created p = Created b)) as [E|]; [|left; lia]. right. split; [done|].
  rewrite E, Z.eqb_refl in H2. cbn in H2. unfold String.ltb in H2. unfold String.leb.
  rewrite String.compare_antisym. by destruct (String.compare (UID b) (UID p)).
Qed.

Lemma newer_true p b : newer p b = true -> not_newer b p.
Proof.
  unfold newer, not_newer. intros [H|[H1 H2]%andb_true_iff]%orb_true_iff; [left; lia|].
  right. split; [lia|]. unfold String.ltb in H2. unfold String.leb. by destruct (String.compare (UID b) (UID p)).
Qed.

Lemma better_spec x l best :
  (forall uid, uid ∈ l -> is_Some (pods x !! uid)) ->
  match fold_left (better x) l best with
  | None => best = None /\ l = []
  | Some p => (best = Some p \/ exists uid, uid ∈ l /\ pods x !! uid = Some p) /\
              (forall b, best = Some b -> not_newer b p) /\
              (forall uid q, uid ∈ l -> pods x !! uid = Some q -> not_newer q p)
  end.
Proof.
  revert best. induction l as [|uid l IH]; intros best Hl; cbn [fold_left].
  { destruct best as [p|]; [|done]. split; [by left|]. split; [intros b [= ->]; apply not_newer_refl|].
    intros uid q Hin. by apply elem_of_nil in Hin. }
  destruct (Hl uid) as [p Hp]; [by left|].
  assert (Hb : exists b, better x best uid = Some b /\ (best = Some b \/ b = p) /\ not_newer p b /\
                 (forall b', best = Some b' -> not_newer b' b)).
  { unfold better. rewrite Hp. destruct best as [b|]; 
      [|exists p; split; [done|]; split; [by right|]; split; [apply not_newer_refl|done]].
    destruct (newer p b) eqn:E; eexists; (split; [done|]).
    - split; [by right|]. split; [apply not_newer_refl|]. intros ? [= <-]. by apply newer_true.
    - split; [by left|]. split; [by apply newer_false|]. intros ? [= <-]. apply not_newer_refl. }
  destruct Hb as (b & Eb & Hfrom & Hpb & Hbb). rewrite Eb.
  specialize (IH (Some b)). destruct (fold_left (better x) l (Some b)) as [r|] eqn:Er;
    [|by destruct IH; [intros; apply Hl; by right|]].
  destruct IH as (H1 & H2 & H3); [intros; apply Hl; by right|].
  specialize (H2 b eq_refl). split; [|split].
  - destruct H1 as [H1|(u & Hu & Hpu)]; [|right; exists u; split; [by right|done]]. injection H1 as <-.
    destruct Hfrom as [-> | ->]; [by left|]. right. exists uid. split; [by left|done].
  - intros b' Hb'. eapply not_newer_trans; eauto.
  - intros u q [->|Hu]%elem_of_cons Hq; [|eauto]. rewrite Hp in Hq. injection Hq as <-.
    eapply not_newer_trans; eauto.
Qed.

(** *** Unique lists *)

Lemma uniqueAddrs_NoDup l : NoDup (uniqueAddrs l).
Proof.
  unfold uniqueAddrs. apply (fold_left_inv (fun out : list Addr => NoDup out)); [constructor|].
  intros out a Hnd. destruct (IsValid a); cbn [negb]; [|done]. case_bool_decide; [done|].
  apply NoDup_app. split; [done|]. split; [|apply NoDup_singleton]. set_solver.
Qed.

Lemma uniqueStrings_NoDup l : NoDup (uniqueStrings l).
Proof.
  unfold uniqueStrings. apply (fold_left_inv (fun out : list string => NoDup out)); [constructor|].
  intros out a Hnd. destruct (negb (String.eqb a "") && _) eqn:E; [|done].
  apply andb_true_iff in E as [_ E%negb_true_iff]. apply bool_decide_eq_false in E.
  apply NoDup_app. split; [done|]. split; [|apply NoDup_singleton]. set_solver.
Qed.

(** *** Claims *)

Definition claimants (m : gmap Addr (list string)) (ip : Addr) : list string := default [] (m !! ip).

Definition claims_ok (m : gmap Addr (list string)) : Prop := forall ip, m !! ip <> Some [].

Lemma drop_claim_spec uid ips m ip u :
  u ∈ claimants (fold_left (drop_claim uid) ips m) ip <-> u ∈ claimants m ip /\ ~ (u = uid /\ ip ∈ ips).
Proof.
  revert m. induction ips as [|i ips IH]; intros m; cbn [fold_left]; [set_solver|]. rewrite IH.
  enough (u ∈ claimants (drop_claim uid m i) ip <-> u ∈ claimants m ip /\ ~ (u = uid /\ ip = i)) by set_solver.
  unfold drop_claim, claimants. destruct (decide (ip = i)) as [->|Hne].
  - set (l := filter _ (default [] (m !! i))).
    assert (u ∈ l <-> u ∈ default [] (m !! i) /\ u <> uid) as Hl.
    { unfold l. rewrite list_elem_of_filter. tauto. }
    destruct l eqn:E; [rewrite lookup_delete_eq|rewrite lookup_insert_eq]; cbn [from_option id]; set_solver.
  - case_match; [rewrite lookup_delete_ne by done|rewrite lookup_insert_ne by done]; naive_solver.
Qed.

Lemma drop_claim_ok uid ips m : claims_ok m -> claims_ok (fold_left (drop_claim uid) ips m).
Proof.
  intros Hm. apply fold_left_inv; [done|]. intros m' i H ip. unfold drop_claim.
  case_match; [rewrite lookup_delete|rewrite lookup_insert]; case_decide; by try apply H.
Qed.

Lemma add_claim_spec uid ips m ip u :
  u ∈ claimants (fold_left (add_claim uid) ips m) ip <-> u ∈ claimants m ip \/ u = uid /\ ip ∈ ips.
Proof.
  revert m. induction ips as [|i ips IH]; intros m; cbn [fold_left]; [set_solver|]. rewrite IH.
  enough (u ∈ claimants (add_claim uid m i) ip <-> u ∈ claimants m ip \/ (u = uid /\ ip = i)) by set_solver.
  unfold add_claim, claimants. rewrite lookup_insert. case_decide; cbn [from_option id]; set_solver.
Qed.

Lemma add_claim_ok uid ips m : claims_ok m -> claims_ok (fold_left (add_claim uid) ips m).
Proof.
  intros Hm. apply fold_left_inv; [done|]. intros m' i H ip. unfold add_claim. rewrite lookup_insert.
  case_decide; [|apply H]. intros [= E]. by destruct (default [] (m' !! i)).
Qed.

(** *** Reverse maps *)

Lemma assign_spec {V : Type} (v : V) ips (m : gmap Addr V) ip :
  fold_left (fun m ip => <[ip := v]> m) ips m !! ip = if decide (ip ∈ ips) then Some v else m !! ip.
Proof.
  revert m. induction ips as [|i ips IH]; intros m; cbn [fold_left]; [done|]. rewrite IH, lookup_insert.
  repeat case_decide; subst; set_solver.
Qed.

Lemma unassign_spec {V : Type} `{EqDecision V} (v : V) ips (m : gmap Addr V) ip :
  fold_left (fun m ip => if bool_decide (m !! ip = Some v) then delete ip m else m) ips m !! ip =
  if decide (ip ∈ ips /\ m !! ip = Some v) then None else m !! ip.
Proof.
  revert m. induction ips as [|i ips IH]; intros m; cbn [fold_left].
  { rewrite decide_False; [done|]. set_solver. }
  rewrite IH. destruct (decide (ip = i)) as [->|Hne].
  - destruct (decide (m !! i = Some v)) as [E|E].
    + rewrite bool_decide_true by done. rewrite lookup_delete_eq, (decide_True _ _ (P := i ∈ i :: ips /\ _)); [|set_solver].
      by case_decide.
    + rewrite bool_decide_false by done. rewrite !decide_False; naive_solver.
  - assert ((if bool_decide (m !! i = Some v) then delete i m else m) !! ip = m !! ip) as ->.
    { case_bool_decide; [by rewrite lookup_delete_ne|done]. }
    destruct (decide (ip ∈ ips /\ m !! ip = Some v)), (decide (ip ∈ i :: ips /\ m !! ip = Some v)); try done; set_solver.
Qed.

(** A reverse map of [f]: every entry comes from an object of [s], and every
    address of an object has its entry. *)
Definition reverse {K V : Type} `{Countable K} (s : gmap K V) (f : V -> list Addr) (m : gmap Addr K) : Prop :=
  forall ip k, m !! ip = Some k <-> exists v, s !! k = Some v /\ ip ∈ f v.

Lemma reverse_remove {K V : Type} `{Countable K} (s : gmap K V) f (m : gmap Addr K) k v :
  reverse s f m -> s !! k = Some v ->
  reverse (delete k s) f
    (fold_left (fun m ip => if bool_decide (m !! ip = Some k) then delete ip m else m) (f v) m).
Proof.
  intros Hr Hv ip k'. rewrite unassign_spec. setoid_rewrite lookup_delete_Some.
  case_decide as E.
  - split; [done|]. intros (w & (Hne & Hw) & Hip). destruct E as [_ E].
    assert (m !! ip = Some k') as E' by (apply Hr; eauto). congruence.
  - rewrite (Hr ip k'). split; [|naive_solver]. intros (w & Hw & Hip). exists w.
    split; [|done]. split; [|done]. intros ->. rewrite Hv in Hw. injection Hw as ->. apply E. split; [done|].
    apply Hr. eauto.
Qed.

Lemma reverse_add {K V : Type} `{Countable K} (s : gmap K V) f (m : gmap Addr K) k v :
  reverse s f m -> s !! k = None ->
  (forall k' w ip, s !! k' = Some w -> ip ∈ f v -> ip ∈ f w -> False) ->
  reverse (<[k := v]> s) f (fold_left (fun m ip => <[ip := k]> m) (f v) m).
Proof.
  intros Hr Hk Hd ip k'. rewrite assign_spec. setoid_rewrite lookup_insert_Some.
  case_decide as E.
  - split; [intros [= ->]; eauto 8|]. intros (w & [[-> ->]|[Hne Hw]] & Hip); [done|]. exfalso. eauto.
  - rewrite (Hr ip k'). split.
    + intros (w & Hw & Hip). exists w. split; [|done]. right. split; [congruence|done].
    + intros (w & [[-> <-]|[Hne Hw]] & Hip); [done|]. eauto.
Qed.

(** *** Reference counts *)

Definition ref_of (s : SliceRecord) : ServiceRef := mkServiceRef (sNamespace s) (sService s).

Section Counts.
Context {K : Type} `{Countable K}.
Implicit Types (m : Refs K) (k : K) (r : ServiceRef).

Definition refcount m k r : Z := default 0%Z (default ∅ (m !! k) !! r).
Definition refs_ok m : Prop := forall k r n, default ∅ (m !! k) !! r = Some n -> (0 < n)%Z.

Definition one (P : Prop) `{Decision P} : Z := if decide P then 1%Z else 0%Z.

Lemma refcount_pos m k r : refs_ok m -> (0 < refcount m k r)%Z <-> r ∈ dom (default ∅ (m !! k)).
Proof.
  intros Hm. rewrite elem_of_dom. unfold refcount. destruct (default ∅ (m !! k) !! r) as [n|] eqn:E; cbn.
  - split; [by eexists|]. intros _. eapply Hm, E.
  - split; [lia|]. by intros [? ?].
Qed.

Lemma addRef_count m k r k' r' :
  refcount (addRef m k r) k' r' = (refcount m k' r' + one (k = k' /\ r = r'))%Z.
Proof.
  unfold refcount, addRef, one. rewrite lookup_insert.
  case_decide as Ek; [subst k'; cbn [from_option id]; rewrite lookup_insert|].
  - case_decide as Er; [subst r'; rewrite decide_True by done|rewrite decide_False by naive_solver]; cbn; lia.
  - rewrite decide_False by naive_solver. lia.
Qed.

Lemma addRef_ok m k r : refs_ok m -> refs_ok (addRef m k r).
Proof.
  intros Hm k' r' n. unfold addRef. rewrite lookup_insert.
  case_decide as Ek; [|apply Hm]. subst k'. cbn [from_option id]. rewrite lookup_insert.
  case_decide as Er; [|apply Hm]. subst r'. intros [= <-].
  destruct (default ∅ (m !! k) !! r) as [n|] eqn:E; cbn; [|lia]. apply Hm in E. lia.
Qed.

Lemma addRefs_count r ks m k' r' : NoDup ks ->
  refcount (fold_left (fun m k => addRef m k r) ks m) k' r' = (refcount m k' r' + one (k' ∈ ks /\ r = r'))%Z.
Proof.
  intros Hnd. revert m. induction ks as [|k ks IH]; intros m; cbn [fold_left].
  - unfold one. rewrite decide_False by set_solver. lia.
  - apply NoDup_cons in Hnd as [Hk Hnd]. rewrite IH, addRef_count by done. unfold one.
    repeat case_decide; try lia; set_solver.
Qed.

Lemma addRefs_ok r ks m : refs_ok m -> refs_ok (fold_left (fun m k => addRef m k r) ks m).
Proof. intros Hm. apply fold_left_inv; [done|]. intros. by apply addRef_ok. Qed.

(** The decrement of a count that is positive never writes to a nil map. *)
Lemma dropRef_spec m k r : refs_ok m -> (0 < refcount m k r)%Z ->
  exists m', dropRef m k r = Some m' /\ refs_ok m' /\
    forall k' r', refcount m' k' r' = (refcount m k' r' - one (k = k' /\ r = r'))%Z.
Proof.
  intros Hm Hpos. unfold dropRef. unfold refcount in Hpos.
  destruct (m !! k) as [refs|] eqn:Ek; cbn in Hpos; [|by rewrite lookup_empty in Hpos].
  set (n := (default 0 (refs !! r) - 1)%Z).
  set (refs' := if (n <=? 0)%Z then _ else _).
  assert (forall r', default 0%Z (refs' !! r') = (default 0 (refs !! r') - one (r = r'))%Z) as Hc.
  { intros r'. unfold refs', one. destruct (n <=? 0)%Z eqn:En.
    - rewrite lookup_delete. case_decide; cbn; [subst; lia|lia].
    - rewrite lookup_insert. case_decide; cbn; [subst; lia|lia]. }
  assert (forall r' n', refs' !! r' = Some n' -> (0 < n')%Z) as Ho.
  { intros r' n' Hr. specialize (Hc r'). rewrite Hr in Hc. unfold refs' in Hr.
    destruct (n <=? 0)%Z eqn:En; [rewrite lookup_delete in Hr|rewrite lookup_insert in Hr]; case_decide; simplify_eq;
      try lia; eapply (Hm k r'); by rewrite Ek. }
  eexists. split; [done|].
  assert (forall k', default ∅ ((if bool_decide (refs' = ∅) then delete k m else <[k := refs']> m) !! k')
                     = if decide (k = k') then refs' else default ∅ (m !! k')) as Hl.
  { intros k'. case_bool_decide as E; [rewrite lookup_delete|rewrite lookup_insert]; case_decide; by subst. }
  split.
  - intros k' r' n'. rewrite Hl. destruct (decide (k = k')); [apply Ho|apply Hm].
  - intros k' r'. unfold refcount. rewrite Hl. unfold one in *. destruct (decide (k = k')) as [<-|E].
    + rewrite Hc, Ek. cbn. destruct (decide (r = r')), (decide (k = k /\ r = r')); naive_solver lia.
    + rewrite decide_False by naive_solver. lia.
Qed.

Lemma drop_all_spec r ks m : NoDup ks -> refs_ok m -> (forall k, k ∈ ks -> (0 < refcount m k r)%Z) ->
  exists m', drop_all r (Some m) ks = Some m' /\ refs_ok m' /\
    forall k' r', refcount m' k' r' = (refcount m k' r' - one (k' ∈ ks /\ r = r'))%Z.
Proof.
  intros Hnd. revert m. induction ks as [|k ks IH]; intros m Hm Hpos.
  - exists m. split; [done|]. split; [done|]. intros. unfold one. rewrite decide_False by set_solver. lia.
  - apply NoDup_cons in Hnd as [Hk Hnd].
    destruct (dropRef_spec m k r) as (m1 & E1 & H1 & C1); [done|apply Hpos; by left|].
    destruct (IH Hnd m1 H1) as (m2 & E2 & H2 & C2).
    { intros k' Hk'. rewrite C1. unfold one. rewrite decide_False by set_solver.
      specialize (Hpos k' ltac:(by right)). lia. }
    exists m2. split; [unfold drop_all in *; cbn [fold_left]; by rewrite E1|]. split; [done|].
    intros k' r'. rewrite C2, C1. unfold one. repeat case_decide; try lia; set_solver.
Qed.

(** How many slices of [sl] list [k] for the Service [r]. *)
Context (f : SliceRecord -> list K).
Implicit Types (sl : gmap (string * string) SliceRecord).

Definition counted sl k r : Z := Z.of_nat (size (filter (fun e => k ∈ f e.2 /\ ref_of e.2 = r) sl)).

Lemma counted_insert sl key s k r : sl !! key = None ->
  counted (<[key := s]> sl) k r = (counted sl k r + one (k ∈ f s /\ ref_of s = r))%Z.
Proof.
  intros Hn. unfold counted, one. case_decide as E.
  - rewrite map_filter_insert_True by done. rewrite map_size_insert_None; [lia|].
    apply map_lookup_filter_None. by left.
  - rewrite map_filter_insert_False by done. rewrite delete_id by done. lia.
Qed.

Lemma counted_delete sl key s k r : sl !! key = Some s ->
  counted (delete key sl) k r = (counted sl k r - one (k ∈ f s /\ ref_of s = r))%Z.
Proof.
  intros Hs. rewrite <- (insert_delete_id sl key s Hs) at 2.
  rewrite counted_insert by apply lookup_delete_eq. lia.
Qed.

Lemma counted_pos sl k r : (0 < counted sl k r)%Z <-> exists key s, sl !! key = Some s /\ k ∈ f s /\ ref_of s = r.
Proof.
  unfold counted. split.
  - intros Hp. destruct (map_choose (filter (fun e => k ∈ f e.2 /\ ref_of e.2 = r) sl)) as (key & s & Hs).
    { intros E. rewrite E, map_size_empty in Hp. lia. }
    apply map_lookup_filter_Some in Hs as [? ?]. eauto.
  - intros (key & s & Hs & Hks). enough (size (filter (fun e => k ∈ f e.2 /\ ref_of e.2 = r) sl) <> 0) by lia.
    intros E%map_size_empty_inv.
    assert (filter (fun e => k ∈ f e.2 /\ ref_of e.2 = r) sl !! key = Some s) as E' by by apply map_lookup_filter_Some.
    by rewrite E, lookup_empty in E'.
Qed.

End Counts.

(** *** The invariant, component by component *)

Definition norm_pod (keys : gset string) (p : K8sPod) : PodRecord :=
  let r := pod_record p in
  mkPodRecord (UID r) (pNamespace r) (pName r) (pServiceAccount r) (pNode r)
    (filter (fun e => e.1 ∈ keys) (kpLabels p)) (pod_addrs p) (HostNetwork r) (Finished r) (Created r).

Definition consistent (ps : gmap string PodRecord) (cl : gmap Addr (list string)) : Prop :=
  forall ip uid, uid ∈ claimants cl ip <-> exists r, ps !! uid = Some r /\ ip ∈ pIPs r.

Record pods_inv (keys : gset string) (ps : gmap string PodRecord) (cl : gmap Addr (list string))
    (kp : gmap (string * string) K8sPod) : Prop := {
  pi_pods : forall uid r, ps !! uid = Some r <->
              exists k p, kp !! k = Some p /\ indexed p = true /\ kpUID p = uid /\ r = norm_pod keys p;
  pi_claims : consistent ps cl;
  pi_ok : claims_ok cl;
  pi_key : forall k p, kp !! k = Some p -> k = pod_key p;
  pi_uid : forall k k' p p', kp !! k = Some p -> kp !! k' = Some p' -> kpUID p = kpUID p' -> kpUID p <> "" -> k = k'
}.

Definition norm_slice (s : K8sSlice) : option SliceRecord :=
  if String.eqb (sService (slice_record s)) "" then None
  else Some (mkSliceRecord (klNamespace s) (klName s) (sService (slice_record s)) (slice_uids s) (slice_addrs s)).

Record slices_inv (sl : gmap (string * string) SliceRecord) (ps : Refs string) (is_ : Refs Addr)
    (ks : gmap (string * string) K8sSlice) : Prop := {
  si_slices : sl = omap norm_slice ks;
  si_pods : forall k r, refcount ps k r = counted PodUIDs sl k r;
  si_ips : forall k r, refcount is_ k r = counted sIPs sl k r;
  si_pods_ok : refs_ok ps;
  si_ips_ok : refs_ok is_
}.

Definition norm_service (s : K8sService) : Service :=
  mkService (ksNamespace s) (ksName s) (service_addrs s) (Ports (service_record s)).
Definition norm_node (n : K8sNode) : NodeRecord := mkNodeRecord (knName n) (node_addrs n).
Definition norm_cilium (c : K8sCilium) : CiliumEndpointRecord :=
  mkCiliumEndpointRecord (kcNamespace c) (kcName c) (cIdentity (cilium_record c))
    (merge_sort string_le (cLabels (cilium_record c))).

Record Inv (td : string) (keys : gset string) (c : Cluster) (x : Index) : Prop := {
  inv_td : trustDomain x = td;
  inv_keys : labelKeys x = keys;
  inv_pods : pods_inv keys (pods x) (claims x) (kPods c);
  inv_slices : slices_inv (slices x) (podServices x) (ipServices x) (kSlices c);
  inv_services : services x = norm_service <$> kServices c;
  inv_cluster_ips : reverse (services x) ClusterIPs (byClusterIP x);
  inv_nodes : nodes x = norm_node <$> kNodes c;
  inv_node_ips : reverse (nodes x) nIPs (nodeIP x);
  inv_node_keys : forall k n, kNodes c !! k = Some n -> k = knName n;
  inv_cilium : cilium x = norm_cilium <$> kCilium c
}.

(** Pods. *)

Lemma removePod_pods x uid : pods (removePodLocked x uid) = delete uid (pods x).
Proof. unfold removePodLocked. destruct (pods x !! uid) eqn:E; [done|]. by rewrite delete_id. Qed.

Lemma removePod_claims x uid ip u : consistent (pods x) (claims x) ->
  u ∈ claimants (claims (removePodLocked x uid)) ip <-> u ∈ claimants (claims x) ip /\ u <> uid.
Proof.
  intros Hc. unfold removePodLocked. destruct (pods x !! uid) as [old|] eqn:E.
  - cbn. rewrite drop_claim_spec. split; [|naive_solver]. intros [Hu Hn]. split; [done|]. intros ->.
    apply Hc in Hu as (r & Hr & Hip). rewrite E in Hr. injection Hr as ->. by apply Hn.
  - split; [|naive_solver]. intros Hu. split; [done|]. intros ->. apply Hc in Hu as (r & Hr & _). congruence.
Qed.

Lemma removePod_ok x uid : claims_ok (claims x) -> claims_ok (claims (removePodLocked x uid)).
Proof. intros H. unfold removePodLocked. case_match; [|done]. cbn. by apply drop_claim_ok. Qed.

Lemma removePod_consistent x uid : consistent (pods x) (claims x) ->
  consistent (pods (removePodLocked x uid)) (claims (removePodLocked x uid)).
Proof.
  intros Hc ip u. rewrite removePod_claims, removePod_pods by done. setoid_rewrite lookup_delete_Some.
  rewrite (Hc ip u). naive_solver.
Qed.

Lemma removePod_rest x uid : exists ps cl, removePodLocked x uid = x <| pods := ps |> <| claims := cl |>.
Proof. unfold removePodLocked. case_match; [by do 2 eexists|]. exists (pods x), (claims x). by destruct x. Qed.

(** The trimmed pod is recorded as the pod itself. *)
Lemma trimPod_record x p : norm_pod (labelKeys x) (trimPod x p) = norm_pod (labelKeys x) p.
Proof.
  unfold norm_pod, trimPod, pod_record, pod_addrs, LabelAllowed. cbn. f_equal.
  apply map_eq. intros i. apply option_eq. intros v. rewrite !map_lookup_filter_Some. cbn.
  rewrite bool_decide_eq_true. naive_solver.
Qed.

Lemma trimSlice_record s : slice_record (trimSlice s) = slice_record s.
Proof.
  unfold slice_record, trimSlice. cbn [klLabels klEndpoints klNamespace klName].
  rewrite fold_left_fmap, lookup_singleton_eq. cbn [from_option id].
  assert (forall acc, fold_left (fun acc e => add_endpoint acc (trimEndpoint e)) (klEndpoints s) acc =
                      fold_left add_endpoint (klEndpoints s) acc) as ->; [|done].
  induction (klEndpoints s) as [|e l IH]; intros acc; [done|]. cbn [fold_left]. rewrite IH. f_equal.
  unfold add_endpoint, trimEndpoint. cbn. destruct (keTargetRef e) as [[kind uid]|]; [|done].
  by destruct (String.eqb_spec kind "Pod") as [->|].
Qed.

Lemma indexed_uid p : indexed p = true -> kpUID p <> "".
Proof.
  unfold indexed. intros H%negb_true_iff E. rewrite E in H. cbn in H. by rewrite orb_true_r in H.
Qed.

Lemma onPod_fields x p :
  let r := removePodLocked x (kpUID p) in let x' := onPod x (trimPod x p) in
  pods x' = (if indexed p then <[kpUID p := norm_pod (labelKeys x) p]> (pods r) else pods r) /\
  claims x' = (if indexed p then fold_left (add_claim (kpUID p)) (pod_addrs p) (claims r) else claims r).
Proof.
  unfold onPod, UpsertPod, indexed. cbn [UID pod_record trimPod kpUID HostNetwork Finished kpHostNetwork kpPhase].
  destruct (_ || _); cbn [negb]; [done|]. split; [|done].
  rewrite <- (trimPod_record x p). cbn. do 2 f_equal.
  unfold norm_pod, filterLabels. cbn. by destruct (removePod_rest x (kpUID p)) as (? & ? & ->).
Qed.

Lemma upsert_pod_inv keys x kp p :
  pods_inv keys (pods x) (claims x) kp -> labelKeys x = keys ->
  (forall q, kp !! pod_key p = Some q -> indexed q = true -> kpUID q = kpUID p) ->
  (forall k q, kp !! k = Some q -> kpUID q = kpUID p -> kpUID p <> "" -> k = pod_key p) ->
  let x' := onPod x (trimPod x p) in pods_inv keys (pods x') (claims x') (<[pod_key p := p]> kp).
Proof.
  intros [Hp Hc Ho Hk Hu] Hkeys Hold Hadm. cbv zeta. destruct (onPod_fields x p) as [-> ->]. rewrite Hkeys.
  assert (Hc1 := removePod_consistent x (kpUID p) Hc).
  assert (Ho1 := removePod_ok x (kpUID p) Ho). split.
  - intros uid r.
    assert ((if indexed p then <[kpUID p := norm_pod keys p]> (pods (removePodLocked x (kpUID p)))
             else pods (removePodLocked x (kpUID p))) !! uid = Some r <->
            (uid = kpUID p /\ indexed p = true /\ r = norm_pod keys p) \/ (uid <> kpUID p /\ pods x !! uid = Some r)) as ->.
    { rewrite removePod_pods. destruct (indexed p); [rewrite lookup_insert_Some|]; rewrite lookup_delete_Some; naive_solver. }
    setoid_rewrite lookup_insert_Some. rewrite Hp. split.
    + intros [(-> & Hi & ->)|(Hne & k & q & Hq & Hi & Hq' & Hr)]; [eauto 10|].
      exists k, q. split; [|done]. right. split; [|done]. intros <-. apply Hne. rewrite <- Hq'. eauto.
    + intros (k & q & [[<- <-]|[Hne Hq]] & Hi & Hq' & Hr); [by left|]. right. split; [|eauto 10].
      intros ->. apply Hne. symmetry. eapply Hadm; eauto. rewrite <- Hq'. by apply indexed_uid.
  - destruct (indexed p); [|done]. intros ip u. rewrite add_claim_spec, (Hc1 ip u).
    setoid_rewrite lookup_insert_Some. rewrite removePod_pods. setoid_rewrite lookup_delete_Some. naive_solver.
  - destruct (indexed p); [by apply add_claim_ok|done].
  - intros k q [[<- <-]|[_ Hq]]%lookup_insert_Some; eauto.
  - intros k k' q q' [[<- <-]|[Hn Hq]]%lookup_insert_Some [[<- <-]|[Hn' Hq']]%lookup_insert_Some E Hne; eauto.
    + symmetry. eapply Hadm; eauto.
    + eapply Hadm; eauto. by rewrite <- E.
Qed.

Lemma delete_pod_inv keys x kp p :
  pods_inv keys (pods x) (claims x) kp -> kp !! pod_key p = Some p ->
  let x' := onPodDelete x (trimPod x p) in pods_inv keys (pods x') (claims x') (delete (pod_key p) kp).
Proof.
  intros [Hp Hc Ho Hk Hu] Hold. unfold onPodDelete, DeletePod. cbn [bump pods claims kpUID trimPod]. split.
  - intros uid r. cbn. rewrite removePod_pods, lookup_delete_Some. setoid_rewrite lookup_delete_Some. rewrite Hp. split.
    + intros (Hne & k & q & Hq & Hi & Hq' & Hr). exists k, q. split; [|done]. split; [|done]. naive_solver.
    + intros (k & q & [Hne Hq] & Hi & Hq' & Hr). split; [|eauto 10]. intros <-. apply Hne.
      eapply Hu; eauto. rewrite <- Hq'. by apply indexed_uid.
  - by apply removePod_consistent.
  - by apply removePod_ok.
  - intros k q [_ Hq]%lookup_delete_Some; eauto.
  - intros k k' q q' [_ Hq]%lookup_delete_Some [_ Hq']%lookup_delete_Some; eauto.
Qed.

(** EndpointSlices. *)

Lemma norm_slice_NoDup s r : norm_slice s = Some r -> NoDup (PodUIDs r) /\ NoDup (sIPs r).
Proof.
  unfold norm_slice. destruct (String.eqb _ _); [done|]. intros [= <-].
  split; [apply uniqueStrings_NoDup|apply uniqueAddrs_NoDup].
Qed.

Lemma removeSlice_inv x key ks :
  slices_inv (slices x) (podServices x) (ipServices x) ks ->
  exists sl ps is_, removeSliceLocked x key = Some (x <| podServices := ps |> <| ipServices := is_ |> <| slices := sl |>) /\
    slices_inv sl ps is_ (delete key ks).
Proof.
  intros [Hs Hp Hi Hpo Hio]. unfold removeSliceLocked. destruct (slices x !! key) as [old|] eqn:E.
  - assert (NoDup (PodUIDs old) /\ NoDup (sIPs old)) as [Hn1 Hn2].
    { rewrite Hs, lookup_omap in E. destruct (ks !! key) as [s|]; [|done]. by eapply norm_slice_NoDup. }
    cbv zeta. fold (ref_of old).
    destruct (drop_all_spec (ref_of old) (PodUIDs old) (podServices x)) as (ps & -> & Hps & Cps); [done|done|..].
    { intros k Hk. rewrite Hp. apply counted_pos. eauto. }
    destruct (drop_all_spec (ref_of old) (sIPs old) (ipServices x)) as (ips & -> & Hips & Cips); [done|done|..].
    { intros k Hk. rewrite Hi. apply counted_pos. eauto. }
    do 3 eexists. split; [done|]. split; [by rewrite omap_delete, Hs| | |done|done].
    + intros k r. by rewrite Cps, (counted_delete PodUIDs _ _ _ _ _ E), Hp.
    + intros k r. by rewrite Cips, (counted_delete sIPs _ _ _ _ _ E), Hi.
  - exists (slices x), (podServices x), (ipServices x). split; [by destruct x|]. split; try done.
    rewrite omap_delete, <- Hs. by rewrite delete_id.
Qed.

Lemma upsert_slice_inv x s ks :
  slices_inv (slices x) (podServices x) (ipServices x) ks ->
  exists sl ps is_, onSlice x (trimSlice s) =
      Some (bump (x <| podServices := ps |> <| ipServices := is_ |> <| slices := sl |>)) /\
    slices_inv sl ps is_ (<[slice_key s := s]> ks).
Proof.
  intros Hinv. unfold onSlice, UpsertSlice. rewrite trimSlice_record.
  assert (sNamespace (slice_record s) = klNamespace s /\ sName (slice_record s) = klName s) as [-> ->].
  { unfold slice_record. by destruct (fold_left _ _ _). }
  destruct (removeSlice_inv x (slice_key s) ks Hinv) as (sl & ps & ips & E & [Hs Hp Hi Hpo Hio]).
  fold (slice_key s). rewrite E. rewrite <- (insert_delete_eq ks).
  destruct (String.eqb (sService (slice_record s)) "") eqn:Es.
  - exists sl, ps, ips. split; [done|]. split; try done.
    rewrite omap_insert. unfold norm_slice at 1. rewrite Es, <- Hs. symmetry. apply delete_id.
    rewrite Hs. by rewrite lookup_omap, lookup_delete_eq.
  - assert (sl !! slice_key s = None) as Hn by (rewrite Hs; by rewrite lookup_omap, lookup_delete_eq).
    set (r := mkServiceRef (klNamespace s) (sService (slice_record s))).
    exists (<[slice_key s := mkSliceRecord (klNamespace s) (klName s) (sService (slice_record s)) (slice_uids s) (slice_addrs s)]> sl),
      (fold_left (fun m uid => addRef m uid r) (slice_uids s) ps), (fold_left (fun m ip => addRef m ip r) (slice_addrs s) ips).
    split; [done|]. split.
    + rewrite omap_insert. unfold norm_slice at 1. rewrite Es, <- Hs. done.
    + intros k r'. rewrite addRefs_count by apply uniqueStrings_NoDup. rewrite counted_insert by done. by rewrite Hp.
    + intros k r'. rewrite addRefs_count by apply uniqueAddrs_NoDup. rewrite counted_insert by done. by rewrite Hi.
    + by apply addRefs_ok.
    + by apply addRefs_ok.
Qed.

(** Services and nodes. *)

Lemma onPod_rest x p : exists ps cl, onPod x p = bump (x <| pods := ps |> <| claims := cl |>).
Proof.
  unfold onPod, UpsertPod. destruct (removePod_rest x (UID (pod_record p))) as (ps & cl & ->).
  destruct (_ || _); by do 2 eexists.
Qed.

Lemma onPodDelete_rest x p : exists ps cl, onPodDelete x p = bump (x <| pods := ps |> <| claims := cl |>).
Proof.
  unfold onPodDelete, DeletePod. destruct (removePod_rest x (kpUID p)) as (ps & cl & ->). by do 2 eexists.
Qed.

Lemma removeService_inv x ref : reverse (services x) ClusterIPs (byClusterIP x) ->
  exists m, removeServiceLocked x ref = x <| byClusterIP := m |> <| services := delete ref (services x) |> /\
    reverse (delete ref (services x)) ClusterIPs m.
Proof.
  intros Hr. unfold removeServiceLocked. destruct (services x !! ref) as [old|] eqn:E.
  - eexists. split; [done|]. by apply reverse_remove.
  - exists (byClusterIP x). rewrite delete_id by done. split; [by destruct x|done].
Qed.

Lemma removeNode_inv x name : reverse (nodes x) nIPs (nodeIP x) ->
  exists m, removeNodeLocked x name = x <| nodeIP := m |> <| nodes := delete name (nodes x) |> /\
    reverse (delete name (nodes x)) nIPs m.
Proof.
  intros Hr. unfold removeNodeLocked. destruct (nodes x !! name) as [old|] eqn:E.
  - eexists. split; [done|]. by apply reverse_remove.
  - exists (nodeIP x). rewrite delete_id by done. split; [by destruct x|done].
Qed.

Lemma upsert_service_inv x s ks :
  services x = norm_service <$> ks -> reverse (services x) ClusterIPs (byClusterIP x) ->
  (forall k t ip, ks !! k = Some t -> k <> service_key s -> ip ∈ service_addrs s -> ip ∈ service_addrs t -> False) ->
  exists m, onService x s = bump (x <| byClusterIP := m |> <| services := norm_service <$> <[service_key s := s]> ks |>) /\
    reverse (norm_service <$> <[service_key s := s]> ks) ClusterIPs m.
Proof.
  intros Hs Hr Hd. unfold onService, UpsertService.
  destruct (removeService_inv x (service_key s) Hr) as (m & E & Hr1).
  assert (mkServiceRef (SvcNamespace (service_record s)) (SvcName (service_record s)) = service_key s) as -> by done.
  rewrite E, fmap_insert, <- Hs, <- (insert_delete_eq (services x) _ (norm_service s)).
  exists (fold_left (fun m ip => <[ip := service_key s]> m) (ClusterIPs (norm_service s)) m). split; [done|].
  apply reverse_add; [done|apply lookup_delete_eq|].
  intros k w ip [Hne Hw]%lookup_delete_Some Hip Hip'. rewrite Hs, lookup_fmap in Hw.
  destruct (ks !! k) as [t|] eqn:Ek; [|done]. cbn in Hw. injection Hw as <-. eapply Hd; eauto.
Qed.

Lemma upsert_node_inv x n ks :
  nodes x = norm_node <$> ks -> reverse (nodes x) nIPs (nodeIP x) ->
  (forall k t ip, ks !! k = Some t -> k <> knName n -> ip ∈ node_addrs n -> ip ∈ node_addrs t -> False) ->
  exists m, onNode x n = bump (x <| nodeIP := m |> <| nodes := norm_node <$> <[knName n := n]> ks |>) /\
    reverse (norm_node <$> <[knName n := n]> ks) nIPs m.
Proof.
  intros Hs Hr Hd. unfold onNode, UpsertNode. change (nName (node_record n)) with (knName n).
  destruct (removeNode_inv x (knName n) Hr) as (m & E & Hr1).
  rewrite E, fmap_insert, <- Hs, <- (insert_delete_eq (nodes x) _ (norm_node n)).
  exists (fold_left (fun m ip => <[ip := knName n]> m) (nIPs (norm_node n)) m). split; [done|].
  apply reverse_add; [done|apply lookup_delete_eq|].
  intros k w ip [Hne Hw]%lookup_delete_Some Hip Hip'. rewrite Hs, lookup_fmap in Hw.
  destruct (ks !! k) as [t|] eqn:Ek; [|done]. cbn in Hw. injection Hw as <-. eapply Hd; eauto.
Qed.

(** *** Every event preserves the invariant *)

Lemma store_inv td keys c x o :
  Inv td keys c x -> admissible c o ->
  (forall p q, o = OPod p -> kPods c !! pod_key p = Some q -> indexed q = true -> kpUID q = kpUID p) ->
  exists x', upsert x o = Some x' /\ Inv td keys (store c o) x'.
Proof.
  intros [H1 H2 H3 H4 H5 H6 H7 H8 H8' H9] Ha Hu. destruct o as [p|s|s|n|e]; cbn [upsert].
  - eexists. split; [done|].
    assert (H3' := upsert_pod_inv keys x (kPods c) p H3 H2 (fun q => Hu p q eq_refl) Ha). cbv zeta in H3'.
    destruct (onPod_rest x (trimPod x p)) as (ps & cl & E). rewrite E in H3' |- *. by split.
  - destruct (upsert_service_inv x s (kServices c) H5 H6 Ha) as (m & -> & Hm). eexists. split; [done|]. by split.
  - destruct (upsert_slice_inv x s (kSlices c) H4) as (sl & ps & ips & -> & Hm). eexists. split; [done|]. by split.
  - destruct (upsert_node_inv x n (kNodes c) H7 H8 Ha) as (m & -> & Hm). eexists. split; [done|]. split; try done.
    cbn. intros k n' [[<- <-]|[_ Hn]]%lookup_insert_Some; eauto.
  - eexists. split; [done|]. split; try done. cbn. rewrite fmap_insert, H9. done.
Qed.

Lemma forget_inv td keys c x o :
  Inv td keys c x -> stored c o -> exists x', del x o = Some x' /\ Inv td keys (forget c o) x'.
Proof.
  intros [H1 H2 H3 H4 H5 H6 H7 H8 H8' H9] Ha. destruct o as [p|s|s|n|e]; cbn [del].
  - eexists. split; [done|].
    assert (H3' := delete_pod_inv keys x (kPods c) p H3 Ha). cbv zeta in H3'.
    destruct (onPodDelete_rest x (trimPod x p)) as (ps & cl & E). rewrite E in H3' |- *. by split.
  - eexists. split; [done|]. unfold onServiceDelete, DeleteService.
    destruct (removeService_inv x (service_key s) H6) as (m & E & Hr). fold (service_key s). rewrite E.
    split; try done. cbn. by rewrite fmap_delete, H5.
  - unfold onSliceDelete, DeleteSlice. cbn [klNamespace klName trimSlice]. fold (slice_key s).
    destruct (removeSlice_inv x (slice_key s) (kSlices c) H4) as (sl & ps & ips & -> & Hm).
    eexists. split; [done|]. by split.
  - eexists. split; [done|]. unfold onNodeDelete, DeleteNode.
    destruct (removeNode_inv x (knName n) H8) as (m & E & Hr). rewrite E.
    split; try done; cbn; [by rewrite fmap_delete, H7|]. intros k n' [_ Hn]%lookup_delete_Some; eauto.
  - eexists. split; [done|]. split; try done. cbn. by rewrite fmap_delete, H9.
Qed.

Lemma delivers_inv td keys c x e :
  Inv td keys c x -> delivers c e -> exists x', handler x e = Some x' /\ Inv td keys (advance c e) x'.
Proof.
  intros Hi Hd. destruct e as [o|old new|o]; cbn [handler advance].
  - destruct Hd as [Hab Had]. eapply store_inv; [done|done|]. intros p q -> Hq. cbn in Hab. congruence.
  - destruct Hd as (Hst & Hsame & Had). eapply store_inv; [done|done|]. intros p q -> Hq.
    destruct old as [p0|? |? |? |?]; try done. destruct Hsame as [Hk Hu]. cbn in Hst. rewrite Hk, Hq in Hst.
    injection Hst as <-. done.
  - by eapply forget_inv.
Qed.

Lemma history_inv td keys c es c' x :
  Inv td keys c x -> history c es c' -> exists x', handle_all (Some x) es = Some x' /\ Inv td keys c' x'.
Proof.
  intros Hi Hh. revert x Hi. induction Hh as [c|c e es c' Hd _ IH]; intros x Hi; [by eexists|].
  destruct (delivers_inv td keys c x e Hi Hd) as (x1 & E & Hi1). destruct (IH x1 Hi1) as (x2 & E2 & Hi2).
  exists x2. split; [|done]. unfold handle_all in *. cbn [fold_left]. by rewrite E.
Qed.

Lemma NewIndex_inv opts :
  Inv (trustDomain (NewIndex opts)) (labelKeys (NewIndex opts)) no_objects (NewIndex opts).
Proof.
  split; try done; try (cbn; by rewrite fmap_empty).
  - split; try done.
    + intros uid r. split; [done|]. by intros (k & p & Hp & _).
    + intros ip uid. unfold claimants. cbn. rewrite lookup_empty. split; [set_solver|]. by intros (r & Hr & _).
  - intros ip k. cbn. split; [done|]. by intros (v & Hv & _).
  - intros ip k. cbn. split; [done|]. by intros (v & Hv & _).
Qed.

(** *** What the reads answer under the invariant *)

Lemma Unmap_idemp a : Unmap (Unmap a) = Unmap a.
Proof. destruct a as [|n|n z]; try done. unfold Unmap. destruct (Is4In6 (Addr6 n z)) eqn:E; [done|]. by rewrite E. Qed.

Lemma Unmap_valid a : IsValid (Unmap a) = IsValid a.
Proof. destruct a as [|n|n z]; try done. unfold Unmap. by destruct (Is4In6 _). Qed.

Lemma uniqueAddrs_unmapped l ip : ip ∈ uniqueAddrs l -> Unmap ip = ip /\ IsValid ip = true.
Proof.
  revert ip. unfold uniqueAddrs.
  apply (fold_left_inv (fun out : list Addr => forall ip, ip ∈ out -> Unmap ip = ip /\ IsValid ip = true)); [set_solver|].
  intros out a H ip. destruct (IsValid a) eqn:E; cbn [negb]; [|apply H]. case_bool_decide; [apply H|].
  intros [Hin|Hin%list_elem_of_singleton]%elem_of_app; [by apply H|]. subst. by rewrite Unmap_idemp, Unmap_valid.
Qed.

Lemma member_of_spec c uid ip r :
  r ∈ member_of c uid ip <-> exists k s n, kSlices c !! k = Some s /\ norm_slice s = Some n /\ ref_of n = r /\
                                           (uid ∈ PodUIDs n \/ ip ∈ sIPs n).
Proof.
  unfold member_of. rewrite elem_of_list_to_set, list_elem_of_fmap. split.
  - intros (s & -> & Hs). apply list_elem_of_In, filter_In in Hs as [Hs Hf].
    apply list_elem_of_In, list_elem_of_fmap in Hs as ([k s'] & -> & Hks). apply elem_of_map_to_list in Hks. cbn in *.
    apply andb_true_iff in Hf as [Hn%negb_true_iff Hu]. unfold norm_slice.
    exists k, s'. rewrite Hn. eexists. split; [done|]. split; [done|]. split; [done|]. cbn.
    by apply orb_true_iff in Hu as [?%bool_decide_eq_true|?%bool_decide_eq_true]; [left|right].
  - intros (k & s & n & Hk & Hn & <- & Hu). unfold norm_slice in Hn. destruct (String.eqb _ _) eqn:E; [done|].
    injection Hn as <-. exists s. split; [done|]. apply list_elem_of_In, filter_In. split.
    + apply list_elem_of_In, list_elem_of_fmap. exists (k, s). split; [done|]. by apply elem_of_map_to_list.
    + rewrite E. cbn in *. apply orb_true_iff. rewrite !bool_decide_eq_true. done.
Qed.

Lemma member_of_refs c sl ps ips uid ip : slices_inv sl ps ips (kSlices c) ->
  dom (default ∅ (ps !! uid)) ∪ dom (default ∅ (ips !! ip)) = member_of c uid ip.
Proof.
  intros [Hs Hp Hi Hpo Hio]. apply set_eq. intros r.
  rewrite elem_of_union, <- !refcount_pos, Hp, Hi, !counted_pos, member_of_spec by done.
  assert (forall key n, sl !! key = Some n <-> exists s, kSlices c !! key = Some s /\ norm_slice s = Some n) as Hl.
  { intros key n. rewrite Hs, lookup_omap. destruct (kSlices c !! key) as [s|]; cbn; naive_solver. }
  setoid_rewrite Hl. naive_solver.
Qed.

Lemma pod_workload td keys c x p ip :
  Inv td keys c x -> podWorkloadLocked x (norm_pod keys p) ip = pod_identity td keys c p ip.
Proof.
  intros [H1 H2 H3 H4 _ _ _ _ _ H9]. unfold podWorkloadLocked, pod_identity. cbn.
  rewrite H9, lookup_fmap, H1, (member_of_refs c _ _ _ _ _ H4). fold (pod_key p).
  by destruct (kCilium c !! pod_key p).
Qed.

Lemma claims_addr_spec td keys c x ip : Inv td keys c x ->
  (forall p, claims_addr c ip p -> kpUID p ∈ claimants (claims x) ip /\ pods x !! kpUID p = Some (norm_pod keys p)) /\
  (forall uid, uid ∈ claimants (claims x) ip ->
     exists p, claims_addr c ip p /\ kpUID p = uid /\ pods x !! uid = Some (norm_pod keys p)).
Proof.
  intros [_ _ [Hp Hc _ _ _] _ _ _ _ _ _ _]. split.
  - intros p (k & Hk & Hi & Hip).
    assert (pods x !! kpUID p = Some (norm_pod keys p)) as E by (apply Hp; eauto 10).
    split; [|done]. apply Hc. eexists. split; [done|]. done.
  - intros uid (r & Hr & Hip)%Hc. pose proof Hr as Hr'. apply Hp in Hr' as (k & p & Hk & Hi & Hu & ->).
    exists p. split; [|done]. exists k. done.
Qed.

Lemma owner_spec td keys c x ip : Inv td keys c x ->
  match owner x ip with
  | None => (forall p, ~ claims_addr c ip p) /\ claims x !! ip = None
  | Some r => exists p, r = norm_pod keys p /\ holder c ip p
  end.
Proof.
  intros Hi. destruct (claims_addr_spec td keys c x ip Hi) as [Hto Hfrom]. unfold owner.
  assert (forall uid, uid ∈ claimants (claims x) ip -> is_Some (pods x !! uid)) as Hs.
  { intros uid (p & _ & _ & ->)%Hfrom. by eexists. }
  pose proof (better_spec x _ None Hs) as Hb. unfold claimants in *.
  destruct (fold_left _ _ _) as [r|].
  - destruct Hb as ([|(uid & Hu & Hr)] & _ & Hmax); [done|].
    destruct (Hfrom uid Hu) as (p & Hcp & <- & E). rewrite E in Hr. injection Hr as <-. exists p. split; [done|].
    split; [done|]. intros q Hq. destruct (Hto q Hq) as [Hin Eq]. apply (Hmax _ _ Hin Eq).
  - destruct Hb as [_ Hn]. split.
    + intros p Hp. destruct (Hto p Hp) as [Hin _]. rewrite Hn in Hin. by apply elem_of_nil in Hin.
    + destruct (claims x !! ip) as [l|] eqn:E; [|done]. cbn in Hn. subst l.
      by destruct (pi_ok _ _ _ _ (inv_pods _ _ _ _ Hi) ip).
Qed.

Lemma Lookup_denotes td keys c x ip : Inv td keys c x -> denotes td keys c (Unmap ip) (Lookup x ip).
Proof.
  intros Hi. unfold Lookup. pose proof (owner_spec td keys c x (Unmap ip) Hi) as Ho.
  destruct (owner x (Unmap ip)) as [r|].
  - destruct Ho as (p & -> & Hh). rewrite (pod_workload td keys c x p _ Hi). by constructor.
  - destruct Ho as [Hn _]. destruct Hi as [_ _ _ _ _ _ Hnodes Hrev Hkeys _].
    assert (forall k v, nodes x !! k = Some v <-> exists n, kNodes c !! k = Some n /\ v = norm_node n) as Hl.
    { intros k v. rewrite Hnodes, lookup_fmap. destruct (kNodes c !! k); cbn; naive_solver. }
    destruct (nodeIP x !! Unmap ip) as [k|] eqn:E; cbn [fmap option_fmap option_map].
    + apply Hrev in E as (v & Hv & Hip). apply Hl in Hv as (n & Hk & ->).
      rewrite (Hkeys _ _ Hk). by eapply denotes_node.
    + constructor; [done|]. intros k n Hk Hip.
      assert (nodeIP x !! Unmap ip = Some k) as E'; [|congruence]. apply Hrev. exists (norm_node n). split; [|done].
      apply Hl. eauto.
Qed.

Lemma omap_keys_NoDup {A : Type} (f : Addr * A -> option Workload) l :
  (forall e w, f e = Some w -> IP w = e.1) -> NoDup l.*1 ->
  NoDup (IP <$> omap f l) /\ (forall ip, ip ∈ IP <$> omap f l -> ip ∈ l.*1).
Proof.
  intros Hf. induction l as [|e l IH]; cbn; intros Hnd; [by split; [constructor|]|].
  apply NoDup_cons in Hnd as [He Hnd]. destruct (IH Hnd) as [H1 H2].
  destruct (f e) as [w|] eqn:E; cbn; [|split; [done|]; intros ip Hip; right; eauto].
  rewrite (Hf _ _ E). split; [|intros ip [->|Hip]%elem_of_cons; [by left|right; eauto]].
  apply NoDup_cons. split; [|done]. eauto.
Qed.

Lemma podWorkload_IP x r ip : IP (podWorkloadLocked x r ip) = ip.
Proof. unfold podWorkloadLocked. by destruct (cilium x !! _). Qed.

Lemma Workloads_spec td keys c x w : Inv td keys c x -> w ∈ Workloads x <-> Lookup x (IP w) = Some w.
Proof.
  intros Hi. unfold Workloads, Lookup. rewrite (merge_sort_Permutation workload_le), elem_of_app, !list_elem_of_omap. split.
  - intros [([ip l] & Hl & Hw)|([ip node] & Hl & Hw)]; apply elem_of_map_to_list in Hl; cbn in Hw.
    + pose proof (owner_spec td keys c x ip Hi) as Ho. destruct (owner x ip) as [r|] eqn:Eo; [|done].
      destruct Ho as (p & -> & [(k & _ & _ & Hip) _]). injection Hw as <-.
      destruct (uniqueAddrs_unmapped _ _ Hip) as [Hu _].
      rewrite podWorkload_IP. by rewrite Hu, Eo.
    + destruct (claims x !! ip) eqn:Ec; [done|]. injection Hw as <-. cbn.
      apply (inv_node_ips _ _ _ _ Hi) in Hl as Hl'. destruct Hl' as (v & Hv & Hip).
      rewrite (inv_nodes _ _ _ _ Hi), lookup_fmap in Hv. destruct (kNodes c !! node) as [n|]; [|done].
      injection Hv as <-. destruct (uniqueAddrs_unmapped _ _ Hip) as [-> _].
      unfold owner. rewrite Ec. cbn. by rewrite Hl.
  - set (ip := Unmap (IP w)). destruct (owner x ip) as [r|] eqn:Eo.
    + intros [= Hw]. left. destruct (claims x !! ip) as [l|] eqn:Ec.
      * exists (ip, l). split; [by apply elem_of_map_to_list|]. cbn [fst]. rewrite Eo. exact (f_equal Some Hw).
      * unfold owner in Eo. by rewrite Ec in Eo.
    + destruct (nodeIP x !! ip) as [node|] eqn:En; [|done]. intros [= Hw]. right.
      exists (ip, node). split; [by apply elem_of_map_to_list|]. cbn.
      pose proof (owner_spec td keys c x ip Hi) as Ho. rewrite Eo in Ho. destruct Ho as [_ ->]. exact (f_equal Some Hw).
Qed.

Lemma Workloads_NoDup x : NoDup (IP <$> Workloads x).
Proof.
  unfold Workloads. rewrite (merge_sort_Permutation workload_le), fmap_app.
  set (f := fun e : Addr * list string => _) at 1. set (g := fun e : Addr * string => _).
  destruct (omap_keys_NoDup f (map_to_list (claims x))) as [H1 H2].
  { intros [ip l] w. unfold f. cbn. destruct (owner x ip); [|done]. intros [= <-]. apply podWorkload_IP. }
  { apply NoDup_fst_map_to_list. }
  destruct (omap_keys_NoDup g (map_to_list (nodeIP x))) as [H3 H4].
  { intros [ip l] w. unfold g. cbn. destruct (claims x !! ip); [done|]. by intros [= <-]. }
  { apply NoDup_fst_map_to_list. }
  apply NoDup_app. split; [done|]. split; [|done]. intros ip Hip Hn.
  apply H2 in Hip. apply list_elem_of_fmap in Hip as ([ip' l] & -> & Hl). apply elem_of_map_to_list in Hl.
  apply list_elem_of_fmap in Hn as (w & Ew & Hw). apply list_elem_of_omap in Hw as ([ip2 node] & _ & Hg).
  unfold g in Hg. cbn in Hg. destruct (claims x !! ip2) eqn:E; [done|]. injection Hg as <-. cbn in *. congruence.
Qed.

Lemma ServiceByClusterIP_spec td keys c x ip s : Inv td keys c x ->
  ServiceByClusterIP x ip = Some s <->
  exists k t, kServices c !! k = Some t /\ Unmap ip ∈ service_addrs t /\ s = norm_service t.
Proof.
  intros [_ _ _ _ Hs Hr _ _ _ _]. unfold ServiceByClusterIP.
  assert (forall k v, services x !! k = Some v <-> exists n, kServices c !! k = Some n /\ v = norm_service n) as Hl.
  { intros k v. rewrite Hs, lookup_fmap. destruct (kServices c !! k); cbn; naive_solver. }
  destruct (byClusterIP x !! Unmap ip) as [ref|] eqn:E.
  - assert (E' := E). apply Hr in E' as (v & Hv & Hip). apply Hl in Hv as Hv'. destruct Hv' as (t & Ht & ->).
    rewrite Hv. cbn. split; [intros [= <-]; eauto|]. intros (k & t' & Ht' & Hip' & ->). do 2 f_equal.
    assert (byClusterIP x !! Unmap ip = Some k) as E2; [|congruence]. apply Hr. exists (norm_service t'). split; [|done].
    apply Hl. eauto.
  - split; [done|]. intros (k & t' & Ht' & Hip' & ->).
    assert (byClusterIP x !! Unmap ip = Some k) as E2; [|congruence]. apply Hr. exists (norm_service t'). split; [|done].
    apply Hl. eauto.
Qed.

(** ** Properties *)


Definition demo_pod (uid ip : string) (created : Z) : K8sPod :=
  mkK8sPod "shop" "web-0" uid {["app" := "web"]} created "" "node-1" false "Running" ip [ip].
Definition demo_slice : K8sSlice :=
  mkK8sSlice "shop" "web-x1" {[LabelServiceName := "web"]} [mkK8sEndpoint ["10.0.0.7"] (Some ("Pod", "uid-1"))].
Definition demo_node : K8sNode := mkK8sNode "node-1" [("InternalIP", "192.168.0.4"); ("Hostname", "node-1")].
Definition demo_events : list Event :=
  [Added (OPod (demo_pod "uid-1" "10.0.0.7" 5)); Added (OSlice demo_slice); Added (ONode demo_node)].


(** The informer's contract in [history] is needed where it says that an
    update keeps the pod's UID. When a pod is deleted and recreated under its
    name while the watch is down, the informer reports the new pod as an update
    of the old one; the handler ignores the old version, so the index keeps the
    claim of a pod that is gone, and [Lookup] attributes its old address to it. *)
Lemma recreated_pod_leaks :
  let old := demo_pod "uid-1" "10.0.0.7" 5 in
  let new := demo_pod "uid-2" "10.0.0.8" 9 in
  let c := fold_left advance [Added (OPod old); Updated (OPod old) (OPod new)] no_objects in
  let gone := Addr4 167772167 in
  (forall p, ~ claims_addr c gone p) /\
  exists x w, handle_all (Some (NewIndex (mkOptions "" []))) [Added (OPod old); Updated (OPod old) (OPod new)] = Some x /\
    Lookup x gone = Some w /\ PodUID w = "uid-1".
Proof.
  cbv zeta. split.
  - intros p (k & Hk & _ & Hip).
    assert (p = demo_pod "uid-2" "10.0.0.8" 9) as ->.
    { change (<[("shop", "web-0") := demo_pod "uid-2" "10.0.0.8" 9]>
                (<[("shop", "web-0") := demo_pod "uid-1" "10.0.0.7" 5]> ∅ : gmap _ K8sPod) !! k = Some p) in Hk.
      rewrite insert_insert_eq in Hk. by apply lookup_singleton_Some in Hk as [_ <-]. }
    apply (bool_decide_eq_true_2 _) in Hip. vm_compute in Hip. discriminate.
  - eexists _, _. split; [vm_compute; reflexivity|]. split; vm_compute; reflexivity.
Qed.

End OpIndex.
