(* ===== verification/OpCache.v ===== *)
(** * OpCache: the start of the operator's identity cache, and what runs where
    (NewCache and Start in hyper-operator/internal/identity/cache.go,
    hyper-operator/internal/leader/runnable.go)

    The cache is ready once the informers of the core resources have listed
    everything, and follows CiliumEndpoints from the moment their CRD is found.
    client-go's informers are inputs: whether setting one up succeeds, and whether it
    syncs before the context ends. Runnables say whether they need leadership. *)

From S2P Require Import Prelude GoStrings GoTime OpIndex.

Local Open Scope string_scope.
Local Open Scope list_scope.

Module OpCache.

(** ** cache.go *)

Definition CiliumResource : string := "ciliumendpoints".

Record Cache := mkCache {
  cacheIndex : OpIndex.Index; hasDynamic : bool; CiliumRecheck : Z; synced : bool; ciliumWatched : bool }.
#[export] Instance Cache_eta : Eta Cache := fun x =>
  mkCache (cacheIndex x) (hasDynamic x) (CiliumRecheck x) (synced x) (ciliumWatched x).

Definition NewCache (hasDynamic : bool) (opts : OpIndex.Options) (recheck : Z) : Cache :=
  mkCache (OpIndex.NewIndex opts) hasDynamic (if (recheck <=? 0)%Z then (5 * Minute)%Z else recheck) false false.

(** The resources discovery lists for the group; [None]: the call failed. *)
Definition ciliumInstalled (list : option (list string)) : bool :=
  match list with None => false | Some names => existsb (String.eqb CiliumResource) names end.

(** One call of [startCilium]: what discovery says, and whether the informer syncs
    before the context ends. *)
Record CiliumTry := mkCiliumTry { discovery : option (list string); ciliumSyncs : bool }.

Definition startCilium (t : CiliumTry) (c : Cache) : Cache :=
  if ciliumWatched c || negb (hasDynamic c) || negb (ciliumInstalled (discovery t)) then c
  else if ciliumSyncs t then c <| ciliumWatched := true |> else c.

Inductive CacheEvent : Type := Cancelled | Ticked (t : CiliumTry).

(** The loop at the end of [Start]; [Some]: it returned. *)
Fixpoint cache_loop (evs : list CacheEvent) (c : Cache) : option (result ()) * Cache :=
  match evs with
  | [] => (None, c)
  | Cancelled :: _ => (Some (Ok tt), c <| synced := false |>)
  | Ticked t :: evs => cache_loop evs (startCilium t c)
  end.

(** [setups]: the outcomes of SetTransform and AddEventHandler for each informer. *)
Definition Start (setups : list (bool * bool)) (initialSync : bool) (first : CiliumTry) (evs : list CacheEvent) (c : Cache)
  : option (result ()) * Cache :=
  if existsb (fun s => negb (fst s && snd s)) setups then (Some (Err "identity cache: set up informer"), c)
  else if negb initialSync then (Some (Ok tt), c)
  else cache_loop evs ((startCilium first c) <| synced := true |>).

(** ** runnable.go *)

Record runnable := mkRunnable { rnName : string; needLeader : bool }.
Definition NeedLeaderElection (r : runnable) : bool := needLeader r.
Definition LeaderOnly (name : string) : runnable := mkRunnable name true.
Definition AllReplicas (name : string) : runnable := mkRunnable name false.
Definition NewLeadershipReporter : runnable := LeaderOnly "leadership-reporter".
Definition cache_runnable : runnable := AllReplicas "identity-cache".

(** The gauge hypergate_operator_is_leader of a replica over the gain and loss of the
    Lease, which start and stop the reporter. *)
Definition report_leader (_ : Z) (gained : bool) : Z := if gained then 1%Z else 0%Z.
Definition is_leader_gauge (changes : list bool) : Z := fold_left report_leader changes 0%Z.

(** ** Lemmas *)

Lemma startCilium_keeps t c : synced (startCilium t c) = synced c /\ (ciliumWatched c = true -> ciliumWatched (startCilium t c) = true).
Proof. unfold startCilium. destruct (ciliumWatched c) eqn:E; [done|]. destruct (_ || _); [by rewrite E|]. by destruct (ciliumSyncs t). Qed.

Lemma cache_loop_synced evs c : synced (cache_loop evs c).2 = true -> (cache_loop evs c).1 = None.
Proof. revert c. induction evs as [|[|t] evs IH]; intros c; cbn [cache_loop]; [done|done|apply IH]. Qed.

(** A cache that says it is synced has set up and synced all its informers and is
    still running: a replica that stopped never claims to be ready. *)
Lemma synced_means_running setups initialSync first evs c : synced c = false ->
  synced (Start setups initialSync first evs c).2 = true ->
  (Start setups initialSync first evs c).1 = None /\ initialSync = true /\ Forall (fun s => s = (true, true)) setups.
Proof.
  intros Hc. unfold Start. destruct (existsb _ setups) eqn:Ex; [cbn; congruence|]. destruct initialSync; cbn [negb]; [|cbn; congruence].
  intros H. split; [by apply cache_loop_synced|]. split; [done|]. apply List.Forall_forall. intros [a b] Hin.
  destruct (a && b) eqn:Eab; [by apply andb_true_iff in Eab as [-> ->]|]. exfalso.
  assert (existsb (fun s : bool * bool => negb (fst s && snd s)) setups = true) as Hx; [|congruence].
  apply existsb_exists. exists (a, b). split; [done|]. cbn. by rewrite Eab.
Qed.

(** CiliumEndpoints are followed from the first tick that finds and syncs them. *)
Lemma cilium_picked_up evs c t : Ticked t ∈ evs -> Cancelled ∉ evs -> hasDynamic c = true -> ciliumInstalled (discovery t) = true ->
  ciliumSyncs t = true -> ciliumWatched (cache_loop evs c).2 = true.
Proof.
  intros Hin Hno Hd Hi Hs.
  assert (forall evs c, Cancelled ∉ evs -> ciliumWatched c = true -> ciliumWatched (cache_loop evs c).2 = true) as Hkeep.
  { clear. induction evs as [|[|t] evs IH]; intros c Hno Hw; cbn [cache_loop]; [done|destruct Hno; by left|].
    apply IH; [intros H; apply Hno; by right|by apply startCilium_keeps]. }
  revert c Hd Hin Hno. induction evs as [|[|t'] evs IH]; intros c Hd Hin Hno; [by apply elem_of_nil in Hin|destruct Hno; by left|].
  cbn [cache_loop]. assert (Cancelled ∉ evs) as Hno' by (intros H; apply Hno; by right).
  apply elem_of_cons in Hin as [[= ->]|Hin].
  - apply Hkeep; [done|]. unfold startCilium. destruct (ciliumWatched c) eqn:E; [done|]. rewrite Hd, Hi, Hs. done.
  - apply IH; [|done|done]. unfold startCilium. destruct (_ || _); [done|]. by destruct (ciliumSyncs t').
Qed.

End OpCache.
