(* ===== verification/OpSync.v ===== *)
(** * OpSync: from the operator's index to the engines
    (hyper-operator/internal/identity/server.go)

    [Sync] pushes the difference between the index and the last snapshot into
    the resource caches of the delta xDS server; an engine receives what its
    versions lack and applies it (internal/identity, file Identity). The cache is
    go-control-plane's [LinearCache]: a class whose laws are its documented
    behaviour. *)

From S2P Require Import Prelude GoStrings Netip NetipRoundtrip Identity OpIndex.
From stdpp Require Import sorting pretty.

Local Open Scope string_scope.
Local Open Scope list_scope.

Module OpSync.

(** ** Messages *)

Definition kindProto (k : OpIndex.WorkloadKind) : Kind :=
  match k with OpIndex.KindPod => KindPod | OpIndex.KindNode => KindNode end.

Definition workloadProto (w : OpIndex.Workload) : ProtoWorkload :=
  mkProtoWorkload (AddrString (OpIndex.IP w)) (kindProto (OpIndex.Kind w)) (OpIndex.Namespace w) (OpIndex.Pod w)
    (OpIndex.PodUID w) (OpIndex.ServiceAccount w) (OpIndex.SPIFFEID w) (OpIndex.Node w) (OpIndex.Labels w)
    ((fun r => (OpIndex.refNamespace r, OpIndex.refName r)) <$> OpIndex.Services w)
    (OpIndex.SecurityIdentity w) (OpIndex.CiliumLabels w).

Definition serviceProto (s : OpIndex.Service) : ProtoService :=
  mkProtoService (OpIndex.SvcNamespace s) (OpIndex.SvcName s) (AddrString <$> OpIndex.ClusterIPs s) (OpIndex.Ports s).

(** ** The resource cache *)

(** [UpdateResources] returns the cache and its error; [delta] is the response
    to a client that knows the given versions: resources (name, decoded message,
    version) and removed names. *)
Class LinearCache (M : Type) := {
  cache : Type;
  NewLinearCache : cache;
  UpdateResources : cache -> gmap string M -> list string -> cache * option string;
  delta : cache -> gmap string string -> list (string * option M * string) * list string;
  content : cache -> gmap string M;
  version : M -> string
}.
Arguments cache M {_}.

Class LinearCacheOk (M : Type) `{LinearCache M} : Prop := {
  lc_new : content NewLinearCache = ∅;
  lc_update : forall c u r c', UpdateResources c u r = (c', None) ->
    forall name, content c' !! name =
      match u !! name with Some m => Some m | None => if decide (name ∈ r) then None else content c !! name end;
  lc_delta_resources : forall c known name o v, (name, o, v) ∈ (delta c known).1 <->
    exists m, o = Some m /\ content c !! name = Some m /\ v = version m /\ known !! name <> Some v;
  lc_delta_names : forall c known, NoDup ((fun r => r.1.1) <$> (delta c known).1);
  lc_delta_removed : forall c known name, name ∈ (delta c known).2 <->
    is_Some (known !! name) /\ content c !! name = None;
  lc_version : forall m1 m2, version m1 = version m2 -> m1 = m2
}.

(** ** The server *)

Definition applyDiff {M : Type} `{EqDecision M} `{LinearCache M} (c : cache M) (last next : gmap string M)
  : cache M * option string :=
  let update := filter (fun e => last !! e.1 <> Some e.2) next in
  let remove := elements (dom last ∖ dom next) in
  if bool_decide (update = ∅) && bool_decide (remove = []) then (c, None)
  else UpdateResources c update remove.

#[export] Instance ProtoWorkload_eq_dec : EqDecision ProtoWorkload.
Proof. solve_decision. Defined.
#[export] Instance ProtoService_eq_dec : EqDecision ProtoService.
Proof. solve_decision. Defined.

Section Server.
Context `{LW : LinearCache ProtoWorkload} `{LS : LinearCache ProtoService}.
Context `{LWo : !LinearCacheOk ProtoWorkload} `{LSo : !LinearCacheOk ProtoService}.

Record Server := mkServer {
  workloadCache : cache ProtoWorkload;
  serviceCache : cache ProtoService;
  lastWorkloads : gmap string ProtoWorkload;
  lastServices : gmap string ProtoService }.

Definition NewServer : Server := mkServer NewLinearCache NewLinearCache ∅ ∅.

Definition nextW (x : OpIndex.Index) : gmap string ProtoWorkload :=
  fold_left (fun m w => <[AddrString (OpIndex.IP w) := workloadProto w]> m) (OpIndex.Workloads x) ∅.

Definition nextS (x : OpIndex.Index) : gmap string ProtoService :=
  fold_left (fun m s => <[(OpIndex.SvcNamespace s +++ "/" +++ OpIndex.SvcName s)%go := serviceProto s]> m)
    (OpIndex.AllServices x) ∅.

(** The new server and the errors it logs. *)
Definition Sync (x : OpIndex.Index) (s : Server) : Server * list string :=
  let '(cw, ew) := applyDiff (workloadCache s) (lastWorkloads s) (nextW x) in
  let '(cs, es) := applyDiff (serviceCache s) (lastServices s) (nextS x) in
  (mkServer cw cs (nextW x) (nextS x), option_list ew ++ option_list es).

(** ** The system: cluster, leader and one engine

    Informer events reach the leader's index and raise its notification;
    [syncLoop] receives it ([syncing]) and runs [Sync]; an engine receives what it
    lacks; an engine restarts; another replica becomes the leader with the index
    its own informers filled and, before it accepts engines, a first [Sync]. *)

Record Sys := mkSys {
  objects : OpIndex.Cluster;
  index : OpIndex.Index;
  server : Server;
  syncing : bool;
  engine : Index }.

Definition deliver (now : Z) (s : Server) (e : Index) : Index :=
  let '(rs, removed) := delta (workloadCache s) (versionsOf e WorkloadTypeURL) in
  applyAll e [(now, WorkloadResponse rs removed)].

Inductive sys_step (opts : OpIndex.Options) : Sys -> Sys -> Prop :=
| step_event c x s b e ev x' : OpIndex.delivers c ev -> OpIndex.handler x ev = Some x' ->
    sys_step opts (mkSys c x s b e) (mkSys (OpIndex.advance c ev) x' s b e)
| step_receive c x s e : OpIndex.changed x = true ->
    sys_step opts (mkSys c x s false e) (mkSys c (OpIndex.Changed x) s true e)
| step_sync c x s e s' : Sync x s = (s', []) -> sys_step opts (mkSys c x s true e) (mkSys c x s' false e)
| step_deliver c x s b e now : sys_step opts (mkSys c x s b e) (mkSys c x s b (deliver now s e))
| step_engine_restart c x s b e : sys_step opts (mkSys c x s b e) (mkSys c x s b NewIndex)
| step_failover c x s b e es x' s' : OpIndex.history OpIndex.no_objects es c ->
    OpIndex.handle_all (Some (OpIndex.NewIndex opts)) es = Some x' -> Sync x' NewServer = (s', []) ->
    sys_step opts (mkSys c x s b e) (mkSys c x' s' false e).

Definition sys_start (opts : OpIndex.Options) : Sys :=
  mkSys OpIndex.no_objects (OpIndex.NewIndex opts) NewServer false NewIndex.

Definition sys_reachable (opts : OpIndex.Options) : Sys -> Prop := rtc (sys_step opts) (sys_start opts).

(** What the engine knows of a workload of the operator. *)
Definition wire (w : OpIndex.Workload) : Workload :=
  mkWorkload (OpIndex.IP w) (kindProto (OpIndex.Kind w)) (OpIndex.Namespace w) (OpIndex.Pod w) (OpIndex.PodUID w)
    (OpIndex.ServiceAccount w) (OpIndex.SPIFFEID w) (OpIndex.Node w) (OpIndex.Labels w)
    (merge_sort string_le ((fun r => (OpIndex.refNamespace r +++ "/" +++ OpIndex.refName r)%go) <$> OpIndex.Services w))
    (OpIndex.SecurityIdentity w).

Definition wire_service (s : OpIndex.Service) : Service :=
  mkService (OpIndex.SvcNamespace s) (OpIndex.SvcName s) (OpIndex.ClusterIPs s) (OpIndex.Ports s).

(** ** Lemmas *)

Lemma plain_valid a : plain_addr a = true -> IsValid a = true /\ Unmap a = a.
Proof.
  destruct a as [|n|n z]; [done|done|]. unfold plain_addr. intros [_ H%negb_true_iff]%andb_true_iff.
  split; [done|]. unfold Unmap. by rewrite H.
Qed.

Lemma AddrString_inj a b : plain_addr a = true -> plain_addr b = true -> AddrString a = AddrString b -> a = b.
Proof. intros Ha%ParseAddr_String Hb%ParseAddr_String E. rewrite E in Ha. congruence. Qed.

Lemma workload_roundtrip_eq w : plain_addr (OpIndex.IP w) = true -> workloadFromProto (workloadProto w) = wire w.
Proof.
  intros H. unfold workloadFromProto, workloadProto, wire, parsed_or_zero. cbn [pw_ip pw_services pw_kind].
  rewrite (ParseAddr_String _ H). cbn [from_option id]. destruct (plain_valid _ H) as [_ ->].
  f_equal. by rewrite <- list_fmap_compose.
Qed.

Lemma service_roundtrip_eq s : Forall (fun a => plain_addr a = true) (OpIndex.ClusterIPs s) ->
  serviceFromProto (serviceProto s) = wire_service s.
Proof.
  intros H. unfold serviceFromProto, serviceProto, wire_service. cbn [ps_namespace ps_name ps_cluster_ips ps_ports].
  f_equal. induction H as [|a l Ha _ IH]; [done|]. cbn. rewrite (ParseAddr_String _ Ha). cbn.
  by rewrite IH, (proj2 (plain_valid _ Ha)).
Qed.

(** After an update without error the cache holds the next snapshot. *)
Lemma applyDiff_content {M : Type} `{EqDecision M} `{LinearCacheOk M} (c c' : cache M) last next :
  content c = last -> applyDiff c last next = (c', None) -> content c' = next.
Proof.
  intros <-. unfold applyDiff. set (u := filter _ next). set (r := elements _).
  assert (Hu : forall name, u !! name = match next !! name with
                 | Some m => if decide (content c !! name = Some m) then None else Some m | None => None end).
  { intros name. unfold u. rewrite map_lookup_filter. destruct (next !! name) as [m|]; [|done]. cbn.
    case_guard; case_decide; try done. }
  assert (Hr : forall name, name ∈ r <-> is_Some (content c !! name) /\ next !! name = None).
  { intros name. unfold r. rewrite elem_of_elements, elem_of_difference, elem_of_dom, not_elem_of_dom. done. }
  destruct (bool_decide (u = ∅) && bool_decide (r = [])) eqn:E.
  - intros [= <-]. apply andb_true_iff in E as [E1%bool_decide_eq_true E2%bool_decide_eq_true].
    apply map_eq. intros name. specialize (Hu name). specialize (Hr name). rewrite E1, lookup_empty in Hu. rewrite E2 in Hr.
    destruct (next !! name) as [m|] eqn:En.
    + by destruct (decide (content c !! name = Some m)).
    + destruct (content c !! name) eqn:Ec; [|done]. exfalso. eapply elem_of_nil, Hr. split; [by eexists|done].
  - intros Hup. apply map_eq. intros name. rewrite (lc_update _ _ _ _ Hup), Hu.
    destruct (next !! name) as [m|] eqn:En.
    + destruct (decide (content c !! name = Some m)) as [Ec|]; [|done].
      rewrite decide_False; [done|]. rewrite Hr. intros [_ ?]. congruence.
    + destruct (decide (name ∈ r)) as [|Hin]; [done|]. destruct (content c !! name) eqn:Ec; [|done].
      exfalso. apply Hin, Hr. rewrite Ec. by eauto.
Qed.

(** *** One delivery brings the engine to the cache's content *)

(** Every resource is named after the address it is about. *)
Definition named (g : gmap string ProtoWorkload) : Prop :=
  forall name m, g !! name = Some m -> exists a, plain_addr a = true /\ name = AddrString a /\ pw_ip m = name.

(** The engine holds the resources [g], each with its version. *)
Record mirrors (e : Index) (g : gmap string ProtoWorkload) : Prop := {
  mi_versions : forall name, workloadVersions e !! name = version <$> g !! name;
  mi_named : named g;
  mi_workloads : forall ip w, workloads e !! ip = Some w <->
    plain_addr ip = true /\ exists m, g !! AddrString ip = Some m /\ w = workloadFromProto m
}.

Lemma proto_ip m a : plain_addr a = true -> pw_ip m = AddrString a -> IP (workloadFromProto m) = a.
Proof.
  intros Ha E. cbn. unfold parsed_or_zero. rewrite E, (ParseAddr_String _ Ha). cbn. by apply plain_valid.
Qed.

Lemma decode_all {A : Type} (rs : list (string * option A * string)) :
  (forall r, r ∈ rs -> is_Some r.1.2) -> NoDup ((fun r => r.1.1) <$> rs) ->
  exists us, decode_resources rs = Some us /\
    (forall name m v, (name, m, v) ∈ us <-> (name, Some m, v) ∈ rs) /\
    ((fun u => u.1.1) <$> us) = ((fun r => r.1.1) <$> rs).
Proof.
  induction rs as [|[[name o] v] rs IH]; intros Hs Hnd.
  - exists []. split; [done|]. split; [set_solver|done].
  - cbn in Hnd. apply NoDup_cons in Hnd as [Hn Hnd].
    destruct IH as (us & E & Hus & Hnames); [intros r Hr; apply Hs; by right|done|].
    destruct (Hs (name, o, v)) as [m Hm]; [by left|]. cbn in Hm. subst o.
    exists ((name, m, v) :: us). cbn [decode_resources]. rewrite E.
    assert (existsb (fun u => String.eqb (fst (fst u)) name) us = false) as ->.
    { apply not_true_is_false. intros ([[n' m'] v'] & Hin & Heq)%existsb_elem. apply String.eqb_eq in Heq. cbn in Heq.
      subst n'. apply Hn. rewrite <- Hnames. apply list_elem_of_fmap. by exists (name, m', v'). }
    split; [done|]. split; [|cbn; by rewrite Hnames].
    intros n' m' v'. rewrite !elem_of_cons, Hus. naive_solver.
Qed.

Lemma remove_all_spec removed e :
  (forall name, workloadVersions (fold_left removeWorkload removed e) !! name =
     if decide (name ∈ removed) then None else workloadVersions e !! name) /\
  (forall ip, plain_addr ip = true -> Forall (fun n => exists a, plain_addr a = true /\ n = AddrString a) removed ->
     workloads (fold_left removeWorkload removed e) !! ip =
     if decide (AddrString ip ∈ removed) then None else workloads e !! ip).
Proof.
  revert e. induction removed as [|n removed IH]; intros e; cbn [fold_left]; [done|].
  destruct (IH (removeWorkload e n)) as [IH1 IH2]. split.
  - intros name. rewrite IH1. unfold removeWorkload.
    assert (workloadVersions (match NetipParseAddr n with
              | Some ip => e <| workloads := delete (Unmap ip) (workloads e) |> | None => e end) = workloadVersions e) as Ew
      by by destruct (NetipParseAddr n).
    cbn. rewrite Ew, lookup_delete. repeat case_decide; subst; set_solver.
  - intros ip Hip [(a & Ha & ->) Hf]%Forall_cons. rewrite IH2 by done. rewrite removeWorkload_lookup, (ParseAddr_String _ Ha).
    cbn. rewrite (proj2 (plain_valid _ Ha)).
    destruct (decide (ip = a)) as [->|Hne].
    + rewrite (decide_True (P := Some a = Some a)) by done. rewrite (decide_True (P := AddrString a ∈ AddrString a :: removed)) by set_solver.
      by case_decide.
    + rewrite (decide_False (P := Some ip = Some a)) by congruence.
      assert (AddrString ip <> AddrString a) by (intros E; by apply AddrString_inj in E).
      destruct (decide (AddrString ip ∈ removed)), (decide (AddrString ip ∈ AddrString a :: removed)); set_solver.
Qed.

Definition well_named (u : string * ProtoWorkload * string) : Prop :=
  exists a, plain_addr a = true /\ u.1.1 = AddrString a /\ pw_ip u.1.2 = u.1.1.

Lemma update_one e u : well_named u ->
  workloadVersions (updateWorkload e u) = <[u.1.1 := u.2]> (workloadVersions e) /\
  (forall ip, workloads (updateWorkload e u) !! ip =
     if decide (AddrString ip = u.1.1 /\ plain_addr ip = true) then Some (workloadFromProto u.1.2) else workloads e !! ip).
Proof.
  destruct u as [[name m] v]. intros (a & Ha & Hn & Hip). cbn in Hn, Hip. subst name. cbn [fst snd].
  pose proof (proto_ip m a Ha Hip) as Eip. unfold updateWorkload. rewrite Eip, (proj1 (plain_valid _ Ha)).
  split; [done|]. intros ip. cbn [workloads workloadVersions set_field]. cbn. rewrite lookup_insert.
  destruct (decide (a = ip)) as [<-|Hne]; [by rewrite decide_True|].
  rewrite decide_False; [done|]. intros [E Hp]. apply Hne. by apply AddrString_inj.
Qed.

Lemma update_all_spec us e : NoDup ((fun u => u.1.1) <$> us) -> Forall well_named us ->
  let e' := fold_left updateWorkload us e in
  (forall name m v, (name, m, v) ∈ us -> workloadVersions e' !! name = Some v /\
     forall ip, plain_addr ip = true -> AddrString ip = name -> workloads e' !! ip = Some (workloadFromProto m)) /\
  (forall name, name ∉ ((fun u => u.1.1) <$> us) -> workloadVersions e' !! name = workloadVersions e !! name /\
     forall ip, AddrString ip = name -> workloads e' !! ip = workloads e !! ip) /\
  (forall ip, plain_addr ip = false -> workloads e' !! ip = workloads e !! ip).
Proof.
  intros Hnd Hw. revert e. induction us as [|u us IH]; intros e; cbn [fold_left].
  { split; [set_solver|]. done. }
  cbn in Hnd. apply NoDup_cons in Hnd as [Hn Hnd]. apply Forall_cons in Hw as [Hu Hw].
  destruct (update_one e u Hu) as [Hv1 Hw1]. specialize (IH Hnd Hw (updateWorkload e u)). cbv zeta in *.
  destruct IH as (IH1 & IH2 & IH3). split; [|split].
  - intros name m v [<-|Hin]%elem_of_cons; [|by apply IH1]. destruct (IH2 name Hn) as [IH2v IH2w].
    rewrite IH2v, Hv1. split; [apply lookup_insert_eq|]. intros ip Hp E. rewrite (IH2w ip E), Hw1. by rewrite decide_True.
  - intros name Hnm. cbn in Hnm. apply not_elem_of_cons in Hnm as [Hne Hnm]. destruct (IH2 name Hnm) as [-> IH2w].
    rewrite Hv1. split; [by rewrite lookup_insert_ne|]. intros ip E. rewrite (IH2w ip E), Hw1. rewrite decide_False; [done|].
    naive_solver.
  - intros ip Hp. rewrite (IH3 ip Hp), Hw1, decide_False; [done|]. intros [_ ?]. congruence.
Qed.

(** A resource the response leaves out is one the engine already holds. *)
Lemma delta_skips c e (g : gmap string ProtoWorkload) name m : (forall n, workloadVersions e !! n = version <$> g !! n) ->
  content c !! name = Some m -> name ∉ ((fun r => r.1.1) <$> (delta c (workloadVersions e)).1) -> g !! name = Some m.
Proof.
  intros Hv Hm Hni. destruct (decide (workloadVersions e !! name = Some (version m))) as [Ev|Ev].
  - rewrite Hv in Ev. destruct (g !! name) as [m'|]; [|done]. f_equal. apply lc_version. by injection Ev.
  - exfalso. apply Hni, list_elem_of_fmap. exists (name, Some m, version m). split; [done|].
    apply lc_delta_resources. eauto.
Qed.

Lemma deliver_spec now s e g : mirrors e g -> named (content (workloadCache s)) ->
  let e' := deliver now s e in let ct := content (workloadCache s) in
  (forall name, workloadVersions e' !! name = version <$> ct !! name) /\
  (forall ip, plain_addr ip = true -> workloads e' !! ip = workloadFromProto <$> ct !! AddrString ip) /\
  (forall ip, plain_addr ip = false -> workloads e' !! ip = workloads (fold_left removeWorkload
     (delta (workloadCache s) (workloadVersions e)).2 e) !! ip).
Proof.
  intros [Hv Hn Hw] Hc. unfold deliver. set (c := workloadCache s) in *. cbn [versionsOf].
  pose proof (lc_delta_resources c (workloadVersions e)) as Hrs.
  pose proof (lc_delta_names c (workloadVersions e)) as Hnames.
  pose proof (lc_delta_removed c (workloadVersions e)) as Hrm.
  pose proof (fun name m => delta_skips c e g name m Hv) as Hskip.
  destruct (delta c (workloadVersions e)) as [rs removed]. cbn [fst snd] in *.
  destruct (decode_all rs) as (us & E & Hus & Hun); [|done|].
  { intros [[name o] v] (m & -> & _)%Hrs. by eexists. }
  cbv zeta. unfold applyAll. cbn [fold_left]. unfold Identity.apply. rewrite E.
  assert (Hwn : Forall well_named us).
  { apply Forall_forall. intros [[name m] v] Hin%Hus%Hrs. destruct Hin as (m' & [= <-] & Hm & _). by apply Hc in Hm. }
  assert (Hrn : Forall (fun n => exists a, plain_addr a = true /\ n = AddrString a) removed).
  { apply Forall_forall. intros n Hin%Hrm. destruct Hin as [[v Hvn] _]. rewrite Hv in Hvn.
    destruct (g !! n) as [m|] eqn:Em; [|done]. apply Hn in Em as (a & Ha & -> & _). eauto. }
  rewrite <- Hun in Hnames, Hskip.
  destruct (remove_all_spec removed e) as [R1 R2].
  destruct (update_all_spec us (fold_left removeWorkload removed e) Hnames Hwn) as (U1 & U2 & U3).
  assert (Hin : forall name, name ∈ ((fun u => u.1.1) <$> us) -> exists m, content c !! name = Some m /\ (name, m, version m) ∈ us).
  { intros name ([[n m] v] & -> & Hin)%list_elem_of_fmap. pose proof Hin as Hin'. apply Hus, Hrs in Hin' as (m' & [= <-] & Hm & -> & _).
    eauto. }
  assert (Hrm' : forall name, content c !! name = None -> name ∉ removed -> g !! name = None).
  { intros name Hno Hnr. destruct (g !! name) as [m|] eqn:Eg; [|done]. exfalso. apply Hnr, Hrm. rewrite Hv, Eg. by eauto. }
  split; [|split].
  - intros name. cbn. destruct (decide (name ∈ ((fun u => u.1.1) <$> us))) as [Hi|Hi].
    + destruct (Hin name Hi) as (m & -> & Hm). by destruct (U1 _ _ _ Hm) as [-> _].
    + destruct (U2 name Hi) as [-> _]. rewrite R1, Hv. destruct (content c !! name) as [m|] eqn:Em.
      * rewrite (Hskip _ _ Em Hi), decide_False; [done|]. intros Hr%Hrm. destruct Hr. congruence.
      * case_decide; [done|]. by rewrite Hrm'.
  - intros ip Hp. cbn. destruct (decide (AddrString ip ∈ ((fun u => u.1.1) <$> us))) as [Hi|Hi].
    + destruct (Hin _ Hi) as (m & -> & Hm). destruct (U1 _ _ _ Hm) as [_ U1w]. by rewrite (U1w ip Hp eq_refl).
    + destruct (U2 _ Hi) as [_ U2w]. rewrite (U2w ip eq_refl), R2 by done.
      destruct (content c !! AddrString ip) as [m|] eqn:Em.
      * rewrite decide_False by (intros Hr%Hrm; destruct Hr; congruence). apply Hw. split; [done|]. exists m. eauto.
      * case_decide as Hd; [done|]. destruct (workloads e !! ip) as [w|] eqn:Ew; [|done].
        apply Hw in Ew as (_ & m & Em' & _). by rewrite (Hrm' _ Em Hd) in Em'.
  - intros ip Hp. by apply U3.
Qed.

Lemma remove_all_keeps removed e ip w :
  workloads (fold_left removeWorkload removed e) !! ip = Some w -> workloads e !! ip = Some w.
Proof.
  revert e. induction removed as [|n removed IH]; intros e; cbn [fold_left]; [done|].
  intros H%IH. rewrite removeWorkload_lookup in H. by case_decide.
Qed.

Lemma deliver_mirrors now s e g : mirrors e g -> named (content (workloadCache s)) ->
  mirrors (deliver now s e) (content (workloadCache s)).
Proof.
  intros Hm Hc. destruct (deliver_spec now s e g Hm Hc) as (D1 & D2 & D3). split; [done|done|].
  intros ip w. destruct (plain_addr ip) eqn:Ep.
  - rewrite (D2 ip Ep), fmap_Some. naive_solver.
  - rewrite (D3 ip Ep). split; [|naive_solver]. intros H%remove_all_keeps. apply Hm in H as [H _]. congruence.
Qed.

(** *** Indexed addresses are plain *)

Definition plain (a : Addr) : Prop := plain_addr a = true.

Lemma appendAddr_plain addrs s : Forall plain addrs -> Forall plain (OpIndex.appendAddr addrs s).
Proof.
  intros H. unfold OpIndex.appendAddr. destruct (NetipParseAddr s) as [a|] eqn:E; [|done].
  apply Forall_app. split; [done|]. apply Forall_singleton. by eapply ParseAddr_plain.
Qed.

Lemma appendAddrs_plain l addrs : Forall plain addrs -> Forall plain (fold_left OpIndex.appendAddr l addrs).
Proof. intros H. apply fold_left_inv; [done|]. intros. by apply appendAddr_plain. Qed.

Lemma uniqueAddrs_plain l : Forall plain l -> Forall plain (OpIndex.uniqueAddrs l).
Proof.
  intros Hl. unfold OpIndex.uniqueAddrs.
  enough (forall out, Forall plain out -> Forall plain (fold_left (fun out a => if negb (IsValid a) then out else
    let a := Unmap a in if bool_decide (a ∈ out) then out else out ++ [a]) l out)) as H by (apply H; constructor).
  induction Hl as [|a l Ha _ IH]; intros out Ho; cbn [fold_left]; [done|]. apply IH.
  rewrite (proj1 (plain_valid _ Ha)), (proj2 (plain_valid _ Ha)). cbn. case_bool_decide; [done|].
  apply Forall_app. split; [done|]. by apply Forall_singleton.
Qed.

Lemma pod_addrs_plain p : Forall plain (OpIndex.pod_addrs p).
Proof.
  apply uniqueAddrs_plain. cbn.
  destruct (nonempty _); [apply appendAddrs_plain; constructor|]. apply appendAddr_plain, appendAddrs_plain. constructor.
Qed.

Lemma node_addrs_plain n : Forall plain (OpIndex.node_addrs n).
Proof.
  apply uniqueAddrs_plain. cbn. apply fold_left_inv; [constructor|]. intros b [t a] Hb.
  destruct (_ || _); [by apply appendAddr_plain|done].
Qed.

Lemma denotes_plain td keys c ip w : OpIndex.denotes td keys c ip (Some w) -> OpIndex.IP w = ip /\ plain ip.
Proof.
  inversion 1 as [p [(k & _ & _ & Hip) _]|k n _ _ Hip|]; subst; (split; [done|]).
  - by eapply Forall_forall, Hip; apply pod_addrs_plain.
  - by eapply Forall_forall, Hip; apply node_addrs_plain.
Qed.

Lemma Workloads_plain td keys c x w : OpIndex.Inv td keys c x -> w ∈ OpIndex.Workloads x -> plain (OpIndex.IP w).
Proof.
  intros Hi Hw. apply (OpIndex.Workloads_spec td keys c x w Hi) in Hw.
  pose proof (OpIndex.Lookup_denotes td keys c x (OpIndex.IP w) Hi) as Hd. rewrite Hw in Hd.
  apply denotes_plain in Hd as [E Hp]. by rewrite <- E in Hp.
Qed.

(** *** The snapshot *)

Lemma fold_insert_spec {A B : Type} (f : A -> string) (g : A -> B) l (m0 : gmap string B) k b :
  NoDup (f <$> l) ->
  fold_left (fun m a => <[f a := g a]> m) l m0 !! k = Some b <->
  (exists a, a ∈ l /\ k = f a /\ b = g a) \/ (k ∉ f <$> l) /\ m0 !! k = Some b.
Proof.
  revert m0. induction l as [|a l IH]; intros m0 Hnd; cbn [fold_left]; [set_solver|].
  rewrite fmap_cons in *. apply NoDup_cons in Hnd as [Ha Hnd]. rewrite IH, lookup_insert, not_elem_of_cons by done.
  setoid_rewrite elem_of_cons. destruct (decide (f a = k)) as [<-|Hne]; [|naive_solver].
  split; [|naive_solver]. intros [(a' & Hin & E & ->)|[_ [= <-]]]; [|eauto 10]. left. eauto.
Qed.

Lemma nextW_spec td keys c x name m : OpIndex.Inv td keys c x ->
  nextW x !! name = Some m <->
  exists w, w ∈ OpIndex.Workloads x /\ name = AddrString (OpIndex.IP w) /\ m = workloadProto w.
Proof.
  intros Hi. unfold nextW. rewrite (fold_insert_spec (fun w => AddrString (OpIndex.IP w))).
  - rewrite lookup_empty. naive_solver.
  - pose proof (OpIndex.Workloads_NoDup x) as Hnd. pose proof (fun w => Workloads_plain td keys c x w Hi) as Hp.
    induction (OpIndex.Workloads x) as [|w l IH]; [constructor|]. cbn in Hnd |- *. apply NoDup_cons in Hnd as [Hn Hnd].
    apply NoDup_cons. split; [|apply IH; [done|]; intros; apply Hp; by right].
    intros (w' & E & Hin)%list_elem_of_fmap. apply Hn. apply list_elem_of_fmap. exists w'. split; [|done].
    apply AddrString_inj in E; [done|apply Hp; by left|apply Hp; by right].
Qed.

Lemma nextW_named td keys c x : OpIndex.Inv td keys c x -> named (nextW x).
Proof.
  intros Hi name m (w & Hw & -> & ->)%(nextW_spec td keys c x name m Hi).
  exists (OpIndex.IP w). split; [by eapply Workloads_plain|done].
Qed.

(** *** The invariant of the system *)

Section Inv.
Context (opts : OpIndex.Options).
Let td := OpIndex.trustDomain (OpIndex.NewIndex opts).
Let keys := OpIndex.labelKeys (OpIndex.NewIndex opts).

Record sys_inv (s : Sys) : Prop := {
  sv_index : OpIndex.Inv td keys (objects s) (index s);
  sv_cache : content (workloadCache (server s)) = lastWorkloads (server s);
  sv_named : named (lastWorkloads (server s));
  sv_current : OpIndex.changed (index s) = false -> syncing s = false -> lastWorkloads (server s) = nextW (index s);
  sv_engine : exists g, mirrors (engine s) g
}.

Lemma receive_inv c x : OpIndex.Inv td keys c x -> OpIndex.Inv td keys c (OpIndex.Changed x).
Proof. intros [H1 H2 H3 H4 H5 H6 H7 H8 H9 H10]. by split. Qed.

(** Every handler raises the notification. *)
Lemma handler_changed x ev x' : OpIndex.handler x ev = Some x' -> OpIndex.changed x' = true.
Proof.
  assert (forall y, OpIndex.changed (OpIndex.bump y) = true) as Hb by done.
  assert (forall y p, OpIndex.changed (OpIndex.UpsertPod y p) = true) as Hp.
  { intros y p. unfold OpIndex.UpsertPod. by destruct (_ || _). }
  assert (forall y r z, OpIndex.UpsertSlice y r = Some z -> OpIndex.changed z = true) as Hs.
  { intros y r z. unfold OpIndex.UpsertSlice. destruct (OpIndex.removeSliceLocked _ _); [|done].
    destruct (String.eqb _ _); by intros [= <-]. }
  assert (forall y a b z, OpIndex.DeleteSlice y a b = Some z -> OpIndex.changed z = true) as Hd.
  { intros y a b z. unfold OpIndex.DeleteSlice. destruct (OpIndex.removeSliceLocked _ _); [|done]. by intros [= <-]. }
  destruct ev as [o|_o o|o]; destruct o; cbn; try (by intros [= <-]); try apply Hs; try apply Hd; intros [= <-]; apply Hp.
Qed.

Lemma Sync_content x s s' : content (workloadCache s) = lastWorkloads s -> Sync x s = (s', []) ->
  content (workloadCache s') = nextW x /\ lastWorkloads s' = nextW x.
Proof.
  intros Hc. unfold Sync. destruct (applyDiff (workloadCache s) _ _) as [cw ew] eqn:Ew.
  destruct (applyDiff (serviceCache s) _ _) as [cs es]. destruct ew; [done|]. intros [= <- _].
  split; [|done]. by eapply applyDiff_content.
Qed.

Lemma mirrors_new : mirrors NewIndex ∅.
Proof.
  split.
  - intros name. cbn. by rewrite !lookup_empty.
  - intros name m. by rewrite lookup_empty.
  - intros ip w. cbn. rewrite lookup_empty. split; [done|]. intros (_ & m & Hm & _). by rewrite lookup_empty in Hm.
Qed.

Lemma sys_step_inv s s' : sys_inv s -> sys_step opts s s' -> sys_inv s'.
Proof.
  intros [Hi Hc Hn Hu [g Hg]] Hs.
  destruct Hs as [c x s b e ev x' Hd Hx|c x s e Hch|c x s e s' Hs|c x s b e now|c x s b e|c x s b e es x' s' Hh Hx Hs]; cbn in *.
  - destruct (OpIndex.delivers_inv td keys c x ev Hi Hd) as (x1 & E & Hi'). rewrite Hx in E. injection E as <-.
    split; cbn; eauto. intros H. by rewrite (handler_changed _ _ _ Hx) in H.
  - split; cbn; eauto using receive_inv.
  - destruct (Sync_content x s s' Hc Hs) as [H1 H2]. split; cbn; eauto; rewrite H2; [done|by eapply nextW_named].
  - split; cbn; [done..|]. exists (content (workloadCache s)). eapply deliver_mirrors; [done|]. by rewrite Hc.
  - split; cbn; [done..|]. exists ∅. apply mirrors_new.
  - destruct (OpIndex.history_inv _ _ _ _ _ _ (OpIndex.NewIndex_inv opts) Hh) as (x1 & E & Hi').
    rewrite Hx in E. injection E as <-. destruct (Sync_content x' NewServer s' lc_new Hs) as [H1 H2].
    split; cbn; [done|by rewrite H2|rewrite H2; by eapply nextW_named|done|eauto].
Qed.

Lemma sys_reachable_inv s : sys_reachable opts s -> sys_inv s.
Proof.
  assert (sys_inv (sys_start opts)) as H0.
  { split; cbn; [apply OpIndex.NewIndex_inv|apply lc_new| |done|exists ∅; apply mirrors_new].
    intros name m. by rewrite lookup_empty. }
  unfold sys_reachable. intros Hr. revert H0. induction Hr as [s|s1 s2 s3 H12 _ IH]; intros H; [done|].
  apply IH. by eapply sys_step_inv.
Qed.

Lemma synced_lookup c x s e now g ip : OpIndex.Inv td keys c x ->
  content (workloadCache s) = nextW x -> mirrors e g ->
  Identity.Lookup (Some (deliver now s e)) ip = wire <$> OpIndex.Lookup x ip.
Proof.
  intros Hi Hc Hg.
  assert (mirrors (deliver now s e) (nextW x)) as [_ _ Hw].
  { rewrite <- Hc. eapply deliver_mirrors; [done|]. rewrite Hc. by eapply nextW_named. }
  pose proof (OpIndex.Lookup_denotes td keys c x ip Hi) as Hd. cbn [Identity.Lookup].
  assert (forall w, OpIndex.Lookup x ip = Some w -> OpIndex.Lookup x (Unmap ip) = Some w) as Hu.
  { intros w. unfold OpIndex.Lookup. by rewrite OpIndex.Unmap_idemp. }
  destruct (OpIndex.Lookup x ip) as [w|] eqn:El; cbn [fmap option_fmap option_map].
  - apply denotes_plain in Hd as [E Hp]. destruct (plain_valid _ Hp) as [Hv _]. rewrite OpIndex.Unmap_valid in Hv.
    rewrite Hv. apply Hw. split; [done|]. exists (workloadProto w). rewrite <- E. split.
    + apply (nextW_spec td keys c x _ _ Hi). exists w. split; [|done].
      apply (OpIndex.Workloads_spec td keys c x w Hi). rewrite E. by apply Hu.
    + symmetry. apply workload_roundtrip_eq. by rewrite E.
  - destruct (IsValid ip); [|done]. destruct (workloads _ !! Unmap ip) as [v|] eqn:Ev; [|done].
    apply Hw in Ev as (Hp & m & Hm & _). apply (nextW_spec td keys c x _ _ Hi) in Hm as (w & Hin & E & _).
    apply AddrString_inj in E; [|done|by eapply Workloads_plain].
    apply (OpIndex.Workloads_spec td keys c x w Hi) in Hin. rewrite <- E in Hin.
    unfold OpIndex.Lookup in Hin, El. rewrite OpIndex.Unmap_idemp in Hin. congruence.
Qed.

End Inv.

(** ** Properties *)


(** C40: the messages lose nothing the engine uses: an engine that decodes the
    message of a workload (of a Service) of the index has that workload (that
    Service), its addresses printed and parsed back unchanged. *)
Theorem identity_messages_roundtrip w s :
  plain_addr (OpIndex.IP w) = true -> Forall (fun a => plain_addr a = true) (OpIndex.ClusterIPs s) ->
  workloadFromProto (workloadProto w) = wire w /\ serviceFromProto (serviceProto s) = wire_service s.
Proof. intros Hw Hs. split; [by apply workload_roundtrip_eq|by apply service_roundtrip_eq]. Qed.

End Server.

(** ** A cache with the laws, and the witnesses *)

#[export] Instance Kind_countable : Countable Kind :=
  inj_countable' (fun k => match k with KindUnknown => 0%nat | KindPod => 1%nat | KindNode => 2%nat end)
    (fun n => match n with 0%nat => KindUnknown | 1%nat => KindPod | _ => KindNode end)
    (fun k => match k with KindUnknown | KindPod | KindNode => eq_refl end).

#[export] Instance ProtoWorkload_countable : Countable ProtoWorkload.
Proof.
  refine (inj_countable' (fun m => (pw_ip m, pw_kind m, pw_namespace m, pw_pod m, pw_pod_uid m, pw_service_account m,
      (pw_spiffe_id m, pw_node m, pw_labels m, pw_services m, pw_security_identity m, pw_cilium_labels m)))
    (fun '(a, b, c, d, e, f, (g, h, i, j, k, l)) => mkProtoWorkload a b c d e f g h i j k l) _).
  by intros [].
Defined.

#[export] Instance ProtoService_countable : Countable ProtoService.
Proof.
  refine (inj_countable' (fun m => (ps_namespace m, ps_name m, ps_cluster_ips m, ps_ports m))
    (fun '(a, b, c, d) => mkProtoService a b c d) _). by intros [].
Defined.

(** A map whose versions are an injective encoding of the messages. *)
#[local] Instance map_cache (M : Type) `{Countable M} : LinearCache M := {
  cache := gmap string M;
  NewLinearCache := ∅;
  UpdateResources := fun c u r => (u ∪ filter (fun e => e.1 ∉ r) c, None);
  delta := fun c known =>
    (omap (fun e : string * M =>
             let v := pretty (N.pos (encode e.2)) in
             if decide (known !! e.1 = Some v) then None else Some (e.1, Some e.2, v)) (map_to_list c),
     elements (dom known ∖ dom c));
  content := fun c => c;
  version := fun m => pretty (N.pos (encode m)) }.

#[local] Instance map_cache_ok (M : Type) `{Countable M} : LinearCacheOk M.
Proof.
  split.
  - done.
  - intros c u r c' [= <-] name. cbn in c |- *. rewrite lookup_union, map_lookup_filter.
    destruct (u !! name) as [m|]; [by rewrite union_Some_l|]. rewrite (left_id_L None (∪)).
    destruct (decide (name ∈ r)) as [Hr|Hr], (c !! name) as [m|]; cbn; try done; by case_guard.
  - intros c known name o v. cbn in c |- *. rewrite list_elem_of_omap. split.
    + intros ([n m] & Hin & Hm). apply elem_of_map_to_list in Hin. cbn in Hm.
      case_decide; [done|]. injection Hm as <- <- <-. eauto 10.
    + intros (m & -> & Hm & -> & Hk). exists (name, m). split; [by apply elem_of_map_to_list|]. cbn.
      by rewrite decide_False.
  - intros c known. cbn in c |- *. pose proof (NoDup_fst_map_to_list c) as Hnd.
    induction (map_to_list c) as [|[n m] l IH]; [constructor|]. cbn in Hnd |- *. apply NoDup_cons in Hnd as [Hn Hnd].
    case_decide; [by apply IH|]. cbn. apply NoDup_cons. split; [|by apply IH].
    intros ([[n' o] v] & E & Hin)%list_elem_of_fmap. cbn in E. subst n'. apply list_elem_of_omap in Hin as ([n'' m'] & Hin & Hm).
    cbn in Hm. case_decide; [done|]. injection Hm as -> _ _. apply Hn, list_elem_of_fmap. by exists (n, m').
  - intros c known name. cbn in c |- *. rewrite elem_of_elements, elem_of_difference, elem_of_dom, not_elem_of_dom. done.
  - intros m1 m2 E. cbn in E. apply (inj pretty) in E. injection E as E. by apply (inj encode).
Qed.

Lemma map_cache_sync x (s : Server) : exists s', Sync x s = (s', []).
Proof.
  unfold Sync, applyDiff.
  destruct (bool_decide (filter _ (nextW x) = ∅) && _), (bool_decide (filter _ (nextS x) = ∅) && _); by eexists.
Qed.

Definition demo_opts : OpIndex.Options := OpIndex.mkOptions "" [].
Definition demo_pod : OpIndex.K8sPod := OpIndex.demo_pod "uid-1" "10.0.0.7" 5.


Definition demo_workload : OpIndex.Workload :=
  OpIndex.mkWorkload OpIndex.KindPod (Addr6 1 "eth0") "node-1" "uid-1" "shop" "web-0" "default" "spiffe://x" ∅
    [OpIndex.mkServiceRef "shop" "web"] 7 ["k8s:app=web"].

Lemma identity_messages_roundtrip_witness :
  workloadFromProto (workloadProto demo_workload) = wire demo_workload /\
  serviceFromProto (serviceProto (OpIndex.mkService "shop" "web" [Addr4 167772161; Addr6 1 ""] [80%Z])) =
    mkService "shop" "web" [Addr4 167772161; Addr6 1 ""] [80%Z].
Proof.
  apply (identity_messages_roundtrip demo_workload (OpIndex.mkService "shop" "web" [Addr4 167772161; Addr6 1 ""] [80%Z])).
  - reflexivity.
  - repeat (apply Forall_cons; split; [reflexivity|]). constructor.
Defined.

End OpSync.
