(* ===== verification/Compiler.v ===== *)
(** * Compiler: from the operator's custom resources to the engine's configuration
    (hyper-operator/internal/routes/routes.go, internal/controller/common.go,
    identity.go and hyperchain_master_compiler.go, internal/webhook)

    [compile] is the pure part of the master compiler's [Reconcile]: chains with
    their filters resolved, routes by priority, one engine configuration per
    target namespace. [Reconcile] threads the API server through it. The filter
    specs are the values their YAML tags describe. The YAML codec, the regexp
    package, [sort.Slice] and the API server are parameters. *)

From S2P Require Import Prelude GoStrings GoTime Netip Identity Selector Context Executor Config Deny.
From stdpp Require Import sorting.

Local Open Scope string_scope.
Local Open Scope list_scope.

Module Compiler.

(** ** Custom resources *)

Record MatchRule := mkMatchRule {
  mrTraffic : string; mrSources : list string; mrDestinations : list string; mrPathPrefix : string;
  mrPathRegexPattern : string; mrHeaders : GoMap string }.

Record HyperRouteSpec := mkHyperRouteSpec { Priority : Z; TargetPolicy : string; rsMatches : list MatchRule }.

Record HyperRoute := mkHyperRoute { hrName : string; hrSpec : HyperRouteSpec; hrState : string; hrMessage : string }.

Record FilterReference := mkFilterReference { frKind : string; frName : string; frAudit : option bool }.

Record HyperChainSpec := mkHyperChainSpec {
  chFilters : list FilterReference; Mode : string; chTimeout : string; chMaxConcurrency : Z;
  chOnTimeout : string; chOnOverload : string }.

Record HyperChain := mkHyperChain {
  chainName : string; chainSpec : HyperChainSpec; chainState : string; chainMessage : string }.

Record HyperConfigSpec := mkHyperConfigSpec {
  ServerAddress : string; hcMaxConcurrentStreams : Z; LogLevel : string; TargetNamespace : string;
  hcTrustedProxyHops : Z; hcDefaultChain : string; hcDefaultChains : option (string * string);
  hcUnknownSource : string; hcPoolPrewarmSize : Z; hcInitialHeaderCapacity : Z }.

Record HyperConfig := mkHyperConfig { hcName : string; hcCreated : Z; hcSpec : HyperConfigSpec }.

Record HyperRedis := mkHyperRedis {
  hredName : string; Url : string; RedisType : string; hrPoolSize : Z; hrTimeout : string;
  hrActiveConnHealthCheck : bool }.

(** The rules of a sidecar filter. *)
Record EngineRules := mkEngineRules {
  erTimeout : string; erPath : string; erForwardHeaders : list string; erInspectBody : bool; erMaxBodySizeKB : Z;
  UpstreamHeadersToAdd : list string; UpstreamHeadersToRemove : list string;
  DownstreamPassThroughHeaders : list string }.

(** A filter's spec: the value its YAML tags describe, or the fields the
    compiler reads itself. *)
Inductive FilterSpec : Type :=
| PlainSpec (v : Value)
| SidecarSpec (protocol : string) (rules : EngineRules)
| JwtSpec (v : GoMap Value) (localSecretRef introspectionAuthSecretRef : option string).

Record Objects := mkObjects {
  configs : list HyperConfig; redises : list HyperRedis; hroutes : list HyperRoute; hchains : list HyperChain;
  (** the filters of each kind, by name *)
  filters : string -> GoMap FilterSpec }.

(** ** routes.go *)

Section Routes.
(** [regexp.Compile] *)
Variable regexp : string -> option Regex.

Definition engineTraffic (t : string) : result string :=
  if String.eqb t "" || String.eqb t "Any" then Ok ""
  else if String.eqb t "NorthSouth" then Ok (TrafficString TrafficNorthSouth)
  else if String.eqb t "EastWest" then Ok (TrafficString TrafficEastWest)
  else Err "traffic: invalid value".

Definition compileMatch (workloads : bool) (m : MatchRule) : result MatchConfig :=
  let traffic := engineTraffic (mrTraffic m) in
  if is_ok traffic && is_ok (Compile (mrSources m) Source workloads)
     && is_ok (Compile (mrDestinations m) Destination workloads)
     && (String.eqb (mrPathRegexPattern m) "" || negb (is_none (regexp (mrPathRegexPattern m))))
  then
    let headers := fold_left (fun hs e => map_set hs (ToLower e.1) (mkHeaderMatchConfig e.2 "" None)) (mrHeaders m) [] in
    Ok (mkMatchConfig (match traffic with Ok t => t | Err _ => "" end) (mrSources m) (mrDestinations m) TrafficAny None None
          (mrPathPrefix m) (mrPathRegexPattern m) None headers)
  else Err "match".

(** Every problem is collected; the list is returned when there is none. *)
Definition RouteCompile (workloads : bool) (spec : HyperRouteSpec) : result (list MatchConfig) :=
  let ms := compileMatch workloads <$> rsMatches spec in
  if negb (String.eqb (TargetPolicy spec) "") && nonempty (rsMatches spec) && forallb is_ok ms
  then Ok (omap (fun r => match r with Ok m => Some m | Err _ => None end) ms)
  else Err "route".

Definition Validate (workloads : bool) (spec : HyperRouteSpec) : result () :=
  let? _ := RouteCompile workloads spec in Ok tt.

Definition RouteDefaultChains (spec : HyperConfigSpec) : DefaultChainsConfig :=
  match hcDefaultChains spec with
  | None => mkDefaultChainsConfig "" ""
  | Some (ns, ew) => mkDefaultChainsConfig ns ew
  end.

Definition RouteUnknownSource (spec : HyperConfigSpec) : string :=
  if String.eqb (hcUnknownSource spec) "Default" then UnknownSourceDefault else UnknownSourceDeny.

Definition add_ref (refs : GoMap string) (e : string * string) : GoMap string :=
  if String.eqb e.2 "" || map_has refs e.2 then refs else map_set refs e.2 e.1.

(** Chain names with the field that refers to them. *)
Definition ReferencedChains (spec : HyperConfigSpec) : GoMap string :=
  fold_left add_ref
    (("defaultChain", hcDefaultChain spec) ::
     match hcDefaultChains spec with
     | Some (ns, ew) => [("defaultChains.northSouth", ns); ("defaultChains.eastWest", ew)]
     | None => []
     end) [].

(** ** The webhook of HyperRoutes: [get] is the lookup of the target chain
    (an error, or whether it exists); the result lists the warnings. *)
Definition validateRoute (workloads : bool) (get : string -> result bool) (spec : HyperRouteSpec)
  : result (list string) :=
  let? _ := Validate workloads spec in
  match get (TargetPolicy spec) with
  | Err e => Err e
  | Ok true => Ok []
  | Ok false => Ok ["chain does not exist"]
  end.
End Routes.

(** ** common.go and identity.go *)

Definition defaultTargetNamespace : string := "hyper-system".

Definition targetNamespaceOf (hc : HyperConfig) : string :=
  if String.eqb (TargetNamespace (hcSpec hc)) "" then defaultTargetNamespace else TargetNamespace (hcSpec hc).

(** The order of [sort.SliceStable]: older first, then by name. *)
Definition older (a b : HyperConfig) : Prop :=
  (hcCreated a < hcCreated b)%Z \/ hcCreated a = hcCreated b /\ String.leb (hcName a) (hcName b) = true.
#[export] Instance older_dec : RelDecision older.
Proof. intros a b. unfold older. apply _. Defined.

Definition add_config (acc : GoMap HyperConfig * GoMap string) (hc : HyperConfig) : GoMap HyperConfig * GoMap string :=
  let ns := targetNamespaceOf hc in
  match map_get acc.1 ns with
  | Some owner => (acc.1, map_set acc.2 (hcName hc) (hcName owner))
  | None => (map_set acc.1 ns hc, acc.2)
  end.

Definition activeHyperConfigs (items : list HyperConfig) : GoMap HyperConfig * GoMap string :=
  fold_left add_config (merge_sort older items) ([], []).

Record IdentitySettings := mkIdentitySettings {
  isEnabled : bool; isAddress : string; isServerName : string; isInsecure : bool }.

Definition engineIdentity (s : IdentitySettings) : IdentityConfig :=
  if isEnabled s then
    mkIdentityConfig true (isAddress s) (if isInsecure s then "" else "/etc/hypergate/identity/ca.crt") (isServerName s)
      "/var/run/secrets/hypergate/identity/token" (isInsecure s)
  else mkIdentityConfig false "" "" "" "" false.

(** ** Chains *)

Definition degradedChain : ChainConfig :=
  [mkFilterConfig "" false "deny" [("status_code", VInt 503); ("body", VString "Service Unavailable")]].

Definition filterAudited (chain : HyperChain) (ref : FilterReference) : bool :=
  match frAudit ref with Some b => b | None => String.eqb (Mode (chainSpec chain)) "Audit" end.

Definition limit_value (a : string) : string := if String.eqb a "Allow" then LimitActionAllow else LimitActionDeny.

(** [Ok None]: the chain sets no limits. *)
Definition chainSettings (spec : HyperChainSpec) : result (option ChainSettings) :=
  if String.eqb (chTimeout spec) "" && (chMaxConcurrency spec =? 0)%Z then Ok None
  else if negb (String.eqb (chTimeout spec) "") &&
          match ParseDuration (chTimeout spec) with Some d => (d <=? 0)%Z | None => true end
       then Err "invalid timeout"
  else Ok (Some (mkChainSettings (chTimeout spec) (chMaxConcurrency spec) (limit_value (chOnTimeout spec))
                   (limit_value (chOnOverload spec)) 0)).

Definition filterType (kind : string) : option string :=
  if String.eqb kind "RateLimitFilter" then Some "embedded_rate_limiter"
  else if String.eqb kind "HeaderModifierFilter" then Some "header_modifier"
  else if String.eqb kind "DenyFilter" then Some "deny"
  else if String.eqb kind "CorrelationIdFilter" then Some "correlation_id"
  else if String.eqb kind "RedisMetadataEnricherFilter" then Some "redis_metadata_enricher"
  else if String.eqb kind "ApiKeyFilter" then Some "api_key"
  else if String.eqb kind "ExternalAuthFilter" then Some "external_auth"
  else if String.eqb kind "FirewallFilter" then Some "firewall"
  else if String.eqb kind "JwtAuthFilter" then Some "jwt_auth"
  else if String.eqb kind "CorsFilter" then Some "cors"
  else None.

Definition strings (l : list string) : Value := VSeq (VString <$> l).

Definition on_success (r : EngineRules) : Value :=
  VMap [("upstream_headers_to_add", strings (UpstreamHeadersToAdd r));
        ("upstream_headers_to_remove", strings (UpstreamHeadersToRemove r))].
Definition on_failure (r : EngineRules) : Value :=
  VMap [("downstream_pass_through_headers", strings (DownstreamPassThroughHeaders r))].

Definition externalAuthOptions (name protocol : string) (r : EngineRules) : Value :=
  VMap [("protocol", VString protocol);
        ("socket_path", VString ("/var/run/hypergate/ext-auth-" +++ name +++ ".sock")%go);
        ("timeout", VString (erTimeout r)); ("path", VString (erPath r));
        ("forward_headers", strings (erForwardHeaders r)); ("on_success", on_success r); ("on_failure", on_failure r)].

Definition firewallOptions (name protocol : string) (r : EngineRules) : Value :=
  VMap [("protocol", VString protocol);
        ("socket_path", VString ("/var/run/hypergate/fw-" +++ name +++ ".sock")%go);
        ("timeout", VString (erTimeout r)); ("inspect_body", VBool (erInspectBody r));
        ("max_body_size_kb", VInt (erMaxBodySizeKB r));
        ("forward_headers", strings (erForwardHeaders r)); ("on_success", on_success r); ("on_failure", on_failure r)].

Definition jwtSecretFile (filterName refName file : string) : string :=
  ("/etc/hypergate/secrets" +++ "/jwt-" +++ filterName +++ "/" +++ refName +++ "/" +++ file)%go.

Definition jwtAuthOptions (name : string) (opts : GoMap Value) (localRef authRef : option string) : GoMap Value :=
  let opts := match localRef with
              | Some ref => map_set opts "local_secret_file" (VString (jwtSecretFile name ref "local-secret"))
              | None => opts
              end in
  match authRef with
  | Some ref => map_set opts "introspection_auth_header_file" (VString (jwtSecretFile name ref "introspection-auth"))
  | None => opts
  end.

Definition resolvedOptions (kind name : string) (spec : FilterSpec) : Value :=
  match spec with
  | PlainSpec v => v
  | SidecarSpec protocol r => if String.eqb kind "FirewallFilter" then firewallOptions name protocol r
                              else externalAuthOptions name protocol r
  | JwtSpec v l a => VMap (jwtAuthOptions name v l a)
  end.

Section Compile.
(** [regexp.Compile]; the order [sort.Slice] leaves; [yaml.Marshal] and
    [yaml.Unmarshal] into a map; the operator's identity settings. *)
Variable regexp : string -> option Regex.
Variable sort_routes : list HyperRoute -> list HyperRoute.
Variable yaml_options : Value -> result (GoMap Value).
Variable identity : IdentitySettings.

Definition compile_filter (objs : Objects) (chain : HyperChain) (ref : FilterReference) : result FilterConfig :=
  match filterType (frKind ref) with
  | None => Err "Unknown filter Kind"
  | Some ty =>
      match map_get (filters objs (frKind ref)) (frName ref) with
      | None => Err "Filter not found"
      | Some spec =>
          let? opts := yaml_options (resolvedOptions (frKind ref) (frName ref) spec) in
          Ok (mkFilterConfig (frKind ref +++ "/" +++ frName ref)%go (filterAudited chain ref) ty opts)
      end
  end.

(** The loop over the filters stops at the first failure; the limits are only
    reported when the filters resolved. *)
Definition compile_chain (objs : Objects) (chain : HyperChain) : result (ChainConfig * option ChainSettings) :=
  let? fs := map_result (compile_filter objs chain) (chFilters (chainSpec chain)) in
  let? s := chainSettings (chainSpec chain) in
  Ok (fs, s).

Definition chain_status (objs : Objects) (chain : HyperChain) : string * string :=
  match compile_chain objs chain with
  | Ok _ => ("Ready", "Chain successfully compiled")
  | Err m => ("Degraded", m)
  end.

Definition add_chain (objs : Objects) (acc : GoMap ChainConfig * GoMap ChainSettings) (chain : HyperChain)
  : GoMap ChainConfig * GoMap ChainSettings :=
  match compile_chain objs chain with
  | Err _ => (map_set acc.1 (chainName chain) degradedChain, acc.2)
  | Ok (fs, s) => (map_set acc.1 (chainName chain) fs,
                   match s with Some s => map_set acc.2 (chainName chain) s | None => acc.2 end)
  end.

Definition compile_chains (objs : Objects) : GoMap ChainConfig * GoMap ChainSettings :=
  fold_left (add_chain objs) (hchains objs) ([], []).

Definition route_status (hr : HyperRoute) : string * string :=
  match RouteCompile regexp (isEnabled identity) (hrSpec hr) with
  | Ok _ => ("Ready", "Route compiled")
  | Err m => ("Invalid", m)
  end.

Definition add_route (acc : GoMap ChainConfig * list RouteConfig) (hr : HyperRoute)
  : GoMap ChainConfig * list RouteConfig :=
  match RouteCompile regexp (isEnabled identity) (hrSpec hr) with
  | Err _ => acc
  | Ok ms =>
      let target := TargetPolicy (hrSpec hr) in
      (if map_has acc.1 target then acc.1 else map_set acc.1 target degradedChain,
       acc.2 ++ [mkRouteConfig (hrName hr) ms target])
  end.

Definition compile_routes (objs : Objects) : GoMap ChainConfig * list RouteConfig :=
  fold_left add_route (sort_routes (hroutes objs)) ((compile_chains objs).1, []).

Definition compile_redis (objs : Objects) : GoMap RedisServiceConfig :=
  fold_left (fun m hr =>
    map_set m (hredName hr)
      (mkRedisServiceConfig (RedisType hr) "" (Url hr) (hrPoolSize hr) "" false "" "" "" false "" 0 0 ""
         (hrActiveConnHealthCheck hr) (hrTimeout hr) 0 "" "" 0 "" 0 "" 0 "" 0)) (redises objs) [].

(** The chains of one engine: the shared ones, and a rejecting chain for every
    fallback that does not exist. *)
Definition engine_chains (chains : GoMap ChainConfig) (spec : HyperConfigSpec) : GoMap ChainConfig :=
  fold_left (fun cs e => if map_has chains e.1 then cs else map_set cs e.1 degradedChain) (ReferencedChains spec) chains.

Definition engineConfig (objs : Objects) (hc : HyperConfig) : Config :=
  let spec := hcSpec hc in
  let '(chains, routes) := compile_routes objs in
  mkConfig "v1"
    (mkServerConfig (ServerAddress spec) (hcMaxConcurrentStreams spec) (hcPoolPrewarmSize spec)
       (hcInitialHeaderCapacity spec) 0 (mkTLSConfig false "" "" "" false) ":9003" "" (hcTrustedProxyHops spec)
       (mkShutdownConfig "" "" "" "" 0 0 0 0))
    (mkLoggingConfig (LogLevel spec) "" "") (engine_chains chains spec)
    (mkRouterConfig routes (RouteDefaultChains spec) (hcDefaultChain spec) "" (RouteUnknownSource spec))
    (compile_redis objs) (compile_chains objs).2 (engineIdentity identity).

Definition compile (objs : Objects) : GoMap Config :=
  (fun e => (e.1, engineConfig objs e.2)) <$> (activeHyperConfigs (configs objs)).1.

(** ** Reconcile *)

(** The API server: status writes, and the ConfigMaps by namespace. [None] of
    [getConfigMap] is "not found". *)
Context {W : Type}.
Variable list_objects : W -> result Objects.
Variable updateChainStatus updateRouteStatus : W -> string -> string * string -> result W.
Variable getConfigMap : W -> string -> result (option (GoMap string)).
Variable createConfigMap updateConfigMap : W -> string -> GoMap string -> result W.
(** [yaml.Marshal] of a configuration. *)
Variable marshal : Config -> result string.

Definition set_chain_status (objs : Objects) (w : W) (chain : HyperChain) : result W :=
  let st := chain_status objs chain in
  if String.eqb st.1 (chainState chain) && String.eqb st.2 (chainMessage chain) then Ok w
  else updateChainStatus w (chainName chain) st.

(** A route that is gone is not an error: the caller's [updateRouteStatus]
    answers it as a success. *)
Definition setRouteStatus (w : W) (hr : HyperRoute) : result W :=
  let st := route_status hr in
  if String.eqb (hrState hr) st.1 && String.eqb (hrMessage hr) st.2 then Ok w
  else updateRouteStatus w (hrName hr) st.

Definition writeConfigMap (w : W) (e : string * Config) : result W :=
  let? text := marshal e.2 in
  let? cm := getConfigMap w e.1 in
  match cm with
  | None => createConfigMap w e.1 [("config.yaml", text)]
  | Some data => if String.eqb (default "" (map_get data "config.yaml")) text then Ok w
                 else updateConfigMap w e.1 (map_set data "config.yaml" text)
  end.

Definition Reconcile (w : W) : result W :=
  let? objs := list_objects w in
  match configs objs with
  | [] => Ok w
  | _ =>
      let? w := fold_result (set_chain_status objs) w (hchains objs) in
      let? w := fold_result setRouteStatus w (sort_routes (hroutes objs)) in
      fold_result writeConfigMap w (compile objs)
  end.

End Compile.

(** ** What the schema of the custom resources guarantees

    [hrTimeout] has no pattern in the schema: that it is a duration is the part
    the schema does not check. *)

Record objects_ok (objs : Objects) : Prop := {
  oo_redis_type : forall r, r ∈ redises objs -> RedisType r ∈ ["SINGLE"; "CLUSTER"; "SENTINEL"];
  oo_redis_timeout : forall r, r ∈ redises objs -> hrTimeout r = "" \/ exists d, ParseDuration (hrTimeout r) = Some d;
  oo_hops : forall c, c ∈ configs objs -> (0 <= hcTrustedProxyHops (hcSpec c))%Z;
  oo_limits : forall c, c ∈ hchains objs -> (0 <= chMaxConcurrency (chainSpec c))%Z
}.

(** The names an engine configuration refers to. *)
Definition referenced (cfg : Config) : list string :=
  (TargetChain <$> Routes (Router cfg)) ++
  List.filter (fun n => negb (String.eqb n ""))
    [DefaultChain (Router cfg); NorthSouth (DefaultChains (Router cfg)); EastWest (DefaultChains (Router cfg))].

(** The policy of a chain name: what its HyperChain compiles to, and the rejecting
    chain when it does not compile or does not exist. *)
Definition policy_chain (yaml_options : Value -> result (GoMap Value)) (objs : Objects) (name : string) : ChainConfig :=
  match List.find (fun c => String.eqb (chainName c) name) (hchains objs) with
  | Some c => match compile_chain yaml_options objs c with Ok (fs, _) => fs | Err _ => degradedChain end
  | None => degradedChain
  end.

(** The engine's route of a HyperRoute that compiles. *)
Definition route_of (regexp : string -> option Regex) (workloads : bool) (hr : HyperRoute) : option RouteConfig :=
  match RouteCompile regexp workloads (hrSpec hr) with
  | Ok ms => Some (mkRouteConfig (hrName hr) ms (TargetPolicy (hrSpec hr)))
  | Err _ => None
  end.

(** ** Lemmas *)

Lemma map_has_set {A : Type} (m : GoMap A) k v k' : map_has (map_set m k v) k' = true <-> k' = k \/ map_has m k' = true.
Proof. by rewrite !map_has_spec, map_set_keys. Qed.

Lemma map_has_cons {A : Type} (m : GoMap A) n (v : A) k : map_has ((n, v) :: m) k = String.eqb n k || map_has m k.
Proof. unfold map_has. cbn. by destruct (String.eqb n k). Qed.

Lemma map_result_all {A B : Type} (f : A -> result B) l :
  (forall x, x ∈ l -> is_ok (f x) = true) -> is_ok (map_result f l) = true.
Proof.
  induction l as [|x l IH]; intros H; [done|]. cbn. assert (Hx := H x ltac:(by left)).
  destruct (f x) as [y|]; [|done]. cbn. assert (is_ok (map_result f l) = true) as Hl by (apply IH; intros; apply H; by right).
  by destruct (map_result f l).
Qed.

Lemma is_ok_inv {A : Type} (r : result A) : is_ok r = true -> exists a, r = Ok a.
Proof. destruct r; [eauto|done]. Qed.

Lemma fold_check_all {A : Type} (f : A -> result ()) l :
  (forall x, x ∈ l -> f x = Ok tt) -> fold_result (fun _ x => f x) tt l = Ok tt.
Proof.
  induction l as [|x l IH]; intros H; [done|]. cbn. rewrite (H x) by (by left). apply IH. intros. apply H. by right.
Qed.

(** *** Routes *)

Lemma engineTraffic_parses t v : engineTraffic t = Ok v -> is_ok (ParseTraffic v) = true.
Proof.
  unfold engineTraffic. destruct (_ || _); [intros [= <-]; done|].
  destruct (String.eqb t "NorthSouth"); [intros [= <-]; done|]. destruct (String.eqb t "EastWest"); [intros [= <-]; done|done].
Qed.

Lemma lower_headers_elem h e : e ∈ lower_headers h -> exists k, (k, e.2) ∈ h.
Proof.
  unfold lower_headers. enough (forall m, e ∈ fold_left (fun m '(k, v) => map_set m (ToLower k) v) h m ->
    e ∈ m \/ exists k, (k, e.2) ∈ h) as H.
  { intros [Hin|?]%H; [by apply elem_of_nil in Hin|done]. }
  induction h as [|[k v] h IH]; intros m; cbn [fold_left]; [by left|].
  intros [Hin|(k' & Hk)]%IH; [|right; exists k'; by right].
  apply map_set_elem in Hin as [->|Hin]; [right; exists k; by left|by left].
Qed.

Section Lemmas.
Variable regexp : string -> option Regex.
Variable sort_routes : list HyperRoute -> list HyperRoute.
Variable yaml_options : Value -> result (GoMap Value).
Variable identity : IdentitySettings.

(** What the operator compiles the engine compiles. *)
Lemma compileMatch_engine workloads m mc :
  compileMatch regexp workloads m = Ok mc -> is_ok (compile_match regexp workloads mc) = true.
Proof.
  unfold compileMatch. destruct (engineTraffic (mrTraffic m)) as [t|] eqn:Et; [|done]. cbn [is_ok andb].
  destruct (is_ok (Compile (mrSources m) Source workloads)) eqn:Es; [|done].
  destruct (is_ok (Compile (mrDestinations m) Destination workloads)) eqn:Ed; [|done]. cbn [andb].
  destruct (_ || _) eqn:Er; [|done]. intros [= <-]. set (hs := fold_left _ _ _).
  assert (forall e, e ∈ hs -> RegexPattern e.2 = "") as Hh.
  { unfold hs. apply fold_left_inv; [set_solver|]. intros acc [k v] Hacc e [->|Hin]%map_set_elem; eauto. }
  unfold compile_match, MatchCompile. cbn [mTraffic Sources Destinations].
  apply engineTraffic_parses, is_ok_inv in Et as [tr ->]. apply is_ok_inv in Es as [s ->]. apply is_ok_inv in Ed as [d ->].
  cbn [result_bind]. cbn [PathRegexPattern set_field mHeaders]. cbn.
  assert (exists re, compile_regex regexp (mrPathRegexPattern m) = Ok re) as [re ->].
  { unfold compile_regex. destruct (String.eqb (mrPathRegexPattern m) ""); [by eexists|]. cbn in Er.
    destruct (regexp _); [by eexists|done]. }
  cbn [result_bind]. cbn.
  assert (is_ok (map_result (compile_header regexp) (lower_headers hs)) = true) as Hok.
  { apply map_result_all. intros [k h] (k' & Hk)%lower_headers_elem. apply Hh in Hk. cbn in Hk.
    unfold compile_header, compile_regex. by rewrite Hk. }
  apply is_ok_inv in Hok as [hs' Hok].
  destruct re; match goal with |- context [mHeaders ?x] => change (mHeaders x) with hs end; by rewrite Hok.
Qed.

Lemma RouteCompile_ok workloads spec ms : RouteCompile regexp workloads spec = Ok ms ->
  TargetPolicy spec <> "" /\ Forall2 (fun m mc => compileMatch regexp workloads m = Ok mc) (rsMatches spec) ms /\
  (forall m, m ∈ ms -> is_ok (compile_match regexp workloads m) = true).
Proof.
  unfold RouteCompile. destruct (_ && _) eqn:E; [|done]. intros [= <-].
  apply andb_true_iff in E as [[E1%negb_true_iff _]%andb_true_iff E2]. split; [by apply String.eqb_neq|].
  assert (Forall2 (fun m mc => compileMatch regexp workloads m = Ok mc) (rsMatches spec)
    (omap (fun r => match r with Ok m => Some m | Err _ => None end) (compileMatch regexp workloads <$> rsMatches spec))) as Hf.
  { clear E1. induction (rsMatches spec) as [|m l IH]; cbn in E2 |- *; [constructor|].
    apply andb_true_iff in E2 as [E2 E3]. destruct (compileMatch regexp workloads m) as [mc|] eqn:Em; [|done].
    constructor; [done|]. by apply IH. }
  split; [done|]. intros mc Hin. apply list_elem_of_lookup in Hin as [i Hi].
  destruct (Forall2_lookup_r _ _ _ _ _ Hf Hi) as (m & _ & Hm). by eapply compileMatch_engine.
Qed.

Lemma compile_routes_spec objs :
  let '(chains, routes) := compile_routes regexp sort_routes yaml_options identity objs in
  (forall k, map_has (compile_chains yaml_options objs).1 k = true -> map_has chains k = true) /\
  (forall k, map_get chains k = map_get (compile_chains yaml_options objs).1 k \/
             map_has (compile_chains yaml_options objs).1 k = false /\ map_get chains k = Some degradedChain) /\
  Forall (fun r => TargetChain r <> "" /\ map_has chains (TargetChain r) = true /\
                   forall m, m ∈ Matches r -> is_ok (compile_match regexp (isEnabled identity) m) = true) routes.
Proof.
  unfold compile_routes. set (base := (compile_chains yaml_options objs).1).
  apply (fold_left_inv (fun acc : GoMap ChainConfig * list RouteConfig => let '(chains, routes) := acc in _)).
  { split; [done|]. split; [by left|constructor]. }
  intros [chains routes] hr (H1 & H2 & H3). unfold add_route.
  destruct (RouteCompile _ _ _) as [ms|] eqn:E; [|done]. apply RouteCompile_ok in E as (Ht & _ & Hm). cbn [fst snd].
  set (t := TargetPolicy (hrSpec hr)) in *.
  assert (Hmono : forall k, map_has chains k = true -> map_has (if map_has chains t then chains else map_set chains t degradedChain) k = true).
  { intros k Hk. destruct (map_has chains t); [done|]. apply map_has_set. by right. }
  split; [eauto|]. split.
  - intros k. destruct (map_has chains t) eqn:Eh; [apply H2|].
    destruct (decide (t = k)) as [<-|Hne]; [|rewrite map_get_set_ne by done; apply H2].
    right. rewrite map_get_set_eq. split; [|done]. apply not_true_is_false. intros Hb%H1. congruence.
  - apply Forall_app. split.
    + eapply Forall_impl; [exact H3|]. intros r (Ha & Hb & Hc). eauto.
    + apply Forall_singleton. cbn. split; [done|]. split; [|done].
      destruct (map_has chains t) eqn:Eh; [done|]. apply map_has_set. by left.
Qed.

(** *** Chains *)

Lemma chainSettings_valid spec s : (0 <= chMaxConcurrency spec)%Z -> chainSettings spec = Ok (Some s) ->
  is_ok (validate s) = true.
Proof.
  intros Hc. unfold chainSettings. destruct (_ && _); [done|].
  destruct (negb (String.eqb (chTimeout spec) "") && _) eqn:E; [done|]. intros [= <-].
  unfold validate. cbn [Timeout]. assert (exists d, (if String.eqb (chTimeout spec) "" then
      Ok (mkChainSettings (chTimeout spec) (chMaxConcurrency spec) (limit_value (chOnTimeout spec)) (limit_value (chOnOverload spec)) 0)
    else match ParseDuration (chTimeout spec) with
         | Some d => if (d <=? 0)%Z then Err "timeout: invalid duration"
             else Ok ((mkChainSettings (chTimeout spec) (chMaxConcurrency spec) (limit_value (chOnTimeout spec)) (limit_value (chOnOverload spec)) 0) <| TimeoutDuration := d |>)
         | None => Err "timeout: invalid duration" end) =
      Ok (mkChainSettings (chTimeout spec) (chMaxConcurrency spec) (limit_value (chOnTimeout spec)) (limit_value (chOnOverload spec)) d)) as [d ->].
  { destruct (String.eqb (chTimeout spec) ""); [by eexists|]. cbn in E. destruct (ParseDuration _) as [d|]; [|done].
    rewrite E. by eexists. }
  cbn [result_bind MaxConcurrency]. destruct (Z.ltb_spec (chMaxConcurrency spec) 0); [lia|]. cbn [OnTimeout OnOverload].
  assert (forall a, exists x, limit_action (limit_value a) = Ok x) as Hl.
  { intros a. unfold limit_value. destruct (String.eqb a "Allow"); by eexists. }
  destruct (Hl (chOnTimeout spec)) as [? ->], (Hl (chOnOverload spec)) as [? ->]. done.
Qed.

Lemma compile_chains_limits objs : objects_ok objs ->
  forall e, e ∈ (compile_chains yaml_options objs).2 ->
    map_has (compile_chains yaml_options objs).1 e.1 = true /\ is_ok (validate e.2) = true.
Proof.
  intros Hok. assert (Hlim := oo_limits _ Hok). unfold compile_chains.
  enough (forall l acc, (forall c, c ∈ l -> (0 <= chMaxConcurrency (chainSpec c))%Z) ->
    (forall e, e ∈ acc.2 -> map_has acc.1 e.1 = true /\ is_ok (validate e.2) = true) ->
    forall e, e ∈ (fold_left (add_chain yaml_options objs) l acc).2 ->
      map_has (fold_left (add_chain yaml_options objs) l acc).1 e.1 = true /\ is_ok (validate e.2) = true) as H.
  { apply H; [done|]. set_solver. }
  induction l as [|c l IH]; intros acc Hl Hacc; cbn [fold_left]; [done|].
  apply IH; [intros; apply Hl; by right|]. unfold add_chain. destruct (compile_chain yaml_options objs c) as [[fs s]|] eqn:E; cbn [fst snd].
  - unfold compile_chain in E. apply result_bind_Ok in E as (fs' & _ & (s' & Hs & E)%result_bind_Ok). injection E as -> ->.
    destruct s as [s|].
    + intros e [->|He]%map_set_elem; cbn [fst snd].
      * split; [apply map_has_set; by left|]. eapply chainSettings_valid; [|done]. apply Hl. by left.
      * destruct (Hacc e He). split; [|done]. apply map_has_set. by right.
    + intros e He. destruct (Hacc e He). split; [|done]. apply map_has_set. by right.
  - intros e He. destruct (Hacc e He). split; [|done]. apply map_has_set. by right.
Qed.

(** *** The engine's configuration *)

Lemma engine_chains_spec chains spec k :
  map_get (engine_chains chains spec) k =
  if map_has chains k then map_get chains k
  else if map_has (ReferencedChains spec) k then Some degradedChain else None.
Proof.
  unfold engine_chains. generalize (ReferencedChains spec) as refs. intros refs.
  enough (forall cs, map_get (fold_left (fun cs e => if map_has chains e.1 then cs else map_set cs e.1 degradedChain) refs cs) k =
    if map_has chains k then map_get cs k else if map_has refs k then Some degradedChain else map_get cs k) as H.
  { rewrite H. destruct (map_has chains k) eqn:E; [done|]. destruct (map_has refs k); [done|].
    unfold map_has in E. by destruct (map_get chains k). }
  induction refs as [|[n f] refs IH]; intros cs; cbn [fold_left fst]; [by destruct (map_has chains k)|].
  rewrite IH, map_has_cons. destruct (String.eqb_spec n k) as [->|Hne]; cbn [orb].
  - destruct (map_has chains k); [done|]. rewrite map_get_set_eq. by destruct (map_has refs k).
  - destruct (map_has chains n); [done|]. rewrite map_get_set_ne by done. done.
Qed.

Lemma ReferencedChains_spec spec k : map_has (ReferencedChains spec) k = true <->
  k <> "" /\ k ∈ [hcDefaultChain spec; NorthSouth (RouteDefaultChains spec); EastWest (RouteDefaultChains spec)].
Proof.
  assert (forall refs e, map_has (add_ref refs e) k = true <-> map_has refs k = true \/ k <> "" /\ k = e.2) as Ha.
  { intros refs [f n]. unfold add_ref. cbn [fst snd]. destruct (String.eqb_spec n "") as [->|Hn]; cbn [orb]; [naive_solver|].
    destruct (map_has refs n) eqn:E; [|rewrite map_has_set; naive_solver]. split; [by left|].
    intros [?|[_ ->]]; done. }
  unfold ReferencedChains, RouteDefaultChains. destruct (hcDefaultChains spec) as [[ns ew]|]; cbn [fold_left];
    rewrite !Ha; cbn; rewrite !elem_of_cons, elem_of_nil; unfold map_has; cbn; naive_solver.
Qed.

Lemma winners_elem items ns hc : (ns, hc) ∈ (activeHyperConfigs items).1 -> hc ∈ items.
Proof.
  unfold activeHyperConfigs. rewrite <- (merge_sort_Permutation older items) at 2.
  generalize (merge_sort older items) as l. intros l.
  enough (forall acc, (ns, hc) ∈ (fold_left add_config l acc).1 -> (ns, hc) ∈ acc.1 \/ hc ∈ l) as H.
  { intros [Hin|?]%H; [by apply elem_of_nil in Hin|done]. }
  induction l as [|c l IH]; intros acc; cbn [fold_left]; [by left|].
  intros [Hin|?]%IH; [|right; by right]. unfold add_config in Hin.
  destruct (map_get acc.1 (targetNamespaceOf c)); [by left|]. cbn in Hin.
  apply map_set_elem in Hin as [[= _ ->]|?]; [right; by left|by left].
Qed.

Lemma compile_elem objs ns cfg : (ns, cfg) ∈ compile regexp sort_routes yaml_options identity objs ->
  exists hc, hc ∈ configs objs /\ cfg = engineConfig regexp sort_routes yaml_options identity objs hc.
Proof.
  unfold compile. intros ([ns' hc] & [= -> ->] & Hin)%list_elem_of_fmap. exists hc. split; [|done].
  by eapply winners_elem.
Qed.

Lemma compile_redis_ok objs e : objects_ok objs -> e ∈ compile_redis objs -> is_ok (applyRedisDefaults e.2) = true.
Proof.
  intros Hok. unfold compile_redis.
  enough (forall l acc, (forall r, r ∈ l -> r ∈ redises objs) ->
    (forall e, e ∈ acc -> is_ok (applyRedisDefaults e.2) = true) -> forall e,
    e ∈ fold_left (fun m hr => map_set m (hredName hr)
      (mkRedisServiceConfig (RedisType hr) "" (Url hr) (hrPoolSize hr) "" false "" "" "" false "" 0 0 ""
         (hrActiveConnHealthCheck hr) (hrTimeout hr) 0 "" "" 0 "" 0 "" 0 "" 0)) l acc ->
    is_ok (applyRedisDefaults e.2) = true) as H by (apply H; [done|set_solver]).
  induction l as [|r l IH]; intros acc Hl Hacc; cbn [fold_left]; [done|].
  apply IH; [intros; apply Hl; by right|]. intros e' [->|He]%map_set_elem; [|eauto]. cbn [snd].
  assert (Hr := Hl r ltac:(by left)). assert (Ht := oo_redis_type _ Hok r Hr). assert (Hd := oo_redis_timeout _ Hok r Hr).
  assert (exists d, ParseDuration (or_default (hrTimeout r) "10s") = Some d) as [d Ed].
  { unfold or_default. destruct (String.eqb_spec (hrTimeout r) ""); [by eexists|]. by destruct Hd. }
  unfold applyRedisDefaults. cbn [RType SocketType OnEmptyBehavior RTimeout PipelineWindow WaitTimeout
    StartupInitialInterval StartupMaxInterval StartupMaxElapsedTime]. cbn. unfold duration_or_error.
  rewrite Ed, !elem_of_cons, elem_of_nil in *. destruct Ht as [->|[->|[->|[]]]]; reflexivity.
Qed.

(** Every reference of the configuration is defined. *)
Lemma engineConfig_refs objs hc name :
  let cfg := engineConfig regexp sort_routes yaml_options identity objs hc in
  name ∈ referenced cfg -> name <> "" /\ map_has (Chains cfg) name = true.
Proof.
  unfold engineConfig. pose proof (compile_routes_spec objs) as Hr.
  destruct (compile_routes regexp sort_routes yaml_options identity objs) as [chains routes]. destruct Hr as (_ & _ & Hr).
  cbv zeta. unfold referenced. cbn [Router Routes Chains DefaultChain DefaultChains].
  assert (forall k, map_has (engine_chains chains (hcSpec hc)) k = true <->
            map_has chains k = true \/ map_has (ReferencedChains (hcSpec hc)) k = true) as Hh.
  { intros k. unfold map_has at 1. rewrite engine_chains_spec. destruct (map_has chains k) eqn:E.
    - unfold map_has in E. destruct (map_get chains k); [naive_solver|done].
    - destruct (map_has (ReferencedChains (hcSpec hc)) k); naive_solver. }
  intros [(r & -> & Hin)%list_elem_of_fmap|Hin]%elem_of_app.
  - destruct (proj1 (Forall_forall _ _) Hr r Hin) as (Ht & Hc & _). split; [done|]. apply Hh. by left.
  - apply list_elem_of_In, filter_In in Hin as [Hin Hne%negb_true_iff]. apply String.eqb_neq in Hne.
    apply list_elem_of_In in Hin. split; [done|]. apply Hh. right. by apply ReferencedChains_spec.
Qed.

Lemma server_accepted s : (0 <= TrustedProxyHops s)%Z -> Shutdown s = mkShutdownConfig "" "" "" "" 0 0 0 0 ->
  is_ok (server_defaults s) = true.
Proof.
  intros Hh Hs. unfold server_defaults. destruct s as [a b c d e f g h hops sh]. cbn in Hh, Hs. subst sh. cbn.
  by destruct (Z.ltb_spec hops 0); [lia|].
Qed.

Lemma validateRefs_accepted cfg : (forall n, n ∈ referenced cfg -> n <> "" /\ map_has (Chains cfg) n = true) ->
  Other (Router cfg) = "" -> validateChainReferences cfg = Ok tt.
Proof.
  intros H Ho. unfold validateChainReferences. rewrite fold_check_all.
  - cbn [result_bind]. apply fold_check_all. intros n Hin. unfold check_chain_ref.
    destruct (String.eqb_spec n "") as [|Hn]; [done|].
    assert (n ∈ referenced cfg) as Hr; [|by rewrite (proj2 (H n Hr))].
    apply elem_of_app. right. apply list_elem_of_In, filter_In. rewrite <- list_elem_of_In, negb_true_iff, String.eqb_neq.
    split; [|done]. rewrite !elem_of_cons, Ho in Hin. rewrite !elem_of_cons. naive_solver.
  - intros r Hin. assert (TargetChain r ∈ referenced cfg) as Hr.
    { apply elem_of_app. left. apply list_elem_of_fmap. by exists r. }
    destruct (H _ Hr) as [Hn Hc]. destruct (String.eqb_spec (TargetChain r) ""); [done|]. by rewrite Hc.
Qed.

(** A document the parser accepts: every piece passes its own check. *)
Lemma ParseBytes_accepts unmarshal getenv text cfg :
  unmarshal text = Ok cfg ->
  (forall e, e ∈ Redis cfg -> is_ok (applyRedisDefaults e.2) = true) ->
  Version cfg = "v1" -> is_ok (server_defaults (Server cfg)) = true ->
  (forall r m, r ∈ Routes (Router cfg) -> m ∈ Matches r ->
     is_ok (compile_match regexp (Enabled (cfgIdentity cfg)) m) = true) ->
  is_ok (check_unknown_source (UnknownSource (Router cfg))) = true ->
  is_ok (check_identity (cfgIdentity cfg)) = true ->
  (forall e, e ∈ Settings cfg -> map_has (Chains cfg) e.1 = true /\ is_ok (validate e.2) = true) ->
  (forall n, n ∈ referenced cfg -> n <> "" /\ map_has (Chains cfg) n = true) -> Other (Router cfg) = "" ->
  is_ok (ParseBytes unmarshal regexp getenv text) = true.
Proof.
  intros Hun Hred Hv Hs Hm Hus Hid Hset Href Ho. unfold ParseBytes. rewrite Hun. cbn [result_bind].
  assert (is_ok (map_result (fun e : string * RedisServiceConfig => let? c := applyRedisDefaults e.2 in Ok (e.1, c)) (Redis cfg)) = true)
    as [redis ->]%is_ok_inv.
  { apply map_result_all. intros e [c ->]%Hred%is_ok_inv. done. }
  assert (is_ok (map_result (compile_route regexp (Enabled (cfgIdentity cfg))) (Routes (Router cfg))) = true) as [routes Hr]%is_ok_inv.
  { apply map_result_all. intros r Hr. unfold compile_route.
    assert (is_ok (map_result (compile_match regexp (Enabled (cfgIdentity cfg))) (Matches r)) = true) as [? ->]%is_ok_inv; [|done].
    apply map_result_all. eauto. }
  assert (is_ok (map_result (check_settings (Chains cfg)) (Settings cfg)) = true) as [settings Hs']%is_ok_inv.
  { apply map_result_all. intros [n c] [Hn [c' Hc]%is_ok_inv]%Hset. unfold check_settings. cbn in Hn, Hc. by rewrite Hn, Hc. }
  apply is_ok_inv in Hs as [server Hs], Hus as [us Hus], Hid as [id Hid].
  assert (TargetChain <$> routes = TargetChain <$> Routes (Router cfg)) as Ht.
  { apply map_result_Forall2 in Hr. clear -Hr. induction Hr as [|r r' l l' H _ IH]; [done|]. cbn. f_equal; [|done].
    unfold compile_route in H. apply result_bind_Ok in H as (ms & _ & [= <-]). done. }
  cbn [result_bind]. destruct cfg as [ver srv log chs [rts dcs dc oth un] red sets ident]. cbn in *. subst ver. cbn.
  rewrite Hs. cbn. rewrite Hr. cbn. rewrite Hus. cbn. rewrite Hid. cbn. rewrite Hs'. cbn.
  rewrite validateRefs_accepted; [done| |done]. intros n Hn. apply Href. unfold referenced in Hn. cbn in Hn. by rewrite Ht in Hn.
Qed.

Lemma engineConfig_accepted unmarshal getenv objs hc text :
  objects_ok objs -> hc ∈ configs objs -> (isEnabled identity = true -> isAddress identity <> "") ->
  unmarshal text = Ok (engineConfig regexp sort_routes yaml_options identity objs hc) ->
  is_ok (ParseBytes unmarshal regexp getenv text) = true.
Proof.
  intros Hok Hhc Hid Hun. eapply ParseBytes_accepts; [exact Hun|..|intros n; apply (engineConfig_refs objs hc)|];
    unfold engineConfig; pose proof (compile_routes_spec objs) as Hr;
    destruct (compile_routes regexp sort_routes yaml_options identity objs) as [chains routes]; destruct Hr as (Hmono & _ & Hr);
    cbn [Redis Version Server Router Routes cfgIdentity UnknownSource Settings Chains Other].
  - intros e. by apply compile_redis_ok.
  - done.
  - apply server_accepted; [|done]. by apply (oo_hops _ Hok).
  - intros r m Hin. destruct (proj1 (Forall_forall _ _) Hr r Hin) as (_ & _ & Hm).
    unfold engineIdentity. destruct (isEnabled identity); apply Hm.
  - unfold RouteUnknownSource. by destruct (String.eqb _ _).
  - unfold engineIdentity, check_identity. destruct (isEnabled identity); [|done]. cbn.
    destruct (String.eqb_spec (isAddress identity) ""); [by specialize (Hid eq_refl)|]. by destruct (isInsecure identity).
  - intros e He. destruct (compile_chains_limits objs Hok e He) as [Hh Hv]. split; [|done].
    unfold map_has. rewrite engine_chains_spec, (Hmono _ Hh). by apply Hmono in Hh.
  - done.
Qed.

(** *** What the configuration contains *)

Lemma compile_routes_routes objs :
  (compile_routes regexp sort_routes yaml_options identity objs).2 =
  omap (route_of regexp (isEnabled identity)) (sort_routes (hroutes objs)).
Proof.
  unfold compile_routes. generalize (sort_routes (hroutes objs)) as l. intros l.
  enough (forall acc, (fold_left (add_route regexp identity) l acc).2 = acc.2 ++ omap (route_of regexp (isEnabled identity)) l) as H
    by apply H.
  induction l as [|hr l IH]; intros acc; cbn [fold_left]; [cbn; by rewrite app_nil_r|].
  rewrite IH. unfold add_route. cbn. unfold route_of at 2. destruct (RouteCompile _ _ _); [|done].
  cbn. by rewrite <- app_assoc.
Qed.

Lemma compile_chains_get objs name : NoDup (chainName <$> hchains objs) ->
  default degradedChain (map_get (compile_chains yaml_options objs).1 name) = policy_chain yaml_options objs name.
Proof.
  unfold compile_chains, policy_chain. generalize (hchains objs) as l. intros l.
  enough (forall acc, NoDup (chainName <$> l) -> map_get (fold_left (add_chain yaml_options objs) l acc).1 name =
    match List.find (fun c => String.eqb (chainName c) name) l with
    | Some c => Some (match compile_chain yaml_options objs c with Ok (fs, _) => fs | Err _ => degradedChain end)
    | None => map_get acc.1 name
    end) as H.
  { intros Hnd. rewrite H by done. by destruct (List.find _ l). }
  induction l as [|c l IH]; intros acc Hnd; [done|]. cbn [fold_left List.find]. cbn in Hnd. apply NoDup_cons in Hnd as [Hc Hnd].
  rewrite IH by done. destruct (String.eqb_spec (chainName c) name) as [<-|Hne].
  - destruct (List.find _ l) as [c'|] eqn:E.
    + apply List.find_some in E as [Hin E%String.eqb_eq]. exfalso. apply Hc. rewrite <- E.
      apply list_elem_of_fmap. exists c'. split; [done|]. by apply list_elem_of_In.
    + unfold add_chain. destruct (compile_chain _ _ _) as [[fs st]|]; cbn [fst snd]; by rewrite map_get_set_eq.
  - destruct (List.find _ l); [done|]. unfold add_chain.
    destruct (compile_chain _ _ _) as [[fs st]|]; cbn [fst snd]; by rewrite map_get_set_ne.
Qed.

(** Every chain of the configuration is the policy of its name. *)
Lemma engineConfig_chains objs hc name : NoDup (chainName <$> hchains objs) ->
  let cfg := engineConfig regexp sort_routes yaml_options identity objs hc in
  map_has (Chains cfg) name = true -> map_get (Chains cfg) name = Some (policy_chain yaml_options objs name).
Proof.
  intros Hnd. unfold engineConfig. pose proof (compile_routes_spec objs) as Hr.
  destruct (compile_routes regexp sort_routes yaml_options identity objs) as [chains routes]. destruct Hr as (Hm & Hg & _).
  cbv zeta. cbn [Chains]. rewrite <- compile_chains_get by done. unfold map_has at 1. rewrite !engine_chains_spec.
  destruct (map_has chains name) eqn:E.
  - intros _. destruct (Hg name) as [Hn|[Hn Hn']]; [rewrite <- Hn; unfold map_has in E; by destruct (map_get chains name)|].
    rewrite Hn'. unfold map_has in Hn. by destruct (map_get (compile_chains _ _).1 name).
  - destruct (map_get (compile_chains yaml_options objs).1 name) eqn:Eb.
    + rewrite (Hm name) in E; [done|]. unfold map_has. by rewrite Eb.
    + by destruct (map_has (ReferencedChains _) name).
Qed.

End Lemmas.

(** The deny filter of the rejecting chain. *)
Lemma degraded_refuses {W : Type} (re : string -> option Regex) (fid : nat) (c : RequestContext) (w : W) :
  Blocked c = false ->
  exists f, Deny.NewDenyFilter re (Deny.mkDenyFilterConfig 503 "Service Unavailable" (Deny.mkDenyMatchConfig "" "" None [] [] [] [])) = Ok f /\
    Execute c w [Base fid (Some (Deny.SupportedPhases f)) (Deny.Execute f)] PhaseRequestHeaders =
      (None, (Block (c <| CPhase := PhaseRequestHeaders |>) 503 "Service Unavailable") <| BlockedBy := 0%Z |>, w).
Proof.
  intros Hb. eexists. split; [reflexivity|]. unfold Execute. cbn [execute_loop].
  change (Blocked (c <| CPhase := PhaseRequestHeaders |>)) with (Blocked c). rewrite Hb. reflexivity.
Qed.

(** ** Properties *)

(** C7: what the operator publishes the engine loads. For objects the schema
    admits, every compiled configuration, once through the YAML codec, is accepted
    by the engine's parser; its routes are exactly the valid HyperRoutes, in the
    compiler's order; and every HyperRoute its webhook admitted is one of them. *)
Theorem compiled_config_accepted (regexp : string -> option Regex) (sort_routes : list HyperRoute -> list HyperRoute)
  (yaml_options : Value -> result (GoMap Value)) (identity : IdentitySettings)
  (unmarshal : string -> result Config) (getenv : string -> string) (objs : Objects) (ns text : string) (cfg : Config) :
  (forall l, Permutation (sort_routes l) l) ->
  objects_ok objs -> (isEnabled identity = true -> isAddress identity <> "") ->
  (ns, cfg) ∈ compile regexp sort_routes yaml_options identity objs -> unmarshal text = Ok cfg ->
  is_ok (ParseBytes unmarshal regexp getenv text) = true /\
  Routes (Router cfg) = omap (route_of regexp (isEnabled identity)) (sort_routes (hroutes objs)) /\
  (forall hr get ws, hr ∈ hroutes objs -> validateRoute regexp (isEnabled identity) get (hrSpec hr) = Ok ws ->
     exists r, r ∈ Routes (Router cfg) /\ rName r = hrName hr /\ TargetChain r = TargetPolicy (hrSpec hr)).
Proof.
  intros Hperm Hok Hid Hin Hun. destruct (compile_elem _ _ _ _ _ _ _ Hin) as (hc & Hhc & ->).
  split; [by eapply engineConfig_accepted|].
  assert (Routes (Router (engineConfig regexp sort_routes yaml_options identity objs hc)) =
    omap (route_of regexp (isEnabled identity)) (sort_routes (hroutes objs))) as Hr.
  { rewrite <- (compile_routes_routes regexp sort_routes yaml_options). unfold engineConfig. by destruct (compile_routes _ _ _ _ _). }
  split; [done|]. rewrite Hr. intros hr get ws Hhr Hw. unfold validateRoute, Validate in Hw.
  destruct (RouteCompile _ _ _) as [ms|] eqn:E; [|done].
  exists (mkRouteConfig (hrName hr) ms (TargetPolicy (hrSpec hr))). split; [|done].
  apply list_elem_of_omap. exists hr. split; [by rewrite Hperm|]. unfold route_of. by rewrite E.
Qed.

(** C8: policy fails closed from the custom resource to the verdict. Every chain an
    engine configuration refers to (a route's target, a default chain) is in it:
    the filters its HyperChain compiles to, and, when the HyperChain is missing
    or does not compile, the rejecting chain, whose filter answers every request
    with 503. *)
Theorem policy_fails_closed {W : Type} (regexp : string -> option Regex) (sort_routes : list HyperRoute -> list HyperRoute)
  (yaml_options : Value -> result (GoMap Value)) (identity : IdentitySettings) (objs : Objects)
  (decode : GoMap Value -> result Deny.DenyFilterConfig) (ns name : string) (cfg : Config) :
  (forall s b, decode [("status_code", VInt s); ("body", VString b)] =
     Ok (Deny.mkDenyFilterConfig s b (Deny.mkDenyMatchConfig "" "" None [] [] [] []))) ->
  NoDup (chainName <$> hchains objs) ->
  (ns, cfg) ∈ compile regexp sort_routes yaml_options identity objs -> name ∈ referenced cfg ->
  map_get (Chains cfg) name = Some (policy_chain yaml_options objs name) /\
  ((forall c fs s, c ∈ hchains objs -> chainName c = name -> compile_chain yaml_options objs c <> Ok (fs, s)) ->
   exists fc, map_get (Chains cfg) name = Some [fc] /\ fcType fc = "deny" /\ fcAudit fc = false /\
   forall fid (c : RequestContext) (w : W), Blocked c = false ->
     exists f, (let? dc := decode (fcOptions fc) in Deny.NewDenyFilter regexp dc) = Ok f /\
       Execute c w [Base fid (Some (Deny.SupportedPhases f)) (Deny.Execute f)] PhaseRequestHeaders =
         (None, (Block (c <| CPhase := PhaseRequestHeaders |>) 503 "Service Unavailable") <| BlockedBy := 0%Z |>, w)).
Proof.
  intros Hdec Hnd Hin Hname. destruct (compile_elem _ _ _ _ _ _ _ Hin) as (hc & Hhc & ->).
  apply engineConfig_refs in Hname as [_ Hh]. apply engineConfig_chains in Hh; [|done]. split; [done|].
  intros Hbad. rewrite Hh. exists (mkFilterConfig "" false "deny" [("status_code", VInt 503); ("body", VString "Service Unavailable")]).
  split; [|split; [done|split; [done|]]].
  - unfold policy_chain. destruct (List.find _ _) as [c|] eqn:E; [|done].
    apply List.find_some in E as [Hc E%String.eqb_eq]. apply list_elem_of_In in Hc.
    destruct (compile_chain _ _ c) as [[fs st]|] eqn:Ec; [|done]. by destruct (Hbad c fs st Hc E).
  - intros fid c w Hb. cbn [fcOptions]. rewrite Hdec. cbn [result_bind]. by apply degraded_refuses.
Qed.

(** ** Examples *)

(** Two chains, one whose filter is missing; a route to the good one, a route to
    one nobody defined, and a route that does not compile. *)
Definition example_objects : Objects :=
  let m := mkMatchRule "EastWest" ["cidr:10.0.0.0/8"] [] "/api" "" [("X-Tenant", "acme")] in
  mkObjects
    [mkHyperConfig "main" 1 (mkHyperConfigSpec ":50051" 100 "info" "" 1 "broken" None "Deny" 0 0)]
    [mkHyperRedis "cache" "redis:6379" "SINGLE" 10 "" true]
    [mkHyperRoute "good" (mkHyperRouteSpec 10 "guard" [m]) "" "";
     mkHyperRoute "bad" (mkHyperRouteSpec 5 "guard" []) "" "";
     mkHyperRoute "orphan" (mkHyperRouteSpec 1 "nowhere" [m]) "" ""]
    [mkHyperChain "guard" (mkHyperChainSpec [mkFilterReference "DenyFilter" "d" None] "Enforce" "2s" 8 "" "Allow") "" "";
     mkHyperChain "broken" (mkHyperChainSpec [mkFilterReference "DenyFilter" "gone" None] "Enforce" "" 0 "" "") "" ""]
    (fun kind => if String.eqb kind "DenyFilter" then [("d", PlainSpec (VMap [("status_code", VInt 401)]))] else []).

Definition example_options (v : Value) : result (GoMap Value) := match v with VMap m => Ok m | _ => Err "not a map" end.
Definition example_identity : IdentitySettings := mkIdentitySettings true "operator:9443" "operator" false.
Definition example_config : Config :=
  engineConfig (fun _ => None) id example_options example_identity example_objects
    (mkHyperConfig "main" 1 (mkHyperConfigSpec ":50051" 100 "info" "" 1 "broken" None "Deny" 0 0)).
Definition example_decode (m : GoMap Value) : result Deny.DenyFilterConfig :=
  match map_get m "status_code", map_get m "body" with
  | Some (VInt s), Some (VString b) => Ok (Deny.mkDenyFilterConfig s b (Deny.mkDenyMatchConfig "" "" None [] [] [] []))
  | _, _ => Err "decode"
  end.

Lemma example_objects_ok : objects_ok example_objects.
Proof.
  split; cbn; intros x; rewrite ?elem_of_cons, ?elem_of_nil.
  - intros [-> | []]. by left.
  - intros [-> | []]. by left.
  - intros [-> | []]. cbn. lia.
  - intros [-> | [-> | []]]; cbn; lia.
Qed.

Lemma example_compiled :
  ("hyper-system", example_config) ∈ compile (fun _ => None) id example_options example_identity example_objects.
Proof. left. Qed.

Lemma compiled_config_accepted_witness :
  is_ok (ParseBytes (fun _ => Ok example_config) (fun _ => None) (fun _ => "") "") = true /\
  rName <$> Routes (Router example_config) = ["good"; "orphan"].
Proof.
  destruct (compiled_config_accepted (fun _ => None) id example_options example_identity (fun _ => Ok example_config)
    (fun _ => "") example_objects "hyper-system" "" example_config (fun l => Permutation_refl l) example_objects_ok)
    as (H & Hr & _); [done|exact example_compiled|done|]. split; [exact H|]. rewrite Hr. by vm_compute.
Defined.

Lemma policy_fails_closed_witness :
  map_get (Chains example_config) "broken" = Some degradedChain /\ map_get (Chains example_config) "nowhere" = Some degradedChain.
Proof.
  assert (NoDup (chainName <$> hchains example_objects)) as Hnd.
  { cbn. repeat constructor; rewrite ?elem_of_cons, ?elem_of_nil; naive_solver. }
  split.
  - exact (proj1 (policy_fails_closed (W := ()) (fun _ => None) id example_options example_identity example_objects example_decode
      "hyper-system" "broken" example_config (fun _ _ => eq_refl) Hnd example_compiled
      ltac:(vm_compute; repeat constructor))).
  - exact (proj1 (policy_fails_closed (W := ()) (fun _ => None) id example_options example_identity example_objects example_decode
      "hyper-system" "nowhere" example_config (fun _ _ => eq_refl) Hnd example_compiled
      ltac:(vm_compute; repeat constructor))).
Defined.

End Compiler.
