(* ===== verification/Kube.v ===== *)
(** * Kube: what the operator's controllers share

    A state and error monad for calls of the Kubernetes API: every call may fail,
    as the [oracle] says, and a write is counted. The rules of a small Hoare logic
    reason about a reconciliation as the sequence of its calls. Also sorted string
    lists and equality of unstructured values. *)

From S2P Require Import Prelude GoStrings Config.
From stdpp Require Import sorting.

Local Open Scope string_scope.
Local Open Scope list_scope.

Declare Scope kube_scope.
Delimit Scope kube_scope with kube.

(** ** The API monad *)

Section Api.
Context {S : Type}.

(** [oracle] lists, for the calls to come, whether they fail; past its end calls
    succeed. *)
Record Api := mkApi { cluster : S; oracle : list bool; writes : nat }.

Definition M (A : Type) : Type := Api -> result A * Api.

Definition ret {A : Type} (a : A) : M A := fun s => (Ok a, s).
Definition fail {A : Type} (msg : string) : M A := fun s => (Err msg, s).
Definition bind {A B : Type} (m : M A) (k : A -> M B) : M B :=
  fun s => match m s with
           | (Ok a, s') => k a s'
           | (Err e, s') => (Err e, s')
           end.

(** A call that may fail. *)
Definition call : M () := fun s =>
  match oracle s with
  | true :: o => (Err "api", mkApi (cluster s) o (writes s))
  | false :: o => (Ok tt, mkApi (cluster s) o (writes s))
  | [] => (Ok tt, s)
  end.

Definition read {A : Type} (f : S -> A) : M A := bind call (fun _ s => (Ok (f (cluster s)), s)).
Definition write (f : S -> S) : M () :=
  bind call (fun _ s => (Ok tt, mkApi (f (cluster s)) (oracle s) (writes s + 1))).

(** [for _, x := range l { if err := f(x); err != nil { return err } }] *)
Fixpoint each {A : Type} (f : A -> M ()) (l : list A) : M () :=
  match l with
  | [] => ret tt
  | x :: l => bind (f x) (fun _ => each f l)
  end.
End Api.
Arguments Api : clear implicits.
Arguments M : clear implicits.

Notation "'let!' x := c 'in' k" := (bind c (fun x => k))
  (at level 10, x binder, c at level 200, k at level 200) : kube_scope.

(** ** Reasoning *)

(** From a cluster where [P] holds, [m] ends in one where [Q] holds of its result. *)
Definition triple {S A : Type} (P : S -> Prop) (m : M S A) (Q : result A -> S -> Prop) : Prop :=
  forall s, P (cluster s) -> Q (m s).1 (cluster (m s).2).

(** Without failing calls [m] returns [a] and writes nothing. *)
Definition settled {S A : Type} (P : S -> Prop) (m : M S A) (Q : A -> Prop) : Prop :=
  forall s, P (cluster s) -> oracle s = [] -> exists a, m s = (Ok a, s) /\ Q a.

Section Rules.
Context {S : Type}.

Lemma triple_ret {A : Type} (a : A) (Q : result A -> S -> Prop) : triple (Q (Ok a)) (ret a) Q.
Proof. by intros s H. Qed.

Lemma triple_fail {A : Type} msg (Q : result A -> S -> Prop) : triple (Q (Err msg)) (fail msg) Q.
Proof. by intros s H. Qed.

Lemma triple_fixed {A : Type} (P : S -> Prop) (m : M S A) Q : (forall c, P c -> triple (eq c) m Q) -> triple P m Q.
Proof. intros H s Hs. by apply (H _ Hs). Qed.

Lemma triple_pre {A : Type} (P P' : S -> Prop) (m : M S A) Q : (forall s, P s -> P' s) -> triple P' m Q -> triple P m Q.
Proof. intros HP Hm s Hs. by apply Hm, HP. Qed.

Lemma triple_post {A : Type} (P : S -> Prop) (m : M S A) (Q Q' : result A -> S -> Prop) :
  triple P m Q' -> (forall r s, Q' r s -> Q r s) -> triple P m Q.
Proof. intros Hm HQ s Hs. by apply HQ, Hm. Qed.

Lemma triple_bind {A B : Type} (P : S -> Prop) (m : M S A) (k : A -> M S B) (R : A -> S -> Prop) Q :
  triple P m (fun r s => match r with Ok a => R a s | Err e => Q (Err e) s end) ->
  (forall a, triple (R a) (k a) Q) -> triple P (bind m k) Q.
Proof.
  intros Hm Hk s Hs. specialize (Hm s Hs). unfold bind. destruct (m s) as [[a|e] s']; cbn [fst snd] in *; [by apply Hk|done].
Qed.

Lemma call_cluster (s : Api S) : cluster (call s).2 = cluster s.
Proof. unfold call. by destruct (oracle s) as [|[|] o]. Qed.

Lemma triple_read {A : Type} (f : S -> A) (Q : result A -> S -> Prop) :
  triple (fun s => Q (Ok (f s)) s /\ forall e, Q (Err e) s) (read f) Q.
Proof.
  intros s [H1 H2]. unfold read, bind. pose proof (call_cluster s) as E.
  destruct (call s) as [[u|e] s']; cbn [fst snd] in *; rewrite E; [exact H1|apply H2].
Qed.

Lemma triple_write (f : S -> S) (Q : result () -> S -> Prop) :
  triple (fun s => Q (Ok tt) (f s) /\ forall e, Q (Err e) s) (write f) Q.
Proof.
  intros s [H1 H2]. unfold write, bind. pose proof (call_cluster s) as E.
  destruct (call s) as [[u|e] s']; cbn [fst snd cluster] in *; rewrite E; [exact H1|apply H2].
Qed.

(** A loop keeps what each round keeps. *)
Lemma triple_each {A : Type} (I : S -> Prop) (f : A -> M S ()) l :
  (forall x, x ∈ l -> triple I (f x) (fun _ => I)) -> triple I (each f l) (fun _ => I).
Proof.
  induction l as [|x l IH]; intros Hf; [by intros s|]. cbn [each]. apply (triple_bind _ _ _ (fun _ => I)).
  - eapply triple_post; [apply Hf; by left|]. by intros [|].
  - intros _. apply IH. intros y Hy. apply Hf. by right.
Qed.

Lemma settled_ret {A : Type} P (a : A) (Q : A -> Prop) : Q a -> settled (S := S) P (ret a) Q.
Proof. intros H s _ _. by exists a. Qed.

Lemma settled_bind {A B : Type} P (m : M S A) (k : A -> M S B) (R : A -> Prop) Q :
  settled P m R -> (forall a, R a -> settled P (k a) Q) -> settled P (bind m k) Q.
Proof. intros Hm Hk s Hs Ho. destruct (Hm s Hs Ho) as (a & E & Ha). unfold bind. rewrite E. by apply Hk. Qed.

Lemma settled_read {A : Type} (P : S -> Prop) (f : S -> A) (Q : A -> Prop) : (forall s, P s -> Q (f s)) -> settled P (read f) Q.
Proof. intros H s Hs Ho. exists (f (cluster s)). split; [|by apply H]. unfold read, bind, call. by rewrite Ho. Qed.

Lemma settled_each {A : Type} P (f : A -> M S ()) l :
  (forall x, x ∈ l -> settled P (f x) (fun _ => True)) -> settled P (each f l) (fun _ => True).
Proof.
  induction l as [|x l IH]; intros Hf; [by apply settled_ret|]. cbn [each]. eapply settled_bind; [apply Hf; by left|].
  intros _ _. apply IH. intros y Hy. apply Hf. by right.
Qed.
End Rules.

(** ** Strings *)

Definition bytewise (a b : string) : Prop := String.leb a b = true.
#[export] Instance bytewise_dec : RelDecision bytewise.
Proof. intros a b. unfold bytewise. apply _. Defined.

(** [sort.Strings] *)
Definition sort_strings (l : list string) : list string := merge_sort bytewise l.

(** [slices.Compact] *)
Fixpoint Compact (l : list string) : list string :=
  match l with
  | x :: ((y :: _) as l') => if String.eqb x y then Compact l' else x :: Compact l'
  | l => l
  end.

Definition uniqueSorted (l : list string) : list string := Compact (sort_strings l).

Lemma Compact_elem l x : x ∈ Compact l <-> x ∈ l.
Proof.
  induction l as [|a [|b l] IH]; [done|done|]. cbn [Compact]. destruct (String.eqb_spec a b) as [->|].
  - cbn [Compact] in IH. rewrite IH. set_solver.
  - rewrite !elem_of_cons in *. cbn [Compact] in IH. set_solver.
Qed.

Lemma sort_strings_elem l x : x ∈ sort_strings l <-> x ∈ l.
Proof. unfold sort_strings. by rewrite merge_sort_Permutation. Qed.

Lemma uniqueSorted_elem l x : x ∈ uniqueSorted l <-> x ∈ l.
Proof. unfold uniqueSorted. by rewrite Compact_elem, sort_strings_elem. Qed.

(** The double quotes of %q. *)
Definition quoted (s : string) : string := String "034" (s +++ String "034" "")%go.

(** ** Unstructured values *)

Fixpoint value_eqb (a b : Value) : bool :=
  match a, b with
  | VNull, VNull => true
  | VBool x, VBool y => Bool.eqb x y
  | VInt x, VInt y => Z.eqb x y
  | VFloat x, VFloat y => String.eqb x y
  | VString x, VString y => String.eqb x y
  | VSeq l, VSeq l' => (fix go l l' := match l, l' with
                                       | [], [] => true
                                       | x :: l, y :: l' => value_eqb x y && go l l'
                                       | _, _ => false
                                       end) l l'
  | VMap m, VMap m' => (fix go m m' := match m, m' with
                                       | [], [] => true
                                       | (k, x) :: m, (k', y) :: m' => String.eqb k k' && value_eqb x y && go m m'
                                       | _, _ => false
                                       end) m m'
  | _, _ => false
  end.

Fixpoint value_eqb_eq (a b : Value) {struct a} : value_eqb a b = true <-> a = b.
Proof.
  destruct a as [|x|x|x|x|l|m], b as [|y|y|y|y|l'|m']; cbn [value_eqb]; try (split; [done|congruence]).
  - rewrite Bool.eqb_true_iff. split; congruence.
  - rewrite Z.eqb_eq. split; congruence.
  - rewrite String.eqb_eq. split; congruence.
  - rewrite String.eqb_eq. split; congruence.
  - revert l'. induction l as [|x l IH]; intros [|y l']; try (split; [done|congruence]).
    rewrite andb_true_iff, value_eqb_eq, IH. split; [intros [-> [= ->]]; done|intros [= -> ->]; done].
  - revert m'. induction m as [|[k x] m IH]; intros [|[k' y] m']; try (split; [done|congruence]).
    rewrite !andb_true_iff, String.eqb_eq, value_eqb_eq, IH. split; [intros [[-> ->] [= ->]]; done|intros [= -> -> ->]; done].
Qed.

#[export] Instance Value_eq_dec : EqDecision Value.
Proof.
  intros a b. destruct (value_eqb a b) eqn:E; [left; by apply value_eqb_eq|right].
  intros H%value_eqb_eq. congruence.
Defined.

(** The entry of a map, as [unstructured.NestedMap] and [NestedSlice] find it. *)
Definition field (v : Value) (key : string) : option Value := match v with VMap m => map_get m key | _ => None end.
Definition items (v : option Value) : list Value := match v with Some (VSeq l) => l | _ => [] end.
