(* ===== verification/FilterSpecs.v ===== *)
(** * FilterSpecs: from a filter's custom resource to the engine's configuration
    (hyper-operator/api/v1alpha1/filter_*_types.go, the options types of the engine's
    filters and of internal/config)

    The operator writes the spec of a filter as YAML under the tags of its struct;
    the engine reads the options under the tags of its own. Both sides are
    written out tag by tag, and the theorem says that what arrives is what the resource
    says. The scalars of the YAML library are an interface: how it reads the values
    it wrote. *)

From S2P Require Import Prelude GoStrings GoTime Netip Identity Selector Context Executor Config Deny HeaderModifier Cors Correlation RateLimit ApiKey Enricher Jwt Sidecar Factory Compiler Kube.
From Stdlib Require Import SpecFloat.

Local Open Scope string_scope.
Local Open Scope list_scope.

Module FilterSpecs.

(** ** YAML by struct tags *)

(** What is written, and what counts as empty for [omitempty]. *)
Class YamlOut (T : Type) := mkYamlOut { enc : T -> Value; is_empty : T -> bool }.
(** What is read, and the zero value of a field whose key is absent. *)
Class YamlIn (U : Type) := mkYamlIn { dec : Value -> result U; zero : U }.
(** A value of one type, written and read back as the other. *)
Class Carries {T U : Type} `{YamlOut T} `{YamlIn U} (conv : T -> U) : Prop := mkCarries {
  carries : forall x, dec (enc x) = Ok (conv x);
  carries_empty : forall x, is_empty x = true -> conv x = zero
}.
Arguments carries {T U _ _} conv {_} x.
Arguments carries_empty {T U _ _} conv {_} x _.

(** [time.Duration] *)
Record Duration := mkDuration { nanoseconds : Z }.

(** How yaml.v3 reads scalars, and the value a float is in a map read back: an
    integral one is an integer there. *)
Class YamlScalars := mkYamlScalars {
  as_string : Value -> result string; as_bool : Value -> result bool; as_int : Value -> result Z;
  as_float : Value -> result spec_float; as_duration : Value -> result Z; float_value : spec_float -> Value
}.
Definition unsigned_zero (x : spec_float) : spec_float := match x with S754_zero _ => S754_zero false | x => x end.
(** Every integer field is at least as wide on the engine's side. *)
Class YamlScalarsOk (Y : YamlScalars) : Prop := {
  as_string_ok : forall s, as_string (VString s) = Ok s;
  as_bool_ok : forall b, as_bool (VBool b) = Ok b;
  as_int_ok : forall z, as_int (VInt z) = Ok z;
  as_float_ok : forall x, as_float (float_value x) = Ok (unsigned_zero x);
  as_duration_ok : forall s, as_duration (VString s) = match ParseDuration s with Some d => Ok d | None => Err "cannot unmarshal into time.Duration" end
}.

(** A field under its tag, and its reading. *)
Definition put_field {T : Type} `{YamlOut T} (tag : string) (omitempty : bool) (x : T) : GoMap Value :=
  if omitempty && is_empty x then [] else [(tag, enc x)].
Definition get_field {U : Type} `{YamlIn U} (m : GoMap Value) (tag : string) (old : U) : result U :=
  match map_get m tag with None => Ok old | Some v => dec v end.

(** A struct: null leaves it zero, anything but a mapping is an error. *)
Definition read_struct {U : Type} (z : U) (read : GoMap Value -> result U) (v : Value) : result U :=
  match v with VMap m => read m | VNull => Ok z | _ => Err "cannot unmarshal into struct" end.

Section Scalars.
Context {Y : YamlScalars}.

#[export] Instance string_out : YamlOut string := mkYamlOut string VString (fun s => String.eqb s "").
#[export] Instance string_in : YamlIn string := mkYamlIn string as_string "".
#[export] Instance bool_out : YamlOut bool := mkYamlOut bool VBool negb.
#[export] Instance bool_in : YamlIn bool := mkYamlIn bool as_bool false.
#[export] Instance int_out : YamlOut Z := mkYamlOut Z VInt (fun z => (z =? 0)%Z).
#[export] Instance int_in : YamlIn Z := mkYamlIn Z as_int 0%Z.
#[export] Instance float_out : YamlOut spec_float := mkYamlOut spec_float float_value (fun x => match x with S754_zero _ => true | _ => false end).
#[export] Instance float_in : YamlIn spec_float := mkYamlIn spec_float as_float (S754_zero false).
#[export] Instance duration_in : YamlIn Duration :=
  mkYamlIn Duration (fun v => let? d := as_duration v in Ok (mkDuration d)) (mkDuration 0).
#[export] Instance list_out {T : Type} `{YamlOut T} : YamlOut (list T) := mkYamlOut (list T) (fun l => VSeq (enc <$> l)) (fun l => negb (nonempty l)).
#[export] Instance list_in {U : Type} `{YamlIn U} : YamlIn (list U) :=
  mkYamlIn (list U) (fun v => match v with VSeq l => map_result dec l | VNull => Ok [] | _ => Err "cannot unmarshal into slice" end) [].
End Scalars.

(** Maps with string keys are wrapped to keep them apart from slices of pairs. *)
Record StringMap (T : Type) := mkStringMap { entries : GoMap T }.
Arguments mkStringMap {T}.
Arguments entries {T}.
#[export] Instance map_out {T : Type} `{YamlOut T} : YamlOut (StringMap T) :=
  mkYamlOut (StringMap T) (fun m => VMap ((fun e => (e.1, enc e.2)) <$> entries m)) (fun m => negb (nonempty (entries m))).
#[export] Instance map_in {U : Type} `{YamlIn U} : YamlIn (StringMap U) :=
  mkYamlIn (StringMap U)
    (fun v => match v with
              | VMap m => let? l := map_result (fun e => let? u := dec e.2 in Ok (e.1, u)) m in Ok (mkStringMap l)
              | VNull => Ok (mkStringMap [])
              | _ => Err "cannot unmarshal into map"
              end) (mkStringMap []).

(** ** The custom resources *)

Abbreviation opt tag x := (put_field tag true x).
Abbreviation req tag x := (put_field tag false x).

(** All fields empty: what [omitempty] drops of a nested struct. *)
Abbreviation no_fields m := (negb (nonempty m)).

Record DenyMatchSpec := mkDenyMatchSpec {
  dmPathPrefix : string; dmPathRegex : string; dmHeaders : StringMap string; dmResponseHeaders : StringMap string;
  dmNotHeaders : StringMap string; dmNotResponseHeaders : StringMap string }.
Record DenyFilterSpec := mkDenyFilterSpec { dsStatusCode : Z; dsBody : string; dsMatch : DenyMatchSpec }.

Record HeaderOptionsSpec := mkHeaderOptionsSpec { hoAdd : StringMap string; hoOverride : StringMap string; hoRemove : list string }.
Record HeaderModifierFilterSpec := mkHeaderModifierFilterSpec {
  hmUpstream : HeaderOptionsSpec; hmDownstream : HeaderOptionsSpec; hmAdd : StringMap string; hmOverride : StringMap string; hmRemove : list string }.

Record CorsFilterSpec := mkCorsFilterSpec {
  csAllowOrigins : list string; csAllowOriginRegex : list string; csAllowMethods : list string; csAllowHeaders : list string;
  csExposeHeaders : list string; csAllowCredentials : bool; csMaxAge : Z; csBlockDisallowedOrigins : bool }.

Record CorrelationIdFilterSpec := mkCorrelationIdFilterSpec {
  ciHeaderName : string; ciAlgorithm : string; ciMode : string; ciPrefix : string; ciPropagateToUpstream : bool;
  ciPropagateToDownstream : bool; ciInputHeaderName : string; ciResponseHeaderName : string; ciValidationRegex : string }.

Record DescriptorEntrySpec := mkDescriptorEntrySpec { deKey : string; deValue : string }.
Record DescriptorSpec := mkDescriptorSpec {
  rdEntries : list DescriptorEntrySpec; rdLimit : Z; rdUnit : string; rdMaxTokens : spec_float; rdFillRate : spec_float;
  rdBucketCapacity : Z; rdLeakRate : spec_float; rdShadowMode : bool; rdFailOpen : bool }.
Record ResponseHeadersSpec := mkResponseHeadersSpec {
  rsEnabled : bool; rsLimitHeader : string; rsRemainingHeader : string; rsResetHeader : string }.
Record DynamicCostSpec := mkDynamicCostSpec {
  dyEnabled : bool; dySourceHeader : string; dyDefaultFallbackCost : Z; dyMaxAllowedCost : Z }.
Record RateLimitFilterSpec := mkRateLimitFilterSpec {
  rlDomain : string; rlAlgorithm : string; rlRedisService : string; rlResponseHeaders : ResponseHeadersSpec;
  rlDynamicCost : DynamicCostSpec; rlHeaderMappings : StringMap string; rlDescriptors : list DescriptorSpec }.

Record ApiKeyStatusCheckSpec := mkApiKeyStatusCheckSpec { kcEnabled : bool; kcFieldName : string; kcExpectedValue : string }.
Record ApiKeyOutputMappingSpec := mkApiKeyOutputMappingSpec { koTargetHeader : string; koRedisField : string; koJsonPath : string }.
Record ApiKeyFilterSpec := mkApiKeyFilterSpec {
  akKeyNames : list string; akKeyInHeader : bool; akKeyInQuery : bool; akHideCredentials : bool; akRedisServiceName : string;
  akRedisKeyPrefix : string; akHashAlgorithm : string; akValueFormat : string; akDelimiter : string;
  akStatusCheck : ApiKeyStatusCheckSpec; akOutputMappings : list ApiKeyOutputMappingSpec }.

Record VariableSpec := mkVariableSpec { vaSource : string; vaDefault : string; vaRegexPattern : string; vaJSONPath : string }.
Record EnricherOutputSpec := mkEnricherOutputSpec { eoJSONPath : string; eoTargetHeader : string }.
Record RedisMetadataEnricherFilterSpec := mkRedisMetadataEnricherFilterSpec {
  enRedisService : string; enCacheSizeMB : Z; enCacheTimeout : string; enVariables : StringMap VariableSpec; enKeyPattern : string;
  enOutputMappings : list EnricherOutputSpec }.

(** The fields with YAML tags; the Secret references by the names of their Secrets. *)
Record JwtAuthFilterSpec := mkJwtAuthFilterSpec {
  jaSource : string; jaHeaderName : string; jaQueryParam : string; jaCookieName : string; jaJWKSEndpoint : string;
  jaJWKSRefreshInterval : string; jaLocalSecretRef : option string; jaAlgorithm : string; jaIssuer : string; jaAudience : string;
  jaClaimMappings : StringMap string; jaIntrospectionEndpoint : string; jaIntrospectionAuthSecretRef : option string;
  jaIntrospectionTimeout : string; jaFailOpen : bool; jaStripToken : bool }.

(** ** Writing them *)

Section Writers.
Context {Y : YamlScalars}.

Definition deny_match_fields (s : DenyMatchSpec) : GoMap Value :=
  opt "path_prefix" (dmPathPrefix s) ++ opt "path_regex" (dmPathRegex s) ++ opt "headers" (dmHeaders s) ++
  opt "response_headers" (dmResponseHeaders s) ++ opt "not_headers" (dmNotHeaders s) ++ opt "not_response_headers" (dmNotResponseHeaders s) ++ [].
#[export] Instance deny_match_out : YamlOut DenyMatchSpec :=
  mkYamlOut _ (fun s => VMap (deny_match_fields s)) (fun s => no_fields (deny_match_fields s)).
Definition deny_fields (s : DenyFilterSpec) : GoMap Value :=
  opt "status_code" (dsStatusCode s) ++ opt "body" (dsBody s) ++ opt "match" (dsMatch s) ++ [].

Definition header_options_fields (s : HeaderOptionsSpec) : GoMap Value :=
  opt "add" (hoAdd s) ++ opt "override" (hoOverride s) ++ opt "remove" (hoRemove s) ++ [].
#[export] Instance header_options_out : YamlOut HeaderOptionsSpec :=
  mkYamlOut _ (fun s => VMap (header_options_fields s)) (fun s => no_fields (header_options_fields s)).
Definition header_modifier_fields (s : HeaderModifierFilterSpec) : GoMap Value :=
  opt "upstream" (hmUpstream s) ++ opt "downstream" (hmDownstream s) ++ opt "add" (hmAdd s) ++ opt "override" (hmOverride s) ++
  opt "remove" (hmRemove s) ++ [].

Definition cors_fields (s : CorsFilterSpec) : GoMap Value :=
  opt "allow_origins" (csAllowOrigins s) ++ opt "allow_origin_regex" (csAllowOriginRegex s) ++ opt "allow_methods" (csAllowMethods s) ++
  opt "allow_headers" (csAllowHeaders s) ++ opt "expose_headers" (csExposeHeaders s) ++ opt "allow_credentials" (csAllowCredentials s) ++
  opt "max_age" (csMaxAge s) ++ opt "block_disallowed_origins" (csBlockDisallowedOrigins s) ++ [].

Definition correlation_fields (s : CorrelationIdFilterSpec) : GoMap Value :=
  opt "header_name" (ciHeaderName s) ++ opt "algorithm" (ciAlgorithm s) ++ opt "mode" (ciMode s) ++ opt "prefix" (ciPrefix s) ++
  req "propagate_to_upstream" (ciPropagateToUpstream s) ++ req "propagate_to_downstream" (ciPropagateToDownstream s) ++
  opt "input_header_name" (ciInputHeaderName s) ++ opt "response_header_name" (ciResponseHeaderName s) ++
  opt "validation_regex" (ciValidationRegex s) ++ [].

Definition entry_fields (s : DescriptorEntrySpec) : GoMap Value := req "key" (deKey s) ++ opt "value" (deValue s) ++ [].
#[export] Instance entry_out : YamlOut DescriptorEntrySpec := mkYamlOut _ (fun s => VMap (entry_fields s)) (fun _ => false).
Definition descriptor_fields (s : DescriptorSpec) : GoMap Value :=
  req "entries" (rdEntries s) ++ opt "limit" (rdLimit s) ++ opt "unit" (rdUnit s) ++ opt "max_tokens" (rdMaxTokens s) ++
  opt "fill_rate" (rdFillRate s) ++ opt "bucket_capacity" (rdBucketCapacity s) ++ opt "leak_rate" (rdLeakRate s) ++
  opt "shadow_mode" (rdShadowMode s) ++ opt "fail_open" (rdFailOpen s) ++ [].
#[export] Instance descriptor_out : YamlOut DescriptorSpec := mkYamlOut _ (fun s => VMap (descriptor_fields s)) (fun _ => false).
Definition response_headers_fields (s : ResponseHeadersSpec) : GoMap Value :=
  opt "enabled" (rsEnabled s) ++ opt "limit_header" (rsLimitHeader s) ++ opt "remaining_header" (rsRemainingHeader s) ++
  opt "reset_header" (rsResetHeader s) ++ [].
#[export] Instance response_headers_out : YamlOut ResponseHeadersSpec :=
  mkYamlOut _ (fun s => VMap (response_headers_fields s)) (fun s => no_fields (response_headers_fields s)).
Definition dynamic_cost_fields (s : DynamicCostSpec) : GoMap Value :=
  opt "enabled" (dyEnabled s) ++ opt "source_header" (dySourceHeader s) ++ opt "default_fallback_cost" (dyDefaultFallbackCost s) ++
  opt "max_allowed_cost" (dyMaxAllowedCost s) ++ [].
#[export] Instance dynamic_cost_out : YamlOut DynamicCostSpec :=
  mkYamlOut _ (fun s => VMap (dynamic_cost_fields s)) (fun s => no_fields (dynamic_cost_fields s)).
Definition rate_limit_fields (s : RateLimitFilterSpec) : GoMap Value :=
  req "domain" (rlDomain s) ++ req "algorithm" (rlAlgorithm s) ++ req "redis_service" (rlRedisService s) ++
  opt "response_headers" (rlResponseHeaders s) ++ opt "dynamic_cost" (rlDynamicCost s) ++ opt "header_mappings" (rlHeaderMappings s) ++
  opt "descriptors" (rlDescriptors s) ++ [].

Definition status_check_fields (s : ApiKeyStatusCheckSpec) : GoMap Value :=
  opt "enabled" (kcEnabled s) ++ opt "field_name" (kcFieldName s) ++ opt "expected_value" (kcExpectedValue s) ++ [].
#[export] Instance status_check_out : YamlOut ApiKeyStatusCheckSpec :=
  mkYamlOut _ (fun s => VMap (status_check_fields s)) (fun s => no_fields (status_check_fields s)).
Definition output_mapping_fields (s : ApiKeyOutputMappingSpec) : GoMap Value :=
  req "target_header" (koTargetHeader s) ++ opt "redis_field" (koRedisField s) ++ opt "json_path" (koJsonPath s) ++ [].
#[export] Instance output_mapping_out : YamlOut ApiKeyOutputMappingSpec := mkYamlOut _ (fun s => VMap (output_mapping_fields s)) (fun _ => false).
Definition api_key_fields (s : ApiKeyFilterSpec) : GoMap Value :=
  opt "key_names" (akKeyNames s) ++ opt "key_in_header" (akKeyInHeader s) ++ opt "key_in_query" (akKeyInQuery s) ++
  opt "hide_credentials" (akHideCredentials s) ++ req "redis_service" (akRedisServiceName s) ++ opt "redis_key_prefix" (akRedisKeyPrefix s) ++
  opt "hash_algorithm" (akHashAlgorithm s) ++ opt "value_format" (akValueFormat s) ++ opt "delimiter" (akDelimiter s) ++
  opt "status_check" (akStatusCheck s) ++ opt "output_mappings" (akOutputMappings s) ++ [].

Definition variable_fields (s : VariableSpec) : GoMap Value :=
  req "source" (vaSource s) ++ opt "default" (vaDefault s) ++ opt "regex_pattern" (vaRegexPattern s) ++ opt "json_path" (vaJSONPath s) ++ [].
#[export] Instance variable_out : YamlOut VariableSpec := mkYamlOut _ (fun s => VMap (variable_fields s)) (fun _ => false).
Definition enricher_output_fields (s : EnricherOutputSpec) : GoMap Value :=
  opt "json_path" (eoJSONPath s) ++ req "target_header" (eoTargetHeader s) ++ [].
#[export] Instance enricher_output_out : YamlOut EnricherOutputSpec := mkYamlOut _ (fun s => VMap (enricher_output_fields s)) (fun _ => false).
Definition enricher_fields (s : RedisMetadataEnricherFilterSpec) : GoMap Value :=
  req "redis_service" (enRedisService s) ++ opt "cache_size_mb" (enCacheSizeMB s) ++ opt "cache_timeout" (enCacheTimeout s) ++
  opt "variables" (enVariables s) ++ req "key_pattern" (enKeyPattern s) ++ opt "output_mappings" (enOutputMappings s) ++ [].

Definition jwt_fields (s : JwtAuthFilterSpec) : GoMap Value :=
  opt "source" (jaSource s) ++ opt "header_name" (jaHeaderName s) ++ opt "query_param" (jaQueryParam s) ++ opt "cookie_name" (jaCookieName s) ++
  opt "jwks_endpoint" (jaJWKSEndpoint s) ++ opt "jwks_refresh_interval" (jaJWKSRefreshInterval s) ++ opt "algorithm" (jaAlgorithm s) ++
  opt "issuer" (jaIssuer s) ++ opt "audience" (jaAudience s) ++ opt "claim_mappings" (jaClaimMappings s) ++
  opt "introspection_endpoint" (jaIntrospectionEndpoint s) ++ opt "introspection_timeout" (jaIntrospectionTimeout s) ++
  opt "fail_open" (jaFailOpen s) ++ opt "strip_token" (jaStripToken s) ++ [].
End Writers.

(** ** The engine's options types *)

Section Readers.
Context {Y : YamlScalars}.

Local Abbreviation no_map := (mkStringMap []).

Definition read_deny_match (m : GoMap Value) : result Deny.DenyMatchConfig :=
  let? p := get_field m "path_prefix" "" in
  let? r := get_field m "path_regex" "" in
  let? h := get_field m "headers" (no_map : StringMap string) in
  let? rh := get_field m "response_headers" (no_map : StringMap string) in
  let? nh := get_field m "not_headers" (no_map : StringMap string) in
  let? nr := get_field m "not_response_headers" (no_map : StringMap string) in
  Ok (Deny.mkDenyMatchConfig p r None (entries h) (entries rh) (entries nh) (entries nr)).
Definition zero_deny_match : Deny.DenyMatchConfig := Deny.mkDenyMatchConfig "" "" None [] [] [] [].
#[export] Instance deny_match_in : YamlIn Deny.DenyMatchConfig := mkYamlIn _ (read_struct zero_deny_match read_deny_match) zero_deny_match.
Definition read_deny (m : GoMap Value) : result Deny.DenyFilterConfig :=
  let? c := get_field m "status_code" 0%Z in
  let? b := get_field m "body" "" in
  let? mt := get_field m "match" zero_deny_match in
  Ok (Deny.mkDenyFilterConfig c b mt).

Definition read_header_options (m : GoMap Value) : result HeaderModifier.HeaderOptions :=
  let? a := get_field m "add" (no_map : StringMap string) in
  let? o := get_field m "override" (no_map : StringMap string) in
  let? r := get_field m "remove" [] in
  Ok (HeaderModifier.mkHeaderOptions (entries a) (entries o) r).
Definition zero_header_options : HeaderModifier.HeaderOptions := HeaderModifier.mkHeaderOptions [] [] [].
#[export] Instance header_options_in : YamlIn HeaderModifier.HeaderOptions :=
  mkYamlIn _ (read_struct zero_header_options read_header_options) zero_header_options.
Definition read_header_modifier (m : GoMap Value) : result HeaderModifier.HeaderModifierConfig :=
  let? u := get_field m "upstream" zero_header_options in
  let? d := get_field m "downstream" zero_header_options in
  let? top := read_header_options m in
  Ok (HeaderModifier.mkHeaderModifierConfig u d top).

Definition read_cors (m : GoMap Value) : result Cors.CorsConfig :=
  let? o := get_field m "allow_origins" [] in
  let? r := get_field m "allow_origin_regex" [] in
  let? me := get_field m "allow_methods" [] in
  let? h := get_field m "allow_headers" [] in
  let? e := get_field m "expose_headers" [] in
  let? c := get_field m "allow_credentials" false in
  let? a := get_field m "max_age" 0%Z in
  let? b := get_field m "block_disallowed_origins" false in
  Ok (Cors.mkCorsConfig o r me h e c a b).

(** [preset]: what the factory put there before. *)
Definition read_correlation (preset : Correlation.CorrelationConfig) (m : GoMap Value) : result Correlation.CorrelationConfig :=
  let? h := get_field m "header_name" (Correlation.HeaderName preset) in
  let? a := get_field m "algorithm" (Correlation.Algorithm preset) in
  let? mo := get_field m "mode" (Correlation.Mode preset) in
  let? p := get_field m "prefix" (Correlation.Prefix preset) in
  let? u := get_field m "propagate_to_upstream" (Correlation.PropagateToUpstream preset) in
  let? d := get_field m "propagate_to_downstream" (Correlation.PropagateToDownstream preset) in
  let? i := get_field m "input_header_name" (Correlation.InputHeaderName preset) in
  let? r := get_field m "response_header_name" (Correlation.ResponseHeaderName preset) in
  let? v := get_field m "validation_regex" (Correlation.ValidationRegex preset) in
  Ok (Correlation.mkCorrelationConfig h a mo p u d i r v (Correlation.CompiledValidationRegex preset)).

Definition read_entry (m : GoMap Value) : result RateLimit.DescriptorEntryDef :=
  let? k := get_field m "key" "" in let? v := get_field m "value" "" in Ok (RateLimit.mkEntryDef k v).
#[export] Instance entry_in : YamlIn RateLimit.DescriptorEntryDef :=
  mkYamlIn _ (read_struct (RateLimit.mkEntryDef "" "") read_entry) (RateLimit.mkEntryDef "" "").
Definition read_descriptor (m : GoMap Value) : result RateLimit.YamlDescriptor :=
  let? e := get_field m "entries" [] in
  let? l := get_field m "limit" 0%Z in
  let? u := get_field m "unit" "" in
  let? sh := get_field m "shadow_mode" false in
  let? st := get_field m "stop_increment_when_overlimit" false in
  let? f := get_field m "fail_open" false in
  let? p := get_field m "share_threshold_pattern" "" in
  let? mt := get_field m "max_tokens" (S754_zero false) in
  let? fr := get_field m "fill_rate" (S754_zero false) in
  let? bc := get_field m "bucket_capacity" 0%Z in
  let? lr := get_field m "leak_rate" (S754_zero false) in
  Ok (RateLimit.mkDescriptor e l u sh st f p mt fr bc lr).
Definition zero_descriptor : RateLimit.YamlDescriptor :=
  RateLimit.mkDescriptor [] 0 "" false false false "" (S754_zero false) (S754_zero false) 0 (S754_zero false).
#[export] Instance descriptor_in : YamlIn RateLimit.YamlDescriptor := mkYamlIn _ (read_struct zero_descriptor read_descriptor) zero_descriptor.
Definition read_response_headers (m : GoMap Value) : result RateLimit.ResponseHeadersOpts :=
  let? e := get_field m "enabled" false in
  let? l := get_field m "limit_header" "" in
  let? r := get_field m "remaining_header" "" in
  let? s := get_field m "reset_header" "" in
  Ok (RateLimit.mkResponseHeaders e l r s).
#[export] Instance response_headers_in : YamlIn RateLimit.ResponseHeadersOpts :=
  mkYamlIn _ (read_struct (RateLimit.mkResponseHeaders false "" "" "") read_response_headers) (RateLimit.mkResponseHeaders false "" "" "").
Definition read_dynamic_cost (m : GoMap Value) : result RateLimit.DynamicCostOpts :=
  let? e := get_field m "enabled" false in
  let? s := get_field m "source_header" "" in
  let? d := get_field m "default_fallback_cost" 0%Z in
  let? x := get_field m "max_allowed_cost" 0%Z in
  Ok (RateLimit.mkDynamicCost e s d x).
#[export] Instance dynamic_cost_in : YamlIn RateLimit.DynamicCostOpts :=
  mkYamlIn _ (read_struct (RateLimit.mkDynamicCost false "" 0 0) read_dynamic_cost) (RateLimit.mkDynamicCost false "" 0 0).
Definition read_rate_limit (m : GoMap Value) : result RateLimit.FilterOptions :=
  let? d := get_field m "domain" "" in
  let? a := get_field m "algorithm" "" in
  let? r := get_field m "redis_service" "" in
  let? h := get_field m "header_mappings" (no_map : StringMap string) in
  let? rh := get_field m "response_headers" (RateLimit.mkResponseHeaders false "" "" "") in
  let? dc := get_field m "dynamic_cost" (RateLimit.mkDynamicCost false "" 0 0) in
  let? ds := get_field m "descriptors" [] in
  Ok (RateLimit.mkFilterOptions d a r (entries h) rh dc ds).

Definition read_status_check (m : GoMap Value) : result ApiKey.APIKeyStatusCheck :=
  let? e := get_field m "enabled" false in
  let? f := get_field m "field_name" "" in
  let? v := get_field m "expected_value" "" in
  Ok (ApiKey.mkStatusCheck e f v).
#[export] Instance status_check_in : YamlIn ApiKey.APIKeyStatusCheck :=
  mkYamlIn _ (read_struct (ApiKey.mkStatusCheck false "" "") read_status_check) (ApiKey.mkStatusCheck false "" "").
Definition read_output_mapping (m : GoMap Value) : result ApiKey.APIKeyOutputMapping :=
  let? t := get_field m "target_header" "" in
  let? f := get_field m "redis_field" "" in
  let? j := get_field m "json_path" "" in
  Ok (ApiKey.mkOutputMapping t f j).
#[export] Instance output_mapping_in : YamlIn ApiKey.APIKeyOutputMapping :=
  mkYamlIn _ (read_struct (ApiKey.mkOutputMapping "" "" "") read_output_mapping) (ApiKey.mkOutputMapping "" "" "").
Definition read_api_key (m : GoMap Value) : result ApiKey.APIKeyFilterConfig :=
  let? n := get_field m "key_names" [] in
  let? h := get_field m "key_in_header" false in
  let? q := get_field m "key_in_query" false in
  let? hc := get_field m "hide_credentials" false in
  let? r := get_field m "redis_service" "" in
  let? p := get_field m "redis_key_prefix" "" in
  let? a := get_field m "hash_algorithm" "" in
  let? f := get_field m "value_format" "" in
  let? d := get_field m "delimiter" "" in
  let? s := get_field m "status_check" (ApiKey.mkStatusCheck false "" "") in
  let? o := get_field m "output_mappings" [] in
  Ok (ApiKey.mkConfig n h q hc r p a f d s o).

Definition read_variable (m : GoMap Value) : result Enricher.Variable_ :=
  let? s := get_field m "source" "" in
  let? d := get_field m "default" "" in
  let? r := get_field m "regex_pattern" "" in
  let? j := get_field m "json_path" "" in
  Ok (Enricher.mkVariable s d r j).
#[export] Instance variable_in : YamlIn Enricher.Variable_ :=
  mkYamlIn _ (read_struct (Enricher.mkVariable "" "" "" "") read_variable) (Enricher.mkVariable "" "" "" "").
Definition read_enricher_output (m : GoMap Value) : result Enricher.OutputMappingSpec :=
  let? j := get_field m "json_path" "" in
  let? t := get_field m "target_header" "" in
  Ok (Enricher.mkOutputMappingSpec j t).
#[export] Instance enricher_output_in : YamlIn Enricher.OutputMappingSpec :=
  mkYamlIn _ (read_struct (Enricher.mkOutputMappingSpec "" "") read_enricher_output) (Enricher.mkOutputMappingSpec "" "").
Definition read_enricher (m : GoMap Value) : result Enricher.RedisMetadataEnricherConfig :=
  let? r := get_field m "redis_service" "" in
  let? c := get_field m "cache_size_mb" 0%Z in
  let? t := get_field m "cache_timeout" "" in
  let? v := get_field m "variables" (no_map : StringMap Enricher.Variable_) in
  let? k := get_field m "key_pattern" "" in
  let? o := get_field m "output_mappings" [] in
  Ok (Enricher.mkEnricherConfig r c t (entries v) k o).

Definition read_jwt (m : GoMap Value) : result Jwt.Config :=
  let? so := get_field m "source" "" in
  let? h := get_field m "header_name" "" in
  let? q := get_field m "query_param" "" in
  let? c := get_field m "cookie_name" "" in
  let? je := get_field m "jwks_endpoint" "" in
  let? ji := get_field m "jwks_refresh_interval" (mkDuration 0) in
  let? ls := get_field m "local_secret" "" in
  let? lf := get_field m "local_secret_file" "" in
  let? al := get_field m "algorithm" "" in
  let? iss := get_field m "issuer" "" in
  let? aud := get_field m "audience" "" in
  let? cm := get_field m "claim_mappings" (no_map : StringMap string) in
  let? ie := get_field m "introspection_endpoint" "" in
  let? ih := get_field m "introspection_auth_header" "" in
  let? ihf := get_field m "introspection_auth_header_file" "" in
  let? it := get_field m "introspection_timeout" (mkDuration 0) in
  let? fo := get_field m "fail_open" false in
  let? st := get_field m "strip_token" false in
  Ok (Jwt.mkConfig so h q c je (nanoseconds ji) ls lf al iss aud (entries cm) ie ih ihf (nanoseconds it) fo st).

Definition read_success (m : GoMap Value) : result Sidecar.AuthSuccessRules :=
  let? a := get_field m "upstream_headers_to_add" [] in
  let? r := get_field m "upstream_headers_to_remove" [] in
  Ok (Sidecar.mkSuccess a r).
#[export] Instance success_in : YamlIn Sidecar.AuthSuccessRules := mkYamlIn _ (read_struct (Sidecar.mkSuccess [] []) read_success) (Sidecar.mkSuccess [] []).
Definition read_failure (m : GoMap Value) : result Sidecar.AuthFailureRules :=
  let? h := get_field m "downstream_pass_through_headers" [] in Ok (Sidecar.mkFailure h).
#[export] Instance failure_in : YamlIn Sidecar.AuthFailureRules := mkYamlIn _ (read_struct (Sidecar.mkFailure []) read_failure) (Sidecar.mkFailure []).
Definition read_external_auth (m : GoMap Value) : result Sidecar.ExternalAuthConfig :=
  let? p := get_field m "protocol" "" in
  let? s := get_field m "socket_path" "" in
  let? t := get_field m "timeout" "" in
  let? pa := get_field m "path" "" in
  let? f := get_field m "forward_headers" [] in
  let? os := get_field m "on_success" (Sidecar.mkSuccess [] []) in
  let? onf := get_field m "on_failure" (Sidecar.mkFailure []) in
  Ok (Sidecar.mkExternalAuth p s t 0 pa f os onf).
Definition read_firewall (m : GoMap Value) : result Sidecar.FirewallFilterConfig :=
  let? p := get_field m "protocol" "" in
  let? s := get_field m "socket_path" "" in
  let? t := get_field m "timeout" "" in
  let? i := get_field m "inspect_body" false in
  let? b := get_field m "max_body_size_kb" 0%Z in
  let? f := get_field m "forward_headers" [] in
  let? os := get_field m "on_success" (Sidecar.mkSuccess [] []) in
  let? onf := get_field m "on_failure" (Sidecar.mkFailure []) in
  Ok (Sidecar.mkFirewall p s t 0 i b f os onf).
End Readers.

(** ** What a resource describes *)

Definition header_options_config (s : HeaderOptionsSpec) : HeaderModifier.HeaderOptions :=
  HeaderModifier.mkHeaderOptions (entries (hoAdd s)) (entries (hoOverride s)) (hoRemove s).
Definition header_modifier_config (s : HeaderModifierFilterSpec) : HeaderModifier.HeaderModifierConfig :=
  HeaderModifier.mkHeaderModifierConfig (header_options_config (hmUpstream s)) (header_options_config (hmDownstream s))
    (HeaderModifier.mkHeaderOptions (entries (hmAdd s)) (entries (hmOverride s)) (hmRemove s)).
Definition deny_match_config (s : DenyMatchSpec) : Deny.DenyMatchConfig :=
  Deny.mkDenyMatchConfig (dmPathPrefix s) (dmPathRegex s) None (entries (dmHeaders s)) (entries (dmResponseHeaders s))
    (entries (dmNotHeaders s)) (entries (dmNotResponseHeaders s)).
Definition deny_config (s : DenyFilterSpec) : Deny.DenyFilterConfig :=
  Deny.mkDenyFilterConfig (dsStatusCode s) (dsBody s) (deny_match_config (dsMatch s)).
Definition cors_config (s : CorsFilterSpec) : Cors.CorsConfig :=
  Cors.mkCorsConfig (csAllowOrigins s) (csAllowOriginRegex s) (csAllowMethods s) (csAllowHeaders s) (csExposeHeaders s)
    (csAllowCredentials s) (csMaxAge s) (csBlockDisallowedOrigins s).
Definition correlation_config (s : CorrelationIdFilterSpec) : Correlation.CorrelationConfig :=
  Correlation.mkCorrelationConfig (ciHeaderName s) (ciAlgorithm s) (ciMode s) (ciPrefix s) (ciPropagateToUpstream s)
    (ciPropagateToDownstream s) (ciInputHeaderName s) (ciResponseHeaderName s) (ciValidationRegex s) None.
Definition entry_config (s : DescriptorEntrySpec) : RateLimit.DescriptorEntryDef := RateLimit.mkEntryDef (deKey s) (deValue s).
(** Two settings of the engine have no field in the resource. *)
Definition descriptor_config (s : DescriptorSpec) : RateLimit.YamlDescriptor :=
  RateLimit.mkDescriptor (entry_config <$> rdEntries s) (rdLimit s) (rdUnit s) (rdShadowMode s) false (rdFailOpen s) ""
    (unsigned_zero (rdMaxTokens s)) (unsigned_zero (rdFillRate s)) (rdBucketCapacity s) (unsigned_zero (rdLeakRate s)).
Definition response_headers_config (s : ResponseHeadersSpec) : RateLimit.ResponseHeadersOpts :=
  RateLimit.mkResponseHeaders (rsEnabled s) (rsLimitHeader s) (rsRemainingHeader s) (rsResetHeader s).
Definition dynamic_cost_config (s : DynamicCostSpec) : RateLimit.DynamicCostOpts :=
  RateLimit.mkDynamicCost (dyEnabled s) (dySourceHeader s) (dyDefaultFallbackCost s) (dyMaxAllowedCost s).
Definition rate_limit_config (s : RateLimitFilterSpec) : RateLimit.FilterOptions :=
  RateLimit.mkFilterOptions (rlDomain s) (rlAlgorithm s) (rlRedisService s) (entries (rlHeaderMappings s))
    (response_headers_config (rlResponseHeaders s)) (dynamic_cost_config (rlDynamicCost s)) (descriptor_config <$> rlDescriptors s).
Definition status_check_config (s : ApiKeyStatusCheckSpec) : ApiKey.APIKeyStatusCheck :=
  ApiKey.mkStatusCheck (kcEnabled s) (kcFieldName s) (kcExpectedValue s).
Definition output_mapping_config (s : ApiKeyOutputMappingSpec) : ApiKey.APIKeyOutputMapping :=
  ApiKey.mkOutputMapping (koTargetHeader s) (koRedisField s) (koJsonPath s).
Definition api_key_config (s : ApiKeyFilterSpec) : ApiKey.APIKeyFilterConfig :=
  ApiKey.mkConfig (akKeyNames s) (akKeyInHeader s) (akKeyInQuery s) (akHideCredentials s) (akRedisServiceName s) (akRedisKeyPrefix s)
    (akHashAlgorithm s) (akValueFormat s) (akDelimiter s) (status_check_config (akStatusCheck s)) (output_mapping_config <$> akOutputMappings s).
Definition variable_config (s : VariableSpec) : Enricher.Variable_ :=
  Enricher.mkVariable (vaSource s) (vaDefault s) (vaRegexPattern s) (vaJSONPath s).
Definition enricher_output_config (s : EnricherOutputSpec) : Enricher.OutputMappingSpec :=
  Enricher.mkOutputMappingSpec (eoJSONPath s) (eoTargetHeader s).
Definition over_entries {T U : Type} (f : T -> U) (m : StringMap T) : StringMap U := mkStringMap ((fun e => (e.1, f e.2)) <$> entries m).
Definition enricher_config (s : RedisMetadataEnricherFilterSpec) : Enricher.RedisMetadataEnricherConfig :=
  Enricher.mkEnricherConfig (enRedisService s) (enCacheSizeMB s) (enCacheTimeout s) (entries (over_entries variable_config (enVariables s)))
    (enKeyPattern s) (enricher_output_config <$> enOutputMappings s).

(** The durations of a JwtAuthFilter are free strings; its Secrets are files of the
    engine's pod. *)
Definition duration_of (s : string) : result Z :=
  if String.eqb s "" then Ok 0%Z
  else match ParseDuration s with Some d => Ok d | None => Err "cannot unmarshal into time.Duration" end.
Definition secret_file (name file : string) (ref : option string) : string :=
  match ref with Some r => Compiler.jwtSecretFile name r file | None => "" end.
Definition jwt_config (name : string) (s : JwtAuthFilterSpec) : result Jwt.Config :=
  let? ji := duration_of (jaJWKSRefreshInterval s) in
  let? it := duration_of (jaIntrospectionTimeout s) in
  Ok (Jwt.mkConfig (jaSource s) (jaHeaderName s) (jaQueryParam s) (jaCookieName s) (jaJWKSEndpoint s) ji ""
        (secret_file name "local-secret" (jaLocalSecretRef s)) (jaAlgorithm s) (jaIssuer s) (jaAudience s) (entries (jaClaimMappings s))
        (jaIntrospectionEndpoint s) "" (secret_file name "introspection-auth" (jaIntrospectionAuthSecretRef s)) it
        (jaFailOpen s) (jaStripToken s)).

Definition success_config (r : Compiler.EngineRules) : Sidecar.AuthSuccessRules :=
  Sidecar.mkSuccess (Compiler.UpstreamHeadersToAdd r) (Compiler.UpstreamHeadersToRemove r).
Definition external_auth_config (name protocol : string) (r : Compiler.EngineRules) : Sidecar.ExternalAuthConfig :=
  Sidecar.mkExternalAuth protocol ("/var/run/hypergate/ext-auth-" +++ name +++ ".sock")%go (Compiler.erTimeout r) 0 (Compiler.erPath r)
    (Compiler.erForwardHeaders r) (success_config r) (Sidecar.mkFailure (Compiler.DownstreamPassThroughHeaders r)).
Definition firewall_config (name protocol : string) (r : Compiler.EngineRules) : Sidecar.FirewallFilterConfig :=
  Sidecar.mkFirewall protocol ("/var/run/hypergate/fw-" +++ name +++ ".sock")%go (Compiler.erTimeout r) 0 (Compiler.erInspectBody r)
    (Compiler.erMaxBodySizeKB r) (Compiler.erForwardHeaders r) (success_config r) (Sidecar.mkFailure (Compiler.DownstreamPassThroughHeaders r)).

(** A filter's custom resource, its kind, and its spec as the compiler takes it. *)
Inductive FilterResource : Type :=
| RateLimitR (s : RateLimitFilterSpec) | HeaderModifierR (s : HeaderModifierFilterSpec) | DenyR (s : DenyFilterSpec)
| CorrelationIdR (s : CorrelationIdFilterSpec) | EnricherR (s : RedisMetadataEnricherFilterSpec) | ApiKeyR (s : ApiKeyFilterSpec)
| ExternalAuthR (protocol : string) (r : Compiler.EngineRules) | FirewallR (protocol : string) (r : Compiler.EngineRules)
| JwtAuthR (s : JwtAuthFilterSpec) | CorsR (s : CorsFilterSpec).

Definition kind_of (r : FilterResource) : string :=
  match r with
  | RateLimitR _ => "RateLimitFilter" | HeaderModifierR _ => "HeaderModifierFilter" | DenyR _ => "DenyFilter"
  | CorrelationIdR _ => "CorrelationIdFilter" | EnricherR _ => "RedisMetadataEnricherFilter" | ApiKeyR _ => "ApiKeyFilter"
  | ExternalAuthR _ _ => "ExternalAuthFilter" | FirewallR _ _ => "FirewallFilter" | JwtAuthR _ => "JwtAuthFilter" | CorsR _ => "CorsFilter"
  end.
Definition spec_of {Y : YamlScalars} (r : FilterResource) : Compiler.FilterSpec :=
  match r with
  | RateLimitR s => Compiler.PlainSpec (VMap (rate_limit_fields s)) | HeaderModifierR s => Compiler.PlainSpec (VMap (header_modifier_fields s))
  | DenyR s => Compiler.PlainSpec (VMap (deny_fields s)) | CorrelationIdR s => Compiler.PlainSpec (VMap (correlation_fields s))
  | EnricherR s => Compiler.PlainSpec (VMap (enricher_fields s)) | ApiKeyR s => Compiler.PlainSpec (VMap (api_key_fields s))
  | ExternalAuthR p r | FirewallR p r => Compiler.SidecarSpec p r
  | JwtAuthR s => Compiler.JwtSpec (jwt_fields s) (jaLocalSecretRef s) (jaIntrospectionAuthSecretRef s)
  | CorsR s => Compiler.PlainSpec (VMap (cors_fields s))
  end.

(** The factory's decoding of the options, from the text it marshals them to (the
    sidecar filters marshal them again themselves). *)
Definition received (codec : Factory.Codec) (name : string) (r : FilterResource) (raw : GoMap Value) (text : string) : Prop :=
  match r with
  | RateLimitR s => Factory.limiter_of codec text = Ok (rate_limit_config s)
  | HeaderModifierR s => Factory.modifier_of codec text = Ok (header_modifier_config s)
  | DenyR s => Factory.deny_of codec text = Ok (deny_config s)
  | CorrelationIdR s =>
      Factory.correlation_of codec (Correlation.mkCorrelationConfig "" "" "" "" true true "" "" "" None) text = Ok (correlation_config s)
  | EnricherR s => Factory.enricher_of codec text = Ok (enricher_config s)
  | ApiKeyR s => Factory.apikey_of codec text = Ok (api_key_config s)
  | ExternalAuthR p r => Factory.extauth_of codec raw = Ok (external_auth_config name p r)
  | FirewallR p r => Factory.firewall_of codec raw = Ok (firewall_config name p r)
  | JwtAuthR s => Factory.jwt_of codec text = jwt_config name s
  | CorsR s => Factory.cors_of codec text = Ok (cors_config s)
  end.

(** [yaml.Marshal] and [yaml.Unmarshal] of the engine: what is read of the text [t] of
    the map [m] is read by the tags. *)
Record reads_by_tags {Y : YamlScalars} (codec : Factory.Codec) (m : GoMap Value) (t : string) : Prop := {
  marshals : Factory.marshal codec m = Some t;
  reads_limiter : Factory.limiter_of codec t = read_rate_limit m;
  reads_modifier : Factory.modifier_of codec t = read_header_modifier m;
  reads_deny : Factory.deny_of codec t = read_deny m;
  reads_correlation : forall p, Factory.correlation_of codec p t = read_correlation p m;
  reads_enricher : Factory.enricher_of codec t = read_enricher m;
  reads_apikey : Factory.apikey_of codec t = read_api_key m;
  reads_extauth : Factory.extauth_of codec m = read_external_auth m;
  reads_firewall : Factory.firewall_of codec m = read_firewall m;
  reads_jwt : Factory.jwt_of codec t = read_jwt m;
  reads_cors : Factory.cors_of codec t = read_cors m
}.

(** ** Lemmas *)

Section Fields.
Context {Y : YamlScalars}.

Lemma field_miss {T U : Type} `{YamlOut T} `{YamlIn U} t t' o (x : T) rest (old : U) : String.eqb t' t = false ->
  get_field (put_field t' o x ++ rest) t old = get_field rest t old.
Proof. intros E. unfold put_field, get_field. destruct (o && is_empty x); [done|]. cbn. by rewrite E. Qed.

Lemma field_hit {T U : Type} `{YamlOut T} `{YamlIn U} (conv : T -> U) `{!Carries conv} t (x : T) rest (old : U) :
  old = zero -> get_field rest t old = Ok old -> get_field (put_field t true x ++ rest) t old = Ok (conv x).
Proof.
  intros -> Hr. unfold put_field. destruct (is_empty x) eqn:E; cbn [andb app].
  - rewrite Hr. by rewrite (carries_empty conv x E).
  - unfold get_field. cbn. rewrite String.eqb_refl. apply (carries conv).
Qed.

Lemma field_req {T U : Type} `{YamlOut T} `{YamlIn U} (conv : T -> U) `{!Carries conv} t (x : T) rest (old : U) :
  get_field (put_field t false x ++ rest) t old = Ok (conv x).
Proof. unfold put_field, get_field. cbn. rewrite String.eqb_refl. apply (carries conv). Qed.

Lemma field_none {U : Type} `{YamlIn U} t (old : U) : get_field [] t old = Ok old.
Proof. done. Qed.

Lemma field_set_ne {U : Type} `{YamlIn U} m t t' v (old : U) : String.eqb t' t = false ->
  get_field (map_set m t' v) t old = get_field m t old.
Proof. intros E%String.eqb_neq. unfold get_field. rewrite map_get_set_ne; [done|congruence]. Qed.

Lemma field_set_eq {U : Type} `{YamlIn U} m t v (old : U) : get_field (map_set m t v) t old = dec v.
Proof. unfold get_field. by rewrite map_get_set_eq. Qed.

Context {Yok : YamlScalarsOk Y}.

Lemma duration_hit t (s : string) rest : get_field rest t (mkDuration 0) = Ok (mkDuration 0) ->
  get_field (put_field t true s ++ rest) t (mkDuration 0) = (let? d := duration_of s in Ok (mkDuration d)).
Proof.
  intros Hr. unfold put_field, duration_of, is_empty, string_out. destruct (String.eqb s ""); [done|]. cbn [andb app].
  unfold get_field. cbn. rewrite String.eqb_refl, as_duration_ok. by destruct (ParseDuration s).
Qed.

#[export] Instance string_carried : Carries (fun s : string => s).
Proof. split; [apply as_string_ok|]. by intros s ->%String.eqb_eq. Qed.
#[export] Instance bool_carried : Carries (fun b : bool => b).
Proof. split; [apply as_bool_ok|]. by intros []. Qed.
#[export] Instance int_carried : Carries (fun z : Z => z).
Proof. split; [apply as_int_ok|]. by intros z ->%Z.eqb_eq. Qed.
#[export] Instance float_carried : Carries unsigned_zero.
Proof. split; [apply as_float_ok|]. by intros []. Qed.

Lemma map_result_carries {A B C : Type} (f : B -> result C) (g : A -> B) (h : A -> C) l :
  (forall x, f (g x) = Ok (h x)) -> map_result f (g <$> l) = Ok (h <$> l).
Proof. intros Hf. induction l as [|x l IH]; [done|]. cbn. rewrite Hf. cbn. by rewrite IH. Qed.

#[export] Instance list_carried {T U : Type} `{YamlOut T} `{YamlIn U} (conv : T -> U) `{!Carries conv} : Carries (fun l : list T => conv <$> l).
Proof.
  split; [intros l; apply map_result_carries, (carries conv)|]. by intros [].
Qed.
#[export] Instance strings_carried : Carries (fun l : list string => l).
Proof. split; [|by intros []]. intros l. rewrite (carries (fun l : list string => (fun s => s) <$> l) l). by rewrite list_fmap_id. Qed.
#[export] Instance map_carried {T U : Type} `{YamlOut T} `{YamlIn U} (conv : T -> U) `{!Carries conv} : Carries (over_entries conv).
Proof.
  split; [|by intros [[]]]. intros [m]. cbn. rewrite (map_result_carries _ _ (fun e => (e.1, conv e.2))); [done|].
  intros [k x]. cbn. by rewrite (carries conv).
Qed.
#[export] Instance string_map_carried : Carries (fun m : StringMap string => m).
Proof.
  split; [|by intros [[]]]. intros [m]. rewrite (carries (over_entries (fun s : string => s))). unfold over_entries. cbn.
  by rewrite (list_fmap_ext _ id), list_fmap_id; [|intros ? [] ?].
Qed.
End Fields.

Lemma bind_read {A B : Type} (r : result A) a (k : A -> result B) y : r = Ok a -> k a = y -> result_bind r k = y.
Proof. by intros -> <-. Qed.

(** One field of a struct: pass over the others, and find it written or left out. *)
Ltac read_field :=
  first [ apply field_none
        | etransitivity; [apply field_miss; reflexivity|]; read_field
        | apply field_req; typeclasses eauto
        | eapply field_hit; [typeclasses eauto|reflexivity|]; read_field ].
Tactic Notation "read_fields" reference(read) reference(fields) :=
  unfold read, fields; repeat (eapply bind_read; [read_field|]); reflexivity.

Section Structs.
Context {Y : YamlScalars} {Yok : YamlScalarsOk Y}.

Lemma struct_carried {S U : Type} (fields : S -> GoMap Value) (empty : S -> bool) (z : U) (read : GoMap Value -> result U) (conv : S -> U) :
  (forall s, read (fields s) = Ok (conv s)) -> read [] = Ok z -> (forall s, empty s = true -> no_fields (fields s) = true) ->
  @Carries S U (mkYamlOut S (fun s => VMap (fields s)) empty) (mkYamlIn U (read_struct z read) z) conv.
Proof.
  intros Hr H0 He. split; [exact Hr|]. intros s Hs%He. specialize (Hr s). destruct (fields s); [|done]. cbn. congruence.
Qed.

#[export] Instance deny_match_carried : Carries deny_match_config.
Proof. apply struct_carried; [|done..]. intros s. read_fields read_deny_match deny_match_fields. Qed.
Lemma deny_read s : read_deny (deny_fields s) = Ok (deny_config s).
Proof. read_fields read_deny deny_fields. Qed.

#[export] Instance header_options_carried : Carries header_options_config.
Proof. apply struct_carried; [|done..]. intros s. read_fields read_header_options header_options_fields. Qed.
Lemma header_modifier_read s : read_header_modifier (header_modifier_fields s) = Ok (header_modifier_config s).
Proof. unfold read_header_modifier. unfold header_modifier_fields. do 2 (eapply bind_read; [read_field|]).
  eapply bind_read; [|reflexivity]. unfold read_header_options. repeat (eapply bind_read; [read_field|]). reflexivity. Qed.

Lemma cors_read s : read_cors (cors_fields s) = Ok (cors_config s).
Proof. read_fields read_cors cors_fields. Qed.

Lemma correlation_read s up down : read_correlation (Correlation.mkCorrelationConfig "" "" "" "" up down "" "" "" None) (correlation_fields s) =
  Ok (correlation_config s).
Proof. read_fields read_correlation correlation_fields. Qed.

#[export] Instance entry_carried : Carries entry_config.
Proof. apply struct_carried; [|done..]. intros s. read_fields read_entry entry_fields. Qed.
#[export] Instance descriptor_carried : Carries descriptor_config.
Proof. apply struct_carried; [|done..]. intros s. read_fields read_descriptor descriptor_fields. Qed.
#[export] Instance response_headers_carried : Carries response_headers_config.
Proof. apply struct_carried; [|done..]. intros s. read_fields read_response_headers response_headers_fields. Qed.
#[export] Instance dynamic_cost_carried : Carries dynamic_cost_config.
Proof. apply struct_carried; [|done..]. intros s. read_fields read_dynamic_cost dynamic_cost_fields. Qed.
Lemma rate_limit_read s : read_rate_limit (rate_limit_fields s) = Ok (rate_limit_config s).
Proof. read_fields read_rate_limit rate_limit_fields. Qed.

#[export] Instance status_check_carried : Carries status_check_config.
Proof. apply struct_carried; [|done..]. intros s. read_fields read_status_check status_check_fields. Qed.
#[export] Instance output_mapping_carried : Carries output_mapping_config.
Proof. apply struct_carried; [|done..]. intros s. read_fields read_output_mapping output_mapping_fields. Qed.
Lemma api_key_read s : read_api_key (api_key_fields s) = Ok (api_key_config s).
Proof. read_fields read_api_key api_key_fields. Qed.

#[export] Instance variable_carried : Carries variable_config.
Proof. apply struct_carried; [|done..]. intros s. read_fields read_variable variable_fields. Qed.
#[export] Instance enricher_output_carried : Carries enricher_output_config.
Proof. apply struct_carried; [|done..]. intros s. read_fields read_enricher_output enricher_output_fields. Qed.
Lemma enricher_read s : read_enricher (enricher_fields s) = Ok (enricher_config s).
Proof. read_fields read_enricher enricher_fields. Qed.

Lemma strings_read (l : list string) : dec (Compiler.strings l) = Ok l.
Proof. exact (carries (fun l : list string => l) l). Qed.
Lemma success_read r : dec (Compiler.on_success r) = Ok (success_config r).
Proof. do 2 (eapply bind_read; [apply strings_read|]). reflexivity. Qed.
Lemma failure_read r : dec (Compiler.on_failure r) = Ok (Sidecar.mkFailure (Compiler.DownstreamPassThroughHeaders r)).
Proof. eapply bind_read; [apply strings_read|]. reflexivity. Qed.
Lemma external_auth_read name p r m : Compiler.externalAuthOptions name p r = VMap m ->
  read_external_auth m = Ok (external_auth_config name p r).
Proof.
  intros [= <-]. unfold read_external_auth.
  do 4 (eapply bind_read; [apply as_string_ok|]). eapply bind_read; [apply strings_read|].
  eapply bind_read; [apply success_read|]. eapply bind_read; [apply failure_read|]. reflexivity.
Qed.
Lemma firewall_read name p r m : Compiler.firewallOptions name p r = VMap m -> read_firewall m = Ok (firewall_config name p r).
Proof.
  intros [= <-]. unfold read_firewall.
  do 3 (eapply bind_read; [apply as_string_ok|]). eapply bind_read; [apply as_bool_ok|]. eapply bind_read; [apply as_int_ok|].
  eapply bind_read; [apply strings_read|]. eapply bind_read; [apply success_read|]. eapply bind_read; [apply failure_read|]. reflexivity.
Qed.

(** The compiler adds the files of the Secrets to the fields. *)
Lemma jwt_other {U : Type} `{YamlIn U} name m l a t (old : U) : t <> "local_secret_file" -> t <> "introspection_auth_header_file" ->
  get_field (Compiler.jwtAuthOptions name m l a) t old = get_field m t old.
Proof.
  intros H1 H2. unfold Compiler.jwtAuthOptions. destruct l, a; rewrite ?field_set_ne by (apply String.eqb_neq; congruence); done.
Qed.
Lemma jwt_local name m l a : get_field m "local_secret_file" "" = Ok "" ->
  get_field (Compiler.jwtAuthOptions name m l a) "local_secret_file" "" = Ok (secret_file name "local-secret" l).
Proof.
  intros Hm. unfold Compiler.jwtAuthOptions.
  destruct l, a; rewrite ?(field_set_ne _ _ "introspection_auth_header_file") by done; rewrite ?field_set_eq;
    [apply as_string_ok|apply as_string_ok|done..].
Qed.
Lemma jwt_introspection name m l a : get_field m "introspection_auth_header_file" "" = Ok "" ->
  get_field (Compiler.jwtAuthOptions name m l a) "introspection_auth_header_file" "" = Ok (secret_file name "introspection-auth" a).
Proof.
  intros Hm. unfold Compiler.jwtAuthOptions.
  destruct l, a; rewrite ?field_set_eq; try apply as_string_ok; by rewrite ?field_set_ne by done.
Qed.

Ltac jwt_field := etransitivity; [apply jwt_other; done|]; unfold jwt_fields; read_field.

Lemma jwt_durations name s m : m = Compiler.jwtAuthOptions name (jwt_fields s) (jaLocalSecretRef s) (jaIntrospectionAuthSecretRef s) ->
  get_field m "jwks_refresh_interval" (mkDuration 0) = (let? d := duration_of (jaJWKSRefreshInterval s) in Ok (mkDuration d)) /\
  get_field m "introspection_timeout" (mkDuration 0) = (let? d := duration_of (jaIntrospectionTimeout s) in Ok (mkDuration d)).
Proof.
  intros ->. rewrite !jwt_other by done. unfold jwt_fields. split; rewrite !field_miss by reflexivity; apply duration_hit; read_field.
Qed.

Lemma jwt_read name s : read_jwt (Compiler.jwtAuthOptions name (jwt_fields s) (jaLocalSecretRef s) (jaIntrospectionAuthSecretRef s)) = jwt_config name s.
Proof.
  set (m := Compiler.jwtAuthOptions _ _ _ _). destruct (jwt_durations name s m eq_refl) as [Hj Hi]. unfold read_jwt, jwt_config.
  do 5 (eapply bind_read; [jwt_field|]).
  rewrite Hj, Hi. destruct (duration_of (jaJWKSRefreshInterval s)) as [ji|e]; [|done]. cbn [result_bind].
  eapply bind_read; [jwt_field|].
  eapply bind_read; [apply jwt_local; unfold jwt_fields; read_field|].
  do 6 (eapply bind_read; [jwt_field|]).
  eapply bind_read; [apply jwt_introspection; unfold jwt_fields; read_field|].
  destruct (duration_of (jaIntrospectionTimeout s)) as [it|e]; [|done]. cbn [result_bind].
  do 2 (eapply bind_read; [jwt_field|]). reflexivity.
Qed.
End Structs.

Section Compiled.
Context {Y : YamlScalars} {Yok : YamlScalarsOk Y}.

Lemma received_ok codec name r m t : Compiler.resolvedOptions (kind_of r) name (spec_of r) = VMap m -> reads_by_tags codec m t ->
  received codec name r m t.
Proof.
  intros Hm [_ H1 H2 H3 H4 H5 H6 H7 H8 H9 H10]. destruct r; cbn [received]; try (injection Hm as <-).
  - by rewrite H1, rate_limit_read.
  - by rewrite H2, header_modifier_read.
  - by rewrite H3, deny_read.
  - by rewrite H4, correlation_read.
  - by rewrite H5, enricher_read.
  - by rewrite H6, api_key_read.
  - rewrite H7. by apply external_auth_read.
  - rewrite H8. by apply firewall_read.
  - rewrite H9. apply jwt_read.
  - by rewrite H10, cors_read.
Qed.

Lemma resolved_is_map r name : exists m, Compiler.resolvedOptions (kind_of r) name (spec_of r) = VMap m.
Proof. destruct r; cbn; eauto. Qed.
End Compiled.

(** C28: a filter of any kind reaches the engine as its custom resource describes it. When
    the object store holds the resource under the kind and the name of a chain's
    reference, [compile_filter] succeeds with the engine's type for that kind, and the
    options it writes, read back by the struct tags of the engine's filter, give exactly
    the configuration the resource describes, field by field and through nested structs,
    lists and maps, whether a field was written or left out as empty. For a JwtAuthFilter
    the Secrets arrive as the paths of their files, and the options are
    refused exactly when one of the two durations does not parse. *)
Theorem filter_specs_reach_engine {Y : YamlScalars} (Yok : YamlScalarsOk Y) (yaml_options : Value -> result (GoMap Value))
  (objs : Compiler.Objects) (chain : Compiler.HyperChain) (ref : Compiler.FilterReference) (r : FilterResource) :
  (forall m, yaml_options (VMap m) = Ok m) ->
  Compiler.frKind ref = kind_of r -> map_get (Compiler.filters objs (kind_of r)) (Compiler.frName ref) = Some (spec_of r) ->
  exists fc, Compiler.compile_filter yaml_options objs chain ref = Ok fc /\ Compiler.filterType (kind_of r) = Some (fcType fc) /\
    forall codec text, reads_by_tags codec (fcOptions fc) text -> received codec (Compiler.frName ref) r (fcOptions fc) text.
Proof.
  intros Hy Hk Hr. unfold Compiler.compile_filter. rewrite Hk, Hr. destruct (resolved_is_map r (Compiler.frName ref)) as [m Hm].
  rewrite Hm, Hy. assert (exists ty, Compiler.filterType (kind_of r) = Some ty) as [ty ->] by (destruct r; eexists; reflexivity).
  eexists. split; [reflexivity|]. split; [done|]. intros codec text. by apply received_ok.
Qed.

(** ** A concrete policy *)

Definition example_float_value (x : spec_float) : Value :=
  match x with
  | S754_zero _ => VInt 0 | S754_infinity s => VSeq [VBool s] | S754_nan => VNull
  | S754_finite s m e => VSeq [VBool s; VInt (Zpos m); VInt e]
  end.
Definition example_as_float (v : Value) : result spec_float :=
  match v with
  | VInt 0 => Ok (S754_zero false) | VSeq [VBool s] => Ok (S754_infinity s) | VNull => Ok S754_nan
  | VSeq [VBool s; VInt (Zpos m); VInt e] => Ok (S754_finite s m e)
  | _ => Err "yaml: cannot unmarshal into float64"
  end.
Definition example_scalars : YamlScalars := mkYamlScalars
  (fun v => match v with VString s => Ok s | _ => Err "yaml: cannot unmarshal into string" end)
  (fun v => match v with VBool b => Ok b | _ => Err "yaml: cannot unmarshal into bool" end)
  (fun v => match v with VInt z => Ok z | _ => Err "yaml: cannot unmarshal into int" end)
  example_as_float
  (fun v => match v with
            | VString s => match ParseDuration s with Some d => Ok d | None => Err "cannot unmarshal into time.Duration" end
            | _ => Err "cannot unmarshal into time.Duration"
            end)
  example_float_value.
Lemma example_scalars_ok : YamlScalarsOk example_scalars.
Proof. split; try done. by intros []. Qed.
#[local] Existing Instance example_scalars.

Definition example_jwt : JwtAuthFilterSpec := mkJwtAuthFilterSpec "header" "" "" "" "https://issuer.example/jwks" "5m" (Some "keys") "HS256" "" "api"
  (mkStringMap [("sub", "x-user-id")]) "" None "" false true.
Definition example_objects : Compiler.Objects := Compiler.mkObjects [] [] [] []
  (fun k => if String.eqb k "JwtAuthFilter" then [("login", spec_of (JwtAuthR example_jwt))] else []).
Definition example_yaml (v : Value) : result (GoMap Value) := match v with VMap m => Ok m | _ => Err "yaml: not a map" end.
Definition example_chain : Compiler.HyperChain :=
  Compiler.mkHyperChain "web" (Compiler.mkHyperChainSpec [Compiler.mkFilterReference "JwtAuthFilter" "login" None] "" "" 0 "" "") "" "".
Definition example_options : GoMap Value := Compiler.jwtAuthOptions "login" (jwt_fields example_jwt) (Some "keys") None.
Definition example_codec (m : GoMap Value) : Factory.Codec :=
  Factory.mkCodec (fun _ => Some "text") (fun _ => read_api_key m) (fun _ => read_enricher m) (fun _ => read_rate_limit m)
    (fun _ => read_header_modifier m) (fun _ => read_deny m) (fun p _ => read_correlation p m) read_external_auth read_firewall
    (fun _ => read_cors m) (fun _ => read_jwt m).

Lemma filter_specs_reach_engine_witness :
  Factory.jwt_of (example_codec example_options) "text" =
  Ok (Jwt.mkConfig "header" "" "" "" "https://issuer.example/jwks" 300000000000 "" "/etc/hypergate/secrets/jwt-login/keys/local-secret" "HS256" ""
        "api" [("sub", "x-user-id")] "" "" "" 0 false true).
Proof.
  destruct (filter_specs_reach_engine example_scalars_ok example_yaml example_objects example_chain
    (Compiler.mkFilterReference "JwtAuthFilter" "login" None) (JwtAuthR example_jwt) ltac:(done) ltac:(reflexivity) ltac:(vm_compute; reflexivity))
    as (fc & Hfc & _ & H).
  assert (fcOptions fc = example_options) as E by (vm_compute in Hfc; injection Hfc as <-; vm_compute; reflexivity).
  rewrite E in H. exact (H (example_codec example_options) "text" ltac:(by split)).
Defined.

(** Nothing between the resource and the engine looks at a duration: the engine refuses
    the options of a JwtAuthFilter whose duration does not parse, and with them the policy. *)
Lemma bad_duration_refused : is_ok (jwt_config "login" (mkJwtAuthFilterSpec "" "" "" "" "https://issuer.example/jwks" "5 minutes" None "" "" ""
  (mkStringMap []) "" None "" false false)) = false.
Proof. vm_compute. reflexivity. Qed.

End FilterSpecs.
