(* ===== verification/Webhooks.v ===== *)
(** * Webhooks: admission of chains and filters
    (hyper-operator/internal/webhook: hyperchain_validation_webhook.go,
    filter_protection_webhook.go, and the configurations that submit requests to
    them: charts/hyper-operator/templates/webhook.yaml,
    hyper-operator/deploy/webhook-config.yaml)

    A chain is admitted when the filters it refers to exist, a filter may be
    deleted when no chain refers to it, a chain when no HyperConfig does. The
    cluster is a state machine over requests; a request is admitted on what the
    webhook reads and committed later, so two requests can overlap. *)

From S2P Require Import Prelude GoStrings GoTime Config Compiler.

Local Open Scope string_scope.
Local Open Scope list_scope.

Module Webhooks.
Import Compiler.

#[export] Instance Objects_eta : Eta Objects := fun x =>
  mkObjects (configs x) (redises x) (hroutes x) (hchains x) (filters x).

(** ** hyperchain_validation_webhook.go *)

(** The kinds of the switch. *)
Definition known_kind (kind : string) : bool :=
  bool_decide (kind ∈ ["RateLimitFilter"; "HeaderModifierFilter"; "DenyFilter"; "CorrelationIdFilter"; "RedisMetadataEnricherFilter";
                       "ApiKeyFilter"; "ExternalAuthFilter"; "FirewallFilter"; "JwtAuthFilter"; "CorsFilter"]).

Section Validators.
(** The client: whether an object of a kind exists, and the lists; [Err] is an
    error other than "not found". *)
Variable get : string -> string -> result bool.
Variable list_chains : result (list HyperChain).
Variable list_configs : result (list HyperConfig).

Definition validate_ref (ref : FilterReference) : result () :=
  if negb (known_kind (frKind ref)) then Err "unknown filter kind"
  else match get (frKind ref) (frName ref) with
       | Ok true => Ok tt
       | Ok false => Err "referenced filter does not exist in the cluster"
       | Err e => Err e
       end.

Definition validateFilters (chain : HyperChain) : result () :=
  fold_result (fun _ ref => validate_ref ref) tt (chFilters (chainSpec chain)).

Definition ChainValidateCreate (chain : HyperChain) : result () := validateFilters chain.
Definition ChainValidateUpdate (_ new : HyperChain) : result () := validateFilters new.
Definition ChainValidateDelete (name : string) : result () :=
  let? l := list_configs in
  if existsb (fun hc => map_has (ReferencedChains (hcSpec hc)) name) l then Err "cannot delete HyperChain" else Ok tt.

(** ** filter_protection_webhook.go: [FilterProtectionValidator] of a kind *)

Definition FilterValidateCreate (kind name : string) : result () := Ok tt.
Definition FilterValidateUpdate (kind name : string) : result () := Ok tt.
Definition FilterValidateDelete (kind name : string) : result () :=
  let? l := list_chains in
  if existsb (fun chain => existsb (fun ref => String.eqb (frKind ref) kind && String.eqb (frName ref) name)
                             (chFilters (chainSpec chain))) l
  then Err "cannot delete filter" else Ok tt.
End Validators.

(** [SetupFiltersWebhookWithManager]: the kinds with a delete-protection webhook. *)
Definition protected_kinds : list string :=
  ["RateLimitFilter"; "HeaderModifierFilter"; "DenyFilter"; "CorrelationIdFilter"; "RedisMetadataEnricherFilter";
   "ApiKeyFilter"; "ExternalAuthFilter"; "FirewallFilter"; "JwtAuthFilter"; "CorsFilter"].

(** The filter resources whose deletion the API server submits to the webhooks: the
    ValidatingWebhookConfiguration of the Helm chart, and the one of the plain
    manifests. *)
Definition chart_resources : list string :=
  (fun f => f +++ "s")%go <$>
    ["correlationidfilter"; "denyfilter"; "headermodifierfilter"; "ratelimitfilter"; "redismetadataenricherfilter";
     "apikeyfilter"; "externalauthfilter"; "firewallfilter"; "jwtauthfilter"; "corsfilter"].
Definition deploy_resources : list string :=
  ["correlationidfilters"; "denyfilters"; "headermodifierfilters"; "ratelimitfilters"; "redismetadataenricherfilters";
   "apikeyfilters"; "externalauthfilters"; "jwtauthfilters"; "corsfilters"].

(** ** The API server *)

(** The resource of a kind. *)
Definition resource (kind : string) : string := (ToLower kind +++ "s")%go.

Inductive Request : Type :=
| PutChain (chain : HyperChain)
| DeleteChain (name : string)
| PutFilter (kind name : string) (spec : FilterSpec)
| DeleteFilter (kind name : string)
| PutConfig (hc : HyperConfig)
| DeleteConfig (name : string).

Definition delete_named {A : Type} (name_of : A -> string) (name : string) (l : list A) : list A :=
  List.filter (fun x => negb (String.eqb (name_of x) name)) l.

(** A request on what the webhooks read, with the resources whose deletions are
    submitted; a submitted request nobody serves is refused (failurePolicy: Fail). *)
Definition admission (resources : list string) (view : Objects) (r : Request) : result () :=
  let get := fun kind name => Ok (map_has (filters view kind) name) in
  match r with
  | PutChain chain =>
      match List.find (fun c => String.eqb (chainName c) (chainName chain)) (hchains view) with
      | Some old => ChainValidateUpdate get old chain
      | None => ChainValidateCreate get chain
      end
  | DeleteChain name => ChainValidateDelete (Ok (configs view)) name
  | PutFilter kind name _ =>
      if map_has (filters view kind) name then FilterValidateUpdate kind name else FilterValidateCreate kind name
  | DeleteFilter kind name =>
      if negb (bool_decide (resource kind ∈ resources)) then Ok tt
      else if bool_decide (kind ∈ protected_kinds) then FilterValidateDelete (Ok (hchains view)) kind name
      else Err "failed calling webhook"
  | PutConfig _ | DeleteConfig _ => Ok tt
  end.

(** Its effect; a Put replaces the object of that name. *)
Definition commit (objs : Objects) (r : Request) : Objects :=
  match r with
  | PutChain chain => objs <| hchains := delete_named chainName (chainName chain) (hchains objs) ++ [chain] |>
  | DeleteChain name => objs <| hchains := delete_named chainName name (hchains objs) |>
  | PutFilter kind name spec =>
      objs <| filters := fun k => if String.eqb k kind then map_set (filters objs k) name spec else filters objs k |>
  | DeleteFilter kind name =>
      objs <| filters := fun k => if String.eqb k kind then delete_named fst name (filters objs k) else filters objs k |>
  | PutConfig hc => objs <| configs := delete_named hcName (hcName hc) (configs objs) ++ [hc] |>
  | DeleteConfig name => objs <| configs := delete_named hcName name (configs objs) |>
  end.

(** The cluster with the requests that were admitted and not yet committed. *)
Inductive api_step (resources : list string) : Objects * list Request -> Objects * list Request -> Prop :=
| api_admit objs rs r : admission resources objs r = Ok tt -> api_step resources (objs, rs) (objs, rs ++ [r])
| api_commit objs rs r rs' : api_step resources (objs, rs ++ r :: rs') (commit objs r, rs ++ rs').

(** Requests that do not overlap. *)
Inductive serial_step (resources : list string) : Objects -> Objects -> Prop :=
| serial objs r : admission resources objs r = Ok tt -> serial_step resources objs (commit objs r).

Definition no_objects : Objects := mkObjects [] [] [] [] (fun _ => []).

(** ** What the webhooks are for *)

(** The reference is of a kind that is known, and names a filter that exists when the
    deletions of that kind are submitted. *)
Definition ref_exists (resources : list string) (objs : Objects) (ref : FilterReference) : Prop :=
  (resource (frKind ref) ∈ resources -> map_has (filters objs (frKind ref)) (frName ref) = true) /\
  known_kind (frKind ref) = true.

Definition refs_exist (resources : list string) (objs : Objects) : Prop :=
  forall chain ref, chain ∈ hchains objs -> ref ∈ chFilters (chainSpec chain) -> ref_exists resources objs ref.

(** ** Lemmas *)

Lemma delete_named_elem {A : Type} (f : A -> string) name l x : x ∈ delete_named f name l <-> x ∈ l /\ f x <> name.
Proof.
  unfold delete_named. rewrite !list_elem_of_In, filter_In, negb_true_iff, String.eqb_neq. done.
Qed.

Lemma map_has_delete {A : Type} (m : GoMap A) k k' :
  map_has (delete_named fst k m) k' = true <-> map_has m k' = true /\ k' <> k.
Proof.
  rewrite !map_has_spec, !list_elem_of_fmap. setoid_rewrite delete_named_elem.
  split; [intros (x & -> & ? & ?); split; [by exists x|done]|intros ((x & -> & ?) & ?); by exists x].
Qed.

Lemma validateFilters_ok get chain : validateFilters get chain = Ok tt ->
  forall ref, ref ∈ chFilters (chainSpec chain) -> known_kind (frKind ref) = true /\ get (frKind ref) (frName ref) = Ok true.
Proof.
  intros H%fold_check_Forall ref Hin. apply (proj1 (Forall_forall _ _) H) in Hin. unfold validate_ref in Hin.
  destruct (known_kind (frKind ref)); [|done]. cbn [negb] in Hin. by destruct (get _ _) as [[|]|].
Qed.

Lemma known_cases (P : string -> Prop) : Forall P protected_kinds -> forall kind, known_kind kind = true -> P kind.
Proof. intros HP kind H%bool_decide_eq_true. by apply (proj1 (Forall_forall _ _) HP). Qed.

Lemma known_protected kind : known_kind kind = true -> kind ∈ protected_kinds.
Proof. apply bool_decide_eq_true. Qed.

(** The chart submits the deletions of every kind a chain can refer to, the plain
    manifests those of every kind but one. *)
Lemma known_submitted kind : known_kind kind = true ->
  resource kind ∈ chart_resources /\ (kind <> "FirewallFilter" -> resource kind ∈ deploy_resources).
Proof.
  revert kind. apply known_cases.
  repeat (apply Forall_cons; split; [split; [apply (bool_decide_unpack _); vm_compute; exact I|]|]); [..|constructor];
    intros Hne; try (by destruct Hne); apply (bool_decide_unpack _); vm_compute; exact I.
Qed.

(** The compiler knows every kind the webhook admits. *)
Lemma known_filterType kind : known_kind kind = true -> exists ty, filterType kind = Some ty.
Proof. revert kind. apply known_cases. repeat constructor; by eexists. Qed.

Lemma serial_refs resources objs objs' :
  refs_exist resources objs -> serial_step resources objs objs' -> refs_exist resources objs'.
Proof.
  intros Hr Hs. destruct Hs as [objs r Ha]. intros chain ref Hc Href.
  destruct r as [ch|name|kind name spec|kind name|hc|name]; cbn [commit] in Hc |- *; cbn [hchains set_field] in Hc.
  - assert (validateFilters (fun k n => Ok (map_has (filters objs k) n)) ch = Ok tt) as Hv
      by (cbn [admission] in Ha; by destruct (List.find _ _)).
    apply elem_of_app in Hc as [Hc|Hc%list_elem_of_singleton].
    + apply delete_named_elem in Hc as [Hc _]. by apply (Hr chain).
    + subst. destruct (validateFilters_ok _ _ Hv ref Href) as [Hk Hg]. injection Hg as Hg. by split.
  - apply delete_named_elem in Hc as [Hc _]. by apply (Hr chain).
  - destruct (Hr chain ref Hc Href) as [Hh Hk]. split; [|done]. intros Hsub. specialize (Hh Hsub). cbn [filters set_field].
    destruct (String.eqb (frKind ref) kind); [|done]. apply map_has_spec, map_set_keys. right. by apply map_has_spec.
  - destruct (Hr chain ref Hc Href) as [Hh Hk]. split; [|done]. intros Hsub. specialize (Hh Hsub). cbn [filters set_field].
    destruct (String.eqb_spec (frKind ref) kind) as [<-|]; [|done]. apply map_has_delete. split; [done|]. intros <-.
    cbn [admission] in Ha. rewrite (bool_decide_eq_true_2 (resource _ ∈ _)), bool_decide_eq_true_2 in Ha
      by auto using known_protected. cbn [negb] in Ha.
    unfold FilterValidateDelete in Ha. cbn [result_bind] in Ha. destruct (existsb _ (hchains objs)) eqn:E; [done|].
    enough (true = false) by done. rewrite <- E. symmetry. apply existsb_elem. exists chain. split; [done|].
    apply existsb_elem. exists ref. split; [done|]. by rewrite !String.eqb_refl.
  - by apply (Hr chain).
  - by apply (Hr chain).
Qed.

Lemma serial_reachable_refs resources objs : rtc (serial_step resources) no_objects objs -> refs_exist resources objs.
Proof.
  intros Hr. assert (refs_exist resources no_objects) as H0 by (intros chain ref Hc; by apply elem_of_nil in Hc).
  induction Hr as [|x y z Hs _ IH]; [done|]. apply IH. by eapply serial_refs.
Qed.

(** ** Properties *)


(** ** Examples *)

Definition example_chain : HyperChain :=
  mkHyperChain "public" (mkHyperChainSpec [mkFilterReference "DenyFilter" "block" None] "" "" 0 "" "") "" "".
Definition example_filters : Objects := commit no_objects (PutFilter "DenyFilter" "block" (PlainSpec VNull)).
Definition example_objects : Objects := commit example_filters (PutChain example_chain).

Lemma chain_reachable : rtc (serial_step chart_resources) no_objects example_objects.
Proof.
  eapply rtc_l; [exact (serial chart_resources no_objects (PutFilter "DenyFilter" "block" (PlainSpec VNull)) eq_refl)|].
  eapply rtc_l; [exact (serial chart_resources example_filters (PutChain example_chain) eq_refl)|]. apply rtc_refl.
Qed.


(** Two overlapping requests, each admitted on what it read, can leave a reference to
    a filter that is gone. *)
Lemma admission_race : exists objs, rtc (api_step chart_resources) (no_objects, []) (objs, []) /\ ~ refs_exist chart_resources objs.
Proof.
  exists (commit (commit example_filters (PutChain example_chain)) (DeleteFilter "DenyFilter" "block")). split.
  - eapply rtc_l; [exact (api_admit chart_resources no_objects [] (PutFilter "DenyFilter" "block" (PlainSpec VNull)) eq_refl)|].
    eapply rtc_l; [exact (api_commit chart_resources no_objects [] (PutFilter "DenyFilter" "block" (PlainSpec VNull)) [])|].
    eapply rtc_l; [exact (api_admit chart_resources example_filters [] (PutChain example_chain) eq_refl)|].
    eapply rtc_l; [exact (api_admit chart_resources example_filters [PutChain example_chain] (DeleteFilter "DenyFilter" "block") eq_refl)|].
    eapply rtc_l; [exact (api_commit chart_resources example_filters [] (PutChain example_chain) [DeleteFilter "DenyFilter" "block"])|].
    eapply rtc_l; [exact (api_commit chart_resources _ [] (DeleteFilter "DenyFilter" "block") [])|]. apply rtc_refl.
  - intros H. destruct (H example_chain (mkFilterReference "DenyFilter" "block" None)) as [Hh _]; [vm_compute; left|left|].
    assert (false = true) as Hf; [|done]. apply Hh. apply (bool_decide_unpack _). vm_compute. exact I.
Qed.

(** With the plain manifests a firewall filter can be deleted under a chain that
    uses it, without any overlap: they do not submit its deletion. *)
Definition firewall_chain : HyperChain :=
  mkHyperChain "public" (mkHyperChainSpec [mkFilterReference "FirewallFilter" "waf" None] "" "" 0 "" "") "" "".

Lemma firewall_unprotected : exists objs, rtc (serial_step deploy_resources) no_objects objs /\ ~ refs_exist chart_resources objs.
Proof.
  set (objs1 := commit no_objects (PutFilter "FirewallFilter" "waf" (PlainSpec VNull))).
  set (objs2 := commit objs1 (PutChain firewall_chain)).
  exists (commit objs2 (DeleteFilter "FirewallFilter" "waf")). split.
  - eapply rtc_l; [exact (serial deploy_resources no_objects (PutFilter "FirewallFilter" "waf" (PlainSpec VNull)) eq_refl)|].
    eapply rtc_l; [exact (serial deploy_resources objs1 (PutChain firewall_chain) eq_refl)|].
    eapply rtc_l; [exact (serial deploy_resources objs2 (DeleteFilter "FirewallFilter" "waf") eq_refl)|]. apply rtc_refl.
  - intros H. destruct (H firewall_chain (mkFilterReference "FirewallFilter" "waf" None)) as [Hh _]; [vm_compute; left|left|].
    assert (false = true) as Hf; [|done]. apply Hh. apply (bool_decide_unpack _). vm_compute. exact I.
Qed.

End Webhooks.
