(* ===== verification/ExtProc.v ===== *)
(** * ExtProc: attaching engines to Envoy
    (hyper-operator/internal/controller/extproc_controller.go)

    For the Gateways and namespaces a HyperConfig lists, the controller keeps
    EnvoyExtensionPolicies, CiliumEnvoyExtProcFilters and a ReferenceGrant, removes
    the ones no longer listed, and reports HTTPRoutes whose reference cannot work.
    The objects of every kind are a map from namespace and name; desired objects
    are visited in the order of a Go map, so the statements are about every order. *)

From S2P Require Import Prelude GoStrings GoTime Config Compiler Kube.

Local Open Scope string_scope.
Local Open Scope list_scope.
Local Open Scope kube_scope.

Module ExtProc.
Import Compiler.

(** ** Kinds and objects *)

Inductive GVK : Type :=
| envoyExtensionPolicyGVK | referenceGrantGVK | httpRouteGVK | gatewayGVK | ciliumExtProcFilterGVK.
#[export] Instance GVK_eq_dec : EqDecision GVK.
Proof. solve_decision. Defined.

Definition Group (g : GVK) : string :=
  match g with
  | envoyExtensionPolicyGVK => "gateway.envoyproxy.io"
  | referenceGrantGVK | httpRouteGVK | gatewayGVK => "gateway.networking.k8s.io"
  | ciliumExtProcFilterGVK => "cilium.io"
  end.
Definition KindName (g : GVK) : string :=
  match g with
  | envoyExtensionPolicyGVK => "EnvoyExtensionPolicy"
  | referenceGrantGVK => "ReferenceGrant"
  | httpRouteGVK => "HTTPRoute"
  | gatewayGVK => "Gateway"
  | ciliumExtProcFilterGVK => "CiliumEnvoyExtProcFilter"
  end.

(** Namespace and name. *)
Abbreviation Key := (string * string)%type.

Record Object := mkObject { oSpec : Value; oLabels : gmap string string; oOwner : option string }.
#[export] Instance Object_eta : Eta Object := fun x => mkObject (oSpec x) (oLabels x) (oOwner x).

Record GatewayRef := mkGatewayRef { gwNamespace : string; gwName : string }.
Record ExtProcSpec := mkExtProcSpec {
  Gateways : list GatewayRef; Namespaces : list string; FailureMode : string; MessageTimeout : string }.

Record Condition := mkCondition {
  cType : string; cStatus : bool; cReason : string; cMessage : string; ObservedGeneration : Z; LastTransitionTime : Z }.

(** A HyperConfig with the fields this controller reads and writes. *)
Record ExtConfig := mkExtConfig { base : HyperConfig; extProc : option ExtProcSpec; Generation : Z; Conditions : list Condition }.
#[export] Instance ExtConfig_eta : Eta ExtConfig := fun x => mkExtConfig (base x) (extProc x) (Generation x) (Conditions x).

(** The API server: the kinds it serves, their objects, and the HyperConfigs. *)
Record Cluster := mkCluster { serves : GVK -> bool; objects : GVK -> gmap Key Object; hyperConfigs : list ExtConfig }.
#[export] Instance Cluster_eta : Eta Cluster := fun x => mkCluster (serves x) (objects x) (hyperConfigs x).

Definition put (k : GVK) (key : Key) (o : option Object) (c : Cluster) : Cluster :=
  c <| objects := fun k' => if decide (k' = k) then partial_alter (fun _ => o) key (objects c k') else objects c k' |>.

Definition CiliumFilterName : string := "hypergate".
Definition extProcReferenceGrantName : string := "hypergate-ext-proc".
Definition engineServiceName : string := "hyper-engine-svc".
Definition engineGRPCPort : Z := 9001.
Definition extProcRecheck : Z := (5 * Minute)%Z.
Definition labelManagedBy : string := "app.kubernetes.io/managed-by".
Definition labelHyperConfig : string := "hyper.io/hyperconfig".
Definition managedByValue : string := "hyper-operator".

(** ** Helpers of the source *)

Definition managedLabels (name : string) : gmap string string := <[labelManagedBy := managedByValue]> {[labelHyperConfig := name]}.

Definition isManagedBy (o : Object) (name : string) : bool :=
  String.eqb (default "" (oLabels o !! labelManagedBy)) managedByValue &&
  String.eqb (default "" (oLabels o !! labelHyperConfig)) name.

(** [client.MatchingLabels] *)
Definition matchingLabels (o : Object) (name : string) : bool :=
  bool_decide (oLabels o !! labelManagedBy = Some managedByValue) && bool_decide (oLabels o !! labelHyperConfig = Some name).

Definition messageTimeout (spec : ExtProcSpec) : string := if String.eqb (MessageTimeout spec) "" then "2500ms" else MessageTimeout spec.

Definition gatewayNamespaces (gws : list GatewayRef) : list string := uniqueSorted (gwNamespace <$> gws).

Definition falseCond (type reason msg : string) : Condition := mkCondition type false reason msg 0 0.
Definition trueCond (type reason msg : string) : Condition := mkCondition type true reason msg 0 0.

(** ** Desired objects *)

Definition envoyExtensionPolicy (hc : HyperConfig) (gw : GatewayRef) (engineNS : string) (spec : ExtProcSpec) : Key * Object :=
  ((gwNamespace gw, ("hypergate-" +++ gwName gw)%go),
   mkObject
     (VMap [("targetRefs", VSeq [VMap [("group", VString (Group gatewayGVK)); ("kind", VString (KindName gatewayGVK));
                                       ("name", VString (gwName gw))]]);
            ("extProc", VSeq [VMap
               [("backendRefs", VSeq [VMap [("group", VString ""); ("kind", VString "Service"); ("name", VString engineServiceName);
                                            ("namespace", VString engineNS); ("port", VInt engineGRPCPort)]]);
                ("messageTimeout", VString (messageTimeout spec));
                ("failOpen", VBool (String.eqb (FailureMode spec) "FailOpen"));
                ("processingMode", VMap
                   [("request", VMap [("attributes", VSeq [VString "source.address"; VString "destination.address"])]);
                    ("response", VMap []); ("allowModeOverride", VBool true)])]])])
     (managedLabels (hcName hc)) None).

Definition ciliumExtProcFilter (hc : HyperConfig) (namespace engineNS : string) (spec : ExtProcSpec) : Key * Object :=
  ((namespace, CiliumFilterName),
   mkObject
     (VMap [("backendRef", VMap [("name", VString engineServiceName); ("namespace", VString engineNS); ("port", VInt engineGRPCPort)]);
            ("processingMode", VMap
               [("requestHeaderMode", VString "SEND"); ("responseHeaderMode", VString "SEND");
                ("requestBodyMode", VString "NONE"); ("responseBodyMode", VString "NONE");
                ("requestTrailerMode", VString "SKIP"); ("responseTrailerMode", VString "SKIP")]);
            ("messageTimeout", VString (messageTimeout spec))])
     (managedLabels (hcName hc)) None).

(** The namespaces other than the engine's that objects of a kind may refer from. *)
Definition grant_from (k : GVK) (engineNS : string) (namespaces : list string) : list Value :=
  (fun ns => VMap [("group", VString (Group k)); ("kind", VString (KindName k)); ("namespace", VString ns)]) <$>
    List.filter (fun ns => negb (String.eqb ns engineNS)) namespaces.

Definition referenceGrant (hc : HyperConfig) (engineNS : string) (from : list Value) : Key * Object :=
  ((engineNS, extProcReferenceGrantName),
   mkObject (VMap [("from", VSeq from);
                   ("to", VSeq [VMap [("group", VString ""); ("kind", VString "Service"); ("name", VString engineServiceName)]])])
     (managedLabels (hcName hc)) None).

(** [desired[key] = p] *)
Definition set_desired (m : list (Key * Object)) (e : Key * Object) : list (Key * Object) :=
  List.filter (fun x => negb (bool_decide (x.1 = e.1))) m ++ [e].
Definition desired_of (l : list (Key * Object)) : list (Key * Object) := fold_left set_desired l [].

(** ** applyAndPrune *)

Section Reconcile.
(** The order in which a Go map is visited. *)
Variable visit : list (Key * Object) -> list (Key * Object).
Variable now : Z.

Abbreviation K := (M Cluster).

Definition installed (k : GVK) : K bool := read (fun c => serves c k).

Definition same_object (existing want : Object) : bool :=
  bool_decide (oSpec existing = oSpec want) && bool_decide (oLabels existing = oLabels want).

Definition apply_one (hc : HyperConfig) (k : GVK) (e : Key * Object) : K () :=
  let want := e.2 <| oOwner := Some (hcName hc) |> in
  let! existing := read (fun c => objects c k !! e.1) in
  match existing with
  | None => write (put k e.1 (Some want))
  | Some o =>
      if negb (isManagedBy o (hcName hc)) then fail "exists and is not managed by HyperConfig"
      else if same_object o want then ret tt
      else write (put k e.1 (Some (o <| oSpec := oSpec want |> <| oLabels := oLabels want |> <| oOwner := oOwner want |>)))
  end.

Definition prune_one (k : GVK) (desired : list (Key * Object)) (key : Key) : K () :=
  if bool_decide (key ∈ desired.*1) then ret tt else write (put k key None).

(** The keys the label selector finds. *)
Definition listed (hc : HyperConfig) (k : GVK) (c : Cluster) : list Key :=
  (List.filter (fun e => matchingLabels e.2 (hcName hc)) (map_to_list (objects c k))).*1.

Definition applyAndPrune (hc : HyperConfig) (k : GVK) (desired : list (Key * Object)) : K () :=
  let! _ := each (apply_one hc k) (visit desired) in
  let! keys := read (listed hc k) in
  each (prune_one k desired) keys.

(** ** Envoy Gateway, Cilium, ReferenceGrant *)

Definition slash (a b : string) : string := (a +++ "/" +++ b)%go.

(** The Gateways that do not exist, found one by one. *)
Fixpoint missing_gateways (check : bool) (gws : list GatewayRef) : K (list string) :=
  match gws with
  | [] => ret []
  | gw :: gws =>
      let! m := (if check then
                   let! o := read (fun c => objects c gatewayGVK !! (gwNamespace gw, gwName gw)) in
                   ret (match o with None => [slash (gwNamespace gw) (gwName gw)] | Some _ => [] end)
                 else ret []) in
      let! ms := missing_gateways check gws in
      ret (m ++ ms)
  end.

Definition reconcileEnvoyGateway (hc : HyperConfig) (spec : ExtProcSpec) (engineNS : string) : K (Condition * list string) :=
  let cond := "EnvoyGatewayPolicies" in
  let! ok := installed envoyExtensionPolicyGVK in
  if negb ok then
    ret (if nonempty (Gateways spec)
         then falseCond cond "CRDNotInstalled" "extProc.gateways is set but Envoy Gateway's EnvoyExtensionPolicy CRD is not installed"
         else falseCond cond "NotConfigured" "no Gateways listed in extProc.gateways", [])
  else
    let! gatewaysInstalled := installed gatewayGVK in
    let! missing := missing_gateways gatewaysInstalled (Gateways spec) in
    let! _ := applyAndPrune hc envoyExtensionPolicyGVK
                (desired_of ((fun gw => envoyExtensionPolicy hc gw engineNS spec) <$> Gateways spec)) in
    ret (if negb (nonempty (Gateways spec)) then (falseCond cond "NotConfigured" "no Gateways listed in extProc.gateways", [])
         else if nonempty missing then
           (falseCond cond "GatewayNotFound"
              ("EnvoyExtensionPolicies created, but these Gateways do not exist: " +++ Join missing ", ")%go, gatewayNamespaces (Gateways spec))
         else (trueCond cond "Applied" ("EnvoyExtensionPolicy applied to " +++ Itoa (Z.of_nat (length (Gateways spec))) +++ " Gateway(s)")%go,
               gatewayNamespaces (Gateways spec))).

Definition reconcileCilium (hc : HyperConfig) (spec : ExtProcSpec) (engineNS : string) : K (Condition * list string) :=
  let cond := "CiliumFilters" in
  let! ok := installed ciliumExtProcFilterGVK in
  if negb ok then
    ret (if nonempty (Namespaces spec)
         then falseCond cond "CRDNotInstalled" "waiting for Cilium's CiliumEnvoyExtProcFilter CRD (cilium/cilium#46479); filters are created once it is installed"
         else falseCond cond "NotConfigured" "no namespaces listed in extProc.namespaces", [])
  else
    let desired := desired_of ((fun ns => ciliumExtProcFilter hc ns engineNS spec) <$> uniqueSorted (Namespaces spec)) in
    let! _ := applyAndPrune hc ciliumExtProcFilterGVK desired in
    ret (if negb (nonempty desired) then (falseCond cond "NotConfigured" "no namespaces listed in extProc.namespaces", [])
         else (trueCond cond "Applied"
                 ("CiliumEnvoyExtProcFilter " +++ quoted CiliumFilterName +++ " present in " +++ Itoa (Z.of_nat (length desired)) +++ " namespace(s)")%go,
               uniqueSorted (Namespaces spec))).

Definition reconcileReferenceGrant (hc : HyperConfig) (engineNS : string) (egNamespaces ciliumNamespaces : list string) : K () :=
  let! ok := installed referenceGrantGVK in
  if negb ok then ret tt
  else
    let from := grant_from envoyExtensionPolicyGVK engineNS egNamespaces ++ grant_from ciliumExtProcFilterGVK engineNS ciliumNamespaces in
    applyAndPrune hc referenceGrantGVK (if nonempty from then desired_of [referenceGrant hc engineNS from] else []).

(** ** HTTPRoutes *)

Definition references_filter (f : Value) : bool :=
  match field f "extensionRef" with
  | Some (VMap ref) =>
      bool_decide (map_get ref "group" = Some (VString (Group ciliumExtProcFilterGVK))) &&
      bool_decide (map_get ref "kind" = Some (VString (KindName ciliumExtProcFilterGVK))) &&
      bool_decide (map_get ref "name" = Some (VString CiliumFilterName))
  | _ => false
  end.

Definition referencesHypergateFilter (route : Object) : bool :=
  existsb (fun rule => existsb references_filter (items (field rule "filters"))) (items (field (oSpec route) "rules")).

(** What is wrong with a route that refers to the filter; empty when nothing is. *)
Definition route_problem (spec : ExtProcSpec) (ciliumOK : bool) (key : Key) : string :=
  if negb (bool_decide (key.1 ∈ Namespaces spec)) then
    ("namespace " +++ quoted key.1 +++ " is not listed in a HyperConfig's extProc.namespaces, so the " +++ quoted CiliumFilterName +++
     " filter is not created there")%go
  else if negb ciliumOK then "the CiliumEnvoyExtProcFilter CRD is not installed (waiting for cilium/cilium#46479)"
  else "".

Definition referencing (c : Cluster) : list Key :=
  (List.filter (fun e => referencesHypergateFilter e.2) (map_to_list (objects c httpRouteGVK))).*1.

Definition route_problems (spec : ExtProcSpec) (ciliumOK : bool) (routes : list Key) : list string :=
  (fun key => slash key.1 key.2 +++ ": " +++ route_problem spec ciliumOK key)%go <$>
    List.filter (fun key => negb (String.eqb (route_problem spec ciliumOK key) "")) routes.

Definition checkHTTPRoutes (spec : ExtProcSpec) : K Condition :=
  let cond := "HTTPRoutes" in
  let! ok := installed httpRouteGVK in
  if negb ok then ret (falseCond cond "CRDNotInstalled" "Gateway API HTTPRoute CRD is not installed")
  else
    let! ciliumOK := installed ciliumExtProcFilterGVK in
    let! routes := read referencing in
    let problems := route_problems spec ciliumOK routes in
    ret (if nonempty problems then falseCond cond "InvalidReferences" (Join (sort_strings problems) "; ")
         else trueCond cond "Valid" (Itoa (Z.of_nat (length routes)) +++ " HTTPRoute(s) reference the Hypergate filter")%go).

(** ** Status *)

Definition same_condition (old new : Condition) : bool :=
  Bool.eqb (cStatus old) (cStatus new) && String.eqb (cReason old) (cReason new) && String.eqb (cMessage old) (cMessage new) &&
  Z.eqb (ObservedGeneration old) (ObservedGeneration new).

(** [meta.SetStatusCondition]: the conditions and whether they changed. *)
Fixpoint SetStatusCondition (l : list Condition) (new : Condition) : list Condition * bool :=
  match l with
  | [] => ([mkCondition (cType new) (cStatus new) (cReason new) (cMessage new) (ObservedGeneration new) now], true)
  | old :: l =>
      if String.eqb (cType old) (cType new) then
        (mkCondition (cType old) (cStatus new) (cReason new) (cMessage new) (ObservedGeneration new)
           (if Bool.eqb (cStatus old) (cStatus new) then LastTransitionTime old else now) :: l, negb (same_condition old new))
      else let '(l', changed) := SetStatusCondition l new in (old :: l', changed)
  end.

Definition set_condition (gen : Z) (acc : list Condition * bool) (c : Condition) : list Condition * bool :=
  let '(l, changed) := SetStatusCondition acc.1 (mkCondition (cType c) (cStatus c) (cReason c) (cMessage c) gen 0) in
  (l, acc.2 || changed).

Definition setConditions (hc : ExtConfig) (conds : list Condition) : K () :=
  let '(l, changed) := fold_left (set_condition (Generation hc)) conds (Conditions hc, false) in
  if negb changed then ret tt
  else write (fun c => c <| hyperConfigs := (fun x => if String.eqb (hcName (base x)) (hcName (base hc)) then x <| Conditions := l |> else x) <$> hyperConfigs c |>).

(** ** Reconcile *)

(** [Some d]: requeue after [d]. *)
Definition Reconcile (name : string) : K (option Z) :=
  let! hc := read (fun c => List.find (fun x => String.eqb (hcName (base x)) name) (hyperConfigs c)) in
  match hc with
  | None => ret None
  | Some hc =>
      let! all := read (fun c => base <$> hyperConfigs c) in
      if negb (String.eqb (default "" (map_get (activeHyperConfigs all).2 name)) "") then ret None
      else
        let spec := default (mkExtProcSpec [] [] "" "") (extProc hc) in
        let engineNS := targetNamespaceOf (base hc) in
        let! eg := reconcileEnvoyGateway (base hc) spec engineNS in
        let! ci := reconcileCilium (base hc) spec engineNS in
        let! _ := reconcileReferenceGrant (base hc) engineNS eg.2 ci.2 in
        let! rc := checkHTTPRoutes spec in
        let! _ := setConditions hc [eg.1; ci.1; rc] in
        ret (Some extProcRecheck)
  end.
End Reconcile.

(** ** Which events lead to which reconciliations (SetupWithManager) *)

Definition owner_requests (o : Object) : list string :=
  match oLabels o !! labelHyperConfig with
  | Some name => if negb (String.eqb name "") && String.eqb (default "" (oLabels o !! labelManagedBy)) managedByValue then [name] else []
  | None => []
  end.
Definition all_requests (c : Cluster) : list string := (fun x => hcName (base x)) <$> hyperConfigs c.

(** ** What a reconciliation may change, and what it achieves *)

(** Only objects this HyperConfig manages come, change or go; Gateways, HTTPRoutes
    and the HyperConfigs' specs stay. *)
Record changes_only (name : string) (c c' : Cluster) : Prop := {
  co_foreign : forall k key o, objects c k !! key = Some o -> isManagedBy o name = false -> objects c' k !! key = Some o;
  co_own : forall k key o, objects c' k !! key = Some o -> objects c k !! key = Some o \/ isManagedBy o name = true;
  co_readonly : objects c' httpRouteGVK = objects c httpRouteGVK /\ objects c' gatewayGVK = objects c gatewayGVK;
  co_serves : serves c' = serves c;
  co_configs : (fun x => (base x, extProc x, Generation x)) <$> hyperConfigs c' = (fun x => (base x, extProc x, Generation x)) <$> hyperConfigs c
}.

(** The same, with everything but the objects of kind [k] untouched. *)
Record within (name : string) (k : GVK) (c c' : Cluster) : Prop := {
  wi_foreign : forall key o, objects c k !! key = Some o -> isManagedBy o name = false -> objects c' k !! key = Some o;
  wi_own : forall key o, objects c' k !! key = Some o -> objects c k !! key = Some o \/ isManagedBy o name = true;
  wi_other : forall k', k' <> k -> objects c' k' = objects c k';
  wi_serves : serves c' = serves c;
  wi_configs : hyperConfigs c' = hyperConfigs c
}.

(** The objects of a kind that carry the HyperConfig's labels are the desired ones. *)
Definition converged (name : string) (k : GVK) (desired : list (Key * Object)) (c : Cluster) : Prop :=
  (forall key o, objects c k !! key = Some o -> matchingLabels o name = true -> key ∈ desired.*1) /\
  (forall e, e ∈ desired -> exists o, objects c k !! e.1 = Some o /\ oSpec o = oSpec e.2 /\ oLabels o = oLabels e.2).

(** ** Lemmas *)

Lemma matching_managed o name : matchingLabels o name = true -> isManagedBy o name = true.
Proof.
  unfold matchingLabels, isManagedBy. intros H. bool_hyps. rewrite H, H0. cbn. by rewrite String.eqb_refl.
Qed.

Lemma managedLabels_managed o name : oLabels o = managedLabels name -> isManagedBy o name = true /\ matchingLabels o name = true.
Proof.
  intros E. assert (matchingLabels o name = true) as H; [|by split; [apply matching_managed|]].
  unfold matchingLabels. rewrite E. unfold managedLabels. rewrite lookup_insert_eq, lookup_insert_ne, lookup_singleton_eq by done.
  by rewrite !bool_decide_eq_true_2.
Qed.

Lemma within_refl name k c : within name k c c.
Proof. split; auto. Qed.

Lemma within_trans name k c1 c2 c3 : within name k c1 c2 -> within name k c2 c3 -> within name k c1 c3.
Proof.
  intros [A1 A2 A3 A4 A5] [B1 B2 B3 B4 B5]. split; try congruence.
  - eauto.
  - intros key o [H|H]%B2; [by apply A2|by right].
  - intros k' Hk. by rewrite B3, A3.
Qed.

Lemma changes_refl name c : changes_only name c c.
Proof. split; auto. Qed.

Lemma changes_trans name c1 c2 c3 : changes_only name c1 c2 -> changes_only name c2 c3 -> changes_only name c1 c3.
Proof.
  intros [A1 A2 [A3 A3'] A4 A5] [B1 B2 [B3 B3'] B4 B5]. split; try congruence.
  - eauto.
  - intros k key o [H|H]%B2; [by apply A2|by right].
  - split; congruence.
Qed.

Lemma within_changes name k c c' : k <> httpRouteGVK -> k <> gatewayGVK -> within name k c c' -> changes_only name c c'.
Proof.
  intros H1 H2 [A1 A2 A3 A4 A5]. split; [| |by rewrite !A3 by done|done|by rewrite A5].
  - intros k' key o. destruct (decide (k' = k)) as [->|]; [by apply A1|]. by rewrite A3.
  - intros k' key o. destruct (decide (k' = k)) as [->|]; [by apply A2|]. rewrite A3 by done. by left.
Qed.

Lemma put_lookup k key o c key' : objects (put k key o c) k !! key' = if decide (key' = key) then o else objects c k !! key'.
Proof.
  unfold put. cbn [objects set_field]. rewrite decide_True by done. destruct (decide (key' = key)) as [->|].
  - apply lookup_partial_alter_eq.
  - by apply lookup_partial_alter_ne.
Qed.

Lemma put_other k key o c k' : k' <> k -> objects (put k key o c) k' = objects c k'.
Proof. intros H. unfold put. cbn [objects set_field]. by rewrite decide_False. Qed.

(** Writing an own object where there was none or an own one. *)
Lemma put_within name k key o c :
  (forall x, objects c k !! key = Some x -> isManagedBy x name = true) -> (forall x, o = Some x -> isManagedBy x name = true) ->
  within name k c (put k key o c).
Proof.
  intros Hold Hnew. split; try done.
  - intros key' x Hx Hm. rewrite put_lookup. destruct (decide (key' = key)) as [->|]; [|done]. apply Hold in Hx. congruence.
  - intros key' x. rewrite put_lookup. destruct (decide (key' = key)); [right; by apply Hnew|by left].
  - intros k' Hk. by apply put_other.
Qed.

Section Apply.
Variable hc : HyperConfig.
Variable k : GVK.
Let name := hcName hc.

Definition good (c : Cluster) (e : Key * Object) : Prop :=
  exists o, objects c k !! e.1 = Some o /\ oSpec o = oSpec e.2 /\ oLabels o = oLabels e.2.

Lemma apply_one_spec c e : oLabels e.2 = managedLabels name ->
  triple (eq c) (apply_one hc k e) (fun r c' => within name k c c' /\
    (forall key, key <> e.1 -> objects c' k !! key = objects c k !! key) /\ (is_ok r = true -> good c' e)).
Proof.
  intros Hl. unfold apply_one.
  apply (triple_bind _ _ _ (fun o c' => c' = c /\ o = objects c k !! e.1)).
  - eapply triple_pre; [|apply triple_read]. intros c' <-. split; [done|]. intros err. split; [apply within_refl|done].
  - intros [o|]; [destruct (isManagedBy o (hcName hc)) eqn:Em; cbn [negb]; [destruct (same_object _ _) eqn:Es|]|].
    + eapply triple_pre; [|apply triple_ret]. intros c' [-> E]. split; [apply within_refl|]. split; [done|]. intros _.
      unfold same_object in Es. bool_hyps. by exists o.
    + eapply triple_pre; [|apply triple_write]. intros c' [-> E]. split; [|intros err; split; [apply within_refl|done]]. split; [|split].
      * apply put_within; [intros x Hx; rewrite Hx in E; by injection E as ->|]. intros x [= <-]. by apply managedLabels_managed.
      * intros key Hk. rewrite put_lookup. by destruct (decide (key = e.1)).
      * intros _. eexists. rewrite put_lookup, decide_True by done. done.
    + eapply triple_pre; [|apply triple_fail]. intros c' [-> E]. split; [apply within_refl|done].
    + eapply triple_pre; [|apply triple_write]. intros c' [-> E]. split; [|intros err; split; [apply within_refl|done]]. split; [|split].
      * apply put_within; [intros x Hx; rewrite Hx in E; done|]. intros x [= <-]. by apply managedLabels_managed.
      * intros key Hk. rewrite put_lookup. by destruct (decide (key = e.1)).
      * intros _. eexists. rewrite put_lookup, decide_True by done. done.
Qed.

Lemma apply_all_spec l c : Forall (fun e => oLabels e.2 = managedLabels name) l -> NoDup l.*1 ->
  triple (eq c) (each (apply_one hc k) l) (fun r c' => within name k c c' /\
    (forall key, key ∉ l.*1 -> objects c' k !! key = objects c k !! key) /\ (is_ok r = true -> Forall (good c') l)).
Proof.
  revert c. induction l as [|e l IH]; intros c Hl Hn.
  - eapply triple_pre; [|apply triple_ret]. intros c' <-. split; [apply within_refl|]. by split.
  - apply Forall_cons in Hl as [He Hl]. apply NoDup_cons in Hn as [Hfresh Hn]. cbn [each].
    apply (triple_bind _ _ _ (fun _ c' => within name k c c' /\ (forall key, key <> e.1 -> objects c' k !! key = objects c k !! key) /\ good c' e)).
    + eapply triple_post; [by apply apply_one_spec|]. intros [u|err] c' (H1 & H2 & H3); [auto|].
      split; [done|]. split; [|done]. intros key Hk. apply H2. set_solver.
    + intros _ s (H1 & H2 & H3). destruct (IH (cluster s) Hl Hn s eq_refl) as (H4 & H5 & H6).
      split; [by eapply within_trans|]. split.
      * intros key Hk. rewrite H5, H2; set_solver.
      * intros Hok. constructor; [|by apply H6]. unfold good in *. by rewrite H5.
Qed.

Lemma prune_all_spec desired keys c : (forall key o, key ∈ keys -> objects c k !! key = Some o -> isManagedBy o name = true) ->
  triple (eq c) (each (prune_one k desired) keys) (fun r c' => within name k c c' /\
    (forall key, key ∈ desired.*1 \/ key ∉ keys -> objects c' k !! key = objects c k !! key) /\
    (is_ok r = true -> forall key, key ∈ keys -> key ∈ desired.*1 \/ objects c' k !! key = None)).
Proof.
  revert c. induction keys as [|x keys IH]; intros c Hm.
  - eapply triple_pre; [|apply triple_ret]. intros c' <-. split; [apply within_refl|]. split; [done|]. intros _ key Hk. by apply elem_of_nil in Hk.
  - cbn [each]. apply (triple_bind _ _ _ (fun _ c' => within name k c c' /\
      (forall key, key ∈ desired.*1 \/ key <> x -> objects c' k !! key = objects c k !! key) /\ (x ∈ desired.*1 \/ objects c' k !! x = None))).
    + unfold prune_one. case_bool_decide as Hd.
      * eapply triple_pre; [|apply triple_ret]. intros c' <-. split; [apply within_refl|]. split; [done|by left].
      * eapply triple_pre; [|apply triple_write]. intros c' <-. split; [|intros err; split; [apply within_refl|done]]. split; [|split].
        -- apply put_within; [|done]. intros o Ho. eapply Hm; [by left|done].
        -- intros key Hk. rewrite put_lookup. destruct (decide (key = x)) as [->|]; [|done]. by destruct Hk.
        -- right. by rewrite put_lookup, decide_True.
    + intros _ s (H1 & H2 & H3).
      assert (forall key o, key ∈ keys -> objects (cluster s) k !! key = Some o -> isManagedBy o name = true) as Hm'.
      { intros key o Hk Ho. destruct (wi_own _ _ _ _ H1 _ _ Ho) as [Ho'|]; [|done]. eapply Hm; [by right|exact Ho']. }
      destruct (IH (cluster s) Hm' s eq_refl) as (H4 & H5 & H6). split; [by eapply within_trans|]. split.
      * intros key Hk. rewrite H5, H2; set_solver.
      * intros Hok key [->|Hk]%elem_of_cons; [|by apply H6]. destruct H3 as [|H3]; [by left|].
        destruct (decide (x ∈ keys)) as [Hx|Hx]; [by apply H6|]. right. rewrite H5; [done|by right].
Qed.
End Apply.

Lemma listed_spec hc k c key : key ∈ listed hc k c <-> exists o, objects c k !! key = Some o /\ matchingLabels o (hcName hc) = true.
Proof.
  unfold listed. rewrite list_elem_of_fmap. setoid_rewrite list_elem_of_In. setoid_rewrite filter_In. setoid_rewrite <- list_elem_of_In.
  split.
  - intros ([key' o] & -> & Hin & Hm). exists o. split; [by apply elem_of_map_to_list|done].
  - intros (o & Ho & Hm). exists (key, o). split; [done|]. split; [by apply elem_of_map_to_list|done].
Qed.

Lemma set_desired_keys m e : NoDup m.*1 -> NoDup (set_desired m e).*1.
Proof.
  intros H. unfold set_desired. rewrite fmap_app. apply NoDup_app. split; [|split; [|apply NoDup_singleton]].
  - induction m as [|x m IH]; [done|]. cbn [fmap list_fmap] in H. apply NoDup_cons in H as [Hx H]. cbn [List.filter].
    destruct (negb _); [|by apply IH]. cbn [fmap list_fmap]. apply NoDup_cons. split; [|by apply IH].
    intros (y & E & [Hy _]%list_elem_of_In%filter_In)%list_elem_of_fmap. apply Hx, list_elem_of_fmap. exists y. by rewrite list_elem_of_In.
  - intros key (y & -> & [_ Hy]%list_elem_of_In%filter_In)%list_elem_of_fmap E%list_elem_of_singleton. bool_hyps. done.
Qed.

Lemma set_desired_elem m e x : x ∈ set_desired m e -> x = e \/ x ∈ m.
Proof.
  unfold set_desired. intros [[Hx _]%list_elem_of_In%filter_In|Hx%list_elem_of_singleton]%elem_of_app; [right; by apply list_elem_of_In|by left].
Qed.

Lemma set_desired_key m e key : key ∈ (set_desired m e).*1 <-> key = e.1 \/ key ∈ m.*1.
Proof.
  unfold set_desired. rewrite fmap_app, elem_of_app. cbn. rewrite list_elem_of_singleton. rewrite !list_elem_of_fmap.
  setoid_rewrite list_elem_of_In. setoid_rewrite filter_In. split.
  - intros [(y & -> & Hy & _)|]; [right; by exists y|by left].
  - intros [|(y & -> & Hy)]; [by right|]. destruct (decide (y.1 = e.1)) as [E|E]; [by right|left].
    exists y. split; [done|]. split; [done|]. by rewrite bool_decide_eq_false_2.
Qed.

Lemma desired_of_nodup l : NoDup (desired_of l).*1.
Proof.
  unfold desired_of. induction l as [|e l IH] using rev_ind; [constructor|]. rewrite fold_left_app. by apply set_desired_keys.
Qed.

Lemma desired_of_elem l x : x ∈ desired_of l -> x ∈ l.
Proof.
  unfold desired_of. induction l as [|e l IH] using rev_ind; [done|]. rewrite fold_left_app, elem_of_app.
  intros [->|?]%set_desired_elem; [right; by left|left; auto].
Qed.

Lemma desired_of_key l key : key ∈ (desired_of l).*1 <-> key ∈ l.*1.
Proof.
  unfold desired_of. induction l as [|e l IH] using rev_ind; [done|]. rewrite fold_left_app. cbn [fold_left].
  rewrite set_desired_key, IH, fmap_app, elem_of_app. cbn. rewrite list_elem_of_singleton. tauto.
Qed.

Section Prune.
Variable visit : list (Key * Object) -> list (Key * Object).
Hypothesis visit_perm : forall l, visit l ≡ₚ l.

Definition own_labels (name : string) (l : list (Key * Object)) : Prop := Forall (fun e => oLabels e.2 = managedLabels name) l.

Lemma applyAndPrune_spec hc k desired c : own_labels (hcName hc) desired -> NoDup desired.*1 ->
  triple (eq c) (applyAndPrune visit hc k desired) (fun r c' => within (hcName hc) k c c' /\
    (is_ok r = true -> converged (hcName hc) k desired c')).
Proof.
  intros Hl Hn. unfold applyAndPrune.
  apply (triple_bind _ _ _ (fun _ c' => within (hcName hc) k c c' /\ Forall (good k c') desired)).
  - eapply triple_post; [apply (apply_all_spec hc k (visit desired) c)|].
    + unfold own_labels in Hl. by rewrite visit_perm.
    + by rewrite visit_perm.
    + intros [u|e] c' (H1 & _ & H3); [|done]. split; [done|]. rewrite <- (visit_perm desired). by apply H3.
  - intros _ s [H1 H2].
    apply (triple_bind (eq (cluster s)) (read (listed hc k)) _ (fun keys c' => c' = cluster s /\ keys = listed hc k (cluster s))); [| |done].
    + eapply triple_pre; [|apply triple_read]. by intros c' <-.
    + intros keys. intros s' [Hc' ->].
      edestruct (prune_all_spec hc k desired (listed hc k (cluster s)) (cluster s) ltac:(intros key o (o' & Ho & Hm)%listed_spec Ho'; rewrite Ho in Ho';
        injection Ho' as <-; by apply matching_managed) s') as (H4 & H5 & H6); [done|].
      split; [by eapply within_trans|]. intros Hok. split.
      * intros key o Ho Hm. destruct (decide (key ∈ listed hc k (cluster s))) as [Hk|Hk].
        -- destruct (H6 Hok key Hk) as [|E]; [done|congruence].
        -- exfalso. apply Hk, listed_spec. exists o. split; [|done]. rewrite <- H5; [done|by right].
      * intros e He. rewrite Forall_forall in H2. destruct (H2 e He) as (o & Ho & Hsame). exists o. split; [|done].
        rewrite H5; [done|]. left. apply list_elem_of_fmap. by exists e.
Qed.

(** Nothing to do in a converged cluster. *)
Lemma applyAndPrune_settled hc k desired : own_labels (hcName hc) desired ->
  settled (converged (hcName hc) k desired) (applyAndPrune visit hc k desired) (fun _ => True).
Proof.
  intros Hl. unfold applyAndPrune. eapply settled_bind; [apply settled_each|].
  - intros e He s [Hc1 Hc2] Ho. rewrite visit_perm in He. destruct (Hc2 e He) as (o & Hlk & Hs & Hlab). exists tt. split; [|done].
    unfold own_labels in Hl. rewrite Forall_forall in Hl.
    assert (isManagedBy o (hcName hc) = true) as Hm by (apply managedLabels_managed; rewrite Hlab; by apply Hl).
    unfold apply_one, bind, read, bind, call. rewrite Ho, Hlk, Hm. cbn [negb]. unfold same_object. cbn [oSpec oLabels set_field].
    by rewrite !bool_decide_eq_true_2.
  - intros _ _. eapply settled_bind; [apply (settled_read _ _ (fun keys => forall key, key ∈ keys -> key ∈ desired.*1))|].
    + intros c [Hc1 _] key (o & Ho & Hm)%listed_spec. by eapply Hc1.
    + intros keys Hk. apply settled_each. intros key Hin s _ _. exists tt. split; [|done]. unfold prune_one.
      by rewrite bool_decide_eq_true_2 by auto.
Qed.
End Prune.

(** ** The parts of a reconciliation *)

Definition eg_desired (hc : HyperConfig) (spec : ExtProcSpec) (engineNS : string) : list (Key * Object) :=
  desired_of ((fun gw => envoyExtensionPolicy hc gw engineNS spec) <$> Gateways spec).
Definition ci_desired (hc : HyperConfig) (spec : ExtProcSpec) (engineNS : string) : list (Key * Object) :=
  desired_of ((fun ns => ciliumExtProcFilter hc ns engineNS spec) <$> uniqueSorted (Namespaces spec)).
Definition grants (engineNS : string) (egs cis : list string) : list Value :=
  grant_from envoyExtensionPolicyGVK engineNS egs ++ grant_from ciliumExtProcFilterGVK engineNS cis.
Definition grant_desired (hc : HyperConfig) (engineNS : string) (egs cis : list string) : list (Key * Object) :=
  if nonempty (grants engineNS egs cis) then desired_of [referenceGrant hc engineNS (grants engineNS egs cis)] else [].

(** The results as functions of the cluster they were read from. *)
Definition missing_in (check : bool) (gateways : gmap Key Object) (gws : list GatewayRef) : list string :=
  gws ≫= fun gw => if check then match gateways !! (gwNamespace gw, gwName gw) with
                                 | None => [slash (gwNamespace gw) (gwName gw)]
                                 | Some _ => []
                                 end
                   else [].

Definition eg_result (sv : GVK -> bool) (gateways : gmap Key Object) (spec : ExtProcSpec) : Condition * list string :=
  let cond := "EnvoyGatewayPolicies" in
  if negb (sv envoyExtensionPolicyGVK) then
    (if nonempty (Gateways spec)
     then falseCond cond "CRDNotInstalled" "extProc.gateways is set but Envoy Gateway's EnvoyExtensionPolicy CRD is not installed"
     else falseCond cond "NotConfigured" "no Gateways listed in extProc.gateways", [])
  else if negb (nonempty (Gateways spec)) then (falseCond cond "NotConfigured" "no Gateways listed in extProc.gateways", [])
  else
    let missing := missing_in (sv gatewayGVK) gateways (Gateways spec) in
    if nonempty missing then
      (falseCond cond "GatewayNotFound"
         ("EnvoyExtensionPolicies created, but these Gateways do not exist: " +++ Join missing ", ")%go, gatewayNamespaces (Gateways spec))
    else (trueCond cond "Applied" ("EnvoyExtensionPolicy applied to " +++ Itoa (Z.of_nat (length (Gateways spec))) +++ " Gateway(s)")%go,
          gatewayNamespaces (Gateways spec)).

Definition ci_result (sv : GVK -> bool) (hc : HyperConfig) (spec : ExtProcSpec) (engineNS : string) : Condition * list string :=
  let cond := "CiliumFilters" in
  if negb (sv ciliumExtProcFilterGVK) then
    (if nonempty (Namespaces spec)
     then falseCond cond "CRDNotInstalled" "waiting for Cilium's CiliumEnvoyExtProcFilter CRD (cilium/cilium#46479); filters are created once it is installed"
     else falseCond cond "NotConfigured" "no namespaces listed in extProc.namespaces", [])
  else if negb (nonempty (ci_desired hc spec engineNS)) then (falseCond cond "NotConfigured" "no namespaces listed in extProc.namespaces", [])
  else (trueCond cond "Applied"
          ("CiliumEnvoyExtProcFilter " +++ quoted CiliumFilterName +++ " present in " +++ Itoa (Z.of_nat (length (ci_desired hc spec engineNS))) +++ " namespace(s)")%go,
        uniqueSorted (Namespaces spec)).

Definition routes_result (sv : GVK -> bool) (c : Cluster) (spec : ExtProcSpec) : Condition :=
  let cond := "HTTPRoutes" in
  if negb (sv httpRouteGVK) then falseCond cond "CRDNotInstalled" "Gateway API HTTPRoute CRD is not installed"
  else
    let problems := route_problems spec (sv ciliumExtProcFilterGVK) (referencing c) in
    if nonempty problems then falseCond cond "InvalidReferences" (Join (sort_strings problems) "; ")
    else trueCond cond "Valid" (Itoa (Z.of_nat (length (referencing c))) +++ " HTTPRoute(s) reference the Hypergate filter")%go.

Lemma labels_desired {A : Type} name (f : A -> Key * Object) l : (forall x, oLabels (f x).2 = managedLabels name) -> own_labels name (desired_of (f <$> l)).
Proof. intros Hf. apply Forall_forall. intros e (x & -> & _)%desired_of_elem%list_elem_of_fmap. apply Hf. Qed.

Lemma eg_labels hc spec ns : own_labels (hcName hc) (eg_desired hc spec ns).
Proof. by apply labels_desired. Qed.
Lemma ci_labels hc spec ns : own_labels (hcName hc) (ci_desired hc spec ns).
Proof. by apply labels_desired. Qed.
Lemma grant_labels hc ns egs cis : own_labels (hcName hc) (grant_desired hc ns egs cis).
Proof. unfold grant_desired. destruct (nonempty _); repeat constructor. Qed.
Lemma grant_nodup hc ns egs cis : NoDup (grant_desired hc ns egs cis).*1.
Proof. unfold grant_desired. destruct (nonempty _); [apply desired_of_nodup|constructor]. Qed.

(** A read whose result is known. *)
Lemma triple_read_eq {S A B : Type} (f : S -> A) (k : A -> M S B) c Q :
  triple (eq c) (k (f c)) Q -> (forall e, Q (Err e) c) -> triple (eq c) (bind (read f) k) Q.
Proof.
  intros Hk He. apply (triple_bind _ _ _ (fun a c' => c' = c /\ a = f c)).
  - eapply triple_pre; [|apply triple_read]. intros c' <-. split; [done|]. intros e. apply He.
  - intros a s [Hc ->]. by apply Hk.
Qed.

Lemma triple_ret_eq {S A : Type} (a : A) c (Q : result A -> S -> Prop) : Q (Ok a) c -> triple (eq c) (ret a) Q.
Proof. intros H s Hs. cbn [ret fst snd]. by rewrite <- Hs. Qed.

Lemma missing_spec check gws c :
  triple (eq c) (missing_gateways check gws) (fun r c' => c' = c /\ forall m, r = Ok m -> m = missing_in check (objects c gatewayGVK) gws).
Proof.
  induction gws as [|gw gws IH]; [apply triple_ret_eq; split; [done|]; by intros m [= <-]|]. cbn [missing_gateways].
  set (m1 := if check then match objects c gatewayGVK !! (gwNamespace gw, gwName gw) with
                           | None => [slash (gwNamespace gw) (gwName gw)] | Some _ => [] end else []).
  apply (triple_bind _ _ _ (fun m c' => c' = c /\ m = m1)).
  - destruct check; [|by apply triple_ret_eq]. apply triple_read_eq; [by apply triple_ret_eq|done].
  - intros m s [Hc ->]. symmetry in Hc. revert s Hc. change (triple (eq c) (bind (missing_gateways check gws) (fun ms => ret (m1 ++ ms)))
      (fun r c' => c' = c /\ forall m, r = Ok m -> m = missing_in check (objects c gatewayGVK) (gw :: gws))).
    apply (triple_bind _ _ _ (fun ms c' => c' = c /\ ms = missing_in check (objects c gatewayGVK) gws)).
    + eapply triple_post; [exact IH|]. intros [ms|e] c' [-> Hm]; [|done]. split; [done|by apply Hm].
    + intros ms s [Hc ->]. split; [exact Hc|]. cbn. by intros m [= <-].
Qed.

Section Parts.
Variable visit : list (Key * Object) -> list (Key * Object).
Hypothesis visit_perm : forall l, visit l ≡ₚ l.

Lemma eg_spec hc spec ns c :
  triple (eq c) (reconcileEnvoyGateway visit hc spec ns) (fun r c' => within (hcName hc) envoyExtensionPolicyGVK c c' /\
    forall a, r = Ok a -> a = eg_result (serves c) (objects c gatewayGVK) spec /\
      (serves c envoyExtensionPolicyGVK = true -> converged (hcName hc) envoyExtensionPolicyGVK (eg_desired hc spec ns) c')).
Proof.
  unfold reconcileEnvoyGateway, eg_result. apply triple_read_eq; [|intros e; split; [apply within_refl|done]].
  destruct (serves c envoyExtensionPolicyGVK) eqn:E; cbn [negb].
  2: { apply triple_ret_eq. split; [apply within_refl|]. by intros a [= <-]. }
  apply triple_read_eq; [|intros e; split; [apply within_refl|done]].
  apply (triple_bind _ _ _ (fun m c' => c' = c /\ m = missing_in (serves c gatewayGVK) (objects c gatewayGVK) (Gateways spec))).
  - eapply triple_post; [apply missing_spec|]. intros [m|e] c' [-> Hm]; [by split; [|apply Hm]|]. split; [apply within_refl|done].
  - intros m s [Hc ->].
    apply (triple_bind (eq c) _ _ (fun _ c' => within (hcName hc) envoyExtensionPolicyGVK c c' /\ converged (hcName hc) envoyExtensionPolicyGVK (eg_desired hc spec ns) c')); [| |done].
    + eapply triple_post; [apply (applyAndPrune_spec visit visit_perm); [apply eg_labels|apply desired_of_nodup]|].
      intros [u|e] c' [Hw Hg]; [by split; [|apply Hg]|]. by split.
    + intros _ s' [Hw Hg]. split; [exact Hw|]. cbn. intros a [= <-]. split; [|done]. destruct (negb (nonempty (Gateways spec))); [done|].
      by destruct (nonempty (missing_in _ _ _)).
Qed.

Lemma ci_spec hc spec ns c :
  triple (eq c) (reconcileCilium visit hc spec ns) (fun r c' => within (hcName hc) ciliumExtProcFilterGVK c c' /\
    forall a, r = Ok a -> a = ci_result (serves c) hc spec ns /\
      (serves c ciliumExtProcFilterGVK = true -> converged (hcName hc) ciliumExtProcFilterGVK (ci_desired hc spec ns) c')).
Proof.
  unfold reconcileCilium, ci_result. apply triple_read_eq; [|intros e; split; [apply within_refl|done]].
  destruct (serves c ciliumExtProcFilterGVK) eqn:E; cbn [negb].
  2: { apply triple_ret_eq. split; [apply within_refl|]. by intros a [= <-]. }
  apply (triple_bind (eq c) _ _ (fun _ c' => within (hcName hc) ciliumExtProcFilterGVK c c' /\ converged (hcName hc) ciliumExtProcFilterGVK (ci_desired hc spec ns) c')).
  - eapply triple_post; [apply (applyAndPrune_spec visit visit_perm); [apply ci_labels|apply desired_of_nodup]|].
    intros [u|e] c' [Hw Hg]; [by split; [|apply Hg]|]. by split.
  - intros _ s' [Hw Hg]. split; [exact Hw|]. cbn. by intros a [= <-].
Qed.

Lemma grant_spec hc ns egs cis c :
  triple (eq c) (reconcileReferenceGrant visit hc ns egs cis) (fun r c' => within (hcName hc) referenceGrantGVK c c' /\
    (is_ok r = true -> serves c referenceGrantGVK = true -> converged (hcName hc) referenceGrantGVK (grant_desired hc ns egs cis) c')).
Proof.
  unfold reconcileReferenceGrant. apply triple_read_eq; [|intros e; split; [apply within_refl|done]].
  destruct (serves c referenceGrantGVK) eqn:E; cbn [negb]; [|apply triple_ret_eq; split; [apply within_refl|done]].
  eapply triple_post; [apply (applyAndPrune_spec visit visit_perm _ _ (grant_desired hc ns egs cis)); [apply grant_labels|apply grant_nodup]|].
  intros r c' [Hw Hg]. split; [exact Hw|]. intros Hr _. by apply Hg.
Qed.

Lemma routes_spec spec c :
  triple (eq c) (checkHTTPRoutes spec) (fun r c' => c' = c /\ forall a, r = Ok a -> a = routes_result (serves c) c spec).
Proof.
  unfold checkHTTPRoutes, routes_result. apply triple_read_eq; [|by intros e].
  destruct (serves c httpRouteGVK); cbn [negb]; [|apply triple_ret_eq; split; [done|]; by intros a [= <-]].
  apply triple_read_eq; [|by intros e]. apply triple_read_eq; [|by intros e]. apply triple_ret_eq. split; [done|]. by intros a [= <-].
Qed.
End Parts.

(** ** Reconciling again *)

Lemma settled_read_bind {S A B : Type} (P : S -> Prop) (f : S -> A) (k : A -> M S B) v Q :
  (forall c, P c -> f c = v) -> settled P (k v) Q -> settled P (bind (read f) k) Q.
Proof.
  intros Hf Hk. eapply settled_bind; [apply (settled_read _ _ (fun a => a = v)); exact Hf|]. by intros a ->.
Qed.

Lemma settled_pre {S A : Type} (P P' : S -> Prop) (m : M S A) Q : (forall c, P c -> P' c) -> settled P' m Q -> settled P m Q.
Proof. intros HP Hm s Hs. by apply Hm, HP. Qed.

Section Again.
Variable visit : list (Key * Object) -> list (Key * Object).
Hypothesis visit_perm : forall l, visit l ≡ₚ l.
Variable now : Z.

(** A cluster that agrees with [c] on what the controller only reads. *)
Definition agrees (c c' : Cluster) : Prop :=
  serves c' = serves c /\ objects c' gatewayGVK = objects c gatewayGVK /\ objects c' httpRouteGVK = objects c httpRouteGVK.

Lemma missing_settled c check gws :
  settled (agrees c) (missing_gateways check gws) (fun m => m = missing_in check (objects c gatewayGVK) gws).
Proof.
  induction gws as [|gw gws IH]; [by apply settled_ret|]. cbn [missing_gateways].
  eapply (settled_bind _ _ _ (fun m => m = if check then match objects c gatewayGVK !! (gwNamespace gw, gwName gw) with
                           | None => [slash (gwNamespace gw) (gwName gw)] | Some _ => [] end else [])).
  - destruct check; [|by apply settled_ret].
    eapply settled_read_bind; [intros c' (_ & -> & _); reflexivity|]. by apply settled_ret.
  - intros m ->. eapply settled_bind; [exact IH|]. intros ms ->. by apply settled_ret.
Qed.

Lemma eg_settled hc spec ns c :
  settled (fun c' => agrees c c' /\ (serves c envoyExtensionPolicyGVK = true -> converged (hcName hc) envoyExtensionPolicyGVK (eg_desired hc spec ns) c'))
    (reconcileEnvoyGateway visit hc spec ns) (fun a => a = eg_result (serves c) (objects c gatewayGVK) spec).
Proof.
  unfold reconcileEnvoyGateway, eg_result. eapply settled_read_bind; [intros c' ((-> & _) & _); reflexivity|].
  destruct (serves c envoyExtensionPolicyGVK) eqn:E; cbn [negb]; [|by apply settled_ret].
  eapply settled_read_bind; [intros c' ((-> & _) & _); reflexivity|].
  eapply settled_bind; [eapply settled_pre; [|apply (missing_settled c)]; by intros c' [H _]|]. intros m ->.
  eapply settled_bind; [eapply settled_pre; [|apply (applyAndPrune_settled visit visit_perm hc _ (eg_desired hc spec ns)), eg_labels]; intros c' [_ H]; by apply H|].
  intros _ _. apply settled_ret. destruct (negb (nonempty (Gateways spec))); [done|]. by destruct (nonempty (missing_in _ _ _)).
Qed.

Lemma ci_settled hc spec ns c :
  settled (fun c' => agrees c c' /\ (serves c ciliumExtProcFilterGVK = true -> converged (hcName hc) ciliumExtProcFilterGVK (ci_desired hc spec ns) c'))
    (reconcileCilium visit hc spec ns) (fun a => a = ci_result (serves c) hc spec ns).
Proof.
  unfold reconcileCilium, ci_result. eapply settled_read_bind; [intros c' ((-> & _) & _); reflexivity|].
  destruct (serves c ciliumExtProcFilterGVK) eqn:E; cbn [negb]; [|by apply settled_ret].
  eapply settled_bind; [eapply settled_pre; [|apply (applyAndPrune_settled visit visit_perm hc _ (ci_desired hc spec ns)), ci_labels]; intros c' [_ H]; by apply H|].
  intros _ _. by apply settled_ret.
Qed.

Lemma grant_settled hc ns egs cis c :
  settled (fun c' => agrees c c' /\ (serves c referenceGrantGVK = true -> converged (hcName hc) referenceGrantGVK (grant_desired hc ns egs cis) c'))
    (reconcileReferenceGrant visit hc ns egs cis) (fun _ => True).
Proof.
  unfold reconcileReferenceGrant. eapply settled_read_bind; [intros c' ((-> & _) & _); reflexivity|].
  destruct (serves c referenceGrantGVK) eqn:E; cbn [negb]; [|by apply settled_ret].
  eapply settled_pre; [|apply (applyAndPrune_settled visit visit_perm hc _ (grant_desired hc ns egs cis)), grant_labels].
  intros c' [_ H]. by apply H.
Qed.

Lemma routes_settled spec c : settled (agrees c) (checkHTTPRoutes spec) (fun a => a = routes_result (serves c) c spec).
Proof.
  unfold checkHTTPRoutes, routes_result. eapply settled_read_bind; [intros c' (-> & _); reflexivity|].
  destruct (serves c httpRouteGVK); cbn [negb]; [|by apply settled_ret].
  eapply settled_read_bind; [intros c' (-> & _); reflexivity|].
  eapply settled_read_bind; [intros c' (_ & _ & E); unfold referencing; rewrite E; reflexivity|]. by apply settled_ret.
Qed.
End Again.

(** ** Conditions *)

Definition at_generation (gen : Z) (c : Condition) : Condition := mkCondition (cType c) (cStatus c) (cReason c) (cMessage c) gen 0.
Definition has_condition (gen : Z) (l : list Condition) (c : Condition) : Prop :=
  exists old, List.find (fun x => String.eqb (cType x) (cType c)) l = Some old /\ same_condition old (at_generation gen c) = true.

Lemma SetStatusCondition_noop now gen l c : has_condition gen l c -> SetStatusCondition now l (at_generation gen c) = (l, false).
Proof.
  intros (old & Hf & Hs). induction l as [|x l IH]; [done|]. cbn [List.find SetStatusCondition cType at_generation] in *.
  destruct (String.eqb_spec (cType x) (cType c)) as [E|].
  - injection Hf as ->. rewrite Hs. unfold same_condition in Hs. bool_hyps. apply eqb_prop in H. destruct old; cbn in *. subst.
    by rewrite Bool.eqb_reflx.
  - by rewrite IH.
Qed.

Lemma SetStatusCondition_has now gen l c : has_condition gen (SetStatusCondition now l (at_generation gen c)).1 c.
Proof.
  assert (forall ty ts, same_condition (mkCondition ty (cStatus c) (cReason c) (cMessage c) gen ts) (at_generation gen c) = true) as Hsame.
  { intros ty ts. unfold same_condition. cbn. by rewrite Bool.eqb_reflx, !String.eqb_refl, Z.eqb_refl. }
  induction l as [|x l IH].
  - eexists. cbn. rewrite String.eqb_refl. split; [done|apply Hsame].
  - cbn [SetStatusCondition cType at_generation]. destruct (String.eqb_spec (cType x) (cType c)) as [E|E].
    + eexists. cbn. rewrite E, String.eqb_refl. split; [done|apply Hsame].
    + destruct (SetStatusCondition now l _) as [l' b] eqn:El. destruct IH as (old & Hf & Hs). exists old. split; [|done].
      cbn in *. destruct (String.eqb_spec (cType x) (cType c)); [done|exact Hf].
Qed.

Lemma SetStatusCondition_other now gen l c d : cType c <> cType d -> has_condition gen l d ->
  has_condition gen (SetStatusCondition now l (at_generation gen c)).1 d.
Proof.
  intros Hne (old & Hf & Hs). exists old. split; [|done]. clear Hs. induction l as [|x l IH]; [done|].
  cbn [SetStatusCondition cType at_generation List.find] in *. destruct (String.eqb_spec (cType x) (cType c)) as [E|E].
  - cbn. destruct (String.eqb_spec (cType x) (cType d)); [congruence|]. exact Hf.
  - destruct (SetStatusCondition now l _) as [l' b]. cbn in *. destruct (String.eqb (cType x) (cType d)); [done|by apply IH].
Qed.

Lemma set_condition_eq now gen l b c : set_condition now gen (l, b) c =
  ((SetStatusCondition now l (at_generation gen c)).1, b || (SetStatusCondition now l (at_generation gen c)).2).
Proof. unfold set_condition. cbn [fst snd]. fold (at_generation gen c). by destruct (SetStatusCondition _ _ _). Qed.

Lemma set_conditions_keep now gen conds l b c : cType c ∉ cType <$> conds -> has_condition gen l c ->
  has_condition gen (fold_left (set_condition now gen) conds (l, b)).1 c.
Proof.
  revert l b. induction conds as [|e conds IH]; intros l b Hn Hc; [done|]. cbn [fold_left]. rewrite set_condition_eq.
  cbn [fmap list_fmap] in Hn. apply IH; [set_solver|]. apply SetStatusCondition_other; [set_solver|done].
Qed.

Lemma set_conditions_has now gen conds l b c : NoDup (cType <$> conds) -> c ∈ conds ->
  has_condition gen (fold_left (set_condition now gen) conds (l, b)).1 c.
Proof.
  revert l b. induction conds as [|e conds IH]; intros l b Hn Hc; [by apply elem_of_nil in Hc|]. cbn [fold_left]. rewrite set_condition_eq.
  cbn [fmap list_fmap] in Hn. apply NoDup_cons in Hn as [He Hn]. apply elem_of_cons in Hc as [->|Hc]; [|by apply IH].
  apply set_conditions_keep; [done|]. apply SetStatusCondition_has.
Qed.

Lemma set_conditions_noop now gen conds l : (forall c, c ∈ conds -> has_condition gen l c) ->
  fold_left (set_condition now gen) conds (l, false) = (l, false).
Proof.
  induction conds as [|c conds IH]; intros H; [done|]. cbn [fold_left]. rewrite set_condition_eq, SetStatusCondition_noop by (apply H; by left).
  apply IH. intros d Hd. apply H. by right.
Qed.

(** An unchanged list is the old one. *)
Lemma SetStatusCondition_unchanged now l c : (SetStatusCondition now l c).2 = false -> (SetStatusCondition now l c).1 = l.
Proof.
  induction l as [|x l IH]; [done|]. cbn [SetStatusCondition]. destruct (String.eqb_spec (cType x) (cType c)) as [E|].
  - cbn [fst snd]. intros H. unfold same_condition in H. bool_hyps. apply eqb_prop in H. destruct x; cbn in *. subst. by rewrite Bool.eqb_reflx.
  - destruct (SetStatusCondition now l c) as [l' b]. cbn in *. intros H. by rewrite IH.
Qed.

Lemma set_conditions_unchanged now gen conds l b :
  (fold_left (set_condition now gen) conds (l, b)).2 = false -> (fold_left (set_condition now gen) conds (l, b)).1 = l /\ b = false.
Proof.
  revert l b. induction conds as [|c conds IH]; intros l b; [done|]. cbn [fold_left]. rewrite set_condition_eq. intros H.
  destruct (IH _ _ H) as [E Hb]. apply orb_false_iff in Hb as [-> Hb]. split; [|done]. by rewrite E, SetStatusCondition_unchanged.
Qed.

(** ** The whole reconciliation *)

(** A step inside one kind is a change of own objects. *)
Ltac within_own := eapply within_changes; [| |eassumption]; done.


Definition find_config (name : string) (c : Cluster) : option ExtConfig :=
  List.find (fun x => String.eqb (hcName (base x)) name) (hyperConfigs c).
Definition conflicting (name : string) (c : Cluster) : bool :=
  negb (String.eqb (default "" (map_get (activeHyperConfigs (base <$> hyperConfigs c)).2 name)) "").
Definition spec_of (hc : ExtConfig) : ExtProcSpec := default (mkExtProcSpec [] [] "" "") (extProc hc).

(** What a reconciliation of [hc] that read [c] makes true of [c']. *)
Definition egs (c : Cluster) (hc : ExtConfig) : Condition * list string := eg_result (serves c) (objects c gatewayGVK) (spec_of hc).
Definition cis (c : Cluster) (hc : ExtConfig) : Condition * list string :=
  ci_result (serves c) (base hc) (spec_of hc) (targetNamespaceOf (base hc)).
Definition reported (c : Cluster) (hc : ExtConfig) : list Condition :=
  [(egs c hc).1; (cis c hc).1; routes_result (serves c) c (spec_of hc)].

Record attached (c : Cluster) (hc : ExtConfig) (c' : Cluster) : Prop := {
  at_eg : serves c envoyExtensionPolicyGVK = true ->
    converged (hcName (base hc)) envoyExtensionPolicyGVK (eg_desired (base hc) (spec_of hc) (targetNamespaceOf (base hc))) c';
  at_ci : serves c ciliumExtProcFilterGVK = true ->
    converged (hcName (base hc)) ciliumExtProcFilterGVK (ci_desired (base hc) (spec_of hc) (targetNamespaceOf (base hc))) c';
  at_grant : serves c referenceGrantGVK = true ->
    converged (hcName (base hc)) referenceGrantGVK (grant_desired (base hc) (targetNamespaceOf (base hc)) (egs c hc).2 (cis c hc).2) c'
}.

(** Outside the conditions of one HyperConfig nothing differs. *)
Definition same_objects (c c' : Cluster) : Prop := objects c' = objects c /\ serves c' = serves c.

Lemma find_map {A B : Type} (p : B -> bool) (q : A -> bool) (f : A -> B) l : (forall x, p (f x) = q x) -> List.find p (f <$> l) = f <$> List.find q l.
Proof. intros H. induction l as [|x l IH]; [done|]. cbn. rewrite H. by destruct (q x). Qed.

Lemma find_config_name name c hc : find_config name c = Some hc -> hcName (base hc) = name.
Proof. intros [_ H]%find_some. by apply String.eqb_eq. Qed.

Lemma setConditions_spec now name hc conds c : find_config name c = Some hc ->
  triple (eq c) (setConditions now hc conds) (fun r c' => same_objects c c' /\
    (fun x => (base x, extProc x, Generation x)) <$> hyperConfigs c' = (fun x => (base x, extProc x, Generation x)) <$> hyperConfigs c /\
    (is_ok r = true -> find_config name c' =
       Some (hc <| Conditions := (fold_left (set_condition now (Generation hc)) conds (Conditions hc, false)).1 |>))).
Proof.
  intros Hf. pose proof (find_config_name _ _ _ Hf) as Hname. unfold setConditions.
  pose proof (set_conditions_unchanged now (Generation hc) conds (Conditions hc) false) as Hun.
  destruct (fold_left _ _ _) as [l [|]]; cbn [negb fst snd] in *.
  - eapply triple_pre; [|apply triple_write]. intros c' <-. split; [|by intros e]. split; [done|]. cbn [hyperConfigs set_field]. split.
    + rewrite <- list_fmap_compose. apply list_fmap_ext. intros i x _. cbn. by destruct (String.eqb _ _).
    + intros _. unfold find_config. cbn [hyperConfigs set_field]. rewrite (find_map _ (fun x => String.eqb (hcName (base x)) name)).
      2: { intros x. cbn. by destruct (String.eqb (hcName (base x)) (hcName (base hc))). }
      unfold find_config in Hf. rewrite Hf. cbn. by rewrite String.eqb_refl.
  - apply triple_ret_eq. split; [done|]. split; [done|]. intros _. destruct (Hun eq_refl) as [-> _]. rewrite Hf. by destruct hc.
Qed.

Lemma same_objects_changes name c c' : same_objects c c' ->
  (fun x => (base x, extProc x, Generation x)) <$> hyperConfigs c' = (fun x => (base x, extProc x, Generation x)) <$> hyperConfigs c ->
  changes_only name c c'.
Proof. intros [Ho Hs] Hc. split; rewrite ?Ho; auto. Qed.

Lemma converged_eq name k desired c c' : objects c' k = objects c k -> converged name k desired c -> converged name k desired c'.
Proof. intros E. unfold converged. by rewrite E. Qed.

Section Whole.
Variable visit : list (Key * Object) -> list (Key * Object).
Hypothesis visit_perm : forall l, visit l ≡ₚ l.
Variable now : Z.

(** The four parts after another. *)
Definition attach (hc : ExtConfig) : M Cluster (option Z) :=
  let! eg := reconcileEnvoyGateway visit (base hc) (spec_of hc) (targetNamespaceOf (base hc)) in
  let! ci := reconcileCilium visit (base hc) (spec_of hc) (targetNamespaceOf (base hc)) in
  let! _ := reconcileReferenceGrant visit (base hc) (targetNamespaceOf (base hc)) eg.2 ci.2 in
  let! rc := checkHTTPRoutes (spec_of hc) in
  let! _ := setConditions now hc [eg.1; ci.1; rc] in
  ret (Some extProcRecheck).

Definition attach_post (name : string) (c : Cluster) (hc : ExtConfig) (r : result (option Z)) (c' : Cluster) : Prop :=
  changes_only name c c' /\
  forall d, r = Ok d -> d = Some extProcRecheck /\ attached c hc c' /\
    find_config name c' = Some (hc <| Conditions := (fold_left (set_condition now (Generation hc)) (reported c hc) (Conditions hc, false)).1 |>).

Lemma attach_spec name c hc : find_config name c = Some hc -> triple (eq c) (attach hc) (attach_post name c hc).
Proof.
  intros Hf. pose proof (find_config_name _ _ _ Hf) as <-. unfold attach. set (ns := targetNamespaceOf (base hc)).
  apply (triple_bind _ _ _ (fun eg c1 => within (hcName (base hc)) envoyExtensionPolicyGVK c c1 /\ eg = egs c hc /\
    (serves c envoyExtensionPolicyGVK = true -> converged (hcName (base hc)) envoyExtensionPolicyGVK (eg_desired (base hc) (spec_of hc) ns) c1))).
  { eapply triple_post; [by apply eg_spec|]. intros [a|e] c1 [Hw Ha]; [by destruct (Ha a eq_refl)|]. split; [|done]. within_own. }
  intros eg s1 (W1 & -> & G1).
  apply (triple_bind (eq (cluster s1)) _ _ (fun ci c2 => within (hcName (base hc)) ciliumExtProcFilterGVK (cluster s1) c2 /\ ci = cis c hc /\
    (serves c ciliumExtProcFilterGVK = true -> converged (hcName (base hc)) ciliumExtProcFilterGVK (ci_desired (base hc) (spec_of hc) ns) c2))); [| |done].
  { eapply triple_post; [by apply ci_spec|]. intros [a|e] c2 [Hw Ha].
    - unfold cis. rewrite <- (wi_serves _ _ _ _ W1). by destruct (Ha a eq_refl).
    - split; [|done]. eapply changes_trans; within_own. }
  intros ci s2 (W2 & -> & G2).
  apply (triple_bind (eq (cluster s2)) _ _ (fun _ c3 => within (hcName (base hc)) referenceGrantGVK (cluster s2) c3 /\
    (serves c referenceGrantGVK = true -> converged (hcName (base hc)) referenceGrantGVK (grant_desired (base hc) ns (egs c hc).2 (cis c hc).2) c3))); [| |done].
  { eapply triple_post; [by apply grant_spec|]. intros [a|e] c3 [Hw Ha].
    - split; [done|]. rewrite <- (wi_serves _ _ _ _ W1), <- (wi_serves _ _ _ _ W2). by apply Ha.
    - split; [|done]. eapply changes_trans; [|within_own]. eapply changes_trans; within_own. }
  intros _ s3 (W3 & G3).
  assert (changes_only (hcName (base hc)) c (cluster s3)) as Hch.
  { eapply changes_trans; [|within_own]. eapply changes_trans; within_own. }
  assert (hyperConfigs (cluster s3) = hyperConfigs c) as Hcfg
    by (by rewrite (wi_configs _ _ _ _ W3), (wi_configs _ _ _ _ W2), (wi_configs _ _ _ _ W1)).
  apply (triple_bind (eq (cluster s3)) _ _ (fun rc c4 => c4 = cluster s3 /\ rc = routes_result (serves c) c (spec_of hc))); [| |done].
  { eapply triple_post; [apply routes_spec|]. intros [a|e] c4 [-> Ha]; [|by split]. split; [done|]. rewrite (Ha a eq_refl).
    unfold routes_result, referencing. by rewrite (co_serves _ _ _ Hch), (proj1 (co_readonly _ _ _ Hch)). }
  intros rc s4 [E4 ->].
  apply (triple_bind (eq (cluster s3)) _ _ (fun _ c5 => same_objects (cluster s3) c5 /\
    (fun x => (base x, extProc x, Generation x)) <$> hyperConfigs c5 = (fun x => (base x, extProc x, Generation x)) <$> hyperConfigs (cluster s3) /\
    find_config (hcName (base hc)) c5 = Some (hc <| Conditions := (fold_left (set_condition now (Generation hc)) (reported c hc) (Conditions hc, false)).1 |>))); [| |by rewrite E4].
  { eapply triple_post; [apply setConditions_spec; unfold find_config in *; by rewrite Hcfg|].
    intros [a|e] c5 (So & Sc & Sf); [by split; [|split; [|apply Sf]]|]. split; [|done]. eapply changes_trans; [exact Hch|]. by apply same_objects_changes. }
  intros _ s5 (So & Sc & Sf). split; [eapply changes_trans; [exact Hch|]; by apply same_objects_changes|]. intros d [= <-]. split; [done|].
  split; [|exact Sf]. destruct So as [So _]. split.
  - intros Hs. eapply converged_eq; [|by apply G1]. cbn [ret snd]. by rewrite So, (wi_other _ _ _ _ W3), (wi_other _ _ _ _ W2).
  - intros Hs. eapply converged_eq; [|by apply G2]. cbn [ret snd]. by rewrite So, (wi_other _ _ _ _ W3).
  - intros Hs. eapply converged_eq; [|by apply G3]. cbn [ret snd]. by rewrite So.
Qed.

Lemma Reconcile_spec name c :
  triple (eq c) (Reconcile visit now name) (fun r c' => changes_only name c c' /\
    forall d, r = Ok d ->
      match find_config name c with
      | None => d = None /\ c' = c
      | Some hc => if conflicting name c then d = None /\ c' = c else attach_post name c hc r c'
      end).
Proof.
  unfold Reconcile. apply triple_read_eq; [|intros e; split; [apply changes_refl|done]]. fold (find_config name c).
  destruct (find_config name c) as [hc|] eqn:Ef; [|apply triple_ret_eq; split; [apply changes_refl|]; by intros d [= <-]].
  apply triple_read_eq; [|intros e; split; [apply changes_refl|done]]. fold (conflicting name c).
  destruct (conflicting name c); [apply triple_ret_eq; split; [apply changes_refl|]; by intros d [= <-]|].
  eapply triple_post; [apply (attach_spec name c hc Ef)|]. intros r c' H. split; [apply H|]. by intros d _.
Qed.
End Whole.

(** ** Running it again *)

(** The three conditions have different types. *)
Lemma reported_types c hc : NoDup (cType <$> reported c hc).
Proof.
  assert (cType <$> reported c hc = ["EnvoyGatewayPolicies"; "CiliumFilters"; "HTTPRoutes"]) as ->.
  { unfold reported, egs, cis, eg_result, ci_result, routes_result. cbn [fmap list_fmap]. f_equal; [by repeat case_match|].
    f_equal; [by repeat case_match|]. f_equal. by repeat case_match. }
  apply (bool_decide_unpack _). vm_compute. exact I.
Qed.

Lemma attach_again visit now now' name c hc c' conds :
  (forall l, visit l ≡ₚ l) -> agrees c c' -> attached c hc c' ->
  conds = (fold_left (set_condition now (Generation hc)) (reported c hc) (Conditions hc, false)).1 ->
  find_config name c' = Some (hc <| Conditions := conds |>) ->
  settled (eq c') (attach visit now' (hc <| Conditions := conds |>)) (fun d => d = Some extProcRecheck).
Proof.
  intros Hv Hag [A1 A2 A3] Hcs Hf. unfold attach. cbn [base extProc set_field].
  change (spec_of (hc <| Conditions := conds |>)) with (spec_of hc).
  eapply settled_bind; [eapply settled_pre; [|apply (eg_settled visit Hv (base hc) (spec_of hc) _ c)]; intros x <-; by split|]. intros eg ->.
  eapply settled_bind; [eapply settled_pre; [|apply (ci_settled visit Hv (base hc) (spec_of hc) _ c)]; intros x <-; by split|]. intros ci ->.
  eapply settled_bind; [eapply settled_pre; [|apply (grant_settled visit Hv (base hc) _ _ _ c)]; intros x <-; by split|]. intros _ _.
  eapply settled_bind; [eapply settled_pre; [|apply (routes_settled (spec_of hc) c)]; by intros x <-|]. intros rc ->.
  unfold setConditions. cbn [Generation Conditions set_field].
  rewrite set_conditions_noop; [cbn [negb]; eapply (settled_bind _ _ _ (fun _ => True)); [by apply settled_ret|intros _ _; by apply settled_ret]|].
  intros d Hd. rewrite Hcs. apply set_conditions_has; [apply reported_types|exact Hd].
Qed.

Lemma configs_base (l l' : list ExtConfig) :
  (fun x => (base x, extProc x, Generation x)) <$> l' = (fun x => (base x, extProc x, Generation x)) <$> l -> base <$> l' = base <$> l.
Proof.
  intros H. apply (f_equal (fmap (fun x : HyperConfig * option ExtProcSpec * Z => x.1.1))) in H. by rewrite <- !list_fmap_compose in H.
Qed.

(** A ReferenceGrant of the engine's namespace lets objects of a kind and a namespace
    refer to the engine's Service. *)
Definition grants_service (g : Object) (k : GVK) (from_ns : string) : Prop :=
  VMap [("group", VString (Group k)); ("kind", VString (KindName k)); ("namespace", VString from_ns)]
    ∈ items (field (oSpec g) "from") /\
  VMap [("group", VString ""); ("kind", VString "Service"); ("name", VString "hyper-engine-svc")] ∈ items (field (oSpec g) "to").

(** Objects in other namespaces may refer to the engine's Service. *)
Definition references_granted (name ns : string) (c : Cluster) : Prop :=
  forall k key o, k = envoyExtensionPolicyGVK \/ k = ciliumExtProcFilterGVK -> serves c k = true ->
    objects c k !! key = Some o -> matchingLabels o name = true -> key.1 <> ns ->
    exists key' g, key'.1 = ns /\ objects c referenceGrantGVK !! key' = Some g /\ grants_service g k key.1.

(** The value is a reference to the engine's gRPC port in the namespace. *)
Definition engine_backend (ns : string) (v : Value) : Prop :=
  field v "name" = Some (VString "hyper-engine-svc") /\ field v "namespace" = Some (VString ns) /\ field v "port" = Some (VInt 9001).

(** A policy beside the Gateway targets it and calls the engine, which Envoy bypasses on
    failure only when the HyperConfig says so. *)
Definition gateway_attached (spec : ExtProcSpec) (ns : string) (c : Cluster) (gw : GatewayRef) : Prop :=
  exists key o t p b, key.1 = gwNamespace gw /\ objects c envoyExtensionPolicyGVK !! key = Some o /\
    t ∈ items (field (oSpec o) "targetRefs") /\ field t "kind" = Some (VString "Gateway") /\
    field t "name" = Some (VString (gwName gw)) /\ items (field (oSpec o) "extProc") = [p] /\
    items (field p "backendRefs") = [b] /\ engine_backend ns b /\
    (field p "failOpen" = Some (VBool true) <-> FailureMode spec = "FailOpen").

(** The namespace has the filter its routes name, and the filter calls the engine. *)
Definition namespace_attached (ns : string) (c : Cluster) (from_ns : string) : Prop :=
  exists o b, objects c ciliumExtProcFilterGVK !! (from_ns, "hypergate") = Some o /\
    field (oSpec o) "backendRef" = Some b /\ engine_backend ns b.

Lemma converged_gateways hc spec ns c gw : converged (hcName hc) envoyExtensionPolicyGVK (eg_desired hc spec ns) c ->
  gw ∈ Gateways spec -> gateway_attached spec ns c gw.
Proof.
  intros [_ Hd] Hgw. assert ((gwNamespace gw, ("hypergate-" +++ gwName gw)%go) ∈ (eg_desired hc spec ns).*1) as Hk.
  { unfold eg_desired. apply desired_of_key. rewrite <- list_fmap_compose. apply list_elem_of_fmap. by exists gw. }
  apply list_elem_of_fmap in Hk as (e & Ee & He). destruct (Hd e He) as (o & Ho & Hs & _).
  unfold eg_desired in He. apply desired_of_elem, list_elem_of_fmap in He as (gw' & -> & _). cbn [fst envoyExtensionPolicy] in Ee, Ho.
  assert (gwName gw' = gwName gw) as En.
  { apply (f_equal snd) in Ee. cbn in Ee. by injection Ee as Ee. }
  eexists _, o, _, _, _. split; [|split; [exact Ho|]]; [by injection Ee|]. rewrite Hs. cbn [envoyExtensionPolicy snd oSpec field].
  split; [by left|]. split; [done|]. split; [cbn; by rewrite En|]. do 2 (split; [reflexivity|]). split; [done|]. cbn.
  split; [intros [= E]; by apply String.eqb_eq|intros ->; done].
Qed.

Lemma converged_namespaces hc spec ns c from_ns : converged (hcName hc) ciliumExtProcFilterGVK (ci_desired hc spec ns) c ->
  from_ns ∈ Namespaces spec -> namespace_attached ns c from_ns.
Proof.
  intros [_ Hd] Hin. assert ((from_ns, "hypergate") ∈ (ci_desired hc spec ns).*1) as Hk.
  { unfold ci_desired. apply desired_of_key. rewrite <- list_fmap_compose. apply list_elem_of_fmap. exists from_ns.
    split; [done|]. by apply uniqueSorted_elem. }
  apply list_elem_of_fmap in Hk as (e & Ee & He). destruct (Hd e He) as (o & Ho & Hs & _).
  unfold ci_desired in He. apply desired_of_elem, list_elem_of_fmap in He as (x & -> & _).
  rewrite <- Ee in Ho. eexists o, _. split; [exact Ho|]. rewrite Hs. split; [reflexivity|done].
Qed.

Lemma grant_from_elem k ns l x : x ∈ l -> x <> ns ->
  VMap [("group", VString (Group k)); ("kind", VString (KindName k)); ("namespace", VString x)] ∈ grant_from k ns l.
Proof.
  intros Hx Hne. unfold grant_from. apply list_elem_of_fmap. exists x. split; [done|]. apply list_elem_of_In, filter_In.
  split; [by apply list_elem_of_In|]. by apply negb_true_iff, String.eqb_neq.
Qed.

(** The namespaces a part reports are those of its objects. *)
Lemma egs_namespaces c hc key : serves c envoyExtensionPolicyGVK = true ->
  key ∈ (eg_desired (base hc) (spec_of hc) (targetNamespaceOf (base hc))).*1 -> key.1 ∈ (egs c hc).2.
Proof.
  intros Hs Hk. unfold eg_desired in Hk. apply (proj1 (desired_of_key _ _)) in Hk. apply list_elem_of_fmap in Hk as (e & -> & He).
  apply list_elem_of_fmap in He as (gw & -> & Hgw). unfold egs, eg_result. rewrite Hs. cbn [negb].
  destruct (Gateways (spec_of hc)) as [|g gws] eqn:E; [by apply elem_of_nil in Hgw|]. cbn [nonempty negb].
  assert (gwNamespace gw ∈ gatewayNamespaces (g :: gws)) by (apply uniqueSorted_elem, list_elem_of_fmap; by exists gw).
  by destruct (nonempty (missing_in _ _ _)).
Qed.

Lemma cis_namespaces c hc key : serves c ciliumExtProcFilterGVK = true ->
  key ∈ (ci_desired (base hc) (spec_of hc) (targetNamespaceOf (base hc))).*1 -> key.1 ∈ (cis c hc).2.
Proof.
  intros Hs Hk. unfold cis, ci_result. rewrite Hs. cbn [negb]. destruct (ci_desired _ _ _) as [|x l] eqn:E; [by apply elem_of_nil in Hk|].
  cbn [nonempty negb snd]. rewrite <- E in Hk. unfold ci_desired in Hk. apply (proj1 (desired_of_key _ _)) in Hk.
  apply list_elem_of_fmap in Hk as (e & -> & He). by apply list_elem_of_fmap in He as (ns & -> & Hns).
Qed.

Lemma attached_granted c hc c' : serves c' = serves c -> attached c hc c' -> serves c referenceGrantGVK = true ->
  references_granted (hcName (base hc)) (targetNamespaceOf (base hc)) c'.
Proof.
  intros Es [A1 A2 A3] Hg k key o Hk Hs Ho Hm Hne. rewrite Es in Hs.
  set (ns := targetNamespaceOf (base hc)) in *. set (from := grants ns (egs c hc).2 (cis c hc).2).
  assert (VMap [("group", VString (Group k)); ("kind", VString (KindName k)); ("namespace", VString key.1)] ∈ from) as Hin.
  { unfold from, grants. apply elem_of_app. destruct Hk as [-> | ->]; [left|right]; (apply grant_from_elem; [|done]).
    - apply egs_namespaces; [done|]. by eapply (proj1 (A1 Hs)).
    - apply cis_namespaces; [done|]. by eapply (proj1 (A2 Hs)). }
  destruct (A3 Hg) as [_ Hd]. destruct (Hd (referenceGrant (base hc) ns from)) as (g & Hlk & Hspec & _).
  { unfold grant_desired. fold from. destruct from; [by apply elem_of_nil in Hin|]. by left. }
  exists (ns, extProcReferenceGrantName), g. split; [done|]. split; [exact Hlk|]. unfold grants_service. rewrite Hspec.
  split; [exact Hin|]. by left.
Qed.

(** ** Properties *)


(** ** Examples *)

(** One engine attached to a Gateway in another namespace, an object left from an
    earlier specification, and one somebody else created. *)
Definition example_hc (name : string) : HyperConfig := mkHyperConfig name 0 (mkHyperConfigSpec "" 0 "" "" 0 "" None "" 0 0).
Definition example_spec : ExtProcSpec := mkExtProcSpec [mkGatewayRef "edge" "public"] ["shop"] "FailClosed" "".
Definition leftover : Object := mkObject VNull (managedLabels "main") None.
Definition foreign : Object := mkObject VNull ∅ None.
Definition example_cluster : Cluster :=
  mkCluster (fun k => negb (bool_decide (k = ciliumExtProcFilterGVK)))
    (fun k => match k with
              | envoyExtensionPolicyGVK => <[("edge", "hypergate-old") := leftover]> {[("edge", "theirs") := foreign]}
              | _ => ∅
              end)
    [mkExtConfig (example_hc "main") (Some example_spec) 1 []].
Definition example_run : result (option Z) * Api Cluster := Reconcile (fun l => l) 7 "main" (mkApi example_cluster [] 0).


(** A call that fails ends the reconciliation with an error; what it would have removed
    is still there for the next one. *)
Example failed_call :
  let r := Reconcile (fun l => l) 7 "main" (mkApi example_cluster [false; false; false; false; false; true] 0) in
  is_ok r.1 = false /\ is_none (objects (cluster r.2) envoyExtensionPolicyGVK !! ("edge", "hypergate-old")) = false.
Proof. split; vm_compute; reflexivity. Qed.

(** A route in a namespace that one HyperConfig lists is reported as not listed by
    every other HyperConfig. *)
Definition filter_ref : Value :=
  VMap [("extensionRef", VMap [("group", VString "cilium.io"); ("kind", VString "CiliumEnvoyExtProcFilter"); ("name", VString "hypergate")])].
Definition shop_route : Object := mkObject (VMap [("rules", VSeq [VMap [("filters", VSeq [filter_ref])]])]) ∅ None.
Definition two_configs : Cluster :=
  mkCluster (fun _ => true) (fun k => match k with httpRouteGVK => {[("shop", "cart") := shop_route]} | _ => ∅ end)
    [mkExtConfig (example_hc "main") (Some example_spec) 1 []; mkExtConfig (example_hc "other") None 1 []].

Lemma listed_elsewhere_reported :
  cStatus (routes_result (serves two_configs) two_configs example_spec) = true /\
  cReason (routes_result (serves two_configs) two_configs (mkExtProcSpec [] [] "" "")) = "InvalidReferences".
Proof. by vm_compute. Qed.

(** A HyperConfig that lost its namespace keeps the objects it had generated. *)
Lemma loser_keeps_objects visit now name s hc : (forall l, visit l ≡ₚ l) -> find_config name (cluster s) = Some hc ->
  conflicting name (cluster s) = true -> cluster (Reconcile visit now name s).2 = cluster s.
Proof.
  intros Hv Hf Hc. destruct (Reconcile_spec visit Hv now name (cluster s) s eq_refl) as [_ Hr]. rewrite Hf, Hc in Hr.
  unfold Reconcile, bind, read, bind in *. pose proof (call_cluster s) as E1. destruct (call s) as [[u|e] s1]; cbn [snd] in *; [|done].
  unfold find_config in Hf. rewrite E1, Hf in *. pose proof (call_cluster s1) as E2. destruct (call s1) as [[u'|e] s2]; cbn [snd] in *; [|congruence].
  unfold conflicting in Hc. rewrite E2, E1, Hc. cbn. congruence.
Qed.

(** An event on a generated object reconciles the HyperConfig it belongs to. *)
Lemma owner_requests_managed o name : name <> "" -> matchingLabels o name = true -> owner_requests o = [name].
Proof.
  unfold matchingLabels, owner_requests. intros Hn H. bool_hyps. rewrite H0, H. cbn. destruct (String.eqb_spec name ""); [done|]. done.
Qed.

End ExtProc.
