(* ===== verification/EnginePod.v ===== *)
(** * EnginePod: the pod an engine runs in
    (buildEnginePodSpec and its helpers in hyper-operator/internal/controller/
    hyperconfig_controller.go, identityVolumes in identity.go, common.go)

    The engine's container, the sidecars of the external authorization and firewall
    filters, and the volumes that carry sockets, Secrets and the identity token
    between them. A Go map decides the order of the Secret volumes, so the
    statements are about every order. The compiled configuration refers to files of
    this pod; [backed_by] says what a path of a container holds. *)

From S2P Require Import Prelude GoStrings GoTime Config Compiler Kube.

Local Open Scope string_scope.
Local Open Scope list_scope.

Module EnginePod.
Import Compiler.

(** ** Pods, as far as the controller writes them *)

Record KeyToPath := mkKeyToPath { ktpKey : string; ktpPath : string }.
#[export] Instance KeyToPath_eq_dec : EqDecision KeyToPath.
Proof. solve_decision. Defined.

Inductive VolumeSource : Type :=
| EmptyDir
| ConfigMapVolume (name : string)
| SecretVolume (name : string) (keys : list KeyToPath) (mode : option Z)
| TokenVolume (audience : string) (expirationSeconds : Z) (path : string) (mode : Z).
#[export] Instance VolumeSource_eq_dec : EqDecision VolumeSource.
Proof. solve_decision. Defined.

Record Volume := mkVolume { vName : string; vSource : VolumeSource }.
#[export] Instance Volume_eq_dec : EqDecision Volume.
Proof. solve_decision. Defined.

Record VolumeMount := mkVolumeMount { vmName : string; MountPath : string; ReadOnly : bool }.
#[export] Instance VolumeMount_eq_dec : EqDecision VolumeMount.
Proof. solve_decision. Defined.

Inductive EnvValue : Type := Literal (v : string) | FieldRef (path : string) | OtherSource (v : Value).
#[export] Instance EnvValue_eq_dec : EqDecision EnvValue.
Proof. solve_decision. Defined.

Record EnvVar := mkEnvVar { evName : string; evValue : EnvValue }.
#[export] Instance EnvVar_eq_dec : EqDecision EnvVar.
Proof. solve_decision. Defined.

Record Probe := mkProbe { pPath : string; pPort : Z; InitialDelaySeconds : Z; PeriodSeconds : Z; FailureThreshold : Z }.
#[export] Instance Probe_eq_dec : EqDecision Probe.
Proof. solve_decision. Defined.

Record SecurityContext := mkSecurityContext {
  RunAsNonRoot : bool; RunAsUser : Z; RunAsGroup : Z; AllowPrivilegeEscalation : bool;
  ReadOnlyRootFilesystem : bool; Drop : list string }.
#[export] Instance SecurityContext_eq_dec : EqDecision SecurityContext.
Proof. solve_decision. Defined.

Record Container := mkContainer {
  conName : string; conImage : string; ImagePullPolicy : string; Ports : list (string * Z); Args : list string;
  Env : list EnvVar; EnvFrom : list Value; ReadinessProbe : option Probe; LivenessProbe : option Probe;
  Resources : Value; conSecurity : option SecurityContext; VolumeMounts : list VolumeMount }.
#[export] Instance Container_eta : Eta Container := fun x =>
  mkContainer (conName x) (conImage x) (ImagePullPolicy x) (Ports x) (Args x) (Env x) (EnvFrom x) (ReadinessProbe x)
    (LivenessProbe x) (Resources x) (conSecurity x) (VolumeMounts x).
#[export] Instance Container_eq_dec : EqDecision Container.
Proof. solve_decision. Defined.

Record PodSpec := mkPodSpec { Containers : list Container; Volumes : list Volume; ImagePullSecrets : list string }.
#[export] Instance PodSpec_eq_dec : EqDecision PodSpec.
Proof. solve_decision. Defined.

(** ** The custom resources the pod depends on *)

Record SidecarContainerSpec := mkSidecarContainerSpec {
  Image : string; scPullPolicy : string; scPullSecrets : list string; scArgs : list string; scEnv : list EnvVar;
  scEnvFrom : list Value; scResources : Value; SocketEnvKey : string }.

Record ExternalAuthFilter := mkExternalAuthFilter {
  eafName : string; eafProtocol : string; eafContainer : SidecarContainerSpec; eafRules : EngineRules }.

Record FirewallFilter := mkFirewallFilter {
  fwName : string; fwProtocol : string; fwContainer : SidecarContainerSpec; fwRules : EngineRules;
  RulesConfigMap : string; RulesSecretRef : string }.

Record SecretKeyRef := mkSecretKeyRef { skName : string; skKey : string }.

(** [jwtOptions] are the fields with YAML tags. *)
Record JwtAuthFilter := mkJwtAuthFilter {
  jwtName : string; jwtOptions : GoMap Value;
  LocalSecretRef : option SecretKeyRef; IntrospectionAuthSecretRef : option SecretKeyRef }.

(** ** common.go and identity.go *)

Definition engineConfigMapName : string := "hyper-engine-config".
Definition engineGRPCPort : Z := 9001.
Definition engineHealthPort : Z := 9003.
Definition engineTerminationGraceSeconds : Z := 40.
Definition udsVolumeName : string := "uds-sockets".
Definition udsVolumeMountPath : string := "/var/run/hypergate/".
Definition jwtSecretsRoot : string := "/etc/hypergate/secrets".
Definition jwtLocalSecretFile : string := "local-secret".
Definition jwtIntrospectionAuthFile : string := "introspection-auth".
Definition fallbackEngineImageBase : string := "ghcr.io/taha2samy-3/hyper-engine".

(** The value of ENGINE_IMAGE and the tag set at build time. *)
Definition defaultEngineImage (env tag : string) : string :=
  if negb (String.eqb env "") then env else (fallbackEngineImageBase +++ ":" +++ tag)%go.

Definition jwtSecretDir (filterName : string) : string := (jwtSecretsRoot +++ "/jwt-" +++ filterName)%go.

Definition identityCAConfigMap : string := "hyper-identity-ca".
Definition identityCAVolume : string := "identity-ca".
Definition identityCAMountDir : string := "/etc/hypergate/identity".
Definition identityTokenVolume : string := "identity-token".
Definition identityTokenMountDir : string := "/var/run/secrets/hypergate/identity".
Definition identityTokenAudience : string := "hypergate-identity".
Definition identityTokenExpirySec : Z := 3600.
Definition identityCARefresh : Z := (10 * Minute)%Z.

Definition identityVolumes (s : IdentitySettings) : list Volume * list VolumeMount :=
  if negb (isEnabled s) then ([], [])
  else
    let volumes := [mkVolume identityTokenVolume (TokenVolume identityTokenAudience identityTokenExpirySec "token" 292)] in
    let mounts := [mkVolumeMount identityTokenVolume identityTokenMountDir true] in
    if negb (isInsecure s) then
      (volumes ++ [mkVolume identityCAVolume (ConfigMapVolume identityCAConfigMap)],
       mounts ++ [mkVolumeMount identityCAVolume identityCAMountDir true])
    else (volumes, mounts).

(** ** hyperconfig_controller.go *)

(** [strings.ReplaceAll] for a non-empty [old]; [skip] bytes of a match remain. *)
Fixpoint replace_from (old new s : string) (skip : nat) : string :=
  match s with
  | EmptyString => ""
  | String c t =>
      match skip with
      | S k => replace_from old new t k
      | O => if HasPrefix s old then (new +++ replace_from old new t (String.length old - 1))%go
             else String c (replace_from old new t 0)
      end
  end.
Definition ReplaceAll (s old new : string) : string := replace_from old new s 0.

Definition substituteSocketPath (args : list string) (socketPath : string) : list string :=
  (fun arg => ReplaceAll arg "{socket_path}" socketPath) <$> args.

Definition isOAuth2Proxy (image : string) : bool := Contains image "oauth2-proxy".

Definition engineResources (res : option Value) : Value :=
  match res with
  | Some r => r
  | None => VMap [("requests", VMap [("cpu", VString "100m"); ("memory", VString "128Mi")]);
                  ("limits", VMap [("memory", VString "512Mi")])]
  end.

Definition add_item (items : GoMap (list KeyToPath)) (ref : option SecretKeyRef) (file : string) : GoMap (list KeyToPath) :=
  match ref with
  | Some ref => map_set items (skName ref) (default [] (map_get items (skName ref)) ++ [mkKeyToPath (skKey ref) file])
  | None => items
  end.

Definition jwtSecretItems (f : JwtAuthFilter) : GoMap (list KeyToPath) :=
  add_item (add_item [] (LocalSecretRef f) jwtLocalSecretFile) (IntrospectionAuthSecretRef f) jwtIntrospectionAuthFile.

(** The engine's container before the volumes are mounted. *)
Definition engine_container (res : option Value) (engineImage namespace : string) : Container :=
  mkContainer "engine" engineImage "" [("grpc", engineGRPCPort); ("health", engineHealthPort)] []
    [mkEnvVar "CONFIG_PROVIDER" (Literal "K8S"); mkEnvVar "CONFIG_K8S_NAME" (Literal engineConfigMapName);
     mkEnvVar "CONFIG_K8S_NAMESPACE" (Literal namespace); mkEnvVar "NODE_NAME" (FieldRef "spec.nodeName")]
    [] (Some (mkProbe "/readyz" engineHealthPort 0 5 3)) (Some (mkProbe "/healthz" engineHealthPort 10 10 3))
    (engineResources res) (Some (mkSecurityContext true 10001 10001 false true ["ALL"])) [].

Definition uds_mount : VolumeMount := mkVolumeMount udsVolumeName udsVolumeMountPath false.

Definition ext_auth_socket (name : string) : string := (udsVolumeMountPath +++ "ext-auth-" +++ name +++ ".sock")%go.
Definition fw_socket (name : string) : string := (udsVolumeMountPath +++ "fw-" +++ name +++ ".sock")%go.

(** The round of the loop over the ExternalAuthFilters. *)
Definition ext_auth_sidecar (eaf : ExternalAuthFilter) : Container :=
  let c := eafContainer eaf in
  let socketPath := ext_auth_socket (eafName eaf) in
  let sidecarEnv :=
    if negb (String.eqb (SocketEnvKey c) "") then scEnv c ++ [mkEnvVar (SocketEnvKey c) (Literal ("unix://" +++ socketPath)%go)]
    else if isOAuth2Proxy (Image c) then scEnv c ++ [mkEnvVar "OAUTH2_PROXY_HTTP_ADDRESS" (Literal ("unix://" +++ socketPath)%go)]
    else scEnv c in
  mkContainer ("ext-auth-" +++ eafName eaf)%go (Image c) (scPullPolicy c) [] (substituteSocketPath (scArgs c) socketPath)
    sidecarEnv (scEnvFrom c) None None (scResources c) None [uds_mount].

(** The round of the loop over the FirewallFilters: the sidecar and its volumes. *)
Definition fw_rules_cm (fw : FirewallFilter) : string := ("fw-rules-cm-" +++ fwName fw)%go.
Definition fw_rules_sec (fw : FirewallFilter) : string := ("fw-rules-sec-" +++ fwName fw)%go.

Definition fw_volumes (fw : FirewallFilter) : list Volume :=
  (if negb (String.eqb (RulesConfigMap fw) "") then [mkVolume (fw_rules_cm fw) (ConfigMapVolume (RulesConfigMap fw))] else []) ++
  (if negb (String.eqb (RulesSecretRef fw) "") then [mkVolume (fw_rules_sec fw) (SecretVolume (RulesSecretRef fw) [] None)] else []).

Definition fw_sidecar (fw : FirewallFilter) : Container :=
  let c := fwContainer fw in
  let socketPath := fw_socket (fwName fw) in
  let socketEnvKey := if String.eqb (SocketEnvKey c) "" then "FIREWALL_SOCKET_PATH" else SocketEnvKey c in
  let volumeMounts :=
    [uds_mount] ++
    (if negb (String.eqb (RulesConfigMap fw) "") then [mkVolumeMount (fw_rules_cm fw) "/etc/firewall/rules/" false] else []) ++
    (if negb (String.eqb (RulesSecretRef fw) "") then [mkVolumeMount (fw_rules_sec fw) "/etc/firewall/secrets/" false] else []) in
  mkContainer ("fw-" +++ fwName fw)%go (Image c) (scPullPolicy c) [] (substituteSocketPath (scArgs c) socketPath)
    (scEnv c ++ [mkEnvVar socketEnvKey (Literal ("unix://" +++ socketPath)%go)]) (scEnvFrom c) None None (scResources c) None volumeMounts.

Section Build.
(** The order in which Go visits the map of a filter's Secrets. *)
Variable visit : string -> GoMap (list KeyToPath) -> GoMap (list KeyToPath).

(** The round of the loop over the JwtAuthFilters. *)
Definition jwt_volume_name (f : JwtAuthFilter) (secretName : string) : string := ("jwt-" +++ jwtName f +++ "-" +++ secretName)%go.

Definition jwt_visited (f : JwtAuthFilter) : GoMap (list KeyToPath) := visit (jwtName f) (jwtSecretItems f).

Definition jwt_volumes (f : JwtAuthFilter) : list Volume :=
  (fun e => mkVolume (jwt_volume_name f e.1) (SecretVolume e.1 e.2 (Some 288%Z))) <$> jwt_visited f.

Definition jwt_mounts (f : JwtAuthFilter) : list VolumeMount :=
  (fun e => mkVolumeMount (jwt_volume_name f e.1) (jwtSecretDir (jwtName f) +++ "/" +++ e.1)%go true) <$> jwt_visited f.

Definition pull_secrets (externalAuths : list ExternalAuthFilter) (firewalls : list FirewallFilter) : GoMap () :=
  fold_left (fun m s => map_set m s tt)
    (concat ((fun f => scPullSecrets (eafContainer f)) <$> externalAuths) ++
     concat ((fun f => scPullSecrets (fwContainer f)) <$> firewalls)) [].

Definition buildEnginePodSpec (res : option Value) (engineImage namespace : string) (externalAuths : list ExternalAuthFilter)
  (firewalls : list FirewallFilter) (jwts : list JwtAuthFilter) (identity : IdentitySettings) : PodSpec :=
  let engine := engine_container res engineImage namespace in
  let '(identity_volumes, identityMounts) := identityVolumes identity in
  let shared := nonempty externalAuths || nonempty firewalls in
  let mounts := identityMounts ++ (if shared then [uds_mount] else []) ++ concat (jwt_mounts <$> jwts) in
  mkPodSpec
    ((engine <| VolumeMounts := VolumeMounts engine ++ mounts |>) ::
     (ext_auth_sidecar <$> externalAuths) ++ (fw_sidecar <$> firewalls))
    (identity_volumes ++ (if shared then [mkVolume udsVolumeName EmptyDir] else []) ++
     concat (fw_volumes <$> firewalls) ++ concat (jwt_volumes <$> jwts))
    (sort_strings (pull_secrets externalAuths firewalls).*1).
End Build.

(** ** What the pod promises *)

(** The rules of the API server for names and mounts. *)
Definition mount_dir (m : VolumeMount) : string := TrimSuffix (MountPath m) "/".

Record pod_valid (p : PodSpec) : Prop := {
  pv_volumes : NoDup (vName <$> Volumes p);
  pv_containers : NoDup (conName <$> Containers p);
  pv_mounted : forall c m, c ∈ Containers p -> m ∈ VolumeMounts c -> vmName m ∈ vName <$> Volumes p;
  pv_dirs : forall c, c ∈ Containers p -> NoDup (mount_dir <$> VolumeMounts c)
}.

(** What a file of a volume is: a key of an object, a token, or a file of the pod's
    own that containers share. *)
Inductive Origin : Type :=
| SecretKey (name key : string) | ConfigMapKey (name key : string) | Token (audience : string) | Shared (volume file : string).

Definition projects (v : Volume) (file : string) : option Origin :=
  match vSource v with
  | EmptyDir => Some (Shared (vName v) file)
  | ConfigMapVolume n => Some (ConfigMapKey n file)
  | SecretVolume n [] _ => Some (SecretKey n file)
  | SecretVolume n keys _ => (fun k => SecretKey n (ktpKey k)) <$> List.find (fun k => String.eqb (ktpPath k) file) keys
  | TokenVolume aud _ path _ => if String.eqb path file then Some (Token aud) else None
  end.

Definition no_slash (s : string) : bool := negb (Contains s "/").

(** Names of objects: not empty, without a slash. *)
Definition object_name (s : string) : bool := no_slash s && negb (String.eqb s "").

(** The file [path] of a container is [o]. *)
Definition backed_by (p : PodSpec) (c : Container) (path : string) (o : Origin) : Prop :=
  exists m v file, m ∈ VolumeMounts c /\ v ∈ Volumes p /\ vName v = vmName m /\ no_slash file = true /\
    path = (mount_dir m +++ "/" +++ file)%go /\ projects v file = Some o.

(** The last of several variables of one name counts. *)
Definition env_lookup (c : Container) (key : string) : option EnvValue :=
  evValue <$> List.find (fun e => String.eqb (evName e) key) (rev (Env c)).

(** What the process reads, on a given node. *)
Definition getenv (c : Container) (node key : string) : string :=
  match env_lookup c key with
  | Some (Literal v) => v
  | Some (FieldRef path) => if String.eqb path "spec.nodeName" then node else ""
  | _ => ""
  end.

(** Reading a file of a Secret volume: it belongs to root, and to the pod's fsGroup
    when one is set. *)
Definition readable (fsGroup : option Z) (mode : Z) (sec : SecurityContext) : bool :=
  (RunAsUser sec =? 0)%Z ||
  (if bool_decide (fsGroup <> None) || (RunAsGroup sec =? 0)%Z then Z.testbit mode 5 else Z.testbit mode 2).

(** ** Lemmas *)

Lemma no_slash_cons c s : no_slash (String c s) = true -> c <> "/"%char /\ no_slash s = true.
Proof.
  unfold no_slash. cbn [Contains HasPrefix]. rewrite negb_orb, andb_true_iff, !negb_true_iff. intros [H1 H2]. split; [|exact H2].
  intros ->. by destruct s.
Qed.

Lemma app_slash_inj d d' r r' : no_slash r = true -> no_slash r' = true ->
  (d +++ "/" +++ r)%go = (d' +++ "/" +++ r')%go -> d = d' /\ r = r'.
Proof.
  assert (forall d r r', no_slash r' = true -> (d +++ String "/" r)%go = r' -> False) as Hno.
  { induction d0 as [|a d0 IH]; intros r0 r0' H E; cbn in E; subst r0'; apply no_slash_cons in H as [H1 H2]; [done|by eapply IH]. }
  intros Hr Hr'. revert d'. induction d as [|a d IH]; intros [|a' d'] E; cbn in E.
  - by injection E as ->.
  - injection E as <- E. exfalso. eapply Hno; [exact Hr|]. symmetry. exact E.
  - injection E as -> E. exfalso. eapply Hno; [exact Hr'|exact E].
  - injection E as -> E. destruct (IH d' E) as [-> ->]. done.
Qed.

Lemma Contains_slash_app a b : Contains (a +++ b)%go "/" = Contains a "/" || Contains b "/".
Proof.
  induction a as [|c a IH]; [by destruct b|]. cbn [Contains String.append] in *. rewrite IH, orb_assoc. f_equal. f_equal.
  unfold HasPrefix. cbn [String.prefix]. destruct (ascii_dec "/" c); [|done]. by destruct a, b.
Qed.

Lemma no_slash_app a b : no_slash a = true -> no_slash b = true -> no_slash (a +++ b)%go = true.
Proof. unfold no_slash. rewrite Contains_slash_app, negb_orb. by intros -> ->. Qed.

Lemma object_name_slash s : object_name s = true -> no_slash s = true.
Proof. unfold object_name. by rewrite andb_true_iff; intros [? _]. Qed.

(** Lists built from parts that a key tells apart. *)
Lemma NoDup_concat_fmap {A B : Type} (key : A -> string) (f : A -> list B) l :
  NoDup (key <$> l) -> (forall x, x ∈ l -> NoDup (f x)) ->
  (forall x y b, x ∈ l -> y ∈ l -> b ∈ f x -> b ∈ f y -> key x = key y) -> NoDup (concat (f <$> l)).
Proof.
  induction l as [|a l IH]; intros Hk Hf Hd; cbn; [constructor|]. apply NoDup_cons in Hk as [Hn Hk]. apply NoDup_app. split; [|split].
  - apply Hf. by left.
  - intros b Hb Hb'. apply list_elem_of_In, in_concat in Hb' as (z & Hz & Hb'). apply list_elem_of_In, list_elem_of_fmap in Hz as (y & -> & Hy).
    apply Hn, list_elem_of_fmap. exists y. split; [|done]. apply list_elem_of_In in Hb'. eapply Hd; [by left|by right|done|done].
  - apply IH; [done| |]; intros; [apply Hf; by right|]. eapply Hd; [by right|by right|done|done].
Qed.

Lemma concat_fmap_perm {A B : Type} (f g : A -> list B) l : (forall x, f x ≡ₚ g x) -> concat (f <$> l) ≡ₚ concat (g <$> l).
Proof. intros H. induction l as [|x l IH]; cbn; [done|]. by rewrite H, IH. Qed.

Lemma elem_concat_fmap {A B : Type} (f : A -> list B) l b : b ∈ concat (f <$> l) <-> exists x, x ∈ l /\ b ∈ f x.
Proof.
  rewrite list_elem_of_In, in_concat. split.
  - intros (z & Hz & Hb). apply list_elem_of_In, list_elem_of_fmap in Hz as (x & -> & Hx). exists x. split; [done|by apply list_elem_of_In].
  - intros (x & Hx & Hb). exists (f x). split; [apply list_elem_of_In, list_elem_of_fmap; by exists x|by apply list_elem_of_In].
Qed.

Lemma fmap_concat {A B C : Type} (g : B -> C) (f : A -> list B) l : g <$> concat (f <$> l) = concat ((fun x => g <$> f x) <$> l).
Proof. induction l as [|x l IH]; cbn; [done|]. by rewrite fmap_app, IH. Qed.

Lemma NoDup_fmap_inj {A B : Type} (f : A -> B) l x y : NoDup (f <$> l) -> x ∈ l -> y ∈ l -> f x = f y -> x = y.
Proof.
  induction l as [|a l IH]; intros H Hx Hy E; [by apply elem_of_nil in Hx|]. apply NoDup_cons in H as [Hn H].
  apply elem_of_cons in Hx as [->|Hx], Hy as [->|Hy]; [done| | |by apply IH].
  - destruct Hn. rewrite E. by apply list_elem_of_fmap_2.
  - destruct Hn. rewrite <- E. by apply list_elem_of_fmap_2.
Qed.

(** A path holds one thing. *)
Lemma backed_by_unique p c path o o' : pod_valid p -> c ∈ Containers p ->
  backed_by p c path o -> backed_by p c path o' -> o = o'.
Proof.
  intros [Hv _ _ Hd] Hc (m & v & file & Hm & Hvin & Hn & Hs & -> & Ho) (m' & v' & file' & Hm' & Hvin' & Hn' & Hs' & E & Ho').
  apply app_slash_inj in E as [Ed <-]; [|done..]. specialize (Hd c Hc).
  assert (m' = m) as ->. { symmetry. exact (NoDup_fmap_inj _ _ _ _ Hd Hm Hm' Ed). }
  assert (v' = v) as ->. { apply (NoDup_fmap_inj vName (Volumes p)); [done|done|done|congruence]. }
  congruence.
Qed.

(** ** The pod is valid *)

Definition secret_names (f : JwtAuthFilter) : list string := (jwtSecretItems f).*1.

(** What the API server guarantees of the filters, and that the names of the
    Secret volumes differ (which it does not guarantee). *)
Record filters_ok (eafs : list ExternalAuthFilter) (fws : list FirewallFilter) (jwts : list JwtAuthFilter) : Prop := {
  fo_eafs : NoDup (eafName <$> eafs);
  fo_fws : NoDup (fwName <$> fws);
  fo_jwts : NoDup (jwtName <$> jwts);
  fo_eaf_names : forall f, f ∈ eafs -> object_name (eafName f) = true;
  fo_fw_names : forall f, f ∈ fws -> object_name (fwName f) = true;
  fo_names : forall f, f ∈ jwts -> object_name (jwtName f) = true /\ forall s, s ∈ secret_names f -> object_name s = true;
  fo_volumes : NoDup (concat ((fun f => jwt_volume_name f <$> secret_names f) <$> jwts))
}.

Lemma jwtSecretItems_nodup f : NoDup (secret_names f).
Proof.
  unfold secret_names, jwtSecretItems, add_item.
  destruct (LocalSecretRef f), (IntrospectionAuthSecretRef f); repeat apply map_set_NoDup; constructor.
Qed.

(** The keys of a filter are grouped under the Secret they belong to. *)
Lemma jwtSecretItems_spec f ref file :
  (LocalSecretRef f = Some ref /\ file = jwtLocalSecretFile) \/ (IntrospectionAuthSecretRef f = Some ref /\ file = jwtIntrospectionAuthFile) ->
  exists keys, (skName ref, keys) ∈ jwtSecretItems f /\
    List.find (fun k => String.eqb (ktpPath k) file) keys = Some (mkKeyToPath (skKey ref) file).
Proof.
  intros H. enough (exists keys, map_get (jwtSecretItems f) (skName ref) = Some keys /\
    List.find (fun k => String.eqb (ktpPath k) file) keys = Some (mkKeyToPath (skKey ref) file)) as (keys & Hk & Hf).
  { exists keys. split; [|done]. by apply map_get_elem. }
  unfold jwtSecretItems, add_item. destruct H as [[-> ->]|[-> ->]].
  - destruct (IntrospectionAuthSecretRef f) as [r|]; [|rewrite map_get_set_eq; by eexists].
    destruct (String.eqb_spec (skName r) (skName ref)) as [E|E].
    + rewrite E, map_get_set_eq. rewrite map_get_set_eq. by eexists.
    + rewrite map_get_set_ne, map_get_set_eq by congruence. by eexists.
  - rewrite map_get_set_eq. eexists. split; [done|]. destruct (LocalSecretRef f) as [r|]; [|done].
    destruct (String.eqb_spec (skName r) (skName ref)) as [E|E]; [rewrite E, map_get_set_eq; done|].
    by rewrite map_get_set_ne by congruence.
Qed.

Lemma trim_slash d s : object_name s = true -> TrimSuffix (d +++ "/" +++ s)%go "/" = (d +++ "/" +++ s)%go.
Proof.
  unfold object_name, TrimSuffix. rewrite andb_true_iff, negb_true_iff, String.eqb_neq. intros [Hs Hne].
  destruct (HasSuffix _ "/") eqn:E; [|done]. apply HasSuffix_spec in E as [t E].
  apply (app_slash_inj d t s "") in E as [_ E]; [done|done|done].
Qed.

Section Valid.
Variable visit : string -> GoMap (list KeyToPath) -> GoMap (list KeyToPath).
Hypothesis visit_perm : forall n m, visit n m ≡ₚ m.
Variables (eafs : list ExternalAuthFilter) (fws : list FirewallFilter) (jwts : list JwtAuthFilter).
Hypothesis ok : filters_ok eafs fws jwts.
Variables (res : option Value) (engineImage namespace : string) (identity : IdentitySettings).

Let pod := buildEnginePodSpec visit res engineImage namespace eafs fws jwts identity.

(** The first byte tells the groups of volumes apart. *)
Let starts (c : ascii) (s : string) : Prop := exists t, s = String c t.

Lemma starts_apart c c' (l l' : list string) : c <> c' -> (forall s, s ∈ l -> starts c s) -> (forall s, s ∈ l' -> starts c' s) ->
  forall s, s ∈ l -> s ∉ l'.
Proof. intros Hc Hl Hl' s Hs Hs'. destruct (Hl _ Hs) as [t ->]. destruct (Hl' _ Hs') as [t' E]. by injection E as E _. Qed.

Lemma fw_volumes_names f s : s ∈ vName <$> fw_volumes f -> s = fw_rules_cm f \/ s = fw_rules_sec f.
Proof.
  unfold fw_volumes. rewrite fmap_app, elem_of_app.
  intros [H|H]; [destruct (negb (String.eqb (RulesConfigMap f) ""))|destruct (negb (String.eqb (RulesSecretRef f) ""))]; set_solver.
Qed.

Lemma fw_volumes_nodup : NoDup (vName <$> concat (fw_volumes <$> fws)).
Proof.
  rewrite fmap_concat. apply (NoDup_concat_fmap fwName); [apply ok| |].
  - intros f _. unfold fw_volumes, fw_rules_cm, fw_rules_sec.
    destruct (negb (String.eqb (RulesConfigMap f) "")), (negb (String.eqb (RulesSecretRef f) "")); cbn;
      repeat constructor; set_solver.
  - intros f g s _ _ Hf Hg. apply fw_volumes_names in Hf, Hg. unfold fw_rules_cm, fw_rules_sec in *.
    destruct Hf as [-> | ->], Hg as [E|E]; try done; by apply string_app_inj_r in E.
Qed.

Lemma visited_names f : (jwt_visited visit f).*1 ≡ₚ secret_names f.
Proof. unfold jwt_visited, secret_names. by rewrite visit_perm. Qed.

Lemma jwt_volumes_nodup : NoDup (vName <$> concat (jwt_volumes visit <$> jwts)).
Proof.
  rewrite fmap_concat. assert (concat ((fun f => vName <$> jwt_volumes visit f) <$> jwts)
    ≡ₚ concat ((fun f => jwt_volume_name f <$> secret_names f) <$> jwts)) as ->; [|apply ok].
  apply concat_fmap_perm. intros f. unfold jwt_volumes. rewrite <- list_fmap_compose.
  rewrite <- (visited_names f), <- list_fmap_compose. done.
Qed.

Lemma volumes_nodup : NoDup (vName <$> Volumes pod).
Proof.
  unfold pod, buildEnginePodSpec. destruct (identityVolumes identity) as [ivs ims] eqn:E. cbn [Volumes].
  assert (NoDup (vName <$> ivs) /\ forall s, s ∈ vName <$> ivs -> starts "i" s) as [Hi1 Hi2].
  { unfold identityVolumes in E. destruct (isEnabled identity), (isInsecure identity); cbn in E; injection E as <- _; cbn;
      (split; [repeat constructor; set_solver|]); intros s Hs; unfold starts;
      repeat (apply elem_of_cons in Hs as [->|Hs]; [by eexists|]); by apply elem_of_nil in Hs. }
  set (us := if nonempty eafs || nonempty fws then [mkVolume udsVolumeName EmptyDir] else []).
  assert (NoDup (vName <$> us) /\ forall s, s ∈ vName <$> us -> starts "u" s) as [Hu1 Hu2].
  { unfold us. destruct (nonempty eafs || nonempty fws); cbn; (split; [repeat constructor; set_solver|]); intros s Hs.
    - apply list_elem_of_singleton in Hs as ->. by eexists.
    - by apply elem_of_nil in Hs. }
  assert (forall s, s ∈ vName <$> concat (fw_volumes <$> fws) -> starts "f" s) as Hf.
  { intros s Hs. rewrite fmap_concat in Hs. apply elem_concat_fmap in Hs as (f & _ & Hs).
    apply fw_volumes_names in Hs as [-> | ->]; by eexists. }
  assert (forall s, s ∈ vName <$> concat (jwt_volumes visit <$> jwts) -> starts "j" s) as Hj.
  { intros s Hs. rewrite fmap_concat in Hs. apply elem_concat_fmap in Hs as (f & _ & Hs). unfold jwt_volumes in Hs.
    rewrite <- list_fmap_compose in Hs. apply list_elem_of_fmap in Hs as (e & -> & _). by eexists. }
  rewrite !fmap_app. apply NoDup_app. split; [done|]. split.
  - intros s Hs. rewrite !not_elem_of_app. split_and!; [eapply (starts_apart "i" "u")|eapply (starts_apart "i" "f")|eapply (starts_apart "i" "j")]; (done || discriminate).
  - apply NoDup_app. split; [done|]. split; [|apply NoDup_app; split; [apply fw_volumes_nodup|split; [|apply jwt_volumes_nodup]]].
    + intros s Hs. rewrite !not_elem_of_app. split; [eapply (starts_apart "u" "f")|eapply (starts_apart "u" "j")]; (done || discriminate).
    + eapply (starts_apart "f" "j"); (done || discriminate).
Qed.

Lemma containers_nodup : NoDup (conName <$> Containers pod).
Proof.
  unfold pod, buildEnginePodSpec. destruct (identityVolumes identity) as [ivs ims]. cbn [Containers fmap list_fmap].
  rewrite fmap_app, <- !list_fmap_compose. apply NoDup_cons. split.
  - intros H. apply elem_of_app in H as [H|H]; apply list_elem_of_fmap in H as (f & E & _); discriminate.
  - apply NoDup_app. split; [|split].
    + change (conName ∘ ext_auth_sidecar) with ((fun n => "ext-auth-" +++ n)%go ∘ eafName). rewrite list_fmap_compose.
      apply NoDup_fmap_2; [intros x y E; by apply string_app_inj_r in E|apply ok].
    + intros s Hs Hs'. apply list_elem_of_fmap in Hs as (f & -> & _), Hs' as (g & E & _). discriminate.
    + change (conName ∘ fw_sidecar) with ((fun n => "fw-" +++ n)%go ∘ fwName). rewrite list_fmap_compose.
      apply NoDup_fmap_2; [intros x y E; by apply string_app_inj_r in E|apply ok].
Qed.
Lemma jwt_dirs f : f ∈ jwts -> mount_dir <$> jwt_mounts visit f ≡ₚ (fun s => jwtSecretDir (jwtName f) +++ "/" +++ s)%go <$> secret_names f.
Proof.
  intros Hf. unfold jwt_mounts. rewrite <- list_fmap_compose, <- (visited_names f), <- list_fmap_compose.
  apply Permutation_refl', list_fmap_ext. intros i e He. unfold compose, mount_dir. cbn [MountPath]. apply trim_slash.
  apply (fo_names _ _ _ ok f Hf). rewrite <- (visited_names f). apply list_elem_of_fmap_2. by eapply list_elem_of_lookup_2.
Qed.

Lemma jwt_dirs_elem d : d ∈ concat ((fun f => mount_dir <$> jwt_mounts visit f) <$> jwts) ->
  exists f s, f ∈ jwts /\ object_name s = true /\ d = (jwtSecretDir (jwtName f) +++ "/" +++ s)%go.
Proof.
  intros Hd. apply elem_concat_fmap in Hd as (f & Hf & Hd). rewrite (jwt_dirs f Hf) in Hd.
  apply list_elem_of_fmap in Hd as (s & -> & Hs). exists f, s. split; [done|]. split; [|done]. by apply (fo_names _ _ _ ok f Hf).
Qed.

Lemma jwt_dirs_nodup : NoDup (mount_dir <$> concat (jwt_mounts visit <$> jwts)).
Proof.
  rewrite fmap_concat. apply (NoDup_concat_fmap jwtName); [apply ok| |].
  - intros f Hf. rewrite (jwt_dirs f Hf). apply NoDup_fmap_2; [|apply jwtSecretItems_nodup].
    intros x y E. by repeat apply string_app_inj_r in E.
  - intros f g d Hf Hg Hd Hd'. rewrite (jwt_dirs _ Hf) in Hd. rewrite (jwt_dirs _ Hg) in Hd'.
    apply list_elem_of_fmap in Hd as (s & -> & Hs), Hd' as (s' & E & Hs').
    apply app_slash_inj in E as [E _]; [by repeat apply string_app_inj_r in E| |];
      [apply (fo_names _ _ _ ok f Hf) in Hs; rename Hs into H|apply (fo_names _ _ _ ok g Hg) in Hs'; rename Hs' into H];
      by apply andb_true_iff in H as [H _].
Qed.

Lemma engine_dirs_nodup : NoDup (mount_dir <$> (identityVolumes identity).2 ++
  (if nonempty eafs || nonempty fws then [uds_mount] else []) ++ concat (jwt_mounts visit <$> jwts)).
Proof.
  set (us := if nonempty eafs || nonempty fws then [uds_mount] else []).
  assert (forall d, d ∈ mount_dir <$> us -> d = "/var/run/hypergate") as Hu.
  { unfold us. intros d Hd. destruct (nonempty eafs || nonempty fws); [by apply list_elem_of_singleton in Hd as ->|by apply elem_of_nil in Hd]. }
  assert (forall d, d ∈ mount_dir <$> (identityVolumes identity).2 -> d = identityTokenMountDir \/ d = identityCAMountDir) as Hi.
  { unfold identityVolumes. intros d Hd. destruct (isEnabled identity), (isInsecure identity); cbn in Hd; set_solver. }
  rewrite !fmap_app, (fmap_concat mount_dir). apply NoDup_app. split; [|split].
  - unfold identityVolumes. destruct (isEnabled identity), (isInsecure identity); cbn; repeat constructor; set_solver.
  - intros d Hd H. apply Hi in Hd. apply elem_of_app in H as [H|H].
    + apply Hu in H. destruct Hd as [-> | ->]; discriminate.
    + apply jwt_dirs_elem in H as (f & s & _ & _ & E). destruct Hd as [-> | ->]; discriminate.
  - apply NoDup_app. split; [|split; [|rewrite <- fmap_concat; apply jwt_dirs_nodup]].
    + unfold us. destruct (nonempty eafs || nonempty fws); cbn; repeat constructor; set_solver.
    + intros d Hd H. apply Hu in Hd as ->. apply jwt_dirs_elem in H as (f & s & _ & _ & E). discriminate.
Qed.

(** The containers of the pod. *)
Lemma containers_cases c : c ∈ Containers pod ->
  VolumeMounts c = (identityVolumes identity).2 ++ (if nonempty eafs || nonempty fws then [uds_mount] else []) ++ concat (jwt_mounts visit <$> jwts) \/
  (exists f, f ∈ eafs /\ c = ext_auth_sidecar f) \/ (exists f, f ∈ fws /\ c = fw_sidecar f).
Proof.
  unfold pod, buildEnginePodSpec. destruct (identityVolumes identity) as [ivs ims]. cbn [Containers]. intros Hc.
  apply elem_of_cons in Hc as [->|Hc]; [by left|]. right. apply elem_of_app in Hc as [Hc|Hc]; apply list_elem_of_fmap in Hc as (f & -> & Hf);
    [left|right]; by exists f.
Qed.

Lemma volumes_elem v : v ∈ Volumes pod <-> v ∈ (identityVolumes identity).1 \/
  (nonempty eafs || nonempty fws = true /\ v = mkVolume udsVolumeName EmptyDir) \/
  (exists f, f ∈ fws /\ v ∈ fw_volumes f) \/ (exists f, f ∈ jwts /\ v ∈ jwt_volumes visit f).
Proof.
  unfold pod, buildEnginePodSpec. destruct (identityVolumes identity) as [ivs ims]. cbn [Volumes].
  rewrite !elem_of_app, !elem_concat_fmap.
  destruct (nonempty eafs || nonempty fws); [rewrite list_elem_of_singleton|rewrite elem_of_nil]; intuition congruence.
Qed.

(** Every part mounts the volumes it adds. *)
Lemma part_mounted (vs : list Volume) (ms : list VolumeMount) m :
  vName <$> vs = vmName <$> ms -> (forall v, v ∈ vs -> v ∈ Volumes pod) -> m ∈ ms -> vmName m ∈ vName <$> Volumes pod.
Proof.
  intros E Hin Hm. apply (list_elem_of_fmap_2 vmName) in Hm. rewrite <- E in Hm. apply list_elem_of_fmap in Hm as (v & -> & Hv).
  by apply list_elem_of_fmap_2, Hin.
Qed.

Lemma mounted c m : c ∈ Containers pod -> m ∈ VolumeMounts c -> vmName m ∈ vName <$> Volumes pod.
Proof.
  intros Hc Hm. assert (nonempty eafs || nonempty fws = true -> vmName uds_mount ∈ vName <$> Volumes pod) as Huds.
  { intros H. apply (part_mounted [mkVolume udsVolumeName EmptyDir] [uds_mount]); [done| |by left].
    intros v Hv. apply list_elem_of_singleton in Hv as ->. apply volumes_elem. by right; left. }
  apply containers_cases in Hc as [E|[(f & Hf & ->)|(f & Hf & ->)]].
  - rewrite E in Hm. apply elem_of_app in Hm as [Hm|Hm]; [|apply elem_of_app in Hm as [Hm|Hm]].
    + eapply part_mounted; [|intros v Hv; apply volumes_elem; left; exact Hv|exact Hm].
      unfold identityVolumes. by destruct (isEnabled identity), (isInsecure identity).
    + destruct (nonempty eafs || nonempty fws); [|by apply elem_of_nil in Hm]. apply list_elem_of_singleton in Hm as ->. by apply Huds.
    + apply elem_concat_fmap in Hm as (f & Hf & Hm).
      apply (part_mounted (jwt_volumes visit f) (jwt_mounts visit f)); [|intros v Hv; apply volumes_elem; by eauto 6|exact Hm].
      unfold jwt_volumes, jwt_mounts. by rewrite <- !list_fmap_compose.
  - apply list_elem_of_singleton in Hm as ->. apply Huds. destruct eafs; [by apply elem_of_nil in Hf|done].
  - cbn [fw_sidecar VolumeMounts] in Hm. apply elem_of_app in Hm as [Hm|Hm].
    + apply list_elem_of_singleton in Hm as ->. apply Huds. destruct fws; [by apply elem_of_nil in Hf|]. by destruct eafs.
    + eapply (part_mounted (fw_volumes f)); [|intros v Hv; apply volumes_elem; by eauto 6|exact Hm].
      unfold fw_volumes. by destruct (negb (String.eqb (RulesConfigMap f) "")), (negb (String.eqb (RulesSecretRef f) "")).
Qed.

Lemma pod_is_valid : pod_valid pod.
Proof.
  split; [apply volumes_nodup|apply containers_nodup|apply mounted|]. intros c Hc.
  apply containers_cases in Hc as [->|[(f & Hf & ->)|(f & Hf & ->)]]; [apply engine_dirs_nodup|repeat constructor; set_solver|].
  unfold fw_sidecar. cbn [VolumeMounts].
  destruct (negb (String.eqb (RulesConfigMap f) "")), (negb (String.eqb (RulesSecretRef f) "")); cbn; repeat constructor; set_solver.
Qed.
(** ** What the configuration refers to *)

(** The container the engine runs in. *)
Definition engine : Container :=
  (engine_container res engineImage namespace) <| VolumeMounts := (identityVolumes identity).2 ++
    (if nonempty eafs || nonempty fws then [uds_mount] else []) ++ concat (jwt_mounts visit <$> jwts) |>.

Lemma engine_in : head (Containers pod) = Some engine.
Proof. unfold pod, engine, buildEnginePodSpec. by destruct (identityVolumes identity). Qed.

Lemma engine_mount v m file o : v ∈ Volumes pod -> m ∈ VolumeMounts engine -> vName v = vmName m -> no_slash file = true ->
  projects v file = Some o -> backed_by pod engine (mount_dir m +++ "/" +++ file)%go o.
Proof. intros. by exists m, v, file. Qed.

Lemma jwt_file f ref file : f ∈ jwts ->
  (LocalSecretRef f = Some ref /\ file = jwtLocalSecretFile) \/ (IntrospectionAuthSecretRef f = Some ref /\ file = jwtIntrospectionAuthFile) ->
  backed_by pod engine (jwtSecretFile (jwtName f) (skName ref) file) (SecretKey (skName ref) (skKey ref)).
Proof.
  intros Hf Href. destruct (jwtSecretItems_spec f ref file Href) as (keys & He & Hk).
  rewrite <- (visit_perm (jwtName f)) in He. fold (jwt_visited visit f) in He.
  assert (object_name (skName ref) = true) as Hn.
  { apply (fo_names _ _ _ ok f Hf). rewrite <- (visited_names f). by apply (list_elem_of_fmap_2 fst) in He. }
  set (m := mkVolumeMount (jwt_volume_name f (skName ref)) (jwtSecretDir (jwtName f) +++ "/" +++ skName ref)%go true).
  replace (jwtSecretFile (jwtName f) (skName ref) file) with (mount_dir m +++ "/" +++ file)%go.
  - apply (engine_mount (mkVolume (jwt_volume_name f (skName ref)) (SecretVolume (skName ref) keys (Some 288%Z)))); [| |done| |].
    + apply volumes_elem. right; right; right. exists f. split; [done|]. apply list_elem_of_fmap. by exists (skName ref, keys).
    + unfold engine. cbn [VolumeMounts set_field]. rewrite !elem_of_app, elem_concat_fmap. right; right. exists f. split; [done|].
      apply list_elem_of_fmap. by exists (skName ref, keys).
    + by destruct Href as [[_ ->]|[_ ->]].
    + unfold projects. cbn [vSource]. destruct keys; [done|]. by rewrite Hk.
  - unfold mount_dir, jwtSecretFile, jwtSecretDir, m. cbn [MountPath]. rewrite trim_slash by done. by rewrite !string_app_assoc.
Qed.

(** The engine and a sidecar meet at the socket. *)
Definition socket_shared (c : Container) (file : string) : Prop :=
  backed_by pod engine (udsVolumeMountPath +++ file)%go (Shared udsVolumeName file) /\
  backed_by pod c (udsVolumeMountPath +++ file)%go (Shared udsVolumeName file).

Lemma socket_ok c file : nonempty eafs || nonempty fws = true -> uds_mount ∈ VolumeMounts c -> no_slash file = true -> socket_shared c file.
Proof.
  intros Hs Hc Hf. assert (mkVolume udsVolumeName EmptyDir ∈ Volumes pod) as Hv by (apply volumes_elem; by right; left).
  split; exists uds_mount, (mkVolume udsVolumeName EmptyDir), file; (split; [|done]); [|done].
  unfold engine. cbn [VolumeMounts set_field]. rewrite Hs. set_solver.
Qed.

Lemma ext_auth_ok f : f ∈ eafs -> socket_shared (ext_auth_sidecar f) ("ext-auth-" +++ eafName f +++ ".sock")%go.
Proof.
  intros Hf. apply socket_ok; [by destruct eafs; [apply elem_of_nil in Hf|]|by left|].
  apply no_slash_app; [done|]. apply no_slash_app; [|done]. by apply object_name_slash, (fo_eaf_names _ _ _ ok).
Qed.

Lemma fw_ok f : f ∈ fws -> socket_shared (fw_sidecar f) ("fw-" +++ fwName f +++ ".sock")%go.
Proof.
  intros Hf. apply socket_ok; [destruct fws; [by apply elem_of_nil in Hf|by destruct eafs]|by left|].
  apply no_slash_app; [done|]. apply no_slash_app; [|done]. by apply object_name_slash, (fo_fw_names _ _ _ ok).
Qed.

Lemma identity_ok : isEnabled identity = true ->
  backed_by pod engine (TokenFile (engineIdentity identity)) (Token identityTokenAudience) /\
  (isInsecure identity = false -> backed_by pod engine (idCAFile (engineIdentity identity)) (ConfigMapKey identityCAConfigMap "ca.crt")).
Proof.
  intros He. unfold engineIdentity. rewrite He. cbn [TokenFile idCAFile]. split.
  - apply (engine_mount (mkVolume identityTokenVolume (TokenVolume identityTokenAudience identityTokenExpirySec "token" 292))
      (mkVolumeMount identityTokenVolume identityTokenMountDir true) "token"); [|unfold engine; cbn [VolumeMounts set_field]|done..];
      [apply volumes_elem; left|]; unfold identityVolumes; rewrite He; destruct (isInsecure identity); set_solver.
  - intros Hi. rewrite Hi. apply (engine_mount (mkVolume identityCAVolume (ConfigMapVolume identityCAConfigMap))
      (mkVolumeMount identityCAVolume identityCAMountDir true) "ca.crt"); [|unfold engine; cbn [VolumeMounts set_field]|done..];
      [apply volumes_elem; left|]; unfold identityVolumes; rewrite He, Hi; set_solver.
Qed.
End Valid.

End EnginePod.
