(* ===== verification/OpAuth.v ===== *)
(** * OpAuth: who may read identities (hyper-operator/internal/identity: tokenreview.go,
    server.go, flags.go; hyper-operator/internal/controller/common.go;
    hyper-operator/cmd/main.go)

    The identity server gives a stream to a caller whose bearer token the
    Kubernetes API accepts and whose ServiceAccount runs an engine. Accepted
    reviews are cached. The cache is shared by concurrent calls, so a run of the
    authenticator is a step relation with one step per critical section. SHA-256,
    the TokenReview API and the decoder of token payloads are parameters. *)

From S2P Require Import Prelude GoStrings GoPath GoTime Netip Config Compiler.
From stdpp Require Import sorting.

Local Open Scope string_scope.
Local Open Scope list_scope.

Module OpAuth.

(** ** tokenreview.go *)

Definition TokenAudience : string := "hypergate-identity".

(** The status of a TokenReview. *)
Record ReviewStatus := mkReviewStatus { Authenticated : bool; stError : string; Audiences : list string; Username : string }.

(** Errors as [errors.Is] tells them apart. *)
Inductive AuthError : Type :=
| ErrUnauthenticated (msg : string)
| ErrForbidden (username : string)
| ErrReview (msg : string).

Record cachedReview := mkCachedReview { username : string; expires : Z }.

Record TokenReviewAuthenticator := mkAuthenticator { Audience : string; TTL : Z }.

Abbreviation Cache := (gmap string cachedReview).

Definition ServiceAccountUsername (namespace name : string) : string :=
  ("system:serviceaccount:" +++ namespace +++ ":" +++ name)%go.

Section Authenticator.
(** [sha256.Sum256], and the exp claim of a JWT payload (base64url, JSON): [None]
    when it cannot be decoded, 0 when it has none. *)
Variable Sum256 : string -> string.
Variable payload_exp : string -> option Z.
Variable a : TokenReviewAuthenticator.

Definition tokenExpiry (token : string) : option Z :=
  match Split token "." with
  | [_; payload; _] =>
      match payload_exp payload with
      | Some exp => if (exp =? 0)%Z then None else Some (exp * Second)%Z
      | None => None
      end
  | _ => None
  end.

(** The lookup under the lock. *)
Definition cached_review (cache : Cache) (now : Z) (token : string) : option string :=
  match cache !! Sum256 token with
  | Some c => if (now <? expires c)%Z then Some (username c) else None
  | None => None
  end.

Definition audience : string := if String.eqb (Audience a) "" then TokenAudience else Audience a.

(** What a review means; [Allowed] is asked last. *)
Definition check_review (allowed : string -> bool) (st : ReviewStatus) : string + AuthError :=
  if negb (Authenticated st) then inr (ErrUnauthenticated (if String.eqb (stError st) "" then "not authenticated" else stError st))
  else if nonempty (Audiences st) && negb (bool_decide (audience ∈ Audiences st))
  then inr (ErrUnauthenticated "token audience")
  else if negb (allowed (Username st)) then inr (ErrForbidden (Username st))
  else inl (Username st).

Definition ttl : Z := if (TTL a <=? 0)%Z then (5 * Minute)%Z else TTL a.

Definition expiry (now : Z) (token : string) : Z :=
  match tokenExpiry token with
  | Some exp => if (exp <? now + ttl)%Z then exp else (now + ttl)%Z
  | None => (now + ttl)%Z
  end.

(** The second critical section; a nil cache is an empty one. *)
Definition store_review (cache : Cache) (now : Z) (token user : string) : Cache :=
  let cache := if (1024 <? size cache)%nat then filter (fun e => (now < expires e.2)%Z) cache else cache in
  <[Sum256 token := mkCachedReview user (expiry now token)]> cache.

(** The whole call, when nothing else runs: [now'] is the time after the review. *)
Definition Authenticate (allowed : string -> bool) (review : string -> list string -> result ReviewStatus)
  (cache : Cache) (now now' : Z) (token : string) : (string + AuthError) * Cache :=
  match cached_review cache now token with
  | Some user => (if allowed user then inl user else inr (ErrForbidden user), cache)
  | None =>
      match review token [audience] with
      | Err e => (inr (ErrReview e), cache)
      | Ok st =>
          match check_review allowed st with
          | inl user => (inl user, store_review cache now' token user)
          | inr e => (inr e, cache)
          end
      end
  end.

End Authenticator.

(** ** server.go: authentication *)

Inductive Code : Type := Unauthenticated | PermissionDenied | Unavailable.

(** The first non-empty bearer token of the authorization metadata. *)
Fixpoint bearer_token (values : list string) : string :=
  match values with
  | [] => ""
  | v :: values =>
      let '(t, ok) := CutPrefix v "Bearer " in
      if ok && negb (String.eqb t "") then t else bearer_token values
  end.

Definition status_of (e : AuthError) : Code :=
  match e with ErrUnauthenticated _ => Unauthenticated | ErrForbidden _ => PermissionDenied | ErrReview _ => Unavailable end.

Definition authenticate {S : Type} (Authenticator : string -> S -> (string + AuthError) * S) (md : list string) (s : S)
  : (string + Code) * S :=
  let token := bearer_token md in
  if String.eqb token "" then (inr Unauthenticated, s)
  else match Authenticator token s with
       | (inl id, s) => (inl id, s)
       | (inr e, s) => (inr (status_of e), s)
       end.

(** The interceptors: the handler runs only for an authenticated caller. *)
Definition authStream {S A : Type} (Authenticator : string -> S -> (string + AuthError) * S) (md : list string)
  (handler : S -> (A + Code) * S) (s : S) : (A + Code) * S :=
  match authenticate Authenticator md s with
  | (inl _, s) => handler s
  | (inr code, s) => (inr code, s)
  end.
Definition authUnary {S A : Type} := @authStream S A.

(** ** common.go and main.go: which ServiceAccounts are allowed *)

Definition EngineServiceAccountName : string := "hyper-engine-sa".

Definition EngineNamespaces (configs : list Compiler.HyperConfig) : list string := (Compiler.activeHyperConfigs configs).1.*1.

(** The closure of [setupIdentityServer]; [None]: the list of HyperConfigs failed. *)
Definition Allowed (configs : option (list Compiler.HyperConfig)) (user : string) : bool :=
  match configs with
  | None => false
  | Some configs => existsb (fun ns => String.eqb user (ServiceAccountUsername ns EngineServiceAccountName)) (EngineNamespaces configs)
  end.

(** ** A run of the server *)

Section Run.
Variable Sum256 : string -> string.
Variable payload_exp : string -> option Z.
Variable a : TokenReviewAuthenticator.

(** An answer of the TokenReview API: for which token, when, and the HyperConfigs
    there were then. *)
Record Review := mkReview {
  rvToken : string; rvStatus : ReviewStatus; rvTime : Z; rvConfigs : option (list Compiler.HyperConfig) }.

(** A call between its critical sections. *)
Inductive Pending : Type :=
| Reviewing (token : string)
| Storing (rv : Review).

(** The clock, the HyperConfigs, the cache, the calls in progress, and as history
    the API's answers and those that were stored, with the time. *)
Record AuthState := mkAuthState {
  clock : Z; hyperConfigs : option (list Compiler.HyperConfig); cache : Cache; pending : gmap nat Pending;
  reviews : list Review; accepted : list (Review * Z) }.
#[export] Instance AuthState_eta : Eta AuthState := fun x =>
  mkAuthState (clock x) (hyperConfigs x) (cache x) (pending x) (reviews x) (accepted x).

Definition initial (t : Z) : AuthState := mkAuthState t (Some []) ∅ ∅ [] [].

(** What a step shows outside: a stream opened for a token as a user, or refused. *)
Inductive Event : Type :=
| Internal
| Opened (token user : string)
| Refused (token : string) (code : Code).

Inductive auth_step : AuthState -> Event -> AuthState -> Prop :=
| step_time s t : (clock s <= t)%Z -> auth_step s Internal (s <| clock := t |>)
| step_configs s l : auth_step s Internal (s <| hyperConfigs := l |>)
| step_no_token s md : bearer_token md = "" -> auth_step s (Refused "" Unauthenticated) s
| step_hit s md user : bearer_token md <> "" -> cached_review Sum256 (cache s) (clock s) (bearer_token md) = Some user ->
    auth_step s (if Allowed (hyperConfigs s) user then Opened (bearer_token md) user
                 else Refused (bearer_token md) (status_of (ErrForbidden user))) s
| step_miss s md i : bearer_token md <> "" -> cached_review Sum256 (cache s) (clock s) (bearer_token md) = None ->
    pending s !! i = None -> auth_step s Internal (s <| pending := <[i := Reviewing (bearer_token md)]> (pending s) |>)
| step_unreachable s i token e : pending s !! i = Some (Reviewing token) ->
    auth_step s (Refused token (status_of (ErrReview e))) (s <| pending := delete i (pending s) |>)
| step_rejected s i token st e : pending s !! i = Some (Reviewing token) ->
    check_review a (Allowed (hyperConfigs s)) st = inr e ->
    auth_step s (Refused token (status_of e))
      (s <| pending := delete i (pending s) |> <| reviews := reviews s ++ [mkReview token st (clock s) (hyperConfigs s)] |>)
| step_accepted s i token st user : pending s !! i = Some (Reviewing token) ->
    check_review a (Allowed (hyperConfigs s)) st = inl user ->
    let rv := mkReview token st (clock s) (hyperConfigs s) in
    auth_step s Internal (s <| pending := <[i := Storing rv]> (pending s) |> <| reviews := reviews s ++ [rv] |>)
| step_store s i rv : pending s !! i = Some (Storing rv) ->
    let user := Username (rvStatus rv) in
    auth_step s (Opened (rvToken rv) user)
      (s <| pending := delete i (pending s) |>
         <| cache := store_review Sum256 payload_exp a (cache s) (clock s) (rvToken rv) user |>
         <| accepted := accepted s ++ [(rv, clock s)] |>).

Inductive reachable (t0 : Z) : AuthState -> Prop :=
| reach_init : reachable t0 (initial t0)
| reach_step s e s' : reachable t0 s -> auth_step s e s' -> reachable t0 s'.

End Run.

(** ** server.go: the certificate *)

(** [certReloader] over what it reads: the modification time of the certificate
    file and the pair of files, when they can be read. *)
Section CertReloader.
Context {Cert : Type}.

Record certReloader := mkCertReloader { cert : option Cert; modTime : Z }.

Definition get_cert (r : certReloader) (stat : option Z) (load : option Cert) : result Cert * certReloader :=
  match stat with
  | None => (match cert r with Some c => Ok c | None => Err "identity server: certificate" end, r)
  | Some t =>
      match cert r with
      | Some c => if (t =? modTime r)%Z then (Ok c, r)
                  else match load with
                       | None => (Ok c, r)
                       | Some c' => (Ok c', mkCertReloader (Some c') t)
                       end
      | None => match load with
                | None => (Err "identity server: load certificate", r)
                | Some c' => (Ok c', mkCertReloader (Some c') t)
                end
      end
  end.

(** A sequence of handshakes, with what the files were at each of them. *)
Fixpoint serve_certs (r : certReloader) (reads : list (option Z * option Cert)) : list (result Cert) :=
  match reads with
  | [] => []
  | (stat, load) :: reads => let '(c, r) := get_cert r stat load in c :: serve_certs r reads
  end.
End CertReloader.

(** ** flags.go and main.go: settings of the server and of its clients *)

Record IdentityFlags := mkIdentityFlags {
  cacheEnabled : bool; TrustDomain : string; LabelKeys : string; ServerEnabled : bool; ServerAddress : string;
  ServerCertDir : string; ServerInsecure : bool; ServiceName : string }.

Definition ValidateFlags (c : IdentityFlags) : result () :=
  if negb (ServerEnabled c) then Ok tt
  else if negb (cacheEnabled c) then Err "--identity-server needs --identity-cache"
  else if String.eqb (ServerCertDir c) "" && negb (ServerInsecure c) then Err "--identity-server needs --identity-server-cert-dir"
  else Ok tt.

(** [Authenticator] is whether one is set. *)
Record ServerOptions := mkServerOptions {
  soAddress : string; CertFile : string; KeyFile : string; soInsecure : bool; soAuthenticator : bool }.

Definition ServerOptionsOf (c : IdentityFlags) : ServerOptions :=
  if String.eqb (ServerCertDir c) "" then mkServerOptions (ServerAddress c) "" "" (ServerInsecure c) true
  else mkServerOptions (ServerAddress c) (JoinPath [ServerCertDir c; "tls.crt"]) (JoinPath [ServerCertDir c; "tls.key"])
         (ServerInsecure c) true.

(** The checks and defaults of [NewServer]. *)
Definition check_options (o : ServerOptions) : result ServerOptions :=
  if negb (soAuthenticator o) then Err "identity server: an authenticator is required"
  else if negb (soInsecure o) && (String.eqb (CertFile o) "" || String.eqb (KeyFile o) "")
  then Err "identity server: a TLS certificate and key are required"
  else Ok (if String.eqb (soAddress o) "" then mkServerOptions ":9444" (CertFile o) (KeyFile o) (soInsecure o) (soAuthenticator o)
           else o).

(** [strconv.ParseInt(_, 10, 32)] and the range of ports. *)
Definition ServerPort (c : IdentityFlags) : result Z :=
  match SplitHostPort (ServerAddress c) with
  | None => Err "address"
  | Some (_, port) =>
      match ParseInt64 port with
      | Some p => if (p <=? 0)%Z || (65535 <? p)%Z then Err "invalid identity server port" else Ok p
      | None => Err "invalid identity server port"
      end
  end.

Definition OptionsLabelKeys (c : IdentityFlags) : list string :=
  omap (fun k => let k := TrimSpace k in if String.eqb k "" then None else Some k) (Split (LabelKeys c) ",").

(** What [setupIdentityServer] makes of the flags and of the pod's environment: the
    server's options and the publisher's namespace, service, address and port. *)
Definition setupIdentityServer (c : IdentityFlags) (podNamespace podIP : string) : result (ServerOptions * (string * string * string * Z)) :=
  let? opts := check_options (ServerOptionsOf c) in
  let? port := ServerPort c in
  if String.eqb podNamespace "" || String.eqb podIP "" then Err "POD_NAMESPACE and POD_IP must be set from the downward API"
  else Ok (opts, (podNamespace, ServiceName c, podIP, port)).

Definition engineIdentitySettings (c : IdentityFlags) (podNamespace : string) : Compiler.IdentitySettings :=
  if negb (cacheEnabled c) || negb (ServerEnabled c) then Compiler.mkIdentitySettings false "" "" false
  else
    let port := match ServerPort c with Ok p => p | Err _ => 0%Z end in
    let host := (ServiceName c +++ "." +++ podNamespace +++ ".svc")%go in
    Compiler.mkIdentitySettings true (host +++ ":" +++ Itoa port)%go host (ServerInsecure c).

(** ** Lemmas *)

Section RunLemmas.
Variable Sum256 : string -> string.
Variable payload_exp : string -> option Z.
Variable a : TokenReviewAuthenticator.
Implicit Types (s : AuthState) (rv : Review).

(** A review the authenticator may act on. *)
Definition good (s : AuthState) (rv : Review) : Prop :=
  rv ∈ reviews s /\ check_review a (Allowed (rvConfigs rv)) (rvStatus rv) = inl (Username (rvStatus rv)) /\ (rvTime rv <= clock s)%Z.

Record auth_inv s : Prop := {
  inv_accepted : forall rv t, (rv, t) ∈ accepted s -> good s rv /\ (rvTime rv <= t <= clock s)%Z;
  inv_pending : forall i rv, pending s !! i = Some (Storing rv) -> good s rv;
  inv_cache : forall k c, cache s !! k = Some c -> exists rv t, (rv, t) ∈ accepted s /\ Sum256 (rvToken rv) = k /\
    username c = Username (rvStatus rv) /\ expires c = expiry payload_exp a t (rvToken rv)
}.

Lemma check_review_inl allowed st user : check_review a allowed st = inl user ->
  user = Username st /\ Authenticated st = true /\ (Audiences st = [] \/ audience a ∈ Audiences st) /\ allowed user = true.
Proof.
  unfold check_review. destruct (Authenticated st); [|done]. cbn [negb].
  destruct (Audiences st) as [|x l] eqn:E; cbn [nonempty andb];
    [|case_bool_decide as Hin; cbn [negb]; [|done]];
    destruct (allowed (Username st)) eqn:Ea; cbn [negb]; try done; intros [= <-]; split_and!; auto.
Qed.

Lemma expiry_bounds now token : (expiry payload_exp a now token <= now + ttl a)%Z /\
  forall e, tokenExpiry payload_exp token = Some e -> (expiry payload_exp a now token <= e)%Z.
Proof.
  unfold expiry. destruct (tokenExpiry payload_exp token) as [e|]; [|split; [lia|done]].
  destruct (Z.ltb_spec e (now + ttl a)); split; try lia; intros e' [= <-]; lia.
Qed.

Lemma good_mono s s' rv : (forall r, r ∈ reviews s -> r ∈ reviews s') -> (clock s <= clock s')%Z -> good s rv -> good s' rv.
Proof. intros Hr Hc (H1 & H2 & H3). split; [auto|]. split; [done|]. lia. Qed.

Lemma store_lookup now token user (ca : Cache) k c : store_review Sum256 payload_exp a ca now token user !! k = Some c ->
  k = Sum256 token /\ c = mkCachedReview user (expiry payload_exp a now token) \/ ca !! k = Some c.
Proof.
  unfold store_review. cbv zeta. intros [[<- <-]|[Hne H]]%lookup_insert_Some; [by left|right].
  destruct (1024 <? size ca)%nat; [|done]. by apply map_lookup_filter_Some in H as [H _].
Qed.

(** Steps that change neither history nor cache, and take nothing from a call. *)
Lemma auth_inv_keep s s' : auth_inv s -> (forall r, r ∈ reviews s -> r ∈ reviews s') -> (clock s <= clock s')%Z ->
  accepted s' = accepted s -> cache s' = cache s ->
  (forall i rv, pending s' !! i = Some (Storing rv) -> pending s !! i = Some (Storing rv) \/ good s' rv) -> auth_inv s'.
Proof.
  intros [H1 H2 H3] Hr Hc Ea Ec Hp. split.
  - intros rv t Hin. rewrite Ea in Hin. destruct (H1 _ _ Hin) as [Hg ?]. split; [by apply (good_mono s)|lia].
  - intros i rv [Hi|Hg]%Hp; [|done]. apply H2 in Hi. by apply (good_mono s).
  - rewrite Ec, Ea. exact H3.
Qed.

Lemma auth_inv_step s e s' : auth_inv s -> auth_step Sum256 payload_exp a s e s' -> auth_inv s'.
Proof.
  intros Hi Hs. destruct Hs as [s t Ht|s l|s md Hmd|s md u Hmd Hu|s md i Hmd Hu Hn|s i tk er Hp|s i tk st er Hp Hc|s i tk st u Hp Hc rv|s i rv Hp u].
  - apply (auth_inv_keep s); cbn; auto.
  - apply (auth_inv_keep s); cbn; auto; lia.
  - done.
  - done.
  - apply (auth_inv_keep s); cbn; auto; [lia|]. intros j rv [[_ ?]|[_ ?]]%lookup_insert_Some; [done|by left].
  - apply (auth_inv_keep s); cbn; auto; [lia|]. intros j rv [_ ?]%lookup_delete_Some. by left.
  - apply (auth_inv_keep s); cbn; auto; [intros; apply elem_of_app; by left|lia|]. intros j rv [_ ?]%lookup_delete_Some. by left.
  - apply (auth_inv_keep s); cbn; auto; [intros; apply elem_of_app; by left|lia|].
    intros j rv' [[_ E]|[_ ?]]%lookup_insert_Some; [right|by left]. injection E as <-. split; [apply elem_of_app; right; by left|].
    unfold rv. cbn. apply check_review_inl in Hc as Hc'. destruct Hc' as (-> & _). split; [done|lia].
  - destruct Hi as [H1 H2 H3]. pose proof (H2 _ _ Hp) as Hg. split; cbn -[store_review].
    + intros rv' t [Hin|Hin%list_elem_of_singleton]%elem_of_app; [by apply H1|]. injection Hin as -> ->.
      split; [exact Hg|]. destruct Hg as (_ & _ & ?). cbn. lia.
    + intros j rv' [_ Hj]%lookup_delete_Some. exact (H2 _ _ Hj).
    + intros k c [(-> & ->)|Hk]%store_lookup.
      * exists rv, (clock s). split; [apply elem_of_app; right; by left|done].
      * destruct (H3 _ _ Hk) as (rv' & t & Hin & Hrest). exists rv', t. split; [apply elem_of_app; by left|done].
Qed.

Lemma reachable_auth_inv t0 s : reachable Sum256 payload_exp a t0 s -> auth_inv s.
Proof.
  induction 1 as [|s e s' _ IH Hs]; [|by eapply auth_inv_step].
  split; cbn; [intros rv t H|intros i rv H|intros k c H]; [by apply elem_of_nil in H|done|done].
Qed.

Lemma Allowed_spec configs user : Allowed (Some configs) user = true <->
  exists ns, ns ∈ EngineNamespaces configs /\ user = ServiceAccountUsername ns EngineServiceAccountName.
Proof.
  unfold Allowed. rewrite existsb_elem. split; intros (ns & Hin & E); exists ns; (split; [done|]); by apply String.eqb_eq.
Qed.

End RunLemmas.

(** The namespaces that run an engine are the targets of the HyperConfigs. *)
Lemma EngineNamespaces_spec configs ns :
  ns ∈ EngineNamespaces configs <-> exists hc, hc ∈ configs /\ Compiler.targetNamespaceOf hc = ns.
Proof.
  unfold EngineNamespaces, Compiler.activeHyperConfigs.
  setoid_rewrite <- (elem_of_Permutation_proper _ _ _ (merge_sort_Permutation Compiler.older configs)).
  enough (forall l acc, ns ∈ (fold_left Compiler.add_config l acc).1.*1 <->
    ns ∈ acc.1.*1 \/ exists hc, hc ∈ l /\ Compiler.targetNamespaceOf hc = ns) as H by (rewrite H; set_solver).
  induction l as [|hc l IH]; intros acc; cbn [fold_left]; [set_solver|]. rewrite IH. unfold Compiler.add_config.
  destruct (map_get acc.1 (Compiler.targetNamespaceOf hc)) as [o|] eqn:E; cbn [fst].
  - assert (Compiler.targetNamespaceOf hc ∈ acc.1.*1) by (apply map_has_spec; unfold map_has; by rewrite E). set_solver.
  - rewrite map_set_keys. set_solver.
Qed.

(** A call that nothing interleaves with is a run of steps. *)
Lemma Authenticate_steps Sum256 payload_exp a review s md user cache' : bearer_token md <> "" ->
  let token := bearer_token md in
  Authenticate Sum256 payload_exp a (Allowed (hyperConfigs s)) review (cache s) (clock s) (clock s) token = (inl user, cache') ->
  auth_step Sum256 payload_exp a s (Opened token user) s /\ cache' = cache s \/
  exists s1 s2 s3, auth_step Sum256 payload_exp a s Internal s1 /\ auth_step Sum256 payload_exp a s1 Internal s2 /\
    auth_step Sum256 payload_exp a s2 (Opened token user) s3 /\ cache s3 = cache'.
Proof.
  intros Hmd token. unfold Authenticate. destruct (cached_review _ _ _ token) as [u|] eqn:Ec.
  - pose proof (step_hit Sum256 payload_exp a s md u Hmd Ec) as Hs. destruct (Allowed (hyperConfigs s) u); [|done].
    intros [= <- <-]. by left.
  - destruct (review token _) as [st|]; [|done]. destruct (check_review _ _ st) as [u|] eqn:Er; [|done]. intros [= <- <-]. right.
    set (i := fresh (dom (pending s))). assert (pending s !! i = None) as Hi by apply not_elem_of_dom, is_fresh.
    eexists _, _, _. split; [exact (step_miss Sum256 payload_exp a s md i Hmd Ec Hi)|].
    split; [eapply (step_accepted _ _ _ _ i token st u); [apply lookup_insert_eq|exact Er]|].
    apply check_review_inl in Er as (-> & _).
    split; [apply (step_store _ _ _ _ i (mkReview token st (clock s) (hyperConfigs s))), lookup_insert_eq|reflexivity].
Qed.

(** *** Settings *)

(** Once a certificate was served, every later handshake gets one: the newest that
    could be loaded. *)
Lemma serve_certs_last_good {Cert : Type} (r : @certReloader Cert) reads : cert r <> None ->
  Forall (fun x => is_ok x = true) (serve_certs r reads).
Proof.
  revert r. induction reads as [|[stat load] reads IH]; intros r Hr; cbn [serve_certs]; [constructor|].
  destruct (cert r) as [c|] eqn:E; [|done].
  assert (is_ok (get_cert r stat load).1 = true /\ cert (get_cert r stat load).2 <> None) as [H1 H2]
    by (unfold get_cert; rewrite E; repeat case_match; split; cbn; congruence).
  destruct (get_cert r stat load). constructor; [done|]. by apply IH.
Qed.

(** What engines are told fits what the operator serves: with flags the operator
    accepts, engines use identities exactly when a server is set up, both ends use
    TLS or both do not, and the engine's own checks accept the block. *)
Lemma engine_settings_fit c podNamespace podIP r : ValidateFlags c = Ok tt ->
  (ServerEnabled c = true -> setupIdentityServer c podNamespace podIP = Ok r) ->
  let s := engineIdentitySettings c podNamespace in
  Compiler.isEnabled s = ServerEnabled c /\
  (ServerEnabled c = true -> Compiler.isInsecure s = soInsecure r.1 /\ (soInsecure r.1 = true \/ CertFile r.1 <> "" /\ KeyFile r.1 <> "")) /\
  (Compiler.isEnabled s = true -> Compiler.isAddress s <> "") /\ is_ok (check_identity (Compiler.engineIdentity s)) = true.
Proof.
  intros Hv Hs. unfold ValidateFlags in Hv. unfold engineIdentitySettings.
  destruct (ServerEnabled c) eqn:Ese; cbn [negb] in *; [|by rewrite orb_true_r].
  destruct (cacheEnabled c); [|done]. cbn [negb orb] in *.
  assert (forall p, (ServiceName c +++ "." +++ podNamespace +++ ".svc") +++ ":" +++ p <> "")%go as Hne
    by (intros p; destruct (ServiceName c); [done|done]).
  cbn [Compiler.isEnabled Compiler.isInsecure Compiler.isAddress]. split; [done|].
  split; [|split; [intros _; apply Hne|]].
  - intros _. specialize (Hs eq_refl). unfold setupIdentityServer in Hs.
    apply result_bind_Ok in Hs as (o & Ho & (p & _ & E)%result_bind_Ok). destruct (_ || _); [done|]. injection E as <-. cbn [fst].
    unfold check_options in Ho. destruct (negb (soAuthenticator _)); [done|].
    destruct (negb _ && _) eqn:Etls; [done|].
    assert (soInsecure o = soInsecure (ServerOptionsOf c) /\ CertFile o = CertFile (ServerOptionsOf c) /\
      KeyFile o = KeyFile (ServerOptionsOf c)) as (-> & -> & ->) by (destruct (String.eqb (soAddress _) _); injection Ho as <-; done).
    split; [unfold ServerOptionsOf; by destruct (String.eqb _ _)|].
    destruct (soInsecure (ServerOptionsOf c)); [by left|right]. cbn [negb andb] in Etls. by bool_hyps.
  - unfold Compiler.engineIdentity. cbn [Compiler.isEnabled Compiler.isInsecure Compiler.isAddress Compiler.isServerName].
    unfold check_identity. cbn [Enabled idAddress idCAFile Insecure].
    destruct (String.eqb_spec ((ServiceName c +++ "." +++ podNamespace +++ ".svc") +++ ":" +++
      Itoa (match ServerPort c with Ok p => p | Err _ => 0%Z end))%go "") as [E|_]; [by destruct (Hne _ E)|].
    by destruct (ServerInsecure c).
Qed.

(** The API server names the audiences an authenticated token is valid for, as one that
    knows audiences does. An empty list is documented to mean the audience of the API
    server itself. *)
Definition audience_aware (s : AuthState) : Prop :=
  forall rv, rv ∈ reviews s -> Authenticated (rvStatus rv) = true -> Audiences (rvStatus rv) <> [].

(** Why a stream may be opened in a step from [s] to [s'] for [tok] as [user]. *)
Definition justified (Sum256 : string -> string) (payload_exp : string -> option Z) (a : TokenReviewAuthenticator)
  (s s' : AuthState) (tok user : string) : Prop :=
  exists rv t configs hc, (rv, t) ∈ accepted s' /\ rv ∈ reviews s' /\ (rvTime rv <= t <= clock s)%Z /\
    Sum256 (rvToken rv) = Sum256 tok /\ Username (rvStatus rv) = user /\ Authenticated (rvStatus rv) = true /\
    audience a ∈ Audiences (rvStatus rv) /\
    rvConfigs rv = Some configs /\ hc ∈ configs /\
    user = ServiceAccountUsername (Compiler.targetNamespaceOf hc) EngineServiceAccountName /\
    (rvToken rv = tok /\ t = clock s \/
     (clock s < t + ttl a)%Z /\ (forall exp, tokenExpiry payload_exp (rvToken rv) = Some exp -> (clock s < exp)%Z) /\
     Allowed (hyperConfigs s) user = true).

(** ** Properties *)


(** ** Examples *)

Definition example_hyperconfig : Compiler.HyperConfig :=
  Compiler.mkHyperConfig "main" 0 (Compiler.mkHyperConfigSpec "" 0 "" "" 0 "" None "" 0 0).
Definition example_user : string := ServiceAccountUsername "hyper-system" "hyper-engine-sa".
Definition example_status : ReviewStatus := mkReviewStatus true "" ["hypergate-identity"] example_user.
Definition example_authenticator : TokenReviewAuthenticator := mkAuthenticator "" 0.
(** A minute after the review of the token "t" the same token is used again. *)
Definition example_state : AuthState :=
  let rv := mkReview "t" example_status 0 (Some [example_hyperconfig]) in
  mkAuthState (60 * Second) (Some [example_hyperconfig]) {["t" := mkCachedReview example_user (5 * Minute)]} ∅ [rv] [(rv, 0%Z)].

Lemma example_reachable : reachable id (fun _ => None) example_authenticator 0 example_state.
Proof.
  assert (Allowed (Some [example_hyperconfig]) example_user = true) as Ha by by vm_compute.
  pose (s1 := (initial 0) <| hyperConfigs := Some [example_hyperconfig] |>).
  assert (reachable id (fun _ => None) example_authenticator 0 s1) as R1 by (eapply reach_step; [apply reach_init|apply step_configs]).
  eapply reach_step in R1; [|apply (step_miss _ _ _ s1 ["Bearer t"] 0); by vm_compute].
  eapply reach_step in R1; [|eapply (step_accepted _ _ _ _ 0 "t" example_status example_user); by vm_compute].
  eapply reach_step in R1; [|eapply (step_store _ _ _ _ 0); by vm_compute].
  eapply reach_step in R1; [|apply (step_time _ _ _ _ (60 * Second)); by vm_compute].
  exact R1.
Qed.


(** A review without audiences is accepted as well, although the token is then only valid
    for the API server: the check is skipped for an empty list. *)
Lemma unconfirmed_audience_accepted :
  check_review example_authenticator (fun _ => true) (mkReviewStatus true "" [] example_user) = inl example_user.
Proof. reflexivity. Qed.

End OpAuth.
