(* ===== verification/EngineDeploy.v ===== *)
(** * EngineDeploy: bringing an engine up in the cluster
    (HyperConfigReconciler in hyper-operator/internal/controller/
    hyperconfig_controller.go, reconcileIdentityCA in identity.go)

    A reconciliation creates the namespace, the ServiceAccount with its Role and
    binding, the DaemonSet, the Service and the copy of the identity CA, each with
    CreateOrUpdate. The objects are a map from kind, namespace and name, with the fields
    the controller writes; of those the API server fills in it is kept whether an update
    leaves them alone. The deployed engine is then related to the
    configuration the compiler writes, to the engine's loader and to the operator's
    authentication of engines. *)

From S2P Require Import Prelude GoStrings GoTime Selector Config Compiler Kube EnginePod OpAuth Reload.
From stdpp Require Import sorting.

Local Open Scope string_scope.
Local Open Scope list_scope.
Local Open Scope kube_scope.

Module EngineDeploy.
Import Compiler EnginePod.

(** ** Objects *)

Record PolicyRule := mkPolicyRule {
  APIGroups : list string; ruleResources : list string; ResourceNames : list string; Verbs : list string }.
#[export] Instance PolicyRule_eq_dec : EqDecision PolicyRule.
Proof. solve_decision. Defined.

Record DaemonSet := mkDaemonSet {
  Selector : option (GoMap string); Labels : GoMap string; Annotations : GoMap string; ServiceAccountName : string;
  Seccomp : string; FSGroup : option Z; UpdateStrategy : string * Z * Z; TerminationGracePeriodSeconds : Z; Template : PodSpec }.
#[export] Instance DaemonSet_eta : Eta DaemonSet := fun x =>
  mkDaemonSet (Selector x) (Labels x) (Annotations x) (ServiceAccountName x) (Seccomp x) (FSGroup x) (UpdateStrategy x)
    (TerminationGracePeriodSeconds x) (Template x).
#[export] Instance DaemonSet_eq_dec : EqDecision DaemonSet.
Proof. solve_decision. Defined.

Record ServicePort := mkServicePort { spName : string; spPort : Z; spTargetPort : Z; spProtocol : string; AppProtocol : string }.
#[export] Instance ServicePort_eq_dec : EqDecision ServicePort.
Proof. solve_decision. Defined.

(** The part of an object its controller writes. RoleBindings name a Role and
    ServiceAccounts by name and namespace. *)
Inductive Body : Type :=
| Namespace
| ServiceAccount
| Role (rules : list PolicyRule)
| RoleBinding (roleRef : string) (subjects : list (string * string))
| DaemonSetBody (ds : DaemonSet)
| ServiceBody (selector : GoMap string) (ports : list ServicePort) (trafficDistribution : string)
| ConfigMapBody (data : GoMap string).
#[export] Instance Body_eq_dec : EqDecision Body.
Proof. solve_decision. Defined.

Record Object := mkObject { Controller : option string; body : Body }.
#[export] Instance Object_eq_dec : EqDecision Object.
Proof. solve_decision. Defined.

(** Kind, namespace and name. *)
Abbreviation ObjectKey := (string * string * string)%type.

(** A HyperConfig with the fields this controller reads and writes. *)
Record DeployConfig := mkDeployConfig {
  base : HyperConfig; EngineImage : string; EngineResources : option Value; State : string; Message : string }.
#[export] Instance DeployConfig_eta : Eta DeployConfig := fun x =>
  mkDeployConfig (base x) (EngineImage x) (EngineResources x) (State x) (Message x).

Record Cluster := mkCluster {
  hyperConfigs : list DeployConfig; externalAuths : list ExternalAuthFilter; firewalls : list FirewallFilter;
  jwtAuths : list JwtAuthFilter; objects : gmap ObjectKey Object }.
#[export] Instance Cluster_eta : Eta Cluster := fun x =>
  mkCluster (hyperConfigs x) (externalAuths x) (firewalls x) (jwtAuths x) (objects x).

Definition put (key : ObjectKey) (o : Object) (c : Cluster) : Cluster := c <| objects := <[key := o]> (objects c) |>.

Abbreviation K := (M Cluster).

(** [controllerutil.CreateOrUpdate] with [ctrl.SetControllerReference] last in its
    function: an object another HyperConfig controls is an error. The function [replaces]
    when it assigns structures anew in which the API server fills in what was left out
    (image pull policies, port protocols, probe timeouts, modes of volumes): the object
    that was read has these fields, the assigned structure has not, so the two always
    differ and an update is sent, in which the API server fills them in again. *)
Definition CreateOrUpdate (owner : string) (key : ObjectKey) (empty : Body) (replaces : bool) (mutate : Body -> Body) : K () :=
  let! o := read (fun c => objects c !! key) in
  match o with
  | None => write (put key (mkObject (Some owner) (mutate empty)))
  | Some o =>
      if match Controller o with Some other => negb (String.eqb other owner) | None => false end
      then fail "already owned by another controller"
      else
        let o' := mkObject (Some owner) (mutate (body o)) in
        if negb replaces && bool_decide (o' = o) then ret tt else write (put key o')
  end.

(** ** The reconciler *)

Section Reconcile.
(** The order of Go's maps; the environment and build tag; the operator's identity
    settings and the CA file. *)
Variable visit : string -> GoMap (list KeyToPath) -> GoMap (list KeyToPath).
Variables (engineImageEnv DefaultEngineImageTag : string).
Variable identity : IdentitySettings.
Variable read_ca : result string.

Definition hyperConfigStateReady : string := "Ready".
Definition hyperConfigStateConflict : string := "Conflict".
Definition roleName : string := "hyper-engine-config-reader".
Definition dsName : string := "hyper-engine".
Definition svcName : string := "hyper-engine-svc".

(** A Get that fails for another reason than "not found" is a failed call. *)
Definition ensureNamespace (name : string) : K () :=
  let! ns := read (fun c => objects c !! ("Namespace", "", name)) in
  match ns with
  | Some _ => ret tt
  | None => write (put ("Namespace", "", name) (mkObject None Namespace))
  end.

Definition setStatus (hc : DeployConfig) (state message : string) : K () :=
  if String.eqb (State hc) state && String.eqb (Message hc) message then ret tt
  else write (fun c => c <| hyperConfigs :=
    (fun x => if String.eqb (hcName (base x)) (hcName (base hc)) then x <| State := state |> <| Message := message |> else x) <$> hyperConfigs c |>).

Definition config_rules : list PolicyRule :=
  [mkPolicyRule [""] ["configmaps"] [engineConfigMapName] ["get"; "watch"]].

Definition app_labels : GoMap string := [("app", "hyper-engine")].

Definition empty_ds : Body := DaemonSetBody (mkDaemonSet None [] [] "" "" None ("", 0, 0)%Z 0 (mkPodSpec [] [] [])).

Definition engine_ds (selector : GoMap string) (pod : PodSpec) : DaemonSet :=
  mkDaemonSet (Some selector) app_labels
    [("prometheus.io/scrape", "true"); ("prometheus.io/port", Itoa engineHealthPort); ("prometheus.io/path", "/metrics")]
    OpAuth.EngineServiceAccountName "RuntimeDefault" None ("RollingUpdate", 1, 0)%Z engineTerminationGraceSeconds pod.

(** The function the DaemonSet is updated with: a selector that is there stays. *)
Definition mutate_ds (pod : PodSpec) (b : Body) : Body :=
  DaemonSetBody (engine_ds (match b with
                            | DaemonSetBody ds => default app_labels (Selector ds)
                            | _ => app_labels
                            end) pod).

Definition engine_service : Body :=
  ServiceBody app_labels [mkServicePort "grpc" engineGRPCPort engineGRPCPort "TCP" "kubernetes.io/h2c"] "PreferSameNode".

Definition reconcileIdentityCA (hc : HyperConfig) (namespace : string) : K () :=
  if negb (isEnabled identity) || isInsecure identity then ret tt
  else match read_ca with
       | Err e => fail e
       | Ok ca => CreateOrUpdate (hcName hc) ("ConfigMap", namespace, identityCAConfigMap) (ConfigMapBody []) false
                  (fun _ => ConfigMapBody [("ca.crt", ca)])
       end.

(** [sort.Slice] by name; names are unique, so the order is the only one. *)
Definition name_le {A : Type} (name : A -> string) (a b : A) : Prop := bytewise (name a) (name b).
#[export] Instance name_le_dec {A : Type} (name : A -> string) : RelDecision (name_le name).
Proof. intros a b. unfold name_le. apply _. Defined.
Definition by_name {A : Type} (name : A -> string) (l : list A) : list A := merge_sort (name_le name) l.

Definition engine_pod (hc : DeployConfig) (eafs : list ExternalAuthFilter) (fws : list FirewallFilter) (jwts : list JwtAuthFilter) : PodSpec :=
  let engineImage := if String.eqb (EngineImage hc) "" then defaultEngineImage engineImageEnv DefaultEngineImageTag else EngineImage hc in
  buildEnginePodSpec visit (EngineResources hc) engineImage (targetNamespaceOf (base hc)) (by_name eafName eafs) (by_name fwName fws)
    (by_name jwtName jwts) identity.

(** From the namespace on. [Some d]: requeue after [d]. *)
Definition deploy (hc : DeployConfig) : K (option Z) :=
  let namespace := targetNamespaceOf (base hc) in
  let owner := hcName (base hc) in
  let! _ := ensureNamespace namespace in
  let! _ := CreateOrUpdate owner ("ServiceAccount", namespace, OpAuth.EngineServiceAccountName) ServiceAccount false (fun b => b) in
  let! _ := CreateOrUpdate owner ("Role", namespace, roleName) (Role []) false (fun _ => Role config_rules) in
  let! _ := CreateOrUpdate owner ("RoleBinding", namespace, (roleName +++ "-binding")%go) (RoleBinding "" []) false
              (fun _ => RoleBinding roleName [(OpAuth.EngineServiceAccountName, namespace)]) in
  let! eafs := read externalAuths in
  let! fws := read firewalls in
  let! jwts := read jwtAuths in
  let! _ := CreateOrUpdate owner ("DaemonSet", namespace, dsName) empty_ds true (mutate_ds (engine_pod hc eafs fws jwts)) in
  let! _ := CreateOrUpdate owner ("Service", namespace, svcName) (ServiceBody [] [] "") false (fun _ => engine_service) in
  let! _ := reconcileIdentityCA (base hc) namespace in
  let! _ := setStatus hc hyperConfigStateReady ("Engine resources reconciled in namespace " +++ namespace)%go in
  ret (if isEnabled identity then Some identityCARefresh else None).

Definition find_config (name : string) (c : Cluster) : option DeployConfig :=
  List.find (fun x => String.eqb (hcName (base x)) name) (hyperConfigs c).

Definition Reconcile (name : string) : K (option Z) :=
  let! hc := read (find_config name) in
  match hc with
  | None => ret None
  | Some hc =>
      let! all := read (fun c => base <$> hyperConfigs c) in
      match map_get (activeHyperConfigs all).2 name with
      | Some owner =>
          let! _ := setStatus hc hyperConfigStateConflict
            ("targetNamespace " +++ quoted (targetNamespaceOf (base hc)) +++ " is already managed by HyperConfig " +++ quoted owner)%go in
          ret None
      | None => deploy hc
      end
  end.
End Reconcile.

(** ** What a reconciliation may change *)

Definition engine_keys (ns : string) : list ObjectKey :=
  [("Namespace", "", ns); ("ServiceAccount", ns, OpAuth.EngineServiceAccountName); ("Role", ns, roleName);
   ("RoleBinding", ns, (roleName +++ "-binding")%go); ("DaemonSet", ns, dsName); ("Service", ns, svcName);
   ("ConfigMap", ns, identityCAConfigMap)].

(** The engine's own objects, unless another HyperConfig controls them, and the status
    of the HyperConfig. *)
Record touches_only (owner ns : string) (c c' : Cluster) : Prop := {
  to_filters : externalAuths c' = externalAuths c /\ firewalls c' = firewalls c /\ jwtAuths c' = jwtAuths c;
  to_configs : (fun x => (base x, EngineImage x, EngineResources x)) <$> hyperConfigs c' =
               (fun x => (base x, EngineImage x, EngineResources x)) <$> hyperConfigs c;
  to_others : forall key, key ∉ engine_keys ns -> objects c' !! key = objects c !! key;
  to_foreign : forall key o, objects c !! key = Some o -> (exists other, Controller o = Some other /\ other <> owner) ->
               objects c' !! key = Some o
}.

(** What is known of objects. *)
Definition holds (facts : list (ObjectKey * (Object -> Prop))) (c : Cluster) : Prop :=
  forall key P, (key, P) ∈ facts -> exists o, objects c !! key = Some o /\ P o.

Lemma holds_nth facts c i key P : holds facts c -> facts !! i = Some (key, P) -> exists o, objects c !! key = Some o /\ P o.
Proof. intros Hf Hi. apply Hf. by eapply list_elem_of_lookup_2. Qed.

Definition owned (owner : string) (P : Body -> Prop) (o : Object) : Prop := Controller o = Some owner /\ P (body o).

Section Steps.
Variables (owner ns : string) (c0 : Cluster).
Local Abbreviation I := (touches_only owner ns c0).

Lemma touches_refl : I c0.
Proof. by split. Qed.

Lemma touches_put key o c : key ∈ engine_keys ns ->
  (forall o', objects c !! key = Some o' -> Controller o' = None \/ Controller o' = Some owner) -> I c -> I (put key o c).
Proof.
  intros Hk Hc [H1 H2 H3 H4]. split; [done|done| |].
  - intros key' Hn. cbn. rewrite lookup_insert_ne; [by apply H3|]. intros <-. done.
  - intros key' o' Ho Hf. cbn. specialize (H4 _ _ Ho Hf). rewrite lookup_insert_ne; [done|]. intros <-.
    destruct (Hc _ H4) as [E|E], Hf as (x & E' & Hx); congruence.
Qed.

Lemma holds_put facts key o c : key ∉ facts.*1 -> holds facts c -> holds facts (put key o c).
Proof.
  intros Hn Hf key' P Hin. destruct (Hf _ _ Hin) as (o' & Ho & HP). exists o'. split; [|done]. cbn.
  rewrite lookup_insert_ne; [done|]. intros ->. apply Hn. by apply (list_elem_of_fmap_2 fst) in Hin.
Qed.

Lemma holds_add facts key o P c : key ∉ facts.*1 -> P o -> holds facts c -> holds ((key, P) :: facts) (put key o c).
Proof.
  intros Hn HP Hf key' P' Hin. apply elem_of_cons in Hin as [[= -> ->]|Hin]; [|by eapply holds_put].
  exists o. cbn. by rewrite lookup_insert_eq.
Qed.

Lemma CreateOrUpdate_step facts key empty replaces mutate (P : Body -> Prop) : key ∈ engine_keys ns -> key ∉ facts.*1 -> (forall b, P (mutate b)) ->
  triple (fun c => I c /\ holds facts c) (CreateOrUpdate owner key empty replaces mutate)
    (fun r c => I c /\ match r with Ok _ => holds ((key, owned owner P) :: facts) c | Err _ => True end).
Proof.
  intros Hk Hn HP. apply triple_fixed. intros c [HI Hf].
  eapply (triple_bind _ _ _ (fun o c' => c' = c /\ o = objects c !! key)); [eapply triple_pre; [|apply triple_read]; by intros ? <-|].
  intros o. apply triple_fixed. intros ? [-> ->].
  assert (forall b, (forall o', objects c !! key = Some o' -> Controller o' = None \/ Controller o' = Some owner) ->
    triple (eq c) (write (put key (mkObject (Some owner) (mutate b))))
      (fun r c => I c /\ match r with Ok _ => holds ((key, owned owner P) :: facts) c | Err _ => True end)) as Hw.
  { intros b Hc. eapply triple_pre; [|apply triple_write]. intros ? <-. split; [|done].
    split; [by apply touches_put|]. apply holds_add; [done|split; [done|apply HP]|done]. }
  destruct (objects c !! key) as [[[other|] b]|] eqn:E; cbn [Controller].
  - destruct (String.eqb_spec other owner) as [->|Hne]; cbn [negb]; [|eapply triple_pre; [|apply triple_fail]; by intros ? <-].
    destruct (negb replaces && _) eqn:Hd; [|apply Hw; intros o' [= <-]; by right]. apply andb_true_iff in Hd as [_ Hd%bool_decide_eq_true].
    eapply triple_pre; [|apply triple_ret]. intros ? <-. split; [done|]. intros key' P' Hin.
    apply elem_of_cons in Hin as [[= -> ->]|Hin]; [|by apply Hf]. eexists. split; [exact E|]. rewrite <- Hd. split; [done|apply HP].
  - rewrite bool_decide_eq_false_2, andb_false_r by done. apply Hw. intros o' [= <-]. by left.
  - apply Hw. by intros o'.
Qed.

Lemma ensureNamespace_step : triple (fun c => I c) (ensureNamespace ns)
  (fun r c => I c /\ match r with Ok _ => holds [(("Namespace", "", ns), fun _ => True)] c | Err _ => True end).
Proof.
  apply triple_fixed. intros c HI.
  eapply (triple_bind _ _ _ (fun o c' => c' = c /\ o = objects c !! ("Namespace", "", ns)));
    [eapply triple_pre; [|apply triple_read]; by intros ? <-|].
  intros o. apply triple_fixed. intros ? [-> ->]. destruct (objects c !! _) as [o|] eqn:E.
  - eapply triple_pre; [|apply triple_ret]. intros ? <-. split; [done|]. intros key P Hin.
    apply list_elem_of_singleton in Hin as [= -> ->]. by exists o.
  - eapply triple_pre; [|apply triple_write]. intros ? <-. split; [|done]. split.
    + apply touches_put; [by left| |done]. intros o'. by rewrite E.
    + apply holds_add; [set_solver|done|]. intros key P Hin. by apply elem_of_nil in Hin.
Qed.

Definition status_of (hc : DeployConfig) (state message : string) (l : list DeployConfig) : list DeployConfig :=
  (fun x => if String.eqb (hcName (base x)) (hcName (base hc)) then x <| State := state |> <| Message := message |> else x) <$> l.

Lemma touches_status hc state message c : I c -> I (c <| hyperConfigs := status_of hc state message (hyperConfigs c) |>).
Proof.
  intros [H1 H2 H3 H4]. split; [done| |done|done]. rewrite <- H2. cbn [hyperConfigs set_field]. unfold status_of.
  rewrite <- list_fmap_compose. apply list_fmap_ext. intros i x _. cbn. by destruct (String.eqb _ _).
Qed.

Lemma setStatus_step facts hc state message :
  triple (fun c => I c /\ holds facts c) (setStatus hc state message) (fun _ c => I c /\ holds facts c).
Proof.
  unfold setStatus. destruct (_ && _); [eapply triple_pre; [|apply triple_ret]; done|].
  eapply triple_pre; [|apply triple_write]. intros c [HI Hf]. split; [|done]. split; [by apply touches_status|exact Hf].
Qed.

(** A step of the sequence: errors end it. *)
Lemma after {B : Type} (P R : Cluster -> Prop) (m : K ()) (k : () -> K B) (Q : result B -> Cluster -> Prop) :
  triple P m (fun r c => I c /\ match r with Ok _ => R c | Err _ => True end) ->
  triple (fun c => I c /\ R c) (k tt) (fun r c => I c /\ Q r c) -> (forall e c, Q (Err e) c) ->
  triple P (bind m k) (fun r c => I c /\ Q r c).
Proof.
  intros Hm Hk HQ. apply (triple_bind _ _ _ (fun _ c => I c /\ R c)); [|by intros []]. eapply triple_post; [exact Hm|].
  intros [a|e] c [HI HR]; [done|]. by split; [|apply HQ].
Qed.

Lemma after_read {A B : Type} (R : Cluster -> Prop) (f : Cluster -> A) v (k : A -> K B) (Q : result B -> Cluster -> Prop) :
  (forall c, I c -> f c = v) -> triple (fun c => I c /\ R c) (k v) (fun r c => I c /\ Q r c) -> (forall e c, Q (Err e) c) ->
  triple (fun c => I c /\ R c) (bind (read f) k) (fun r c => I c /\ Q r c).
Proof.
  intros Hf Hk HQ. apply (triple_bind _ _ _ (fun a c => (I c /\ R c) /\ a = v)).
  - eapply triple_pre; [|apply triple_read]. intros c [HI HR]. split; [|intros e; by split; [|apply HQ]]. split; [done|by apply Hf].
  - intros a. apply triple_fixed. intros c [H ->]. eapply triple_pre; [|exact Hk]. by intros ? <-.
Qed.
End Steps.

(** Writing the status of [hc] leaves the list so. *)
Definition with_status (hc : DeployConfig) (state message : string) (l : list DeployConfig) : list DeployConfig :=
  if String.eqb (State hc) state && String.eqb (Message hc) message then l else status_of hc state message l.

Lemma setStatus_spec owner ns hc state message c0 : triple (eq c0) (setStatus hc state message)
  (fun r c => touches_only owner ns c0 c /\ objects c = objects c0 /\
     match r with Ok _ => hyperConfigs c = with_status hc state message (hyperConfigs c0) | Err _ => True end).
Proof.
  unfold setStatus, with_status. destruct (_ && _).
  - eapply triple_pre; [|apply triple_ret]. intros ? <-. split; [apply touches_refl|done].
  - eapply triple_pre; [|apply triple_write]. intros ? <-.
    split; [split; [apply touches_status, touches_refl|done]|]. intros e. split; [apply touches_refl|done].
Qed.

Section Deploy.
Variable visit : string -> GoMap (list KeyToPath) -> GoMap (list KeyToPath).
Variables (engineImageEnv tag : string).
Variable identity : IdentitySettings.
Variable read_ca : result string.

(** What a successful reconciliation leaves. *)
Definition ca_facts (owner ns : string) : list (ObjectKey * (Object -> Prop)) :=
  if negb (isEnabled identity) || isInsecure identity then []
  else [(("ConfigMap", ns, identityCAConfigMap), owned owner (fun b => exists ca, read_ca = Ok ca /\ b = ConfigMapBody [("ca.crt", ca)]))].

Definition engine_facts (hc : DeployConfig) (c : Cluster) : list (ObjectKey * (Object -> Prop)) :=
  let owner := hcName (base hc) in
  let ns := targetNamespaceOf (base hc) in
  let pod := engine_pod visit engineImageEnv tag identity hc (externalAuths c) (firewalls c) (jwtAuths c) in
  [(("Service", ns, svcName), owned owner (fun b => b = engine_service));
   (("DaemonSet", ns, dsName), owned owner (fun b => exists sel, b = DaemonSetBody (engine_ds sel pod)));
   (("RoleBinding", ns, (roleName +++ "-binding")%go), owned owner (fun b => b = RoleBinding roleName [(OpAuth.EngineServiceAccountName, ns)]));
   (("Role", ns, roleName), owned owner (fun b => b = Role config_rules));
   (("ServiceAccount", ns, OpAuth.EngineServiceAccountName), owned owner (fun _ => True));
   (("Namespace", "", ns), fun _ => True)].

Definition requeue : option Z := if isEnabled identity then Some identityCARefresh else None.

Lemma deploy_spec hc c0 : triple (eq c0) (deploy visit engineImageEnv tag identity read_ca hc)
  (fun r c => touches_only (hcName (base hc)) (targetNamespaceOf (base hc)) c0 c /\
     forall d, r = Ok d -> d = requeue /\
       holds (ca_facts (hcName (base hc)) (targetNamespaceOf (base hc)) ++ engine_facts hc c0) c).
Proof.
  set (owner := hcName (base hc)). set (ns := targetNamespaceOf (base hc)). unfold deploy. fold owner ns.
  eapply after; [eapply triple_pre; [|apply ensureNamespace_step]; intros ? <-; apply touches_refl| |done].
  eapply after; [apply (CreateOrUpdate_step _ _ _ _ _ _ _ _ (fun _ => True)); [set_solver|set_solver|done]| |done].
  eapply after; [apply (CreateOrUpdate_step _ _ _ _ _ _ _ _ (fun b => b = Role config_rules)); [set_solver|set_solver|done]| |done].
  eapply after; [eapply (CreateOrUpdate_step _ _ _ _ _ _ _ _ (fun b => b = RoleBinding _ _)); [set_solver|set_solver|done]| |done].
  eapply after_read; [intros c HI; apply (to_filters _ _ _ _ HI)| |done].
  eapply after_read; [intros c HI; apply (to_filters _ _ _ _ HI)| |done].
  eapply after_read; [intros c HI; apply (to_filters _ _ _ _ HI)| |done].
  eapply after; [eapply (CreateOrUpdate_step _ _ _ _ _ _ _ _ (fun b => exists sel, b = DaemonSetBody (engine_ds sel _))); [set_solver|set_solver|by eexists]| |done].
  eapply after; [apply (CreateOrUpdate_step _ _ _ _ _ _ _ _ (fun b => b = engine_service)); [set_solver|set_solver|done]| |done].
  eapply (after _ _ _ _ (fun c => holds (ca_facts owner ns ++ engine_facts hc c0) c)); [| |done].
  - unfold reconcileIdentityCA, ca_facts. destruct (negb _ || _); [eapply triple_pre; [|apply triple_ret]; done|].
    destruct read_ca as [ca|e] eqn:E; [|eapply triple_pre; [|apply triple_fail]; by intros c []].
    apply (CreateOrUpdate_step _ _ _ _ _ _ _ _ (fun b => exists ca0, Ok ca = Ok ca0 /\ b = ConfigMapBody [("ca.crt", ca0)])); [set_solver|set_solver|by eexists].
  - eapply (after _ _ _ _ (fun c => holds (ca_facts owner ns ++ engine_facts hc c0) c)); [| |done].
    + eapply triple_post; [apply setStatus_step|]. by intros [|] c [].
    + eapply triple_pre; [|apply triple_ret]. intros c [HI Hf]. split; [done|]. intros d [= <-]. by split.
Qed.
(** Only the last step writes the status. *)
Local Abbreviation keeps l m := (triple (fun c => hyperConfigs c = l) m (fun _ c => hyperConfigs c = l)).

Lemma CreateOrUpdate_keeps owner key empty replaces mutate l : keeps l (CreateOrUpdate owner key empty replaces mutate).
Proof.
  eapply (triple_bind _ _ _ (fun _ c => hyperConfigs c = l)); [eapply triple_pre; [|apply triple_read]; done|]. intros o.
  assert (forall o, keeps l (write (put key o))) as Hw by (intros o'; eapply triple_pre; [|apply triple_write]; done).
  destruct o as [o|]; [|apply Hw]. destruct (match Controller o with Some _ => _ | None => _ end); [by intros s|].
  cbv zeta. destruct (_ && _); [by intros s|apply Hw].
Qed.

Lemma keeps_bind {A : Type} l (m : K A) {B : Type} (k : A -> K B) (Q : result B -> Cluster -> Prop) :
  keeps l m -> (forall a, triple (fun c => hyperConfigs c = l) (k a) (fun r c => forall d, r = Ok d -> Q r c)) ->
  triple (fun c => hyperConfigs c = l) (bind m k) (fun r c => forall d, r = Ok d -> Q r c).
Proof. intros Hm Hk. eapply triple_bind; [|exact Hk]. eapply triple_post; [exact Hm|]. intros [a|e] c H; [exact H|done]. Qed.

Lemma read_keeps {A : Type} l (f : Cluster -> A) : keeps l (read f).
Proof. eapply triple_pre; [|apply triple_read]. done. Qed.

Lemma deploy_status hc l : triple (fun c => hyperConfigs c = l) (deploy visit engineImageEnv tag identity read_ca hc)
  (fun r c => forall d, r = Ok d ->
     hyperConfigs c = with_status hc "Ready" ("Engine resources reconciled in namespace " +++ targetNamespaceOf (base hc))%go l).
Proof.
  unfold deploy. apply keeps_bind.
  { apply (triple_bind _ _ _ (fun _ c => hyperConfigs c = l)); [eapply triple_pre; [|apply triple_read]; done|].
    intros [o|]; [by intros s|eapply triple_pre; [|apply triple_write]; done]. }
  intros _. do 3 (apply keeps_bind; [apply CreateOrUpdate_keeps|intros _]). do 3 (apply keeps_bind; [apply read_keeps|intros ?]).
  do 2 (apply keeps_bind; [apply CreateOrUpdate_keeps|intros _]). apply keeps_bind.
  { unfold reconcileIdentityCA. destruct (_ || _); [by intros s|]. destruct read_ca; [apply CreateOrUpdate_keeps|by intros s]. }
  intros _. apply (triple_bind _ _ _ (fun _ c => hyperConfigs c =
    with_status hc "Ready" ("Engine resources reconciled in namespace " +++ targetNamespaceOf (base hc))%go l)).
  - unfold setStatus, with_status, hyperConfigStateReady. destruct (_ && _); [by intros s|]. eapply triple_pre; [|apply triple_write]. by intros c <-.
  - intros _. eapply triple_pre; [|apply triple_ret]. by intros c H d _.
Qed.
End Deploy.

(** ** Reconciling again *)

(** On this cluster the function succeeds and leaves it as it is, sending [n] updates. *)
Definition stays {A : Type} (c : Cluster) (n : nat) (m : K A) (Q : A -> Prop) : Prop :=
  forall w : nat, exists a, m (mkApi c [] w) = (Ok a, mkApi c [] (w + n)) /\ Q a.

Lemma settled_stays {A : Type} c (m : K A) Q : settled (eq c) m Q -> stays c 0 m Q.
Proof. intros H w. rewrite Nat.add_0_r. by apply (H (mkApi c [] w)). Qed.

Lemma stays_bind {A B : Type} c i j (m : K A) (k : A -> K B) (R : A -> Prop) Q :
  stays c i m R -> (forall a, R a -> stays c j (k a) Q) -> stays c (i + j) (bind m k) Q.
Proof.
  intros Hm Hk w. destruct (Hm w) as (a & E & Ha). destruct (Hk a Ha (w + i)%nat) as (b & E' & Hb). exists b.
  unfold bind. by rewrite E, E', Nat.add_assoc.
Qed.

Lemma CreateOrUpdate_stays owner key empty (replaces : bool) mutate (P : Body -> Prop) facts c :
  holds facts c -> (key, owned owner P) ∈ facts -> (forall b, P b -> mutate b = b) ->
  stays c (if replaces then 1 else 0) (CreateOrUpdate owner key empty replaces mutate) (fun _ => True).
Proof.
  intros Hf Hin Hm w. destruct (Hf _ _ Hin) as ([o b] & Ho & Hc & Hb). cbn in Hc, Hb. subst o. exists tt. split; [|done].
  unfold CreateOrUpdate, read, write, call, bind. cbn [oracle cluster writes]. rewrite Ho. cbn [Controller body].
  rewrite String.eqb_refl. cbn [negb]. rewrite Hm by done. rewrite bool_decide_eq_true_2 by done.
  destruct replaces; cbn [negb andb]; unfold ret; [|by rewrite Nat.add_0_r]. do 2 f_equal. unfold put.
  rewrite insert_id by done. by destruct c.
Qed.

(** A map with at most one entry has one order. *)
Definition one_secret (f : JwtAuthFilter) : bool := (length (jwtSecretItems f) <=? 1)%nat.

Lemma short_perm {A : Type} (l l' : list A) : l' ≡ₚ l -> (length l <= 1)%nat -> l' = l.
Proof.
  intros Hp Hl. destruct l as [|x [|y l]]; [by apply Permutation_nil_r in Hp|by apply Permutation_singleton_r in Hp|cbn in Hl; lia].
Qed.

Lemma jwt_parts_stable visit visit' f : (forall n m, visit n m ≡ₚ m) -> (forall n m, visit' n m ≡ₚ m) -> one_secret f = true ->
  jwt_volumes visit f = jwt_volumes visit' f /\ jwt_mounts visit f = jwt_mounts visit' f.
Proof.
  intros Hv Hv' Hf%Nat.leb_le. unfold jwt_volumes, jwt_mounts, jwt_visited.
  by rewrite (short_perm _ _ (Hv (jwtName f) _) Hf), (short_perm _ _ (Hv' (jwtName f) _) Hf).
Qed.

Lemma concat_fmap_ext {A B : Type} (f g : A -> list B) l : (forall x, x ∈ l -> f x = g x) -> concat (f <$> l) = concat (g <$> l).
Proof. intros H. f_equal. apply list_fmap_ext. intros i x Hx. apply H. by eapply list_elem_of_lookup_2. Qed.

Lemma engine_pod_stable visit visit' env tag identity hc eafs fws jwts :
  (forall n m, visit n m ≡ₚ m) -> (forall n m, visit' n m ≡ₚ m) -> (forall f, f ∈ jwts -> one_secret f = true) ->
  engine_pod visit env tag identity hc eafs fws jwts = engine_pod visit' env tag identity hc eafs fws jwts.
Proof.
  intros Hv Hv' H1. assert (forall f, f ∈ by_name jwtName jwts -> one_secret f = true) as H2
    by (intros f Hf; apply H1; unfold by_name in Hf; by rewrite merge_sort_Permutation in Hf).
  unfold engine_pod, buildEnginePodSpec.
  rewrite (concat_fmap_ext (jwt_mounts visit) (jwt_mounts visit')) by (intros f Hf; by apply jwt_parts_stable, H2).
  by rewrite (concat_fmap_ext (jwt_volumes visit) (jwt_volumes visit')) by (intros f Hf; by apply jwt_parts_stable, H2).
Qed.

Section Again.
Variables visit visit' : string -> GoMap (list KeyToPath) -> GoMap (list KeyToPath).
Hypothesis visit_perm : forall n m, visit n m ≡ₚ m.
Hypothesis visit_perm' : forall n m, visit' n m ≡ₚ m.
Variables (engineImageEnv tag : string).
Variable identity : IdentitySettings.
Variable read_ca : result string.

Lemma deploy_stays hc hc' c0 c : (base hc', EngineImage hc', EngineResources hc') = (base hc, EngineImage hc, EngineResources hc) ->
  touches_only (hcName (base hc)) (targetNamespaceOf (base hc)) c0 c ->
  holds (ca_facts identity read_ca (hcName (base hc)) (targetNamespaceOf (base hc)) ++ engine_facts visit engineImageEnv tag identity hc c0) c ->
  State hc' = "Ready" -> Message hc' = ("Engine resources reconciled in namespace " +++ targetNamespaceOf (base hc))%go ->
  (forall f, f ∈ jwtAuths c0 -> one_secret f = true) ->
  stays c 1 (deploy visit' engineImageEnv tag identity read_ca hc') (fun d => d = requeue identity).
Proof.
  intros [= Eb Ei Er] [(F1 & F2 & F3) _ _ _] Hf Hs Hm H1. unfold deploy. rewrite Eb.
  assert (forall key P, (key, P) ∈ engine_facts visit engineImageEnv tag identity hc c0 ->
    (key, P) ∈ ca_facts identity read_ca (hcName (base hc)) (targetNamespaceOf (base hc)) ++ engine_facts visit engineImageEnv tag identity hc c0) as Hin
    by (intros key P H; apply elem_of_app; by right).
  apply (stays_bind _ 0 1 _ _ (fun _ => True)).
  { apply settled_stays. destruct (Hf ("Namespace", "", targetNamespaceOf (base hc)) (fun _ => True)) as (o & Ho & _); [apply Hin; do 5 right; by left|].
    eapply (settled_bind _ _ _ (fun o' => o' = Some o)); [apply settled_read; intros ? <-; exact Ho|]. intros ? ->. by apply settled_ret. }
  intros _ _. eapply (stays_bind _ 0 1); [eapply (CreateOrUpdate_stays _ _ _ false); [exact Hf|apply Hin; do 4 right; by left|done]|]. intros _ _.
  eapply (stays_bind _ 0 1); [eapply (CreateOrUpdate_stays _ _ _ false); [exact Hf|apply Hin; do 3 right; by left|by intros b ->]|]. intros _ _.
  eapply (stays_bind _ 0 1); [eapply (CreateOrUpdate_stays _ _ _ false); [exact Hf|apply Hin; do 2 right; by left|by intros b ->]|]. intros _ _.
  apply (stays_bind _ 0 1 _ _ (fun l => l = externalAuths c0)); [apply settled_stays, settled_read; by intros ? <-|]. intros ? ->.
  apply (stays_bind _ 0 1 _ _ (fun l => l = firewalls c0)); [apply settled_stays, settled_read; by intros ? <-|]. intros ? ->.
  apply (stays_bind _ 0 1 _ _ (fun l => l = jwtAuths c0)); [apply settled_stays, settled_read; by intros ? <-|]. intros ? ->.
  eapply (stays_bind _ 1 0); [eapply (CreateOrUpdate_stays _ _ _ true); [exact Hf|apply Hin; do 1 right; by left|]|].
  { intros b [sel ->]. rewrite (engine_pod_stable visit visit') by done. unfold engine_pod. rewrite Eb, Ei, Er. done. }
  intros _ _. eapply (stays_bind _ 0 0); [eapply (CreateOrUpdate_stays _ _ _ false); [exact Hf|apply Hin; by left|by intros b ->]|]. intros _ _.
  apply (stays_bind _ 0 0 _ _ (fun _ => True)).
  { unfold reconcileIdentityCA, ca_facts in *. destruct (negb _ || _); [by apply settled_stays, settled_ret|].
    destruct (Hf _ _ (list_elem_of_here _ _)) as (o & _ & _ & ca & Eca & _). rewrite Eca.
    eapply (CreateOrUpdate_stays _ _ _ false); [exact Hf|by left|]. intros b (ca' & Eca' & ->). congruence. }
  intros _ _. apply settled_stays. eapply (settled_bind _ _ _ (fun _ => True)); [|intros _ _; by apply settled_ret].
  unfold setStatus. rewrite Hs, Hm, Eb. unfold hyperConfigStateReady. rewrite !String.eqb_refl. by apply settled_ret.
Qed.
End Again.

(** ** What the engine finds in its pod *)

Definition eaf_spec (f : ExternalAuthFilter) : FilterSpec := SidecarSpec (eafProtocol f) (eafRules f).
Definition fw_spec (f : FirewallFilter) : FilterSpec := SidecarSpec (fwProtocol f) (fwRules f).
Definition jwt_spec (f : JwtAuthFilter) : FilterSpec :=
  JwtSpec (jwtOptions f) (skName <$> LocalSecretRef f) (skName <$> IntrospectionAuthSecretRef f).

(** The compiler reads the same objects. The options with YAML tags are not the two
    paths it adds. *)
Record compiler_reads (objs : Objects) (c : Cluster) : Prop := {
  cr_configs : configs objs = base <$> hyperConfigs c;
  cr_eafs : filters objs "ExternalAuthFilter" = (fun f => (eafName f, eaf_spec f)) <$> externalAuths c;
  cr_fws : filters objs "FirewallFilter" = (fun f => (fwName f, fw_spec f)) <$> firewalls c;
  cr_jwts : filters objs "JwtAuthFilter" = (fun f => (jwtName f, jwt_spec f)) <$> jwtAuths c;
  cr_options : forall f, f ∈ jwtAuths c ->
    map_get (jwtOptions f) "local_secret_file" = None /\ map_get (jwtOptions f) "introspection_auth_header_file" = None
}.

(** The options compiled for a filter hold a path. *)
Definition refers (objs : Objects) (kind name key path : string) : Prop :=
  exists spec, map_get (filters objs kind) name = Some spec /\ field (resolvedOptions kind name spec) key = Some (VString path).

(** Every path of the configuration is in the pod, and is what it should be. *)
Record serves_config (objs : Objects) (c : Cluster) (p : PodSpec) (e : Container) : Prop := {
  sc_ext_auth : forall name path, refers objs "ExternalAuthFilter" name "socket_path" path ->
    exists side file, side ∈ Containers p /\ conName side = ("ext-auth-" +++ name)%go /\
      backed_by p e path (Shared udsVolumeName file) /\ backed_by p side path (Shared udsVolumeName file);
  sc_firewall : forall name path, refers objs "FirewallFilter" name "socket_path" path ->
    exists side file key, side ∈ Containers p /\ conName side = ("fw-" +++ name)%go /\
      env_lookup side key = Some (Literal ("unix://" +++ path)%go) /\
      backed_by p e path (Shared udsVolumeName file) /\ backed_by p side path (Shared udsVolumeName file);
  sc_local_secret : forall name path, refers objs "JwtAuthFilter" name "local_secret_file" path ->
    exists f ref, f ∈ jwtAuths c /\ jwtName f = name /\ LocalSecretRef f = Some ref /\ backed_by p e path (SecretKey (skName ref) (skKey ref));
  sc_introspection : forall name path, refers objs "JwtAuthFilter" name "introspection_auth_header_file" path ->
    exists f ref, f ∈ jwtAuths c /\ jwtName f = name /\ IntrospectionAuthSecretRef f = Some ref /\
      backed_by p e path (SecretKey (skName ref) (skKey ref))
}.

Lemma filters_ok_perm eafs eafs' fws fws' jwts jwts' : eafs' ≡ₚ eafs -> fws' ≡ₚ fws -> jwts' ≡ₚ jwts ->
  filters_ok eafs fws jwts -> filters_ok eafs' fws' jwts'.
Proof.
  intros He Hf Hj [F1 F2 F3 F4 F5 F6 F7]. split; [by rewrite He|by rewrite Hf|by rewrite Hj| | | |].
  - intros f Hin. apply F4. by rewrite <- He.
  - intros f Hin. apply F5. by rewrite <- Hf.
  - intros f Hin. apply F6. by rewrite <- Hj.
  - rewrite <- flat_map_concat_map in F7 |- *. by rewrite Hj.
Qed.

Section Serves.
Variable visit : string -> GoMap (list KeyToPath) -> GoMap (list KeyToPath).
Hypothesis visit_perm : forall n m, visit n m ≡ₚ m.
Variables (env tag : string) (identity : IdentitySettings) (hc : DeployConfig) (c : Cluster) (objs : Objects).
Hypothesis ok : filters_ok (externalAuths c) (firewalls c) (jwtAuths c).
Hypothesis reads : compiler_reads objs c.

Let pod := engine_pod visit env tag identity hc (externalAuths c) (firewalls c) (jwtAuths c).

Definition engine_c : Container :=
  engine visit (by_name eafName (externalAuths c)) (by_name fwName (firewalls c)) (by_name jwtName (jwtAuths c)) (EngineResources hc)
    (if String.eqb (EngineImage hc) "" then defaultEngineImage env tag else EngineImage hc) (targetNamespaceOf (base hc)) identity.

Lemma sorted_ok : filters_ok (by_name eafName (externalAuths c)) (by_name fwName (firewalls c)) (by_name jwtName (jwtAuths c)).
Proof. eapply filters_ok_perm; [apply merge_sort_Permutation..|exact ok]. Qed.

Lemma by_name_elem {A : Type} (name : A -> string) l x : x ∈ by_name name l <-> x ∈ l.
Proof. unfold by_name. by rewrite merge_sort_Permutation. Qed.

Lemma refers_elem {A : Type} (name : A -> string) (spec : A -> FilterSpec) kind l n key path :
  filters objs kind = (fun f => (name f, spec f)) <$> l -> refers objs kind n key path ->
  exists f, f ∈ l /\ name f = n /\ field (resolvedOptions kind n (spec f)) key = Some (VString path).
Proof.
  intros E (sp & Hg & Hfld). apply map_get_elem in Hg. rewrite E in Hg. apply list_elem_of_fmap in Hg as (f & [= -> ->] & Hf). by exists f.
Qed.

Lemma env_last c' l key v : Env c' = l ++ [mkEnvVar key v] -> env_lookup c' key = Some v.
Proof. intros E. unfold env_lookup. rewrite E, rev_app_distr. cbn. by rewrite String.eqb_refl. Qed.

Lemma sidecar_in side : side ∈ (ext_auth_sidecar <$> by_name eafName (externalAuths c)) ++ (fw_sidecar <$> by_name fwName (firewalls c)) ->
  side ∈ Containers pod.
Proof. intros H. unfold pod, engine_pod, buildEnginePodSpec. destruct (identityVolumes identity). by right. Qed.

Lemma local_secret_path f path : f ∈ jwtAuths c ->
  field (resolvedOptions "JwtAuthFilter" (jwtName f) (jwt_spec f)) "local_secret_file" = Some (VString path) ->
  exists ref, LocalSecretRef f = Some ref /\ path = jwtSecretFile (jwtName f) (skName ref) jwtLocalSecretFile.
Proof.
  intros Hf. destruct (cr_options _ _ reads f Hf) as [No _]. cbn. unfold jwtAuthOptions.
  destruct (LocalSecretRef f) as [r|], (IntrospectionAuthSecretRef f) as [r'|]; cbn;
    rewrite ?map_get_set_ne, ?map_get_set_eq, ?No by done; try done; intros [= <-]; by exists r.
Qed.

Lemma introspection_path f path : f ∈ jwtAuths c ->
  field (resolvedOptions "JwtAuthFilter" (jwtName f) (jwt_spec f)) "introspection_auth_header_file" = Some (VString path) ->
  exists ref, IntrospectionAuthSecretRef f = Some ref /\ path = jwtSecretFile (jwtName f) (skName ref) jwtIntrospectionAuthFile.
Proof.
  intros Hf. destruct (cr_options _ _ reads f Hf) as [_ No]. cbn. unfold jwtAuthOptions.
  destruct (LocalSecretRef f) as [r|], (IntrospectionAuthSecretRef f) as [r'|]; cbn;
    rewrite ?map_get_set_eq, ?map_get_set_ne, ?No by done; try done; intros [= <-]; by exists r'.
Qed.

Lemma serves : serves_config objs c pod engine_c.
Proof.
  pose proof sorted_ok as Hok. split; intros name path Href.
  - apply (refers_elem eafName eaf_spec _ _ _ _ _ (cr_eafs _ _ reads)) in Href as (f & Hf & <- & [= <-]).
    rewrite <- (by_name_elem eafName) in Hf. destruct (ext_auth_ok visit visit_perm _ _ _ Hok (EngineResources hc)
      (if String.eqb (EngineImage hc) "" then defaultEngineImage env tag else EngineImage hc) (targetNamespaceOf (base hc)) identity f Hf) as [H1 H2].
    eexists _, _. split; [|split; [|split; [exact H1|exact H2]]]; [|done].
    apply sidecar_in, elem_of_app. left. by apply list_elem_of_fmap_2.
  - apply (refers_elem fwName fw_spec _ _ _ _ _ (cr_fws _ _ reads)) in Href as (f & Hf & <- & [= <-]).
    rewrite <- (by_name_elem fwName) in Hf. destruct (fw_ok visit visit_perm _ _ _ Hok (EngineResources hc)
      (if String.eqb (EngineImage hc) "" then defaultEngineImage env tag else EngineImage hc) (targetNamespaceOf (base hc)) identity f Hf) as [H1 H2].
    eexists _, _, _. split; [|split; [|split; [|split; [exact H1|exact H2]]]]; [|done|by eapply env_last].
    apply sidecar_in, elem_of_app. right. by apply list_elem_of_fmap_2.
  - apply (refers_elem jwtName jwt_spec _ _ _ _ _ (cr_jwts _ _ reads)) in Href as (f & Hf & <- & Hfld).
    destruct (local_secret_path f path Hf Hfld) as (ref & Hr & ->). exists f, ref. split_and!; [done..|].
    rewrite <- (by_name_elem jwtName) in Hf. apply jwt_file; auto.
  - apply (refers_elem jwtName jwt_spec _ _ _ _ _ (cr_jwts _ _ reads)) in Href as (f & Hf & <- & Hfld).
    destruct (introspection_path f path Hf Hfld) as (ref & Hr & ->). exists f, ref. split_and!; [done..|].
    rewrite <- (by_name_elem jwtName) in Hf. apply jwt_file; auto.
Qed.
End Serves.

(** ** Who owns a namespace *)

Lemma fold_winner_kept l acc ns w : map_get acc.1 ns = Some w -> map_get (fold_left add_config l acc).1 ns = Some w.
Proof.
  revert acc. induction l as [|x l IH]; intros acc H; cbn [fold_left]; [done|]. apply IH. unfold add_config.
  destruct (map_get acc.1 (targetNamespaceOf x)) eqn:E; [done|]. cbn [fst]. rewrite map_get_set_ne; [done|]. intros <-. congruence.
Qed.

Lemma fold_conflict_kept l acc name : name ∉ hcName <$> l -> map_get (fold_left add_config l acc).2 name = map_get acc.2 name.
Proof.
  revert acc. induction l as [|x l IH]; intros acc H; cbn [fold_left]; [done|]. cbn in H. apply not_elem_of_cons in H as [Hx H].
  rewrite IH by done. unfold add_config. destruct (map_get acc.1 (targetNamespaceOf x)); [|done]. cbn [snd]. by rewrite map_get_set_ne.
Qed.

(** A HyperConfig without a conflict is the one its namespace is compiled for. *)
Lemma active_owner items hc : hc ∈ items -> NoDup (hcName <$> items) -> map_get (activeHyperConfigs items).2 (hcName hc) = None ->
  map_get (activeHyperConfigs items).1 (targetNamespaceOf hc) = Some hc.
Proof.
  unfold activeHyperConfigs. intros Hin Hnd. rewrite <- (merge_sort_Permutation older items) in Hin, Hnd. revert Hin Hnd.
  generalize (merge_sort older items) as l. intros l.
  cut (forall acc, hc ∈ l -> NoDup (hcName <$> l) -> map_get (fold_left add_config l acc).2 (hcName hc) = None ->
    map_get (fold_left add_config l acc).1 (targetNamespaceOf hc) = Some hc); [intros H; apply H|].
  induction l as [|x l IH]; intros acc Hin Hnd Hn; [by apply elem_of_nil in Hin|]. cbn in Hnd. apply NoDup_cons in Hnd as [Hx Hnd].
  cbn [fold_left] in *. apply elem_of_cons in Hin as [->|Hin]; [|by apply IH].
  rewrite fold_conflict_kept in Hn by done. apply fold_winner_kept. unfold add_config in *.
  destruct (map_get acc.1 (targetNamespaceOf x)) as [w|] eqn:E; cbn [fst snd] in *; [by rewrite map_get_set_eq in Hn|apply map_get_set_eq].
Qed.

Lemma map_get_fmap {A B : Type} (g : A -> B) (m : GoMap A) k : map_get ((fun e => (e.1, g e.2)) <$> m) k = g <$> map_get m k.
Proof. induction m as [|[k' v] m IH]; [done|]. cbn. by destruct (String.eqb k' k). Qed.

(** ** The rights of the engine *)

Definition allows (rules : list PolicyRule) (group resource name verb : string) : bool :=
  existsb (fun r => bool_decide (group ∈ APIGroups r) && bool_decide (resource ∈ ruleResources r) &&
                    (negb (nonempty (ResourceNames r)) || bool_decide (name ∈ ResourceNames r)) && bool_decide (verb ∈ Verbs r)) rules.

Definition authorised (c : Cluster) (ns sa group resource name verb : string) : Prop :=
  exists binding b role subjects o rules,
    objects c !! ("RoleBinding", ns, binding) = Some (mkObject b (RoleBinding role subjects)) /\ (sa, ns) ∈ subjects /\
    objects c !! ("Role", ns, role) = Some (mkObject o (Role rules)) /\ allows rules group resource name verb = true.

(** What the engine's loader does with the ConfigMap of a namespace. *)
Definition loads_from (unmarshal : string -> result Config) (regexp : string -> option Regex) (env : string -> string)
  (get : string -> string -> result Reload.ConfigMap) (ns : string) : result (Config * string * option nat) :=
  let? cm := get ns engineConfigMapName in
  match map_get (Reload.Data cm) "config.yaml" with
  | None => Err "config.yaml not found in configmap"
  | Some data => let? cfg := ParseBytes unmarshal regexp env data in Ok (cfg, engineConfigMapName, Some (Reload.ResourceVersion cm))
  end.

Lemma target_not_empty hc : targetNamespaceOf hc <> "".
Proof. unfold targetNamespaceOf. destruct (String.eqb_spec (TargetNamespace (hcSpec hc)) ""); [discriminate|done]. Qed.

Lemma engine_loads (e : Container) ns node unmarshal regexp get fetch rd cli cli' :
  Env e = Env (engine_container None "" ns) -> ns <> "" ->
  Reload.LoadConfig unmarshal regexp (getenv e node) get fetch rd cli cli' = loads_from unmarshal regexp (getenv e node) get ns.
Proof.
  intros E Hns. assert (getenv e node "CONFIG_PROVIDER" = "K8S" /\ getenv e node "CONFIG_K8S_NAME" = engineConfigMapName /\
    getenv e node "CONFIG_K8S_NAMESPACE" = ns) as (E1 & E2 & E3) by (unfold getenv, env_lookup; rewrite E; done).
  unfold Reload.LoadConfig, Reload.provider, Reload.cmName, Reload.cmNamespace, loads_from, Reload.parse. rewrite E1, E2, E3.
  unfold or_default. destruct (String.eqb_spec ns ""); [done|]. cbn. destruct (get ns engineConfigMapName) as [cm|]; [|done]. cbn.
  by destruct (map_get (Reload.Data cm) "config.yaml").
Qed.

(** ** The whole reconciliation *)

Lemma find_config_spec name c hc : find_config name c = Some hc -> hc ∈ hyperConfigs c /\ hcName (base hc) = name.
Proof. unfold find_config. intros H. apply find_some in H as [H1 H2%String.eqb_eq]. split; [by apply list_elem_of_In|done]. Qed.

Lemma find_updated name (l : list DeployConfig) hc (f : DeployConfig -> DeployConfig) : (forall x, base (f x) = base x) ->
  List.find (fun x => String.eqb (hcName (base x)) name) l = Some hc ->
  List.find (fun x => String.eqb (hcName (base x)) name) ((fun x => if String.eqb (hcName (base x)) name then f x else x) <$> l) = Some (f hc).
Proof.
  intros Hf. induction l as [|x l IH]; [done|]. cbn. destruct (String.eqb (hcName (base x)) name) eqn:E; [intros [= <-]|rewrite E; exact IH].
  by rewrite Hf, E.
Qed.

(** The HyperConfig after its status was written. *)
Lemma find_with_status name c c' hc st msg : find_config name c = Some hc -> hyperConfigs c' = with_status hc st msg (hyperConfigs c) ->
  exists hc', find_config name c' = Some hc' /\ State hc' = st /\ Message hc' = msg /\
    (base hc', EngineImage hc', EngineResources hc') = (base hc, EngineImage hc, EngineResources hc).
Proof.
  intros Hf E. pose proof (find_config_spec _ _ _ Hf) as [_ Hn]. unfold find_config in *. rewrite E. unfold with_status, status_of. rewrite Hn.
  destruct (String.eqb (State hc) st && String.eqb (Message hc) msg) eqn:Es.
  - apply andb_true_iff in Es as [E1%String.eqb_eq E2%String.eqb_eq]. by exists hc.
  - exists (hc <| State := st |> <| Message := msg |>). split; [|done].
    by apply (find_updated name _ hc (fun x => x <| State := st |> <| Message := msg |>)).
Qed.

Section Whole.
Variables visit visit' : string -> GoMap (list KeyToPath) -> GoMap (list KeyToPath).
Hypothesis visit_perm : forall n m, visit n m ≡ₚ m.
Hypothesis visit_perm' : forall n m, visit' n m ≡ₚ m.
Variables (env tag : string).
Variable identity : IdentitySettings.
Variable read_ca : result string.

Definition conflict_of (name : string) (c : Cluster) : option string := map_get (activeHyperConfigs (base <$> hyperConfigs c)).2 name.

Definition conflict_message (hc : DeployConfig) (owner : string) : string :=
  ("targetNamespace " +++ quoted (targetNamespaceOf (base hc)) +++ " is already managed by HyperConfig " +++ quoted owner)%go.

(** Both outcomes of a reconciliation of an existing HyperConfig. *)
Lemma reconcile_outcome name hc c0 : find_config name c0 = Some hc ->
  triple (eq c0) (Reconcile visit env tag identity read_ca name)
    (fun r c => touches_only name (targetNamespaceOf (base hc)) c0 c /\
       match conflict_of name c0 with
       | Some owner => objects c = objects c0 /\
           forall d, r = Ok d -> d = None /\ hyperConfigs c = with_status hc "Conflict" (conflict_message hc owner) (hyperConfigs c0)
       | None => forall d, r = Ok d -> d = requeue identity /\
           holds (ca_facts identity read_ca name (targetNamespaceOf (base hc)) ++ engine_facts visit env tag identity hc c0) c /\
           hyperConfigs c = with_status hc "Ready" ("Engine resources reconciled in namespace " +++ targetNamespaceOf (base hc))%go (hyperConfigs c0)
       end).
Proof.
  intros Hf. destruct (find_config_spec _ _ _ Hf) as [_ Hn].
  eapply (triple_bind _ _ _ (fun o c => c = c0 /\ o = Some hc)).
  { eapply triple_pre; [|apply triple_read]. intros ? <-. split; [by split|]. intros e. split; [apply touches_refl|].
    by destruct (conflict_of name c0). }
  intros o. apply triple_fixed. intros ? [-> ->]. eapply (triple_bind _ _ _ (fun l c => c = c0 /\ l = base <$> hyperConfigs c0)).
  { eapply triple_pre; [|apply triple_read]. intros ? <-. split; [by split|]. intros e. split; [apply touches_refl|].
    by destruct (conflict_of name c0). }
  intros l. apply triple_fixed. intros ? [-> ->]. fold (conflict_of name c0). destruct (conflict_of name c0) as [owner|].
  - apply (triple_bind _ _ _ (fun _ c => touches_only name (targetNamespaceOf (base hc)) c0 c /\ objects c = objects c0 /\
      hyperConfigs c = with_status hc "Conflict" (conflict_message hc owner) (hyperConfigs c0))).
    + eapply triple_post; [apply setStatus_spec|]. by intros [u|e] c (H1 & H2 & H3).
    + intros _. eapply triple_pre; [|apply triple_ret]. intros c (H1 & H2 & H3). split; [done|]. split; [done|]. intros d [= <-]. by split.
  - intros s Es. destruct (deploy_spec visit env tag identity read_ca hc c0 s Es) as [H1 H2]. rewrite Hn in *.
    split; [exact H1|]. intros d Hd. destruct (H2 d Hd) as [-> Hh]. split; [done|]. split; [done|].
    eapply (deploy_status visit env tag identity read_ca hc (hyperConfigs c0) s); [by rewrite <- Es|exact Hd].
Qed.
Lemma bases_kept c c' name ns : touches_only name ns c c' -> base <$> hyperConfigs c' = base <$> hyperConfigs c.
Proof.
  intros [_ H _ _]. apply (f_equal (fmap (fun x : HyperConfig * string * option Value => x.1.1))) in H. by rewrite <- !list_fmap_compose in H.
Qed.

(** A reconciliation after a successful one changes nothing; it only sends the update of
    the DaemonSet again. *)
Definition updates (name : string) (c : Cluster) : nat := match conflict_of name c with Some _ => 0 | None => 1 end.

Lemma Reconcile_again name hc s d : let r := Reconcile visit env tag identity read_ca name s in
  find_config name (cluster s) = Some hc -> r.1 = Ok d -> (forall f, f ∈ jwtAuths (cluster s) -> one_secret f = true) ->
  stays (cluster r.2) (updates name (cluster s)) (Reconcile visit' env tag identity read_ca name) (fun x => x = d).
Proof.
  intros r Hf Hok H1. destruct (reconcile_outcome name hc (cluster s) Hf s eq_refl) as [Ht Hr]. fold r in Ht, Hr.
  assert (conflict_of name (cluster r.2) = conflict_of name (cluster s)) as Ec by (unfold conflict_of; by rewrite (bases_kept _ _ _ _ Ht)).
  assert (hcName (base hc) = name) as Hn by apply (find_config_spec _ _ _ Hf).
  assert (forall hc' n, find_config name (cluster r.2) = Some hc' -> stays (cluster r.2) n (match conflict_of name (cluster r.2) with
      | Some owner => bind (setStatus hc' hyperConfigStateConflict (conflict_message hc' owner)) (fun _ => ret None)
      | None => deploy visit' env tag identity read_ca hc' end) (fun x => x = d) ->
    stays (cluster r.2) n (Reconcile visit' env tag identity read_ca name) (fun x => x = d)) as Hgo.
  { intros hc' n Hf' Hs. apply (stays_bind _ 0 n _ _ (fun o => o = Some hc')); [apply settled_stays, settled_read; by intros ? <-|]. intros ? ->.
    apply (stays_bind _ 0 n _ _ (fun l => l = base <$> hyperConfigs (cluster r.2))); [apply settled_stays, settled_read; by intros ? <-|].
    intros ? ->. exact Hs. }
  unfold updates. destruct (conflict_of name (cluster s)) as [owner|].
  - destruct Hr as [_ Hr]. destruct (Hr d Hok) as [-> Hl]. destruct (find_with_status _ _ _ _ _ _ Hf Hl) as (hc' & Hf' & Es & Em & [= Eb _ _]).
    apply (Hgo hc' 0 Hf'). rewrite Ec. apply settled_stays. eapply (settled_bind _ _ _ (fun _ => True)); [|intros _ _; by apply settled_ret].
    unfold setStatus, hyperConfigStateConflict. replace (conflict_message hc' owner) with (conflict_message hc owner)
      by (unfold conflict_message; by rewrite Eb). rewrite Es, Em, !String.eqb_refl. by apply settled_ret.
  - destruct (Hr d Hok) as (-> & Hh & Hl). destruct (find_with_status _ _ _ _ _ _ Hf Hl) as (hc' & Hf' & Es & Em & E3).
    apply (Hgo hc' 1 Hf'). rewrite Ec. rewrite <- Hn in Hh, Ht. eapply (deploy_stays visit visit' visit_perm visit_perm' env tag); done.
Qed.
End Whole.

(** The engine of [hc] as the cluster runs it, against the configuration [cfg]. *)
Record deployed (objs : Objects) (read_ca : result string) (hc : HyperConfig) (cfg : Config)
  (c c' : Cluster) (ds : DaemonSet) (e : Container) : Prop := {
  dp_object : objects c' !! ("DaemonSet", targetNamespaceOf hc, dsName) = Some (mkObject (Some (hcName hc)) (DaemonSetBody ds));
  dp_engine : head (Containers (Template ds)) = Some e;
  dp_valid : pod_valid (Template ds);
  (** its files and sockets *)
  dp_serves : serves_config objs c (Template ds) e;
  (** where it reads its configuration, and that it may *)
  dp_loads : forall node unmarshal regexp get fetch rd cli cli',
    Reload.LoadConfig unmarshal regexp (getenv e node) get fetch rd cli cli' =
    loads_from unmarshal regexp (getenv e node) get (targetNamespaceOf hc);
  dp_rights : forall verb, verb = "get" \/ verb = "watch" ->
    authorised c' (targetNamespaceOf hc) (ServiceAccountName ds) "" "configmaps" engineConfigMapName verb;
  (** its identity *)
  dp_token : Enabled (cfgIdentity cfg) = true ->
    backed_by (Template ds) e (TokenFile (cfgIdentity cfg)) (Token OpAuth.TokenAudience) /\
    OpAuth.Allowed (Some (configs objs)) (OpAuth.ServiceAccountUsername (targetNamespaceOf hc) (ServiceAccountName ds)) = true;
  dp_ca : Enabled (cfgIdentity cfg) = true -> Insecure (cfgIdentity cfg) = false ->
    backed_by (Template ds) e (idCAFile (cfgIdentity cfg)) (ConfigMapKey identityCAConfigMap "ca.crt") /\
    exists ca, read_ca = Ok ca /\
      objects c' !! ("ConfigMap", targetNamespaceOf hc, identityCAConfigMap) = Some (mkObject (Some (hcName hc)) (ConfigMapBody [("ca.crt", ca)]));
  (** its probes and its shutdown *)
  dp_health : HealthAddress (Server cfg) = (":" +++ Itoa engineHealthPort)%go /\
    (pPort <$> ReadinessProbe e) = Some engineHealthPort /\ (pPort <$> LivenessProbe e) = Some engineHealthPort;
  dp_grace : forall sh, applyDefaults (Shutdown (Server cfg)) = Ok sh ->
    (MaxDelayDuration sh + DrainTimeoutDuration sh < TerminationGracePeriodSeconds ds * Second)%Z
}.

Section Claim.
Variable visit : string -> GoMap (list KeyToPath) -> GoMap (list KeyToPath).
Hypothesis visit_perm : forall n m, visit n m ≡ₚ m.
Variables (env tag : string) (identity : IdentitySettings) (read_ca : result string).
Variables (objs : Objects) (hc : DeployConfig) (c c' : Cluster).
Variables (regexp : string -> option Regex) (sort_routes : list HyperRoute -> list HyperRoute) (yaml_options : Value -> result (GoMap Value)).
Hypothesis ok : filters_ok (externalAuths c) (firewalls c) (jwtAuths c).
Hypothesis reads : compiler_reads objs c.
Hypothesis listed : base hc ∈ configs objs.
Hypothesis names : NoDup (hcName <$> configs objs).
Hypothesis owns : map_get (activeHyperConfigs (configs objs)).2 (hcName (base hc)) = None.

Let pod := engine_pod visit env tag identity hc (externalAuths c) (firewalls c) (jwtAuths c).
Let e := engine_c visit env tag identity hc c.
Let cfg := engineConfig regexp sort_routes yaml_options identity objs (base hc).

Lemma engine_head : head (Containers pod) = Some e.
Proof. unfold pod, e, engine_pod, engine_c. apply engine_in. Qed.

Lemma engine_rights sa : holds (engine_facts visit env tag identity hc c) c' -> sa = OpAuth.EngineServiceAccountName ->
  forall verb, verb = "get" \/ verb = "watch" -> authorised c' (targetNamespaceOf (base hc)) sa "" "configmaps" engineConfigMapName verb.
Proof.
  intros Hf -> verb Hv. destruct (holds_nth _ _ 2 _ _ Hf eq_refl) as ([o b] & Ho & _ & Hb).
  destruct (holds_nth _ _ 3 _ _ Hf eq_refl) as ([o' b'] & Ho' & _ & Hb'). cbn in Hb, Hb'. subst b b'.
  eexists _, _, _, _, _, _. split; [exact Ho|]. split; [by left|]. split; [exact Ho'|]. by destruct Hv as [-> | ->].
Qed.

Lemma engine_allowed : OpAuth.Allowed (Some (configs objs)) (OpAuth.ServiceAccountUsername (targetNamespaceOf (base hc)) OpAuth.EngineServiceAccountName) = true.
Proof.
  unfold OpAuth.Allowed, OpAuth.EngineNamespaces. apply existsb_elem. exists (targetNamespaceOf (base hc)). split; [|apply String.eqb_refl].
  pose proof (active_owner _ _ listed names owns) as H. apply map_get_elem in H. by apply (list_elem_of_fmap_2 fst) in H.
Qed.

Lemma engine_compiled : map_get (compile regexp sort_routes yaml_options identity objs) (targetNamespaceOf (base hc)) = Some cfg.
Proof.
  unfold compile. rewrite (map_get_fmap (engineConfig regexp sort_routes yaml_options identity objs)).
  by rewrite (active_owner _ _ listed names owns).
Qed.

Lemma cfg_identity : cfgIdentity cfg = engineIdentity identity /\ HealthAddress (Server cfg) = ":9003" /\
  Shutdown (Server cfg) = mkShutdownConfig "" "" "" "" 0 0 0 0.
Proof. unfold cfg, engineConfig. by destruct (compile_routes _ _ _ _ _). Qed.

Lemma engine_is_deployed : holds (ca_facts identity read_ca (hcName (base hc)) (targetNamespaceOf (base hc)) ++ engine_facts visit env tag identity hc c) c' ->
  exists ds, deployed objs read_ca (base hc) cfg c c' ds e.
Proof.
  intros Hh. assert (holds (engine_facts visit env tag identity hc c) c') as Hf by (intros k P Hin; apply Hh, elem_of_app; by right).
  destruct (holds_nth _ _ 1 _ _ Hf eq_refl) as ([o b] & Ho & Hc & sel & Hb). cbn in Hc, Hb. subst o b.
  pose proof (sorted_ok c ok) as Hok. destruct cfg_identity as (Ei & Eh & Es). exists (engine_ds sel pod). split.
  - exact Ho.
  - apply engine_head.
  - by apply pod_is_valid.
  - by apply serves.
  - intros. by apply engine_loads, target_not_empty.
  - by apply engine_rights.
  - rewrite Ei. intros He. split; [|apply engine_allowed]. apply (identity_ok visit visit_perm _ _ _ Hok).
    unfold engineIdentity in He. by destruct (isEnabled identity).
  - rewrite Ei. intros He Hi. unfold engineIdentity in He, Hi. destruct (isEnabled identity) eqn:E1; [|done]. cbn in Hi.
    split; [by apply (identity_ok visit visit_perm _ _ _ Hok)|].
    unfold ca_facts in Hh. rewrite E1, Hi in Hh. cbn [negb orb] in Hh.
    destruct (Hh _ _ (list_elem_of_here _ _)) as ([o b] & Ho' & Hc & ca & Eca & Hb). cbn in Hc, Hb. subst o b. by exists ca.
  - by rewrite Eh.
  - rewrite Es. intros sh [= <-]. vm_compute. done.
Qed.
End Claim.

(** ** Properties *)


(** ** Examples *)

Definition demo_sidecar : SidecarContainerSpec :=
  mkSidecarContainerSpec "quay.io/oauth2-proxy/oauth2-proxy:v7" "" ["regcred"] ["--listen={socket_path}"] [] [] VNull "".
Definition demo_rules : EngineRules := mkEngineRules "2s" "/" [] false 0 [] [] [].
Definition demo_eaf : ExternalAuthFilter := mkExternalAuthFilter "sso" "http" demo_sidecar demo_rules.
Definition demo_fw : FirewallFilter := mkFirewallFilter "waf" "grpc" demo_sidecar demo_rules "waf-rules" "".
Definition demo_jwt (name : string) (local auth : option SecretKeyRef) : JwtAuthFilter := mkJwtAuthFilter name [] local auth.
Definition demo_config : HyperConfig := mkHyperConfig "main" 0 (mkHyperConfigSpec "0.0.0.0:9001" 0 "INFO" "" 0 "" None "" 0 0).
Definition demo_identity : IdentitySettings := mkIdentitySettings true "operator:9443" "operator" false.
Definition demo_jwts : list JwtAuthFilter := [demo_jwt "login" (Some (mkSecretKeyRef "jwt" "hmac")) (Some (mkSecretKeyRef "jwt" "basic"))].
Definition demo_cluster (jwts : list JwtAuthFilter) : Cluster := mkCluster [mkDeployConfig demo_config "" None "" ""] [demo_eaf] [demo_fw] jwts ∅.
Definition demo_objects : Objects :=
  mkObjects [demo_config] [] [] []
    (fun kind => if String.eqb kind "ExternalAuthFilter" then [("sso", eaf_spec demo_eaf)]
                 else if String.eqb kind "FirewallFilter" then [("waf", fw_spec demo_fw)]
                 else if String.eqb kind "JwtAuthFilter" then (fun f => (jwtName f, jwt_spec f)) <$> demo_jwts else []).
Definition demo_run : result (option Z) * Api Cluster :=
  Reconcile (fun _ m => m) "" "1.0.0" demo_identity (Ok "PEM") "main" (mkApi (demo_cluster demo_jwts) [] 0).


(** With two Secrets in one filter the order of the map shows in the pod template: a
    reconciliation that visits it the other way round rewrites the DaemonSet. *)
Lemma order_rewrites_template :
  let jwts := [demo_jwt "login" (Some (mkSecretKeyRef "hmac" "key")) (Some (mkSecretKeyRef "basic" "auth"))] in
  let s := (Reconcile (fun _ m => m) "" "1.0.0" demo_identity (Ok "PEM") "main" (mkApi (demo_cluster jwts) [] 0)).2 in
  let s' := (Reconcile (fun _ => @rev _) "" "1.0.0" demo_identity (Ok "PEM") "main" s).2 in
  writes s' = S (writes s) /\
  bool_decide (objects (cluster s') !! ("DaemonSet", "hyper-system", dsName) = objects (cluster s) !! ("DaemonSet", "hyper-system", dsName)) = false.
Proof. split; vm_compute; reflexivity. Qed.

(** Two filters and two Secrets whose volumes get one name: the API server refuses
    the pod. *)
Lemma volume_names_collide res image ns eafs fws identity :
  let jwts := [demo_jwt "a" (Some (mkSecretKeyRef "b-c" "key")) None; demo_jwt "a-b" (Some (mkSecretKeyRef "c" "key")) None] in
  ~ pod_valid (buildEnginePodSpec (fun _ m => m) res image ns eafs fws jwts identity).
Proof.
  intros jwts [H _ _ _]. unfold buildEnginePodSpec in H. destruct (identityVolumes identity) as [ivs ims]. cbn [Volumes] in H.
  rewrite !fmap_app in H. apply NoDup_app in H as (_ & _ & H). apply NoDup_app in H as (_ & _ & H). apply NoDup_app in H as (_ & _ & H).
  cbn in H. apply NoDup_cons in H as [H _]. apply H. by left.
Qed.

(** The Secret files have mode 0440 and the pod has no fsGroup: they belong to root,
    and the engine's user cannot read them. *)
Lemma jwt_secrets_unreadable visit f v sel pod sec : v ∈ jwt_volumes visit f ->
  conSecurity (engine_container None "" "") = Some sec ->
  exists name keys mode, vSource v = SecretVolume name keys (Some mode) /\ readable (FSGroup (engine_ds sel pod)) mode sec = false.
Proof.
  intros Hv [= <-]. apply list_elem_of_fmap in Hv as (e & -> & _). by exists e.1, e.2, 288%Z.
Qed.

End EngineDeploy.
