(* ===== verification/RedisCheck.v ===== *)
(** * RedisCheck: the operator's check of Redis services
    (hyper-operator/internal/controller/hyperredis_controller.go)

    For a HyperRedis that asks for it the controller connects with the engine's
    client, for at most two seconds, and writes what it found into the status. *)

From S2P Require Import Prelude GoStrings GoTime Config RedisConn Compiler Kube.

Local Open Scope string_scope.
Local Open Scope list_scope.
Local Open Scope kube_scope.

Module RedisCheck.
Import RedisConn Compiler.

(** ** Objects *)

(** [LastCheck] is a [metav1.Time]: the API keeps whole seconds. *)
Record RedisObject := mkRedisObject { redis : HyperRedis; redisState : string; LastCheck : Z }.
#[export] Instance RedisObject_eta : Eta RedisObject := fun x => mkRedisObject (redis x) (redisState x) (LastCheck x).

Record Cluster := mkCluster { services : gmap string RedisObject; events : list (string * string) }.

Abbreviation K := (M Cluster).

Definition RedisStateConnected : string := "Connected".
Definition RedisStateError : string := "Error".

(** ** Reconcile *)

Definition check_timeout (hr : HyperRedis) : Z :=
  match ParseDuration (hrTimeout hr) with
  | Some d => if (d =? 0)%Z then (5 * Second)%Z else d
  | None => (5 * Second)%Z
  end.

Definition mappedConfig (hr : HyperRedis) : RedisServiceConfig :=
  mkRedisServiceConfig (RedisType hr) "" (Url hr) (hrPoolSize hr) "" false "" "" "" false "" 0 0 "" false (hrTimeout hr) (check_timeout hr)
    "" "" 0 "" (500 * Millisecond) "" Second "2s" (2 * Second).

(** [Status().Update], then the event; [now] is the clock when the status is set. *)
Definition report (name state reason : string) (now : Z) (requeue : Z) : K (option Z) :=
  let! _ := write (fun c => mkCluster (alter (fun o => o <| redisState := state |> <| LastCheck := (now / Second)%Z |>) name (services c)) (events c)) in
  fun s => (Ok (Some requeue), mkApi (mkCluster (services (cluster s)) (events (cluster s) ++ [(name, reason)])) (oracle s) (writes s)).

Section Reconcile.
(** Attempts, and the clock when connecting starts and ends; [None] when [fuel] runs
    out while connecting. *)
Variables (fuel : nat) (env : nat -> Attempt) (start now : Z).

Definition Reconcile (name : string) (s : Api Cluster) : option (result (option Z) * Api Cluster) :=
  match read (fun c => services c !! name) s with
  | (Err e, s) => Some (Err e, s)
  | (Ok None, s) => Some (Ok None, s)
  | (Ok (Some o), s) =>
      if negb (hrActiveConnHealthCheck (redis o)) then Some (Ok None, s)
      else match NewClientConn fuel env start (mappedConfig (redis o)) with
           | None => None
           | Some (_, Connected _) => Some (report name RedisStateConnected "ConnectionEstablished" now (60 * Second)%Z s)
           | Some (_, _) => Some (report name RedisStateError "ConnectionFailed" now (10 * Second)%Z s)
           end
  end.
End Reconcile.

(** ** Lemmas *)

(** Attempts that take at least [step] are over after these many. *)
Definition attempts (step : Z) : nat := S (Z.to_nat (2 * Second / step)).

(** A check ends, and when nothing fails the status says how connecting ended. *)
Lemma check_reports env start now step name s o : (0 < step)%Z ->
  (forall n, start + (Z.of_nat n + 1) * step <= nowAfter (env n))%Z ->
  services (cluster s) !! name = Some o -> hrActiveConnHealthCheck (redis o) = true ->
  exists r s', Reconcile (attempts step) env start now name s = Some (r, s') /\
    (oracle s = [] -> exists ws outcome, NewClientConn (attempts step) env start (mappedConfig (redis o)) = Some (ws, outcome) /\
       let ok := match outcome with Connected _ => true | _ => false end in
       r = Ok (Some (if ok then 60 * Second else 10 * Second)%Z) /\
       services (cluster s') !! name =
         Some (mkRedisObject (redis o) (if ok then RedisStateConnected else RedisStateError) (now / Second)%Z)).
Proof.
  intros Hs Hn Ho Ha. destruct (startup_ends env start step (mappedConfig (redis o))) as (ws & outcome & E); [done|done|done|].
  change (S (Z.to_nat _)) with (attempts step) in E. unfold Reconcile, read, bind. pose proof (call_cluster s) as Ec.
  assert (oracle s = [] -> call s = (Ok tt, s)) as Hcall by (intros Hor; unfold call; by rewrite Hor).
  destruct (call s) as [[u|e] s1] eqn:Es; cbn [snd] in Ec; [|eexists _, _; split; [reflexivity|]; intros Hor; by specialize (Hcall Hor)].
  rewrite Ec, Ho, Ha, E. cbn [negb].
  assert (forall state reason requeue, oracle s1 = [] -> report name state reason now requeue s1 =
    (Ok (Some requeue), mkApi (mkCluster (alter (fun o => o <| redisState := state |> <| LastCheck := (now / Second)%Z |>) name (services (cluster s1)))
       (events (cluster s1) ++ [(name, reason)])) [] (writes s1 + 1))) as Hrep.
  { intros state reason requeue H. unfold report, write, bind, call. rewrite H. cbn. by rewrite H. }
  destruct outcome; (eexists _, _; split; [by rewrite <- surjective_pairing|]); intros Hor; specialize (Hcall Hor);
    injection Hcall as -> ->; eexists _, _; (split; [reflexivity|]); rewrite Hrep by done; cbn; (split; [done|]);
    rewrite lookup_alter_eq, Ho; done.
Qed.

(** Without the defaults of the engine's parser a single Redis is dialled on the
    network with the empty name. *)
Lemma single_network hr d : RedisType hr = "SINGLE" ->
  target <$> (match dialTopology (mappedConfig hr) d with Ok p => Some p | Err _ => None end) = Some (SinglePool "" (Url hr)).
Proof. intros E. unfold dialTopology. cbn [RType mappedConfig]. rewrite E. done. Qed.

(** A failed check changes the object whenever the clock moved on a second since the
    last one, and the change is an event for this controller. *)
Lemma failed_check_changes env start now fuel name s o ws n : services (cluster s) !! name = Some o -> hrActiveConnHealthCheck (redis o) = true ->
  oracle s = [] -> NewClientConn fuel env start (mappedConfig (redis o)) = Some (ws, Exceeded n) -> (now / Second)%Z <> LastCheck o ->
  exists r s', Reconcile fuel env start now name s = Some (r, s') /\ services (cluster s') !! name <> Some o.
Proof.
  intros Ho Ha Hor E Hne. unfold Reconcile, read, bind, call. rewrite Hor. rewrite Ho, Ha, E. cbn [negb].
  unfold report, write, bind, call. rewrite Hor. eexists _, _. split; [reflexivity|]. cbn. rewrite lookup_alter_eq, Ho. cbn.
  intros [= H]. apply Hne. by rewrite <- H.
Qed.

End RedisCheck.
