(* ===== verification/IdentityClient.v ===== *)
(** * IdentityClient: the engine's side of the identity stream
    (internal/identity/client.go)

    The client connects to the operator with its token, subscribes with the versions
    it already has, applies what it receives to the index of Identity.v, and starts
    again with a jittered back-off when the stream ends. Files, connections and
    random numbers are inputs of every round; the index outlives the streams. *)

From S2P Require Import Prelude GoStrings GoTime Netip Identity OpAuth.

Local Open Scope string_scope.
Local Open Scope list_scope.

Module IdentityClient.

Definition DefaultTokenFile : string := "/var/run/secrets/hypergate/identity/token".

(** [Dialer] is only set by tests: connections are grpc's. *)
Record Options := mkOptions {
  Address : string; CAFile : string; ServerName : string; TokenFile : string; Insecure : bool; NodeID : string }.
#[export] Instance Options_eta : Eta Options := fun x =>
  mkOptions (Address x) (CAFile x) (ServerName x) (TokenFile x) (Insecure x) (NodeID x).

Record Client := mkClient { opts : Options; index : Index; connected : bool; reconnects : Z }.
#[export] Instance Client_eta : Eta Client := fun x => mkClient (opts x) (index x) (connected x) (reconnects x).

Definition NewClient (hostname : string) (opts : Options) (index : Index) : Client :=
  let opts := opts <| TokenFile := if String.eqb (TokenFile opts) "" then DefaultTokenFile else TokenFile opts |> in
  let opts := opts <| NodeID := if String.eqb (NodeID opts) "" then hostname else NodeID opts |> in
  mkClient opts index false 0.

(** ** One stream *)

(** What a stream meets: the files, the certificates of a PEM file, whether the
    connection, the stream and the two subscriptions succeed, and the responses with
    whether their acknowledgement could be sent; then Recv fails. *)
Record Peer := mkPeer {
  ReadFile : string -> result string; hasCerts : string -> bool; clientOk : bool; openOk : bool;
  sendOk : TypeURL -> bool; responses : list (Z * DeltaResponse * bool) }.

Inductive Credentials : Type := Plaintext | TLS13 (roots serverName : string).

Definition transportCredentials (p : Peer) (o : Options) : result Credentials :=
  if Insecure o then Ok Plaintext
  else if String.eqb (CAFile o) "" then Err "identity: ca_file is required unless insecure"
  else
    let? pem := ReadFile p (CAFile o) in
    if negb (hasCerts p pem) then Err "identity CA file contains no certificate"
    else
      let serverName := if String.eqb (ServerName o) "" then fst (default ("", "") (SplitHostPort (Address o))) else ServerName o in
      Ok (TLS13 pem serverName).

Record Request := mkRequest { rqNode : string; rqType : TypeURL; rqVersions : gmap string string }.

(** What went to the operator: how the connection is protected, the authorization
    metadata, the subscriptions, and the acknowledgements, true for an accepted
    response. *)
Record Sent := mkSent { sCredentials : option Credentials; sMetadata : list string; sRequests : list Request; sAcks : list bool }.

Fixpoint receive (rs : list (Z * DeltaResponse * bool)) (c : Client) : list bool * Client :=
  match rs with
  | [] => ([], c)
  | (now, resp, ackOk) :: rs =>
      let c := c <| connected := true |> in
      let '(ok, c) := match apply now (index c) resp with
                      | Ok x => (true, c <| index := x |>)
                      | Err _ => (false, c)
                      end in
      if ackOk then let '(acks, c) := receive rs c in (ok :: acks, c) else ([], c)
  end.

(** The loop over the two types: the requests sent, and whether it got through. *)
Fixpoint subscribe (p : Peer) (c : Client) (types : list TypeURL) : list Request * bool :=
  match types with
  | [] => ([], true)
  | t :: types =>
      if negb (sendOk p t) then ([], false)
      else let '(rqs, ok) := subscribe p c types in (mkRequest (NodeID (opts c)) t (versionsOf (index c) t) :: rqs, ok)
  end.

Definition stream (p : Peer) (c : Client) : Sent * Client :=
  match transportCredentials p (opts c) with
  | Err _ => (mkSent None [] [] [], c)
  | Ok creds =>
      match ReadFile p (TokenFile (opts c)) with
      | Err _ => (mkSent None [] [] [], c)
      | Ok token =>
          if negb (clientOk p) then (mkSent None [] [] [], c)
          else
            let md := [("Bearer " +++ TrimSpace token)%go] in
            if negb (openOk p) then (mkSent (Some creds) md [] [], c)
            else
              let '(rqs, ok) := subscribe p c [WorkloadTypeURL; ServiceTypeURL] in
              if negb ok then (mkSent (Some creds) md rqs [], c)
              else let '(acks, c) := receive (responses p) c in (mkSent (Some creds) md rqs acks, c)
      end
  end.

(** ** Reconnecting *)

(** One round of [Run]: the stream's peer, how long it lasted, the random number below
    a bound, and when the context is found done: before the stream, after it, or
    during the wait. *)
Record Round := mkRound {
  peer : Peer; elapsed : Z; randN : Z -> Z; doneBefore : bool; doneAfter : bool; doneWaiting : bool }.

Definition initialBackoff : Z := 500 * Millisecond.
Definition maxBackoff : Z := 30 * Second.

(** The rounds so far: what was sent, the waits, and the client. *)
Fixpoint run_loop (rounds : list Round) (backoff : Z) (c : Client) : list Sent * list Z * Client :=
  match rounds with
  | [] => ([], [], c)
  | r :: rounds =>
      if doneBefore r then ([], [], c)
      else
        let '(sent, c) := stream (peer r) c in
        let c := c <| connected := false |> in
        if doneAfter r then ([sent], [], c)
        else
          let c := c <| reconnects := (reconnects c + 1)%Z |> in
          let backoff := if (30 * Second <? elapsed r)%Z then initialBackoff else backoff in
          let wait := (backoff / 2 + randN r backoff)%Z in
          if doneWaiting r then ([sent], [wait], c)
          else let '(sents, waits, c) := run_loop rounds (Z.min (backoff * 2) maxBackoff) c in (sent :: sents, wait :: waits, c)
  end.

Definition Run (rounds : list Round) (c : Client) : list Sent * list Z * Client := run_loop rounds initialBackoff c.

(** ** Lemmas *)

(** The responses of a stream that reach the index. *)
Fixpoint applied (rs : list (Z * DeltaResponse * bool)) : list (Z * DeltaResponse) :=
  match rs with
  | [] => []
  | (now, resp, ackOk) :: rs => (now, resp) :: (if ackOk then applied rs else [])
  end.

Definition stream_applied (p : Peer) (sent : Sent) : list (Z * DeltaResponse) :=
  match sRequests sent with [_; _] => applied (responses p) | _ => [] end.

Lemma receive_index rs c : index (receive rs c).2 = applyAll (index c) (applied rs) /\ opts (receive rs c).2 = opts c.
Proof.
  revert c. induction rs as [|[[now resp] ackOk] rs IH]; intros c; [done|]. cbn [receive applied]. unfold applyAll in *. cbn [fold_left].
  destruct (apply now (index (c <| connected := true |>)) resp) as [x|e] eqn:E; change (index (c <| connected := true |>)) with (index c) in E; rewrite E;
    (destruct ackOk; [|done]).
  - specialize (IH (c <| connected := true |> <| index := x |>)). by destruct (receive rs _).
  - specialize (IH (c <| connected := true |>)). by destruct (receive rs _).
Qed.

(** What a stream sends and leaves. *)
Record stream_ok (p : Peer) (c : Client) (sent : Sent) (c' : Client) : Prop := {
  so_opts : opts c' = opts c;
  so_index : index c' = applyAll (index c) (stream_applied p sent);
  so_requests : forall rq, rq ∈ sRequests sent -> rqVersions rq = versionsOf (index c) (rqType rq) /\ rqNode rq = NodeID (opts c);
  so_tls : Insecure (opts c) = false -> sCredentials sent <> Some Plaintext;
  so_token : forall v, v ∈ sMetadata sent -> exists token, ReadFile p (TokenFile (opts c)) = Ok token /\ v = ("Bearer " +++ TrimSpace token)%go
}.

Lemma stream_spec p c : stream_ok p c (stream p c).1 (stream p c).2.
Proof.
  unfold stream. destruct (transportCredentials p (opts c)) as [creds|] eqn:Ec; [|split; try done; intros ? H; by apply elem_of_nil in H].
  destruct (ReadFile p (TokenFile (opts c))) as [token|] eqn:Et; [|split; try done; intros ? H; by apply elem_of_nil in H].
  destruct (clientOk p); cbn [negb]; [|split; try done; intros ? H; by apply elem_of_nil in H].
  assert (Insecure (opts c) = false -> Some creds <> Some Plaintext) as Htls.
  { unfold transportCredentials in Ec. intros Hi. rewrite Hi in Ec. destruct (String.eqb _ _); [done|].
    destruct (ReadFile p (CAFile (opts c))) as [pem|]; [|done]. cbn in Ec. destruct (negb (hasCerts p pem)); [done|]. by injection Ec as <-. }
  assert (forall v, v ∈ [("Bearer " +++ TrimSpace token)%go] -> exists token', Ok token = Ok token' /\ v = ("Bearer " +++ TrimSpace token')%go) as Htok
    by (intros v Hv; apply list_elem_of_singleton in Hv as ->; by exists token).
  destruct (openOk p); cbn [negb]; [|split; try done; [intros ? H; by apply elem_of_nil in H|by rewrite Et]].
  unfold subscribe. destruct (sendOk p WorkloadTypeURL); cbn [negb];
    [|split; try done; [intros ? H; by apply elem_of_nil in H|by rewrite Et]].
  destruct (sendOk p ServiceTypeURL); cbn [negb].
  - destruct (receive_index (responses p) c) as [Hi Ho]. destruct (receive (responses p) c) as [acks c'].
    split; cbn [fst snd] in *; [done|done| |done|by rewrite Et]. intros rq Hrq.
    apply elem_of_cons in Hrq as [->|Hrq]; [done|]. by apply list_elem_of_singleton in Hrq as ->.
  - split; try done; [|by rewrite Et]. intros rq Hrq. by apply list_elem_of_singleton in Hrq as ->.
Qed.

(** The responses that reach the index over all rounds. *)
Fixpoint run_applied (rounds : list Round) (sents : list Sent) {struct sents} : list (Z * DeltaResponse) :=
  match sents, rounds with
  | sent :: sents, r :: rounds => stream_applied (peer r) sent ++ run_applied rounds sents
  | _, _ => []
  end.

Lemma applyAll_app x l l' : applyAll x (l ++ l') = applyAll (applyAll x l) l'.
Proof. unfold applyAll. by rewrite fold_left_app. Qed.

(** The index survives reconnecting: it is what all responses together make it, and
    it is never emptied in between. *)
Lemma run_index rounds backoff c : let '(sents, _, c') := run_loop rounds backoff c in
  index c' = applyAll (index c) (run_applied rounds sents) /\ opts c' = opts c.
Proof.
  revert backoff c. induction rounds as [|r rounds IH]; intros backoff c; [done|]. cbn [run_loop].
  destruct (doneBefore r); [done|]. destruct (stream_spec (peer r) c) as [Ho Hi _ _ _]. destruct (stream (peer r) c) as [sent c1].
  cbn [fst snd] in *. destruct (doneAfter r); [cbn; rewrite app_nil_r; done|].
  set (c2 := c1 <| connected := false |> <| reconnects := _ |>). set (b := if (30 * Second <? elapsed r)%Z then _ else _).
  destruct (doneWaiting r); [cbn; rewrite app_nil_r; done|].
  specialize (IH (Z.min (b * 2) maxBackoff) c2). destruct (run_loop rounds _ c2) as [[sents waits] c']. destruct IH as [IHi IHo].
  cbn [run_applied]. rewrite applyAll_app, <- Hi. split; [exact IHi|]. by rewrite IHo.
Qed.

(** Every wait is between a quarter of a second and three quarters of a minute. *)
Lemma run_waits rounds c : (forall r b, r ∈ rounds -> (0 < b)%Z -> (0 <= randN r b < b)%Z) ->
  forall w, w ∈ (Run rounds c).1.2 -> (250 * Millisecond <= w < 45 * Second)%Z.
Proof.
  unfold Run. assert (initialBackoff <= initialBackoff <= maxBackoff)%Z as Hb by done. revert Hb. generalize initialBackoff at 2 3 4 as b.
  intros b. revert b c. induction rounds as [|r rounds IH]; intros b c Hb Hr w Hw; [by apply elem_of_nil in Hw|]. cbn [run_loop] in Hw.
  destruct (doneBefore r); [by apply elem_of_nil in Hw|]. destruct (stream (peer r) c) as [sent c1]. destruct (doneAfter r); [by apply elem_of_nil in Hw|].
  set (b' := if (30 * Second <? elapsed r)%Z then initialBackoff else b) in *.
  assert (initialBackoff <= b' <= maxBackoff)%Z as Hb' by (unfold b'; destruct (30 * Second <? elapsed r)%Z; done).
  assert (forall x, x = (b' / 2 + randN r b')%Z -> (250 * Millisecond <= x < 45 * Second)%Z) as Hwait.
  { intros x ->. destruct (Hr r b') as [H1 H2]; [by left|unfold initialBackoff, Millisecond in *; lia|].
    pose proof (Z.div_le_mono _ _ 2 ltac:(lia) (proj1 Hb')). pose proof (Z.div_le_mono _ _ 2 ltac:(lia) (proj2 Hb')).
    change (initialBackoff / 2)%Z with (250 * Millisecond)%Z in *. change (maxBackoff / 2)%Z with (15 * Second)%Z in *.
    unfold maxBackoff in *. unfold Second, Millisecond in *. lia. }
  destruct (doneWaiting r); [apply list_elem_of_singleton in Hw; by apply Hwait|].
  specialize (IH (Z.min (b' * 2) maxBackoff)
    (c1 <| connected := false |> <| reconnects := (reconnects (c1 <| connected := false |>) + 1)%Z |>)).
  destruct (run_loop rounds _ _) as [[sents waits] c']. cbn [fst snd] in *. apply elem_of_cons in Hw as [Hw|Hw]; [by apply Hwait|].
  apply IH; [|intros r' b0 Hin; apply Hr; by right|done]. unfold initialBackoff, maxBackoff, Second, Millisecond in *. lia.
Qed.

(** The operator reads back the token of the file. *)
Lemma token_received p c token : TrimSpace token <> "" -> ReadFile p (TokenFile (opts c)) = Ok token -> sMetadata (stream p c).1 <> [] ->
  OpAuth.bearer_token (sMetadata (stream p c).1) = TrimSpace token.
Proof.
  intros Hne Ht Hmd. destruct (stream_spec p c) as [_ _ _ _ H]. destruct (sMetadata (stream p c).1) as [|v l]; [done|].
  destruct (H v ltac:(by left)) as (token' & E & ->). rewrite Ht in E. injection E as <-.
  cbn [OpAuth.bearer_token]. unfold CutPrefix. rewrite HasPrefix_app, drop_string_app. cbn [andb].
  by destruct (String.eqb_spec (TrimSpace token) "").
Qed.

End IdentityClient.
