(* ===== verification/OpLeader.v ===== *)
(** * OpLeader: the leader's endpoint (hyper-operator/internal/identity/publisher.go,
    hyper-operator/internal/leader/election.go, runnable.go)

    The leader writes its address into the EndpointSlice of the identity Service;
    a stopping leader marks it not ready. Replicas, other clients and the API
    server interleave: a run is a step relation with one step per API call, the
    API server keeping an object's resourceVersion. *)

From S2P Require Import Prelude GoStrings GoTime Netip.

Local Open Scope string_scope.
Local Open Scope list_scope.

Module OpLeader.

(** ** election.go *)

Record ElectionConfig := mkElectionConfig {
  eEnabled : bool; LeaseName : string; LeaseNamespace : string; LeaseDuration : Z; RenewDeadline : Z; RetryPeriod : Z;
  ReleaseOnCancel : bool }.

Definition DefaultElectionConfig : ElectionConfig :=
  mkElectionConfig false "hyper-operator.hyper.io" "" (15 * Second) (10 * Second) (2 * Second) true.

Definition ValidateElection (c : ElectionConfig) : result () :=
  if negb (eEnabled c) then Ok tt
  else if String.eqb (LeaseName c) "" then Err "leader election: lease name must not be empty"
  else if (RetryPeriod c <=? 0)%Z || (RenewDeadline c <=? 0)%Z || (LeaseDuration c <=? 0)%Z
  then Err "leader election: durations must be positive"
  else if (RenewDeadline c <=? RetryPeriod c)%Z then Err "leader election: retry period must be less than renew deadline"
  else if (LeaseDuration c <=? RenewDeadline c)%Z then Err "leader election: renew deadline must be less than lease duration"
  else Ok tt.

(** The manager options [Apply] sets; a nil pointer is [None]. *)
Record ManagerOptions := mkManagerOptions {
  LeaderElection : bool; LeaderElectionID : string; LeaderElectionNamespace : string; ResourceLock : string;
  moLeaseDuration : option Z; moRenewDeadline : option Z; moRetryPeriod : option Z; moReleaseOnCancel : bool }.
#[export] Instance ManagerOptions_eta : Eta ManagerOptions := fun x =>
  mkManagerOptions (LeaderElection x) (LeaderElectionID x) (LeaderElectionNamespace x) (ResourceLock x)
    (moLeaseDuration x) (moRenewDeadline x) (moRetryPeriod x) (moReleaseOnCancel x).

Definition ApplyElection (c : ElectionConfig) (o : ManagerOptions) : ManagerOptions :=
  let o := o <| LeaderElection := eEnabled c |> in
  if negb (eEnabled c) then o
  else o <| LeaderElectionID := LeaseName c |> <| LeaderElectionNamespace := LeaseNamespace c |> <| ResourceLock := "leases" |>
         <| moLeaseDuration := Some (LeaseDuration c) |> <| moRenewDeadline := Some (RenewDeadline c) |>
         <| moRetryPeriod := Some (RetryPeriod c) |> <| moReleaseOnCancel := ReleaseOnCancel c |>.

(** ** publisher.go: the slice *)

Definition EndpointSliceManagedBy : string := "hyper-operator.hyper.io".
Definition LabelServiceName : string := "kubernetes.io/service-name".
Definition LabelManagedBy : string := "endpointslice.kubernetes.io/managed-by".

Inductive AddressType : Type := AddressTypeIPv4 | AddressTypeIPv6 | AddressTypeFQDN.
#[export] Instance AddressType_eq_dec : EqDecision AddressType.
Proof. solve_decision. Defined.

Record Endpoint := mkEndpoint {
  Addresses : list string; Ready : option bool; Serving : option bool; Terminating : option bool;
  TargetRef : option (string * string * string) }.
#[export] Instance Endpoint_eq_dec : EqDecision Endpoint.
Proof. solve_decision. Defined.

Record EndpointPort := mkEndpointPort { epName : option string; epPort : option Z; epProtocol : option string }.
#[export] Instance EndpointPort_eq_dec : EqDecision EndpointPort.
Proof. solve_decision. Defined.

Record EndpointSlice := mkEndpointSlice {
  Labels : gmap string string; slType : AddressType; Endpoints : list Endpoint; Ports : list EndpointPort }.
#[export] Instance EndpointSlice_eta : Eta EndpointSlice := fun x =>
  mkEndpointSlice (Labels x) (slType x) (Endpoints x) (Ports x).

Record EndpointPublisher := mkPublisher {
  Namespace : string; ServiceName : string; PodName : string; PodIP : string; Port : Z; Interval : Z }.

Definition desired (p : EndpointPublisher) (ready : bool) : EndpointSlice :=
  let addrType := match NetipParseAddr (PodIP p) with
                  | Some a => if Is6 a && negb (Is4In6 a) then AddressTypeIPv6 else AddressTypeIPv4
                  | None => AddressTypeIPv4
                  end in
  mkEndpointSlice (<[LabelServiceName := ServiceName p]> {[LabelManagedBy := EndpointSliceManagedBy]}) addrType
    [mkEndpoint [PodIP p] (Some ready) (Some ready) (Some (negb ready)) (Some ("Pod", Namespace p, PodName p))]
    [mkEndpointPort (Some "grpc") (Some (Port p)) (Some "TCP")].

(** [publish] after its Get. *)
Definition up_to_date (got want : EndpointSlice) : bool :=
  bool_decide (Endpoints got = Endpoints want) && bool_decide (Ports got = Ports want) &&
  bool_decide (Labels got !! LabelManagedBy = Some EndpointSliceManagedBy) && bool_decide (slType got = slType want).

Definition overwrite (got want : EndpointSlice) : EndpointSlice :=
  got <| Labels := Labels want |> <| Endpoints := Endpoints want |> <| Ports := Ports want |>.

(** [markNotReady] after its Get: whether the slice still lists this pod only. *)
Definition lists_only (s : EndpointSlice) (ip : string) : bool :=
  match Endpoints s with
  | [e] => match Addresses e with [a] => String.eqb a ip | _ => false end
  | _ => false
  end.

Definition not_ready (p : EndpointPublisher) (got : EndpointSlice) : EndpointSlice := got <| Endpoints := Endpoints (desired p false) |>.

(** What a replica does after its Get, with the object it has read and its
    resourceVersion. *)
Inductive Task : Type := Publish | MarkNotReady.
Inductive Pc : Type :=
| Idle
| Creating
| Deleting
| Updating (t : Task) (got new : EndpointSlice) (rv : nat).

Definition after_get (p : EndpointPublisher) (t : Task) (got : option (EndpointSlice * nat)) : Pc :=
  match t, got with
  | Publish, None => Creating
  | Publish, Some (s, rv) =>
      if up_to_date s (desired p true) then Idle
      else if negb (bool_decide (slType s = slType (desired p true))) then Deleting
      else Updating Publish s (overwrite s (desired p true)) rv
  | MarkNotReady, None => Idle
  | MarkNotReady, Some (s, rv) => if lists_only s (PodIP p) then Updating MarkNotReady s (not_ready p s) rv else Idle
  end.

(** ** The cluster *)

(** The slice in the API server, the next resourceVersion, and where each replica
    is. *)
Record Cluster := mkCluster { slice : option (EndpointSlice * nat); nextRV : nat; pcs : nat -> Pc }.

Definition set_pc (pcs : nat -> Pc) (i : nat) (pc : Pc) : nat -> Pc := fun n => if Nat.eqb n i then pc else pcs n.

(** What a step is: a replica's publication reporting success, a write by a stopping
    replica, or anything else. *)
Inductive Label : Type :=
| Other
| Published (i : nat)
| Stopped (i : nat).

Section Run.
(** The replicas' publishers. *)
Variable replica : nat -> EndpointPublisher.

(** A call may also fail, with or without effect on the API server: [step_fail] is
    the failure without, and a write whose answer is lost is the write followed by
    [step_fail] of an idle replica, which only retries. *)
Inductive cluster_step : Cluster -> Label -> Cluster -> Prop :=
| step_get c i t : pcs c i = Idle ->
    cluster_step c (match t, slice c with
                    | Publish, Some (s, _) => if up_to_date s (desired (replica i) true) then Published i else Other
                    | _, _ => Other
                    end)
      (mkCluster (slice c) (nextRV c) (set_pc (pcs c) i (after_get (replica i) t (slice c))))
| step_create c i : pcs c i = Creating -> slice c = None ->
    cluster_step c (Published i) (mkCluster (Some (desired (replica i) true, nextRV c)) (S (nextRV c)) (set_pc (pcs c) i Idle))
| step_delete c i : pcs c i = Deleting ->
    cluster_step c Other (mkCluster None (nextRV c) (set_pc (pcs c) i Creating))
| step_update c i t got new rv s : pcs c i = Updating t got new rv -> slice c = Some (s, rv) ->
    cluster_step c (match t with Publish => Published i | MarkNotReady => Stopped i end)
      (mkCluster (Some (new, nextRV c)) (S (nextRV c)) (set_pc (pcs c) i Idle))
| step_fail c i : cluster_step c Other (mkCluster (slice c) (nextRV c) (set_pc (pcs c) i Idle))
| step_foreign c s : cluster_step c Other (mkCluster (Some (s, nextRV c)) (S (nextRV c)) (pcs c))
| step_foreign_delete c : cluster_step c Other (mkCluster None (nextRV c) (pcs c)).

Inductive reachable : Cluster -> Prop :=
| reach_init : reachable (mkCluster None 0 (fun _ => Idle))
| reach_step c l c' : reachable c -> cluster_step c l c' -> reachable c'.

(** A resourceVersion names one content of the slice. *)
Record cluster_inv (c : Cluster) : Prop := {
  inv_slice : forall s rv, slice c = Some (s, rv) -> rv < nextRV c;
  inv_pcs : forall i t got new rv, pcs c i = Updating t got new rv -> rv < nextRV c /\
    (forall s, slice c = Some (s, rv) -> s = got) /\
    match t with
    | Publish => new = overwrite got (desired (replica i) true) /\ slType got = slType (desired (replica i) true)
    | MarkNotReady => new = not_ready (replica i) got /\ lists_only got (PodIP (replica i)) = true
    end
}.

End Run.

(** ** Start *)

(** The attempts of the first loop: whether each succeeds, and whether the context
    ends during the wait that follows. [None]: more attempts than [fuel]; the waits
    are those before each retry. *)
Fixpoint publish_loop (fuel : nat) (attempt cancelled : nat -> bool) (n : nat) (backoff : Z) : option (bool * list Z) :=
  match fuel with
  | O => None
  | S fuel =>
      if attempt n then Some (true, [])
      else if cancelled n then Some (false, [backoff])
      else match publish_loop fuel attempt cancelled (S n) (Z.min (backoff * 2) (30 * Second)) with
           | Some (r, waits) => Some (r, backoff :: waits)
           | None => None
           end
  end.

(** [Start] up to its ticker: an address that does not parse is an error at once. *)
Definition Start (fuel : nat) (p : EndpointPublisher) (attempt cancelled : nat -> bool) : result (option (bool * list Z)) :=
  match NetipParseAddr (PodIP p) with
  | None => Err "identity endpoint publisher: invalid pod IP"
  | Some _ => Ok (publish_loop fuel attempt cancelled 0 Second)
  end.

(** The period of the second loop. *)
Definition interval (p : EndpointPublisher) : Z := if (Interval p <=? 0)%Z then (30 * Second)%Z else Interval p.

(** ** Lemmas *)

Lemma ValidateElection_ok c : ValidateElection c = Ok tt -> eEnabled c = true ->
  LeaseName c <> "" /\ (0 < RetryPeriod c < RenewDeadline c)%Z /\ (RenewDeadline c < LeaseDuration c)%Z.
Proof.
  unfold ValidateElection. intros H E. rewrite E in H. cbn [negb] in H.
  destruct (String.eqb_spec (LeaseName c) ""); [done|]. destruct (_ || _) eqn:E1; [done|].
  destruct (Z.leb_spec (RenewDeadline c) (RetryPeriod c)); [done|].
  destruct (Z.leb_spec (LeaseDuration c) (RenewDeadline c)); [done|]. bool_hyps. split; [done|]. lia.
Qed.

Lemma set_pc_cases pcs i pc j : set_pc pcs i pc j = pc /\ j = i \/ set_pc pcs i pc j = pcs j /\ j <> i.
Proof. unfold set_pc. destruct (Nat.eqb_spec j i); auto. Qed.

Section RunLemmas.
Variable replica : nat -> EndpointPublisher.

(** A step that writes nothing new, and gives its replica a good update to do. *)
Lemma cluster_inv_keep c i pc sl : cluster_inv replica c -> sl = slice c \/ sl = None ->
  (forall t got new rv, pc = Updating t got new rv -> slice c = Some (got, rv) /\
    match t with
    | Publish => new = overwrite got (desired (replica i) true) /\ slType got = slType (desired (replica i) true)
    | MarkNotReady => new = not_ready (replica i) got /\ lists_only got (PodIP (replica i)) = true
    end) -> cluster_inv replica (mkCluster sl (nextRV c) (set_pc (pcs c) i pc)).
Proof.
  intros [H1 H2] Hsl Hpc. split; cbn [slice nextRV pcs].
  - intros s rv ->. destruct Hsl as [E|E]; [|done]. by apply (H1 s).
  - intros j t got new rv Hj. destruct (set_pc_cases (pcs c) i pc j) as [[E ->]|[E Hne]]; rewrite E in Hj.
    + destruct (Hpc _ _ _ _ Hj) as [Hs Ht]. split; [by apply (H1 got)|]. split; [|done].
      intros s ->. destruct Hsl as [E'|E']; congruence.
    + destruct (H2 _ _ _ _ _ Hj) as (Hlt & Hs & Ht). split; [done|]. split; [|done].
      intros s ->. destruct Hsl as [E'|E']; [by apply Hs|done].
Qed.

(** A write under a new resourceVersion. *)
Lemma cluster_inv_write c i s : cluster_inv replica c ->
  cluster_inv replica (mkCluster (Some (s, nextRV c)) (S (nextRV c)) (set_pc (pcs c) i Idle)).
Proof.
  intros [H1 H2]. split; cbn [slice nextRV pcs]; [intros s1 rv [= _ E1]; lia|].
  intros j t got new rv Hj. destruct (set_pc_cases (pcs c) i Idle j) as [[E _]|[E _]]; rewrite E in Hj; [done|].
  destruct (H2 _ _ _ _ _ Hj) as (Hlt & _ & Ht). split; [lia|]. split; [|done]. intros s1 [= _ E1]. lia.
Qed.

Lemma set_pc_same pcs i : forall j, set_pc pcs i (pcs i) j = pcs j.
Proof. intros j. destruct (set_pc_cases pcs i (pcs i) j) as [[-> ->]|[-> _]]; done. Qed.

Lemma cluster_inv_step c l c' : cluster_inv replica c -> cluster_step replica c l c' -> cluster_inv replica c'.
Proof.
  intros Hi Hs. destruct Hs as [c i t Hp|c i Hp Hn|c i Hp|c i t got new rv s Hp Hs|c i|c s|c].
  - apply cluster_inv_keep; [done|by left|]. intros t' got new rv. unfold after_get.
    destruct t, (slice c) as [[s rv']|]; try done; repeat case_match; try done; intros [=]; subst; split; auto; split; auto.
    bool_hyps. done.
  - by apply cluster_inv_write.
  - apply cluster_inv_keep; [done|by right|done].
  - by apply cluster_inv_write.
  - apply cluster_inv_keep; [done|by left|done].
  - destruct Hi as [H1 H2]. split; cbn [slice nextRV pcs]; [intros s1 rv [= _ E1]; lia|].
    intros j t got new rv Hj. destruct (H2 _ _ _ _ _ Hj) as (Hlt & _ & Ht). split; [lia|]. split; [|done]. intros s1 [= _ E1]. lia.
  - destruct Hi as [H1 H2]. split; cbn [slice nextRV pcs]; [done|].
    intros j t got new rv Hj. by destruct (H2 _ _ _ _ _ Hj) as (Hlt & _ & Ht).
Qed.

Lemma cluster_reachable_inv c : reachable replica c -> cluster_inv replica c.
Proof. induction 1 as [|c l c' _ IH Hs]; [by split|]. by eapply cluster_inv_step. Qed.

End RunLemmas.

(** The wait before retry [k]: doubled from a second up to thirty. *)
Definition backoff (k : nat) : Z := Z.min (2 ^ Z.of_nat k * Second) (30 * Second).

Lemma backoff_next k : Z.min (backoff k * 2) (30 * Second) = backoff (S k).
Proof. unfold backoff, Second. rewrite Nat2Z.inj_succ, Z.pow_succ_r by lia. lia. Qed.

Lemma publish_loop_from attempt cancelled d n : attempt (n + d) || cancelled (n + d) = true ->
  exists k, (n <= k <= n + d)%nat /\
    publish_loop (S d) attempt cancelled n (backoff n) = Some (attempt k, backoff <$> seq n (if attempt k then k - n else S (k - n))) /\
    attempt k || cancelled k = true /\ (forall j, (n <= j < k)%nat -> attempt j = false /\ cancelled j = false).
Proof.
  revert n. induction d as [|d IH]; intros n H.
  - rewrite Nat.add_0_r in H. exists n. split; [lia|]. cbn [publish_loop]. rewrite Nat.sub_diag.
    split; [|split; [done|lia]]. destruct (attempt n); [done|]. cbn in H. by rewrite H.
  - cbn [publish_loop]. destruct (attempt n) eqn:Ea; [|destruct (cancelled n) eqn:Ec].
    + exists n. rewrite Ea, Nat.sub_diag. split; [lia|]. split; [done|]. split; [done|lia].
    + exists n. rewrite Ea, Ec, Nat.sub_diag. split; [lia|]. split; [done|]. split; [done|lia].
    + destruct (IH (S n)) as (k & Hk & E & Hend & Hbefore); [by replace (S n + d) with (n + S d) by lia|].
      exists k. split; [lia|]. rewrite backoff_next. cbn [publish_loop] in E. rewrite E. split.
      * f_equal. f_equal. destruct (attempt k); [replace (k - n) with (S (k - S n)) by lia|replace (S (k - n)) with (S (S (k - S n))) by lia]; done.
      * split; [done|]. intros j Hj. destruct (decide (j = n)) as [->|]; [done|]. apply Hbefore. lia.
Qed.

(** The retries of [Start] end, with the first attempt that succeeds or the first
    wait in which the context ends, whichever comes first; the waits are the
    back-off sequence. *)
Lemma publish_loop_ends attempt cancelled n : attempt n || cancelled n = true ->
  exists k, (k <= n)%nat /\ attempt k || cancelled k = true /\
    publish_loop (S n) attempt cancelled 0 Second = Some (attempt k, backoff <$> seq 0 (if attempt k then k else S k)) /\
    (forall j, (j < k)%nat -> attempt j = false /\ cancelled j = false).
Proof.
  intros H. destruct (publish_loop_from attempt cancelled n 0 H) as (k & Hk & E & Hend & Hb). rewrite Nat.sub_0_r in E.
  exists k. split; [lia|]. split; [done|]. split; [exact E|]. intros j Hj. apply Hb. lia.
Qed.

Lemma backoff_range k : (0 < backoff k <= 30 * Second)%Z.
Proof. unfold backoff, Second. pose proof (Z.pow_pos_nonneg 2 (Z.of_nat k)). lia. Qed.

(** ** Properties *)

(** C24: engines are sent to one leader. However the publications of any number of
    replicas, their shut-downs, failures and other writers of the slice interleave:
    a publication that reports success leaves the slice pointing at its replica,
    ready, and managed by the operator; and a stopping replica writes the slice
    only while it still lists that replica alone, changing nothing but its
    conditions, so it never overwrites a slice that another leader has written. *)
Theorem leader_endpoint_handover (replica : nat -> EndpointPublisher) (c c' : Cluster) (l : Label) :
  reachable replica c -> cluster_step replica c l c' ->
  match l with
  | Other => True
  | Published i => exists s rv, slice c' = Some (s, rv) /\ Endpoints s = Endpoints (desired (replica i) true) /\
      Ports s = Ports (desired (replica i) true) /\ slType s = slType (desired (replica i) true) /\
      Labels s !! LabelManagedBy = Some EndpointSliceManagedBy
  | Stopped i => exists s rv rv', slice c = Some (s, rv) /\ lists_only s (PodIP (replica i)) = true /\
      slice c' = Some (s <| Endpoints := Endpoints (desired (replica i) false) |>, rv')
  end.
Proof.
  intros Hr Hs. pose proof (cluster_reachable_inv _ _ Hr) as [_ H2].
  assert (forall q, Labels (desired q true) !! LabelManagedBy = Some EndpointSliceManagedBy) as Hl by (intros q; by vm_compute).
  destruct Hs as [c i t Hp|c i Hp Hn|c i Hp|c i t got new rv s Hp Hs|c i|c s|c]; try done.
  - destruct t; [|done]. destruct (slice c) as [[s rv]|] eqn:E; [|done]. destruct (up_to_date s _) eqn:Eu; [|done].
    unfold up_to_date in Eu. bool_hyps. by exists s, rv.
  - eexists _, _. by split.
  - destruct (H2 _ _ _ _ _ Hp) as (_ & Hsame & Ht). rewrite (Hsame s Hs) in Hs. destruct t, Ht as [-> Ht].
    + eexists _, _. split; [done|]. done.
    + eexists _, _, _. split; [exact Hs|]. done.
Qed.

(** ** Examples *)

(** Replica 0 leads and stops; replica 1 takes over in between. *)
Definition example_replica (i : nat) : EndpointPublisher :=
  mkPublisher "hyper-system" "identity" (if Nat.eqb i 0 then "op-0" else "op-1") (if Nat.eqb i 0 then "10.0.0.1" else "10.0.0.2") 9444 0.
Definition example_old : Cluster :=
  mkCluster (Some (desired (example_replica 0) true, 0)) 1 (set_pc (set_pc (fun _ => Idle) 0 Creating) 0 Idle).

Lemma example_old_reachable : reachable example_replica example_old.
Proof.
  eapply reach_step; [|exact (step_create example_replica (mkCluster None 0 (set_pc (fun _ => Idle) 0 Creating)) 0 eq_refl eq_refl)].
  eapply reach_step; [apply reach_init|]. exact (step_get example_replica (mkCluster None 0 (fun _ => Idle)) 0 Publish eq_refl).
Qed.

(** The slice replica 0 wrote is found up to date by it. *)
Lemma leader_endpoint_handover_witness :
  exists c' s rv, cluster_step example_replica example_old (Published 0) c' /\ slice c' = Some (s, rv) /\
    Endpoints s = Endpoints (desired (example_replica 0) true).
Proof.
  pose proof (step_get example_replica example_old 0 Publish eq_refl) as Hs.
  assert (up_to_date (desired (example_replica 0) true) (desired (example_replica 0) true) = true) as Eu by (vm_compute; reflexivity).
  cbn [slice example_old] in Hs. rewrite Eu in Hs.
  destruct (leader_endpoint_handover example_replica example_old _ (Published 0) example_old_reachable Hs) as (s & rv & H1 & H2 & _).
  eexists _, s, rv. split; [exact Hs|]. split; [exact H1|exact H2].
Defined.

End OpLeader.
